(** * MCMC sampling core: Metropolis-Hastings, Hamiltonian Monte Carlo, NUTS

    A shallow embedding of
      - 03-bayesian-methods/mcmc/code/python/metropolis_hastings.py
      - 03-bayesian-methods/mcmc/code/python/hamiltonian_mc.py
      - code/mcmc/nuts_sampler.py
    and of the two diagnostics ([effective_sample_size], [gelman_rubin]) of
      - 03-bayesian-methods/mcmc/code/tests/test_mcmc.py

    Numbers.  A NumPy [float64] is modelled by [npfloat]: a real number, or
    one of the three IEEE special values.  Arithmetic on finite values is
    exact (no rounding, no overflow, no signed zero); arithmetic that
    involves a special value follows IEEE 754, which is what NumPy and
    Python do.  Python integers are [Z] (or [nat] for sizes and counts).
    Where float64 leaves the finite range and the model does not:
      - [np.exp] overflows to [inf] above 709.78 and underflows to 0.0
        below -745.13; [fexp] of a finite value is finite and positive.
        Theorems on NUTS carry [below_overflow], which keeps the bound
        [exp(-H)] of the slice variable finite in float64 as well;
      - repeated doubling reaches [inf] after 1024 steps and repeated
        halving 0.0 after 1075; a product of finite values is finite here.
        The search for the initial step size of NUTS is stated for
        searches that end before that, and the loop of [NUTS.sample] for
        every initial step size, [inf] and NaN included;
      - the one zero of the model is +0.0: NumPy takes the scale -0.0 of
        [np.random.normal] for a negative one.

    Arrays.  A one-dimensional [ndarray] is a list of [npfloat]; a
    two-dimensional one is a list of rows.  Element-wise operations pair the
    elements of their operands and stop at the shorter one; NumPy
    broadcasts an operand of one element and raises on any other mismatch
    of shapes.  Theorems that depend on shapes state the shapes they need
    ([well_shaped]); nothing is claimed about what an operation on
    operands of different lengths returns.

    Randomness.  The process-wide generator [np.random] is an explicit
    state threaded through every draw ([RandomState]); the checks NumPy
    makes on the arguments of a draw are part of the model.

    Exceptions and loops.  A Python exception is a [Raise] in [result];
    [while] loops and the recursion of [build_tree] on a Python integer
    take fuel and end in [OutOfFuel] when it runs out. *)

From Stdlib Require Import Reals Lra Lia ZArith Bool.
From stdpp Require Import base list.

Open Scope R_scope.

(** ** float64 *)

Inductive npfloat : Type :=
| Finite (x : R)
| PInf
| NInf
| NaN.

Definition Rltb (x y : R) : bool := if Rlt_dec x y then true else false.
Definition Rleb (x y : R) : bool := if Rle_dec x y then true else false.

Definition is_finite (a : npfloat) : Prop :=
  match a with Finite _ => True | _ => False end.

(** [np.isfinite] *)
Definition isfinite (a : npfloat) : bool :=
  match a with Finite _ => true | _ => false end.

Definition fneg (a : npfloat) : npfloat :=
  match a with
  | Finite x => Finite (- x)
  | PInf => NInf
  | NInf => PInf
  | NaN => NaN
  end.

Definition fadd (a b : npfloat) : npfloat :=
  match a, b with
  | NaN, _ => NaN
  | _, NaN => NaN
  | Finite x, Finite y => Finite (x + y)
  | PInf, NInf => NaN
  | NInf, PInf => NaN
  | PInf, _ => PInf
  | NInf, _ => NInf
  | Finite _, PInf => PInf
  | Finite _, NInf => NInf
  end.

(** IEEE: [a - b] is [a + (-b)]. *)
Definition fsub (a b : npfloat) : npfloat := fadd a (fneg b).

(** The product of an infinity and a finite [x]: its sign follows [x],
    and [inf * 0] is NaN. *)
Definition inf_times (pos : bool) (x : R) : npfloat :=
  if Rltb 0 x then (if pos then PInf else NInf)
  else if Rltb x 0 then (if pos then NInf else PInf)
  else NaN.

Definition fmul (a b : npfloat) : npfloat :=
  match a, b with
  | NaN, _ => NaN
  | _, NaN => NaN
  | Finite x, Finite y => Finite (x * y)
  | PInf, PInf => PInf
  | NInf, NInf => PInf
  | PInf, NInf => NInf
  | NInf, PInf => NInf
  | PInf, Finite y => inf_times true y
  | NInf, Finite y => inf_times false y
  | Finite x, PInf => inf_times true x
  | Finite x, NInf => inf_times false x
  end.

(** NumPy division; [x / 0] is an infinity of the sign of [x], [0 / 0] is
    NaN.  (Python's own [int / int] raises on a zero divisor instead: every
    such division of the samplers has a divisor that is at least 1.) *)
Definition fdiv (a b : npfloat) : npfloat :=
  match a, b with
  | NaN, _ => NaN
  | _, NaN => NaN
  | Finite x, Finite y =>
      if Rltb 0 y then Finite (x / y)
      else if Rltb y 0 then Finite (x / y)
      else inf_times true x
  | Finite _, _ => Finite 0
  | PInf, Finite y => if Rltb y 0 then NInf else PInf
  | NInf, Finite y => if Rltb y 0 then PInf else NInf
  | _, _ => NaN
  end.

(** [a < b], [a > b], [a >= b]: false as soon as an operand is NaN. *)
Definition flt (a b : npfloat) : bool :=
  match a, b with
  | NaN, _ => false
  | _, NaN => false
  | Finite x, Finite y => Rltb x y
  | NInf, NInf => false
  | NInf, _ => true
  | _, NInf => false
  | PInf, _ => false
  | Finite _, PInf => true
  end.

Definition fgt (a b : npfloat) : bool := flt b a.

Definition fge (a b : npfloat) : bool :=
  match a, b with
  | NaN, _ => false
  | _, NaN => false
  | Finite x, Finite y => Rleb y x
  | PInf, _ => true
  | _, NInf => true
  | _, _ => false
  end.

(** [np.exp], [np.log], [np.sqrt].  On a finite argument [fexp] is the
    real exponential: it neither overflows (float64: above 709.78) nor
    underflows to zero (float64: below -745.13). *)
Definition fexp (a : npfloat) : npfloat :=
  match a with
  | Finite x => Finite (exp x)
  | PInf => PInf
  | NInf => Finite 0
  | NaN => NaN
  end.

Definition flog (a : npfloat) : npfloat :=
  match a with
  | Finite x =>
      if Rltb 0 x then Finite (ln x)
      else if Rltb x 0 then NaN
      else NInf
  | PInf => PInf
  | NInf => NaN
  | NaN => NaN
  end.

Definition fsqrt (a : npfloat) : npfloat :=
  match a with
  | Finite x => if Rltb x 0 then NaN else Finite (sqrt x)
  | PInf => PInf
  | NInf => NaN
  | NaN => NaN
  end.

(** [b ** e] for a positive finite base [b] and a finite exponent, the only
    powers the samplers take ([2.0 ** a] and [m ** (-kappa)] with [m >= 1]);
    anything else is left as NaN. *)
Definition fpow (b e : npfloat) : npfloat :=
  match b, e with
  | Finite x, Finite y => if Rltb 0 x then Finite (Rpower x y) else NaN
  | _, _ => NaN
  end.

(** Python's built-in [min(a, b)]: the first argument, unless the second
    compares strictly below it. *)
Definition pymin (a b : npfloat) : npfloat := if flt b a then b else a.

(** Python's [max(a, b)] and [int(bool)] on integers. *)
Definition pymax_int (a b : Z) : Z := if (a <? b)%Z then b else a.
Definition int_of_bool (b : bool) : Z := if b then 1%Z else 0%Z.

(** An [int] used where a float is expected. *)
Definition of_int (n : Z) : npfloat := Finite (IZR n).

(** Python's true division [a / b] of two integers. *)
Definition truediv (a b : Z) : npfloat := fdiv (of_int a) (of_int b).

(** [abs(a)] on a float, and Python's built-in [max(a, b)]: the first
    argument, unless the second compares strictly above it. *)
Definition fabs (a : npfloat) : npfloat :=
  match a with
  | Finite x => Finite (Rabs x)
  | PInf => PInf
  | NInf => PInf
  | NaN => NaN
  end.

Definition pymax (a b : npfloat) : npfloat := if fgt b a then b else a.

(** ** One-dimensional arrays *)

Abbreviation vec := (list npfloat).
Abbreviation matrix := (list (list npfloat)).

Definition vadd (a b : vec) : vec := zip_with fadd a b.
Definition vsub (a b : vec) : vec := zip_with fsub a b.
Definition vscale (c : npfloat) (a : vec) : vec := map (fmul c) a.
Definition vneg (a : vec) : vec := map fneg a.
Definition vsum (a : vec) : npfloat := fold_left fadd a (Finite 0).
Definition vsquare (a : vec) : vec := map (fun x => fmul x x) a.
Definition dot (a b : vec) : npfloat := vsum (zip_with fmul a b).

(** [np.zeros((rows, dim))]. *)
Definition zeros (rows dim : nat) : matrix := replicate rows (replicate dim (Finite 0)).

(** [np.linspace(start, stop, num)] and [np.logspace(start, stop, num)],
    which is [10 ** np.linspace(start, stop, num)]. *)
Definition linspace (start stop : R) (num : nat) : list R :=
  map (fun k => start + INR k * ((stop - start) / INR (num - 1))) (seq 0 num).

Definition logspace (start stop : R) (num : nat) : vec :=
  map (fun y => Finite (Rpower 10 y)) (linspace start stop num).

(** ** The random generator

    [np.random] as the samplers use it.  Each draw takes the generator
    state and returns the value with the next state.  The laws are NumPy's
    documented contracts: a draw of a requested size has that size, a
    standard normal draw is finite, and [uniform()] and [rand()] fall in
    the half-open interval [0, 1).  The checks NumPy makes on the
    arguments of [normal] and [uniform] before it draws are [np_normal] and
    [np_uniform] below. *)

Class RandomState : Type := {
  rng : Type;
  normal : npfloat -> npfloat -> nat -> rng -> vec * rng;
  randn : nat -> rng -> vec * rng;
  uniform : npfloat -> npfloat -> rng -> npfloat * rng;
  rand : rng -> npfloat * rng;
  normal_size : forall loc scale n g, length (normal loc scale n g).1 = n;
  randn_size : forall n g, length (randn n g).1 = n;
  randn_finite : forall n g, Forall is_finite (randn n g).1;
  uniform_unit : forall g,
    exists r, (uniform (Finite 0) (Finite 1) g).1 = Finite r /\ 0 <= r < 1;
  rand_unit : forall g, exists r, (rand g).1 = Finite r /\ 0 <= r < 1
}.

(** ** Exceptions, fuel, and the monad of the sampling loops *)

Inductive exn : Type :=
| IndexError
| ValueError
| OverflowError
| UnboundLocalError.

Inductive result (A : Type) : Type :=
| Ok (a : A)
| Raise (e : exn)
| OutOfFuel.

Arguments Ok {A} a.
Arguments Raise {A} e.
Arguments OutOfFuel {A}.

Definition M `{RandomState} (A : Type) : Type := rng -> result (A * rng).

Definition ret `{RandomState} {A} (a : A) : M A := fun g => Ok (a, g).

Definition bind `{RandomState} {A B} (c : M A) (k : A -> M B) : M B :=
  fun g =>
    match c g with
    | Ok (a, g') => k a g'
    | Raise e => Raise e
    | OutOfFuel => OutOfFuel
    end.

Definition draw `{RandomState} {A} (d : rng -> A * rng) : M A :=
  fun g => Ok (d g).

Definition raise `{RandomState} {A} (e : exn) : M A := fun _ => Raise e.

Definition out_of_fuel `{RandomState} {A} : M A := fun _ => OutOfFuel.

Definition lift `{RandomState} {A} (r : result A) : M A :=
  fun g =>
    match r with
    | Ok a => Ok (a, g)
    | Raise e => Raise e
    | OutOfFuel => OutOfFuel
    end.

(** [np.random.normal(loc, scale, size)]: a negative [scale] is a
    ValueError (NumPy tests the sign bit, so -0.0 counts as negative; the
    model has no -0.0).  [np.random.uniform(low, high)]: a range
    [high - low] that is not finite is an OverflowError. *)
Definition np_normal `{RandomState} (loc scale : npfloat) (size : nat) : M vec :=
  if flt scale (Finite 0) then raise ValueError else draw (normal loc scale size).

Definition np_uniform `{RandomState} (low high : npfloat) : M npfloat :=
  if isfinite (fsub high low) then draw (uniform low high) else raise OverflowError.

Declare Scope sampler_scope.
Delimit Scope sampler_scope with sampler.
Notation "'let*' p ':=' c 'in' k" := (bind c (fun p => k))
  (at level 10, p pattern, c at level 100, k at level 200) : sampler_scope.
Open Scope sampler_scope.

(** [for i in l: s = body(i, s)]. *)
Fixpoint for_each `{RandomState} {S} (l : list nat) (body : nat -> S -> M S) (s : S) : M S :=
  match l with
  | [] => ret s
  | i :: l' => let* s' := body i s in for_each l' body s'
  end.

(** [range(a, b)]. *)
Definition range (a b : nat) : list nat := seq a (b - a).

(** [a[i]] and [a[i] = row] on the rows of a matrix. *)
Definition getitem (a : matrix) (i : nat) : result vec :=
  match a !! i with
  | Some row => Ok row
  | None => Raise IndexError
  end.

Definition setitem (a : matrix) (i : nat) (row : vec) : result matrix :=
  if decide (i < length a)%nat then Ok (<[i:=row]> a) else Raise IndexError.

(** [a[start::step]] for [start >= 0]; a zero [step] is a ValueError. *)
Fixpoint stride {A} (step skip : nat) (l : list A) : list A :=
  match l with
  | [] => []
  | x :: l' =>
      match skip with
      | O => x :: stride step (step - 1) l'
      | S k => stride step k l'
      end
  end.

Definition slice {A} (start step : nat) (l : list A) : result (list A) :=
  match step with
  | O => Raise ValueError
  | S _ => Ok (stride step 0 (drop start l))
  end.

(** ** Metropolis-Hastings *)

Module MetropolisHastings.

Record sampler : Type := {
  target_log_density : vec -> npfloat;
  proposal_std : npfloat;
  samples : option matrix;
  acceptance_rate : option npfloat
}.

Definition __init__ (target_log_density : vec -> npfloat) (proposal_std : npfloat)
  : result sampler :=
  Ok {| target_log_density := target_log_density;
        proposal_std := proposal_std;
        samples := None;
        acceptance_rate := None |}.

Section WithRandom.
Context `{RandomState}.

Definition propose (self : sampler) (current_state : vec) : M vec :=
  let* noise := np_normal (Finite 0) (proposal_std self) (length current_state) in
  ret (vadd current_state noise).

Definition acceptance_probability (self : sampler) (current_state proposed_state : vec)
  : npfloat :=
  let log_ratio := fsub (target_log_density self proposed_state)
                        (target_log_density self current_state) in
  pymin (Finite 1) (fexp log_ratio).

(** The accept/reject decision of one iteration: the next state and
    whether the proposal was accepted. *)
Definition decide_step (self : sampler) (current : vec) : M (vec * bool) :=
  let* proposed := propose self current in
  let alpha := acceptance_probability self current proposed in
  let* u := np_uniform (Finite 0) (Finite 1) in
  if flt u alpha then ret (proposed, true) else ret (current, false).

(** The body of [for i in range(1, total_iterations)]. *)
Definition loop_body (self : sampler) (i : nat) (st : matrix * Z) : M (matrix * Z) :=
  let '(all_samples, accepted) := st in
  let* current := lift (getitem all_samples (i - 1)) in
  let* (next, acc) := decide_step self current in
  let* all_samples' := lift (setitem all_samples i next) in
  ret (all_samples', if acc then (accepted + 1)%Z else accepted).

(** [sample] up to the end of the loop: the internal chain and the number
    of accepted proposals. *)
Definition run (self : sampler) (n_samples : nat) (initial_state : vec)
    (burn_in thin : nat) : M (matrix * Z) :=
  let dim := length initial_state in
  let total_iterations := (burn_in + n_samples * thin)%nat in
  let all_samples := zeros total_iterations dim in
  let* all_samples := lift (setitem all_samples 0 initial_state) in
  for_each (range 1 total_iterations) (loop_body self) (all_samples, 0%Z).

Definition sample (self : sampler) (n_samples : nat) (initial_state : vec)
    (burn_in thin : nat) : M (sampler * matrix) :=
  let total_iterations := (burn_in + n_samples * thin)%nat in
  let* (all_samples, accepted) := run self n_samples initial_state burn_in thin in
  let rate := truediv accepted (Z.of_nat total_iterations) in
  let* kept := lift (slice burn_in thin all_samples) in
  ret ({| target_log_density := target_log_density self;
          proposal_std := proposal_std self;
          samples := Some kept;
          acceptance_rate := Some rate |}, kept).

End WithRandom.
End MetropolisHastings.

(** ** Hamiltonian Monte Carlo *)

Module HamiltonianMC.

Record sampler : Type := {
  log_density : vec -> npfloat;
  grad_log_density : vec -> vec;
  epsilon : npfloat;
  L : Z;
  samples : option matrix;
  acceptance_rate : option npfloat
}.

Definition __init__ (log_density : vec -> npfloat) (grad_log_density : vec -> vec)
    (epsilon : npfloat) (L : Z) : result sampler :=
  Ok {| log_density := log_density;
        grad_log_density := grad_log_density;
        epsilon := epsilon;
        L := L;
        samples := None;
        acceptance_rate := None |}.

(** One pass of [for _ in range(self.L - 1)]: a full step for the
    position, then a full step for the momentum. *)
Definition full_step (self : sampler) (qp : vec * vec) : vec * vec :=
  let '(q, p) := qp in
  let q := vadd q (vscale (epsilon self) p) in
  let p := vadd p (vscale (epsilon self) (grad_log_density self q)) in
  (q, p).

Fixpoint full_steps (self : sampler) (n : nat) (qp : vec * vec) : vec * vec :=
  match n with
  | O => qp
  | S n' => full_steps self n' (full_step self qp)
  end.

Definition leapfrog (self : sampler) (q p : vec) : vec * vec :=
  let half := fmul (Finite (1 / 2)) (epsilon self) in
  let p := vadd p (vscale half (grad_log_density self q)) in
  let '(q, p) := full_steps self (Z.to_nat (L self - 1)) (q, p) in
  let q := vadd q (vscale (epsilon self) p) in
  let p := vadd p (vscale half (grad_log_density self q)) in
  let p := vneg p in
  (q, p).

Definition hamiltonian (self : sampler) (q p : vec) : npfloat :=
  let potential_energy := fneg (log_density self q) in
  let kinetic_energy := fmul (Finite (1 / 2)) (vsum (vsquare p)) in
  fadd potential_energy kinetic_energy.

(** The acceptance probability of a proposal: [accept_prob] of [sample]. *)
Definition accept_prob (H_current H_proposed : npfloat) : npfloat :=
  let log_accept_ratio := fadd (fneg H_proposed) H_current in
  pymin (Finite 1) (fexp log_accept_ratio).

(** [self.epsilon = eps]. *)
Definition set_epsilon (self : sampler) (eps : npfloat) : sampler :=
  {| log_density := log_density self;
     grad_log_density := grad_log_density self;
     epsilon := eps;
     L := L self;
     samples := samples self;
     acceptance_rate := acceptance_rate self |}.

(** [tune_parameters] reads [self.acceptance_rate] as a float; were it
    still [None], the subtraction [None - target_accept] would end the
    call in a TypeError. *)
Inductive tuning (A : Type) : Type :=
| Tuned (a : A)
| TypeError.

Arguments Tuned {A} a.
Arguments TypeError {A}.

(** The variables the loop of [tune_parameters] updates. *)
Record tuning_state : Type := {
  tn_self : sampler;
  best_epsilon : npfloat;
  best_diff : npfloat
}.

Section WithRandom.
Context `{RandomState}.

(** The accept/reject decision of one iteration. *)
Definition decide_step (self : sampler) (dim : nat) (q_current : vec) : M (vec * bool) :=
  let* p_current := draw (randn dim) in
  let H_current := hamiltonian self q_current p_current in
  let '(q_proposed, p_proposed) := leapfrog self q_current p_current in
  let H_proposed := hamiltonian self q_proposed p_proposed in
  let* u := np_uniform (Finite 0) (Finite 1) in
  if flt u (accept_prob H_current H_proposed)
  then ret (q_proposed, true)
  else ret (q_current, false).

Definition loop_body (self : sampler) (dim : nat) (i : nat) (st : matrix * Z)
  : M (matrix * Z) :=
  let '(all_samples, accepted) := st in
  let* q_current := lift (getitem all_samples (i - 1)) in
  let* (next, acc) := decide_step self dim q_current in
  let* all_samples' := lift (setitem all_samples i next) in
  ret (all_samples', if acc then (accepted + 1)%Z else accepted).

Definition run (self : sampler) (n_samples : nat) (initial_state : vec)
    (burn_in thin : nat) : M (matrix * Z) :=
  let dim := length initial_state in
  let total_iterations := (burn_in + n_samples * thin)%nat in
  let all_samples := zeros total_iterations dim in
  let* all_samples := lift (setitem all_samples 0 initial_state) in
  for_each (range 1 total_iterations) (loop_body self dim) (all_samples, 0%Z).

Definition sample (self : sampler) (n_samples : nat) (initial_state : vec)
    (burn_in thin : nat) : M (sampler * matrix) :=
  let total_iterations := (burn_in + n_samples * thin)%nat in
  let* (all_samples, accepted) := run self n_samples initial_state burn_in thin in
  let rate := truediv accepted (Z.of_nat total_iterations) in
  let* kept := lift (slice burn_in thin all_samples) in
  ret ({| log_density := log_density self;
          grad_log_density := grad_log_density self;
          epsilon := epsilon self;
          L := L self;
          samples := Some kept;
          acceptance_rate := Some rate |}, kept).

(** The body of [for eps in epsilon_candidates]. *)
Definition tune_body (initial_state : vec) (n_tuning : nat) (target_accept : npfloat)
    (eps : npfloat) (st : tuning_state) : M (tuning tuning_state) :=
  let self := set_epsilon (tn_self st) eps in
  let* (self, _) := sample self n_tuning initial_state 0 1 in
  match acceptance_rate self with
  | None => ret TypeError
  | Some rate =>
      let diff := fabs (fsub rate target_accept) in
      if flt diff (best_diff st)
      then ret (Tuned {| tn_self := self; best_epsilon := eps; best_diff := diff |})
      else ret (Tuned {| tn_self := self;
                         best_epsilon := best_epsilon st;
                         best_diff := best_diff st |})
  end.

Fixpoint tune_loop (epsilon_candidates : list npfloat) (initial_state : vec)
    (n_tuning : nat) (target_accept : npfloat) (st : tuning_state)
  : M (tuning tuning_state) :=
  match epsilon_candidates with
  | [] => ret (Tuned st)
  | eps :: rest =>
      let* r := tune_body initial_state n_tuning target_accept eps st in
      match r with
      | Tuned st' => tune_loop rest initial_state n_tuning target_accept st'
      | TypeError => ret TypeError
      end
  end.

(** [tune_parameters]: the sampler as the call leaves it, and the pair
    [(self.epsilon, self.L)] it returns.  (The three [print] calls have no
    effect on the sampler.) *)
Definition tune_parameters (self : sampler) (initial_state : vec) (n_tuning : nat)
    (target_accept : npfloat) : M (tuning (sampler * (npfloat * Z))) :=
  let epsilon_candidates := logspace (-2) 0 10 in
  let* r := tune_loop epsilon_candidates initial_state n_tuning target_accept
              {| tn_self := self; best_epsilon := epsilon self; best_diff := PInf |} in
  match r with
  | Tuned st =>
      let self := set_epsilon (tn_self st) (best_epsilon st) in
      ret (Tuned (self, (epsilon self, L self)))
  | TypeError => ret TypeError
  end.

End WithRandom.
End HamiltonianMC.

(** ** The No-U-Turn Sampler *)

Module NUTS.

Record sampler : Type := {
  log_density : vec -> npfloat;
  grad_log_density : vec -> vec;
  epsilon : npfloat;
  delta : npfloat;
  samples : option matrix;
  acceptance_rate : option npfloat;
  epsilon_history : list npfloat
}.

Definition __init__ (log_density : vec -> npfloat) (grad_log_density : vec -> vec)
    (epsilon delta : npfloat) : result sampler :=
  Ok {| log_density := log_density;
        grad_log_density := grad_log_density;
        epsilon := epsilon;
        delta := delta;
        samples := None;
        acceptance_rate := None;
        epsilon_history := [] |}.

(** A single leapfrog step. *)
Definition leapfrog (self : sampler) (q p : vec) (epsilon : npfloat) : vec * vec :=
  let half := fmul (Finite (1 / 2)) epsilon in
  let p := vadd p (vscale half (grad_log_density self q)) in
  let q := vadd q (vscale epsilon p) in
  let p := vadd p (vscale half (grad_log_density self q)) in
  (q, p).

Definition hamiltonian (self : sampler) (q p : vec) : npfloat :=
  fadd (fneg (log_density self q)) (fmul (Finite (1 / 2)) (vsum (vsquare p))).

(** The twelve values [build_tree] returns, in the order of its tuple. *)
Record tree : Type := {
  q_new : vec;
  p_new : vec;
  q_fwd : vec;
  p_fwd : vec;
  q_bwd : vec;
  p_bwd : vec;
  q_prime : vec;
  p_prime : vec;
  n_prime : Z;
  s_prime : Z;
  alpha_prime : npfloat;
  n_alpha_prime : Z
}.

(** The U-turn test of [build_tree] and of [sample]: the product of the
    subtree's flag with the two sign tests on the endpoints. *)
Definition no_u_turn (s_sub : Z) (q_fwd p_fwd q_bwd p_bwd : vec) : Z :=
  let delta := vsub q_fwd q_bwd in
  (s_sub * int_of_bool (fge (dot delta p_bwd) (Finite 0))
         * int_of_bool (fge (dot delta p_fwd) (Finite 0)))%Z.

Definition max_tree_depth : Z := 10.

(** The dual-averaging constants of [sample]. *)
Definition gamma : npfloat := Finite (5 / 100).
Definition t0 : Z := 10.
Definition kappa : npfloat := Finite (75 / 100).

Section WithRandom.
Context `{RandomState}.

(** [log_ratio] of [find_reasonable_epsilon] at step size [epsilon]. *)
Definition log_ratio_at (self : sampler) (q p : vec) (epsilon : npfloat) : npfloat :=
  let '(_, p_new) := leapfrog self q p epsilon in
  fadd (fneg (hamiltonian self q p_new)) (hamiltonian self q p).

(** The [while] loop of [find_reasonable_epsilon]. *)
Fixpoint epsilon_loop (fuel : nat) (self : sampler) (q p : vec) (a : npfloat)
    (epsilon log_ratio : npfloat) : M npfloat :=
  match fuel with
  | O => out_of_fuel
  | S fuel' =>
      if fgt (fmul a log_ratio) (fmul (fneg a) (flog (Finite 2)))
      then
        let epsilon := fmul epsilon (fpow (Finite 2) a) in
        let log_ratio := log_ratio_at self q p epsilon in
        epsilon_loop fuel' self q p a epsilon log_ratio
      else ret epsilon
  end.

Definition find_reasonable_epsilon (fuel : nat) (self : sampler) (q : vec) : M npfloat :=
  let epsilon := Finite 1 in
  let* p := draw (randn (length q)) in
  let log_ratio := log_ratio_at self q p epsilon in
  let a := if fgt log_ratio (flog (Finite (1 / 2))) then Finite 1 else Finite (-1) in
  epsilon_loop fuel self q p a epsilon log_ratio.

Fixpoint build_tree (fuel : nat) (self : sampler) (q p : vec) (u : npfloat) (v j : Z)
    (epsilon : npfloat) (q0 p0 : vec) : M tree :=
  match fuel with
  | O => out_of_fuel
  | S fuel' =>
      if (j =? 0)%Z then
        let '(q_new, p_new) := leapfrog self q p (fmul (of_int v) epsilon) in
        let H := hamiltonian self q_new p_new in
        let H0 := hamiltonian self q0 p0 in
        let n_prime := int_of_bool (flt u (fexp (fneg H))) in
        let s_prime := int_of_bool (flt u (fexp (fsub (of_int 1000) H))) in
        let alpha_prime := pymin (Finite 1) (fexp (fadd (fneg H) H0)) in
        let n_alpha_prime := 1%Z in
        ret {| q_new := q_new; p_new := p_new;
               q_fwd := q_new; p_fwd := p_new;
               q_bwd := q_new; p_bwd := p_new;
               q_prime := q_new; p_prime := p_new;
               n_prime := n_prime; s_prime := s_prime;
               alpha_prime := alpha_prime; n_alpha_prime := n_alpha_prime |}
      else
        let* t1 := build_tree fuel' self q p u v (j - 1) epsilon q0 p0 in
        if (s_prime t1 =? 1)%Z then
          let* t2 :=
            (if (v =? -1)%Z
             then build_tree fuel' self (q_bwd t1) (p_bwd t1) u v (j - 1) epsilon q0 p0
             else build_tree fuel' self (q_fwd t1) (p_fwd t1) u v (j - 1) epsilon q0 p0) in
          let '(q_fwd', p_fwd', q_bwd', p_bwd') :=
            (if (v =? -1)%Z
             then (q_fwd t1, p_fwd t1, q_new t2, p_new t2)
             else (q_fwd t2, p_fwd t2, q_bwd t1, p_bwd t1)) in
          let* r := draw rand in
          let '(q_prime', p_prime') :=
            (if flt r (truediv (n_prime t2) (pymax_int (n_prime t1 + n_prime t2) 1))
             then (q_prime t2, p_prime t2)
             else (q_prime t1, p_prime t1)) in
          ret {| q_new := q_new t1; p_new := p_new t1;
                 q_fwd := q_fwd'; p_fwd := p_fwd';
                 q_bwd := q_bwd'; p_bwd := p_bwd';
                 q_prime := q_prime'; p_prime := p_prime';
                 n_prime := (n_prime t1 + n_prime t2)%Z;
                 s_prime := no_u_turn (s_prime t2) q_fwd' p_fwd' q_bwd' p_bwd';
                 alpha_prime := fadd (alpha_prime t1) (alpha_prime t2);
                 n_alpha_prime := (n_alpha_prime t1 + n_alpha_prime t2)%Z |}
        else ret t1
  end.

(** The variables of one outer iteration that the doubling loop
    updates.  [alpha] and [n_alpha] are unbound until the first
    [build_tree] call has returned. *)
Record trajectory : Type := {
  t_q_fwd : vec;
  t_p_fwd : vec;
  t_q_bwd : vec;
  t_p_bwd : vec;
  t_q_new : vec;
  t_j : Z;
  t_n : Z;
  t_s : Z;
  t_accepted : Z;
  t_alpha : option (npfloat * Z)
}.

(** One pass of [while s == 1 and j < max_tree_depth]. *)
Definition doubling (fuel : nat) (self : sampler) (u epsilon : npfloat) (q p : vec)
    (st : trajectory) : M trajectory :=
  let* r := draw rand in
  let v := (2 * int_of_bool (flt r (Finite (1 / 2))) - 1)%Z in
  let* t :=
    (if (v =? -1)%Z
     then build_tree fuel self (t_q_bwd st) (t_p_bwd st) u v (t_j st) epsilon q p
     else build_tree fuel self (t_q_fwd st) (t_p_fwd st) u v (t_j st) epsilon q p) in
  let '(q_fwd', p_fwd', q_bwd', p_bwd') :=
    (if (v =? -1)%Z
     then (t_q_fwd st, t_p_fwd st, q_new t, p_new t)
     else (q_fwd t, p_fwd t, t_q_bwd st, t_p_bwd st)) in
  let* (q_new', accepted') :=
    (if (s_prime t =? 1)%Z then
       let* r' := draw rand in
       if flt r' (pymin (Finite 1) (truediv (n_prime t) (t_n st)))
       then ret (q_prime t, (t_accepted st + 1)%Z)
       else ret (t_q_new st, t_accepted st)
     else ret (t_q_new st, t_accepted st)) in
  ret {| t_q_fwd := q_fwd'; t_p_fwd := p_fwd';
         t_q_bwd := q_bwd'; t_p_bwd := p_bwd';
         t_q_new := q_new';
         t_j := (t_j st + 1)%Z;
         t_n := (t_n st + n_prime t)%Z;
         t_s := no_u_turn (s_prime t) q_fwd' p_fwd' q_bwd' p_bwd';
         t_accepted := accepted';
         t_alpha := Some (alpha_prime t, n_alpha_prime t) |}.

Fixpoint tree_loop (fuel_tree fuel : nat) (self : sampler) (u epsilon : npfloat)
    (q p : vec) (st : trajectory) : M trajectory :=
  match fuel with
  | O => out_of_fuel
  | S fuel' =>
      if (t_s st =? 1)%Z && (t_j st <? max_tree_depth)%Z then
        let* st' := doubling fuel_tree self u epsilon q p st in
        tree_loop fuel_tree fuel' self u epsilon q p st'
      else ret st
  end.

(** The variables of [sample] that its outer loop updates. *)
Record chain_state : Type := {
  c_all_samples : matrix;
  c_accepted : Z;
  c_epsilon : npfloat;
  c_epsilon_bar : npfloat;
  c_H_bar : npfloat;
  c_epsilon_history : list npfloat;
  c_alpha : option (npfloat * Z)
}.

(** The step-size adaptation that ends iteration [m]. *)
Definition adapt (self : sampler) (mu : npfloat) (adapt_steps m : nat)
    (st : chain_state) : M chain_state :=
  if (m <=? adapt_steps)%nat then
    match c_alpha st with
    | None => raise UnboundLocalError
    | Some (alpha, n_alpha) =>
        let w := truediv 1 (Z.of_nat m + t0)%Z in
        let H_bar :=
          fadd (fmul (fsub (of_int 1) w) (c_H_bar st))
               (fmul w (fsub (delta self) (fdiv alpha (of_int n_alpha)))) in
        let log_epsilon :=
          fsub mu (fmul (fdiv (fsqrt (of_int (Z.of_nat m))) gamma) H_bar) in
        let epsilon := fexp log_epsilon in
        let wk := fpow (of_int (Z.of_nat m)) (fneg kappa) in
        let epsilon_bar :=
          fexp (fadd (fmul wk log_epsilon)
                     (fmul (fsub (of_int 1) wk) (flog (c_epsilon_bar st)))) in
        ret {| c_all_samples := c_all_samples st;
               c_accepted := c_accepted st;
               c_epsilon := epsilon;
               c_epsilon_bar := epsilon_bar;
               c_H_bar := H_bar;
               c_epsilon_history := c_epsilon_history st ++ [epsilon];
               c_alpha := c_alpha st |}
    end
  else
    ret {| c_all_samples := c_all_samples st;
           c_accepted := c_accepted st;
           c_epsilon := c_epsilon_bar st;
           c_epsilon_bar := c_epsilon_bar st;
           c_H_bar := c_H_bar st;
           c_epsilon_history := c_epsilon_history st;
           c_alpha := c_alpha st |}.

(** The trajectory of iteration [m], from the draw of the momentum to the
    end of the doubling loop. *)
Definition trajectory_of (fuel : nat) (self : sampler) (dim : nat) (q : vec)
    (st : chain_state) : M trajectory :=
  let* p := draw (randn dim) in
  let* u := np_uniform (Finite 0) (fexp (fneg (hamiltonian self q p))) in
  tree_loop fuel fuel self u (c_epsilon st) q p
    {| t_q_fwd := q; t_p_fwd := p;
       t_q_bwd := q; t_p_bwd := p;
       t_q_new := q;
       t_j := 0; t_n := 1; t_s := 1;
       t_accepted := c_accepted st;
       t_alpha := c_alpha st |}.

(** The body of [for m in range(1, total_iterations)]. *)
Definition loop_body (fuel : nat) (self : sampler) (dim : nat) (mu : npfloat)
    (adapt_steps : nat) (m : nat) (st : chain_state) : M chain_state :=
  let* q := lift (getitem (c_all_samples st) (m - 1)) in
  let* tr := trajectory_of fuel self dim q st in
  let* all_samples' := lift (setitem (c_all_samples st) m (t_q_new tr)) in
  adapt self mu adapt_steps m
    {| c_all_samples := all_samples';
       c_accepted := t_accepted tr;
       c_epsilon := c_epsilon st;
       c_epsilon_bar := c_epsilon_bar st;
       c_H_bar := c_H_bar st;
       c_epsilon_history := c_epsilon_history st;
       c_alpha := t_alpha tr |}.

(** The state in which [sample] enters its outer loop, once the initial
    step size [epsilon] is found and row 0 of the chain is written. *)
Definition initial_chain_state (all_samples : matrix) (epsilon : npfloat) : chain_state :=
  {| c_all_samples := all_samples;
     c_accepted := 0;
     c_epsilon := epsilon;
     c_epsilon_bar := Finite 1;
     c_H_bar := Finite 0;
     c_epsilon_history := [epsilon];
     c_alpha := None |}.

(** [sample] from the line after [find_reasonable_epsilon] has returned
    [epsilon] to the end of its outer loop. *)
Definition run_from (fuel : nat) (self : sampler) (n_samples : nat) (initial_state : vec)
    (burn_in adapt_steps : nat) (epsilon : npfloat) : M chain_state :=
  let dim := length initial_state in
  let total_iterations := (burn_in + n_samples)%nat in
  let mu := flog (fmul (of_int 10) epsilon) in
  let all_samples := zeros total_iterations dim in
  let* all_samples := lift (setitem all_samples 0 initial_state) in
  for_each (range 1 total_iterations) (loop_body fuel self dim mu adapt_steps)
    (initial_chain_state all_samples epsilon).

(** [sample] up to the end of its outer loop. *)
Definition run (fuel : nat) (self : sampler) (n_samples : nat) (initial_state : vec)
    (burn_in adapt_steps : nat) : M chain_state :=
  let* epsilon := find_reasonable_epsilon fuel self initial_state in
  run_from fuel self n_samples initial_state burn_in adapt_steps epsilon.

Definition sample (fuel : nat) (self : sampler) (n_samples : nat) (initial_state : vec)
    (burn_in adapt_steps : nat) : M (sampler * matrix) :=
  let total_iterations := (burn_in + n_samples)%nat in
  let* st := run fuel self n_samples initial_state burn_in adapt_steps in
  let rate := truediv (c_accepted st) (Z.of_nat total_iterations) in
  let kept := drop burn_in (c_all_samples st) in
  ret ({| log_density := log_density self;
          grad_log_density := grad_log_density self;
          epsilon := c_epsilon_bar st;
          delta := delta self;
          samples := Some kept;
          acceptance_rate := Some rate;
          epsilon_history := c_epsilon_history st |}, kept).

End WithRandom.
End NUTS.

(** ** Convergence diagnostics

    [effective_sample_size] and [gelman_rubin] of
    03-bayesian-methods/mcmc/code/tests/test_mcmc.py, on one-dimensional
    chains. *)

Module Diagnostics.

(** [np.mean(a)]: the sum over the length, NaN on an empty array. *)
Definition mean (a : vec) : npfloat := fdiv (vsum a) (of_int (Z.of_nat (length a))).

(** [np.var(a, ddof=1)]: the squared deviations from the mean, summed and
    divided by [max(len(a) - 1, 0)]. *)
Definition var (a : vec) : npfloat :=
  let arrmean := mean a in
  fdiv (vsum (vsquare (map (fun x => fsub x arrmean) a)))
       (of_int (Z.of_nat (length a - 1))).

(** [np.correlate(a, v, mode='full')] on non-empty arrays: the sums of
    [a[n + k] * v[n]] for the lags [k] from [-(len(v) - 1)] up to
    [len(a) - 1]. *)
Definition correlate_full (a v : vec) : vec :=
  map (fun k => dot a (drop k v)) (rev (seq 1 (length v - 1)))
  ++ map (fun k => dot (drop k a) v) (seq 0 (length a)).

Definition effective_sample_size (samples : vec) : result npfloat :=
  let n := length samples in
  if (n <? 2)%nat then Ok (of_int (Z.of_nat n))
  else
    let samples_centered := map (fun x => fsub x (mean samples)) samples in
    let acf := correlate_full samples_centered samples_centered in
    match acf !! (length acf / 2)%nat with
    | None => Raise IndexError
    | Some acf0 =>
        let acf := map (fun r => fdiv r acf0) (drop (length acf / 2) acf) in
        let positive := List.filter (fun r => fgt r (Finite 0)) (drop 1 acf) in
        let ess_inv := fadd (Finite 1) (fmul (Finite 2) (vsum positive)) in
        let ess := fdiv (of_int (Z.of_nat n)) ess_inv in
        Ok (pymax ess (Finite 1))
    end.

Definition gelman_rubin (chains : list vec) : result npfloat :=
  match chains with
  | [] => Raise IndexError
  | chain0 :: _ =>
      let n := Z.of_nat (length chain0) in
      let W := mean (map var chains) in
      let chain_means := map mean chains in
      let B := fmul (of_int n) (var chain_means) in
      let var_plus := fdiv (fadd (fmul (of_int (n - 1)) W) B) (of_int n) in
      let r_hat := fsqrt (fdiv var_plus W) in
      Ok r_hat
  end.

End Diagnostics.

(** ** A concrete generator and concrete targets

    A deterministic stand-in for [np.random], used to run the samplers on
    explicit inputs: the state counts the draws made so far; a normal draw
    is one scale below its location, [uniform] returns the midpoint of its
    interval and [rand] alternates between 1/4 and 3/4. *)

#[export] Program Instance counting_random : RandomState := {|
  rng := nat;
  normal loc scale n g := (replicate n (fsub loc scale), S g);
  randn n g := (replicate n (Finite 1), S g);
  uniform low high g := (fadd low (fmul (Finite (1 / 2)) (fsub high low)), S g);
  rand g := (Finite (if Nat.even g then 1 / 4 else 3 / 4), S g)
|}.
Next Obligation. intros; simpl; apply length_replicate. Qed.
Next Obligation. intros; simpl; apply length_replicate. Qed.
Next Obligation. intros; simpl; apply Forall_replicate; exact I. Qed.
Next Obligation. intros; simpl; eexists; split; [reflexivity | lra]. Qed.
Next Obligation.
  intros g; simpl; destruct (Nat.even g); eexists; (split; [reflexivity | lra]).
Qed.

(** A target supported on the positive half-line, [log_density(x) =
    np.log(x[0])]: NaN as soon as the first coordinate is negative. *)
Definition log_first (x : vec) : npfloat :=
  match x with
  | x0 :: _ => flog x0
  | [] => NaN
  end.

(** The standard normal target: [-0.5 * np.sum(x ** 2)] and its gradient
    [-x]. *)
Definition log_std_normal (x : vec) : npfloat := fmul (Finite (- (1 / 2))) (vsum (vsquare x)).
Definition grad_std_normal (x : vec) : vec := vneg x.

(** Vectors of a given dimension whose components are all finite. *)
Definition fvec (n : nat) (v : vec) : Prop := length v = n /\ Forall is_finite v.

(** Samplers on these targets. *)
Definition positive_mh : MetropolisHastings.sampler :=
  {| MetropolisHastings.target_log_density := log_first;
     MetropolisHastings.proposal_std := Finite 2;
     MetropolisHastings.samples := None;
     MetropolisHastings.acceptance_rate := None |}.

Definition normal_hmc : HamiltonianMC.sampler :=
  {| HamiltonianMC.log_density := log_std_normal;
     HamiltonianMC.grad_log_density := grad_std_normal;
     HamiltonianMC.epsilon := Finite (1 / 10);
     HamiltonianMC.L := 3;
     HamiltonianMC.samples := None;
     HamiltonianMC.acceptance_rate := None |}.

(** Samplers with a configuration that is not positive. *)
Definition still_mh : MetropolisHastings.sampler :=
  {| MetropolisHastings.target_log_density := log_std_normal;
     MetropolisHastings.proposal_std := Finite 0;
     MetropolisHastings.samples := None;
     MetropolisHastings.acceptance_rate := None |}.

Definition backward_hmc : HamiltonianMC.sampler :=
  {| HamiltonianMC.log_density := log_std_normal;
     HamiltonianMC.grad_log_density := grad_std_normal;
     HamiltonianMC.epsilon := Finite (-1);
     HamiltonianMC.L := -3;
     HamiltonianMC.samples := None;
     HamiltonianMC.acceptance_rate := None |}.

(** A flat target on the positive half-line: log-density 0 where the
    first coordinate is positive, [-inf] elsewhere, gradient 0. *)
Definition log_half_line (x : vec) : npfloat :=
  match x with
  | Finite r :: _ => if Rltb 0 r then Finite 0 else NInf
  | _ => NInf
  end.

Definition grad_half_line (x : vec) : vec := map (fun _ => Finite 0) x.

Definition half_line_nuts : NUTS.sampler :=
  {| NUTS.log_density := log_half_line;
     NUTS.grad_log_density := grad_half_line;
     NUTS.epsilon := Finite (1 / 10);
     NUTS.delta := Finite (6 / 10);
     NUTS.samples := None;
     NUTS.acceptance_rate := None;
     NUTS.epsilon_history := [] |}.

(** The loops of [MetropolisHastings.sample] and [HamiltonianMC.sample]
    are the same loop around two different accept/reject decisions; this
    is that loop around an arbitrary decision [step], and what it means
    for [next] to follow [prev] in a chain. *)
Definition chain_body `{RandomState} (step : vec -> M (vec * bool)) (i : nat)
    (st : matrix * Z) : M (matrix * Z) :=
  let '(all_samples, accepted) := st in
  let* current := lift (getitem all_samples (i - 1)) in
  let* (next, acc) := step current in
  let* all_samples' := lift (setitem all_samples i next) in
  ret (all_samples', if acc then (accepted + 1)%Z else accepted).

Definition follows `{RandomState} (step : vec -> M (vec * bool)) (prev next : vec) : Prop :=
  exists g acc g', step prev g = Ok ((next, acc), g').

Definition chain_of `{RandomState} (step : vec -> M (vec * bool)) (initial_state : vec)
    (total : nat) (all_samples : matrix) : Prop :=
  length all_samples = total
  /\ all_samples !! 0%nat = Some initial_state
  /\ forall i, (1 <= i < total)%nat ->
       exists prev next,
         all_samples !! (i - 1)%nat = Some prev
         /\ all_samples !! i = Some next
         /\ follows step prev next.

(** The state of the chain loop before iteration [i]: rows [0 .. i-1] are
    written and linked by [step], at most [i - 1] proposals were accepted,
    and every row has the dimension of the initial state. *)
Definition chain_invariant `{RandomState} (step : vec -> M (vec * bool)) (initial_state : vec)
    (total dim : nat) (i : nat) (st : matrix * Z) : Prop :=
  length st.1 = total
  /\ st.1 !! 0%nat = Some initial_state
  /\ (forall k, (1 <= k < i)%nat ->
        exists prev next,
          st.1 !! (k - 1)%nat = Some prev /\ st.1 !! k = Some next
          /\ follows step prev next)
  /\ (0 <= st.2 <= Z.of_nat i - 1)%Z
  /\ Forall (fun row => length row = dim) st.1.

(** A log-density that is a real number or [-inf]. *)
Definition admissible (a : npfloat) : Prop := a <> NaN /\ a <> PInf.

(** A gradient that returns vectors of the dimension [dim] on vectors of
    that dimension. *)
Definition well_shaped (grad : vec -> vec) (dim : nat) : Prop :=
  forall v, length v = dim -> length (grad v) = dim.

(** What every tree returned by [build_tree] satisfies: its states have
    the dimension of the chain, its count of valid states is not
    negative, and when it counts a valid state its proposal is one, so
    the log-density there is not NaN. *)
Definition tree_ok (self : NUTS.sampler) (dim : nat) (t : NUTS.tree) : Prop :=
  length (NUTS.q_new t) = dim /\ length (NUTS.p_new t) = dim
  /\ length (NUTS.q_fwd t) = dim /\ length (NUTS.p_fwd t) = dim
  /\ length (NUTS.q_bwd t) = dim /\ length (NUTS.p_bwd t) = dim
  /\ length (NUTS.q_prime t) = dim /\ length (NUTS.p_prime t) = dim
  /\ (0 <= NUTS.n_prime t)%Z
  /\ ((1 <= NUTS.n_prime t)%Z -> NUTS.log_density self (NUTS.q_prime t) <> NaN).

(** What the doubling loop keeps true of its variables. *)
Definition traj_ok (self : NUTS.sampler) (dim : nat) (st : NUTS.trajectory) : Prop :=
  length (NUTS.t_q_fwd st) = dim /\ length (NUTS.t_p_fwd st) = dim
  /\ length (NUTS.t_q_bwd st) = dim /\ length (NUTS.t_p_bwd st) = dim
  /\ length (NUTS.t_q_new st) = dim
  /\ (0 <= NUTS.t_j st)%Z
  /\ (1 <= NUTS.t_n st)%Z
  /\ NUTS.log_density self (NUTS.t_q_new st) <> NaN.

(** [next] is the proposal of a subtree built during a trajectory with
    slice variable [u], step size [epsilon] and start [(q, p)], and that
    subtree has its flag at 1. *)
Definition proposed_in `{RandomState} (fuel : nat) (self : NUTS.sampler)
    (u epsilon : npfloat) (q p : vec) (next : vec) : Prop :=
  exists qx px v j ga t gb,
    NUTS.build_tree fuel self qx px u v j epsilon q p ga = Ok (t, gb)
    /\ NUTS.s_prime t = 1%Z
    /\ next = NUTS.q_prime t.

(** What the adaptation step does to the step sizes. *)
Definition adapted (mu : npfloat) (adapt_steps m : nat) (st st' : NUTS.chain_state) : Prop :=
  ((m <= adapt_steps)%nat ->
     let wk := fpow (of_int (Z.of_nat m)) (fneg NUTS.kappa) in
     NUTS.c_epsilon st'
     = fexp (fsub mu (fmul (fdiv (fsqrt (of_int (Z.of_nat m))) NUTS.gamma)
                           (NUTS.c_H_bar st')))
     /\ NUTS.c_epsilon_bar st'
        = fexp (fadd (fmul wk (flog (NUTS.c_epsilon st')))
                     (fmul (fsub (Finite 1) wk) (flog (NUTS.c_epsilon_bar st))))
     /\ flog (NUTS.c_epsilon_bar st')
        = fadd (fmul wk (flog (NUTS.c_epsilon st')))
               (fmul (fsub (Finite 1) wk) (flog (NUTS.c_epsilon_bar st)))
     /\ NUTS.c_epsilon_history st' = NUTS.c_epsilon_history st ++ [NUTS.c_epsilon st'])
  /\ ((adapt_steps < m)%nat ->
        NUTS.c_epsilon st' = NUTS.c_epsilon_bar st'
        /\ NUTS.c_epsilon_bar st' = NUTS.c_epsilon_bar st
        /\ NUTS.c_H_bar st' = NUTS.c_H_bar st
        /\ NUTS.c_epsilon_history st' = NUTS.c_epsilon_history st).

(** [next] follows [prev] in a NUTS chain: it is the draw at the end of a
    trajectory started from [prev]; that draw is [prev] itself when the
    trajectory accepted no proposal, and the proposal of one of its
    subtrees when it accepted one. *)
Definition nuts_follows `{RandomState} (fuel : nat) (self : NUTS.sampler) (dim : nat)
    (prev next : vec) : Prop :=
  exists st g tr g',
    NUTS.trajectory_of fuel self dim prev st g = Ok (tr, g')
    /\ next = NUTS.t_q_new tr
    /\ ((NUTS.t_accepted tr = NUTS.c_accepted st /\ next = prev)
        \/ ((NUTS.c_accepted st < NUTS.t_accepted tr)%Z
            /\ exists u p, proposed_in fuel self u (NUTS.c_epsilon st) prev p next)).

(** The state of the outer loop of NUTS before iteration [m]. *)
Definition nuts_invariant `{RandomState} (fuel : nat) (self : NUTS.sampler)
    (initial_state : vec) (total adapt_steps : nat) (m : nat) (st : NUTS.chain_state)
  : Prop :=
  length (NUTS.c_all_samples st) = total
  /\ NUTS.c_all_samples st !! 0%nat = Some initial_state
  /\ (forall k, (1 <= k < m)%nat ->
        exists prev next,
          NUTS.c_all_samples st !! (k - 1)%nat = Some prev
          /\ NUTS.c_all_samples st !! k = Some next
          /\ nuts_follows fuel self (length initial_state) prev next)
  /\ (forall k row, (k < m)%nat -> NUTS.c_all_samples st !! k = Some row ->
        admissible (NUTS.log_density self row))
  /\ Forall (fun row => length row = length initial_state) (NUTS.c_all_samples st)
  /\ ((adapt_steps < m - 1)%nat -> NUTS.c_epsilon st = NUTS.c_epsilon_bar st).

(** ** Tuning runs

    The runs [tune_parameters] makes, one for each candidate step size: each
    sets the candidate on the sampler the previous run left and samples
    [n_tuning] rows from [initial_state] without burn-in or thinning.  A
    run is recorded with its candidate and the acceptance rate it stored. *)

Inductive tuning_runs `{RandomState} (initial_state : vec) (n_tuning : nat)
  : HamiltonianMC.sampler -> rng -> list (npfloat * npfloat)
    -> HamiltonianMC.sampler -> rng -> Prop :=
| tuning_runs_nil self g : tuning_runs initial_state n_tuning self g [] self g
| tuning_runs_cons self g eps self1 kept g1 rate runs self' g' :
    HamiltonianMC.sample (HamiltonianMC.set_epsilon self eps) n_tuning initial_state 0 1 g
    = Ok ((self1, kept), g1) ->
    HamiltonianMC.samples self1 = Some kept ->
    HamiltonianMC.acceptance_rate self1 = Some rate ->
    tuning_runs initial_state n_tuning self1 g1 runs self' g' ->
    tuning_runs initial_state n_tuning self g ((eps, rate) :: runs) self' g'.

(** The selection of [tune_parameters] on recorded runs: the pair
    [(best_epsilon, best_diff)] after the loop. *)
Fixpoint select (target_accept : npfloat) (runs : list (npfloat * npfloat))
    (best : npfloat * npfloat) : npfloat * npfloat :=
  match runs with
  | [] => best
  | (eps, rate) :: runs' =>
      let diff := fabs (fsub rate target_accept) in
      select target_accept runs' (if flt diff best.2 then (eps, diff) else best)
  end.

(** ** Further concrete targets *)



(** A standard normal target for NUTS, and the same gradient under the
    density of the half line. *)
Definition normal_nuts : NUTS.sampler :=
  {| NUTS.log_density := log_std_normal;
     NUTS.grad_log_density := grad_std_normal;
     NUTS.epsilon := Finite (1 / 10);
     NUTS.delta := Finite (6 / 10);
     NUTS.samples := None;
     NUTS.acceptance_rate := None;
     NUTS.epsilon_history := [] |}.

Definition half_line_normal_nuts : NUTS.sampler :=
  {| NUTS.log_density := log_half_line;
     NUTS.grad_log_density := grad_std_normal;
     NUTS.epsilon := Finite (1 / 10);
     NUTS.delta := Finite (6 / 10);
     NUTS.samples := None;
     NUTS.acceptance_rate := None;
     NUTS.epsilon_history := [] |}.

(** HMC with a step size of zero. *)
Definition frozen_hmc : HamiltonianMC.sampler :=
  {| HamiltonianMC.log_density := log_std_normal;
     HamiltonianMC.grad_log_density := grad_std_normal;
     HamiltonianMC.epsilon := Finite 0;
     HamiltonianMC.L := 10;
     HamiltonianMC.samples := None;
     HamiltonianMC.acceptance_rate := None |}.



(** ** What dual averaging maintains

    The acceptance statistics of the last tree, when there is one, are a
    finite sum [alpha] of [n_alpha >= 1] probabilities; the step sizes are
    finite and positive; the averaged error stays between [min(0, d - 1)]
    and [max(0, d)] for a target [d]. *)

Definition alpha_ok (x : option (npfloat * Z)) : Prop :=
  match x with
  | None => True
  | Some (alpha, n_alpha) =>
      exists a, alpha = Finite a /\ 0 <= a <= IZR n_alpha /\ (1 <= n_alpha)%Z
  end.

Definition positive (e : npfloat) : Prop := exists r, e = Finite r /\ 0 < r.

Definition H_bar_in_range (d : R) (H_bar : npfloat) : Prop :=
  exists h, H_bar = Finite h /\ Rmin 0 (d - 1) <= h <= Rmax 0 d.

Definition step_sizes_ok (d : R) (st : NUTS.chain_state) : Prop :=
  alpha_ok (NUTS.c_alpha st)
  /\ positive (NUTS.c_epsilon st)
  /\ positive (NUTS.c_epsilon_bar st)
  /\ H_bar_in_range d (NUTS.c_H_bar st)
  /\ Forall positive (NUTS.c_epsilon_history st).

(** A float that is exactly zero. *)
Definition is_zero (a : npfloat) : Prop := exists r, a = Finite r /\ r = 0.

(** ** Further definitions for the claims *)

(** The rows a chain loop writes after row 0: each is what one decision
    [step] returns from the row before it, the generator passing from one
    decision to the next; [accepted] counts the decisions that accepted
    their proposal. *)
Inductive chain_steps `{RandomState} (step : vec -> M (vec * bool))
  : vec -> rng -> list vec -> Z -> rng -> Prop :=
| chain_steps_nil cur g : chain_steps step cur g [] 0 g
| chain_steps_cons cur g next acc g1 rows accepted g' :
    step cur g = Ok ((next, acc), g1) ->
    chain_steps step next g1 rows accepted g' ->
    chain_steps step cur g (next :: rows) ((if acc then 1 else 0) + accepted) g'.

(** HMC on a state of dimension 1 with a gradient that returns two
    components. *)
Definition mismatched_hmc : HamiltonianMC.sampler :=
  {| HamiltonianMC.log_density := log_std_normal;
     HamiltonianMC.grad_log_density := fun _ => [Finite 0; Finite 0];
     HamiltonianMC.epsilon := Finite (1 / 10);
     HamiltonianMC.L := 3;
     HamiltonianMC.samples := None;
     HamiltonianMC.acceptance_rate := None |}.

(** Metropolis-Hastings with a negative proposal standard deviation. *)
Definition negative_mh : MetropolisHastings.sampler :=
  {| MetropolisHastings.target_log_density := log_std_normal;
     MetropolisHastings.proposal_std := Finite (-2);
     MetropolisHastings.samples := None;
     MetropolisHastings.acceptance_rate := None |}.

(** Metropolis-Hastings on the standard normal target. *)
Definition normal_mh : MetropolisHastings.sampler :=
  {| MetropolisHastings.target_log_density := log_std_normal;
     MetropolisHastings.proposal_std := Finite (1 / 2);
     MetropolisHastings.samples := None;
     MetropolisHastings.acceptance_rate := None |}.

(** The states a [for] loop passes through: [loop_states body i s g states
    s' g'] when the passes [i], [i + 1], ... of [body], started in [s] with
    the generator [g], leave the states [states] one after the other and
    end in [s'] with the generator [g']. *)
Inductive loop_states `{RandomState} {S : Type} (body : nat -> S -> M S)
  : nat -> S -> rng -> list S -> S -> rng -> Prop :=
| loop_states_nil i s g : loop_states body i s g [] s g
| loop_states_cons i s g s1 g1 states s' g' :
    body i s g = Ok (s1, g1) ->
    loop_states body (Datatypes.S i) s1 g1 states s' g' ->
    loop_states body i s g (s1 :: states) s' g'.

(** [np.exp] overflows to [inf] above 709.78 in float64.  A log-density
    that is never [+inf] and never above 709 keeps [exp(-H)], the bound of
    the slice variable of NUTS, finite: [-H] is the log-density minus a
    kinetic energy that is not negative. *)
Definition below_overflow (a : npfloat) : Prop :=
  match a with
  | Finite x => x <= 709
  | PInf => False
  | NInf | NaN => True
  end.

(** * Properties *)

(** ** float64 facts *)

Lemma Rltb_true (x y : R) : x < y -> Rltb x y = true.
Proof. intros Hxy; unfold Rltb; destruct (Rlt_dec x y); [reflexivity | contradiction]. Qed.

Lemma Rltb_false (x y : R) : y <= x -> Rltb x y = false.
Proof. intros Hxy; unfold Rltb; destruct (Rlt_dec x y); [lra | reflexivity]. Qed.

Lemma Rltb_spec (x y : R) : Rltb x y = true <-> x < y.
Proof. unfold Rltb; destruct (Rlt_dec x y); split; intros; (assumption || discriminate || reflexivity || contradiction). Qed.

Lemma Rleb_spec (x y : R) : Rleb x y = true <-> x <= y.
Proof. unfold Rleb; destruct (Rle_dec x y); split; intros; (assumption || discriminate || reflexivity || contradiction). Qed.

Lemma flt_nan_r (a : npfloat) : flt a NaN = false.
Proof. destruct a; reflexivity. Qed.

Lemma fneg_involutive (a : npfloat) : fneg (fneg a) = a.
Proof. destruct a; simpl; try reflexivity. f_equal; lra. Qed.

Lemma fadd_comm (a b : npfloat) : fadd a b = fadd b a.
Proof. destruct a, b; simpl; try reflexivity. f_equal; lra. Qed.

Lemma flog_fexp (a : npfloat) : flog (fexp a) = a.
Proof.
  destruct a as [x| | |]; simpl; try reflexivity.
  - rewrite Rltb_true by apply exp_pos. now rewrite ln_exp.
  - rewrite !Rltb_false by lra. reflexivity.
Qed.

(** The special values behave as in IEEE 754 and Python. *)
Example inf_minus_inf : fsub PInf PInf = NaN.
Proof. reflexivity. Qed.

Example exp_neg_inf : fexp NInf = Finite 0.
Proof. reflexivity. Qed.

Example nan_compares_false : flt NaN (Finite 1) = false /\ fge NaN (Finite 0) = false.
Proof. split; reflexivity. Qed.

Example min_one_nan : pymin (Finite 1) NaN = Finite 1 /\ pymin NaN (Finite 1) = NaN.
Proof. split; reflexivity. Qed.

Example min_one_zero : pymin (Finite 1) (Finite 0) = Finite 0.
Proof. unfold pymin, flt. now rewrite Rltb_true by lra. Qed.

Example zero_times_inf : fmul (Finite 0) PInf = NaN.
Proof. unfold fmul, inf_times. now rewrite !Rltb_false by lra. Qed.

(** Ranges and slices. *)
Example range_1_4 : range 1 4 = [1; 2; 3]%nat.
Proof. reflexivity. Qed.

Example slice_1_2 : slice 1 2 [10; 11; 12; 13; 14]%nat = Ok [11; 13]%nat.
Proof. reflexivity. Qed.

Example slice_past_the_end : slice 7 2 [10; 11; 12]%nat = Ok [].
Proof. reflexivity. Qed.

Example slice_step_zero : slice 1 0 [10; 11; 12]%nat = Raise ValueError.
Proof. reflexivity. Qed.

(** ** Vectors with finite components *)

Lemma fvec_vadd n a b : fvec n a -> fvec n b -> fvec n (vadd a b).
Proof.
  intros [La Fa] [Lb Fb]; split.
  - unfold vadd. rewrite length_zip_with. lia.
  - unfold vadd. revert b n La Lb Fb.
    induction Fa as [|x a Hx Fa IH]; intros b n La Lb Fb; [constructor|].
    destruct Fb as [|y b Hy Fb]; simpl; [constructor|].
    constructor.
    + destruct x, y; simpl in *; tauto.
    + simpl in *. eapply (IH b (length a)); auto.
      subst n. lia.
Qed.

Lemma fvec_vscale n c a : is_finite c -> fvec n a -> fvec n (vscale c a).
Proof.
  intros Hc [La Fa]; split.
  - unfold vscale. now rewrite length_map.
  - unfold vscale. clear La. induction Fa as [|x a Hx Fa IH]; simpl; constructor.
    + destruct c, x; simpl in *; tauto.
    + apply IH.
Qed.

Lemma fvec_vneg n a : fvec n a -> fvec n (vneg a).
Proof.
  intros [La Fa]; split.
  - unfold vneg. now rewrite length_map.
  - unfold vneg. clear La. induction Fa as [|x a Hx Fa IH]; simpl; constructor.
    + destruct x; simpl in *; tauto.
    + apply IH.
Qed.

Lemma is_finite_fmul a b : is_finite a -> is_finite b -> is_finite (fmul a b).
Proof. destruct a, b; simpl; tauto. Qed.

Lemma vneg_involutive (a : vec) : vneg (vneg a) = a.
Proof.
  unfold vneg. induction a as [|x a IH]; simpl; [reflexivity|].
  now rewrite fneg_involutive, IH.
Qed.

(** Undoing a momentum kick: [-(p + x) + x = -p]. *)
Lemma kick_back n (p x : vec) :
  fvec n p -> fvec n x -> vadd (vneg (vadd p x)) x = vneg p.
Proof.
  intros [Lp Fp] [Lx Fx]. revert x n Lp Lx Fx.
  induction Fp as [|a p Ha Fp IH]; intros x n Lp Lx Fx.
  - reflexivity.
  - destruct Fx as [|b x Hb Fx]; [simpl in *; lia|].
    unfold vadd, vneg in *. simpl. f_equal.
    + destruct a, b; simpl in *; try tauto. f_equal; lra.
    + apply (IH x (length p)); auto. simpl in *; lia.
Qed.

(** Undoing a position drift: [(q + e*p) + e*(-p) = q]. *)
Lemma drift_back n (e : npfloat) (q p : vec) :
  is_finite e -> fvec n q -> fvec n p ->
  vadd (vadd q (vscale e p)) (vscale e (vneg p)) = q.
Proof.
  intros He [Lq Fq] [Lp Fp]. revert p n Lq Lp Fp.
  induction Fq as [|a q Ha Fq IH]; intros p n Lq Lp Fp.
  - reflexivity.
  - destruct Fp as [|b p Hb Fp]; [simpl in *; lia|].
    unfold vadd, vscale, vneg in *. simpl. f_equal.
    + destruct e, a, b; simpl in *; try tauto. f_equal; lra.
    + apply (IH p (length q)); auto. simpl in *; lia.
Qed.

(** ** The HMC integrator *)

Section Leapfrog.
Import HamiltonianMC.
Variable self : sampler.
Variable n : nat.
Hypothesis epsilon_finite : is_finite (epsilon self).
Hypothesis grad_finite : forall v, fvec n v -> fvec n (grad_log_density self v).

Lemma full_steps_last k qp :
  full_steps self (S k) qp = full_step self (full_steps self k qp).
Proof.
  revert qp; induction k as [|k IH]; intros qp; [reflexivity|].
  change (full_steps self (S (S k)) qp) with (full_steps self (S k) (full_step self qp)).
  rewrite IH. reflexivity.
Qed.

Lemma full_step_fvec q p :
  fvec n q -> fvec n p ->
  fvec n (full_step self (q, p)).1 /\ fvec n (full_step self (q, p)).2.
Proof.
  intros Hq Hp; simpl.
  assert (Hq1 : fvec n (vadd q (vscale (epsilon self) p))).
  { apply fvec_vadd; [assumption | apply fvec_vscale; assumption]. }
  split; [assumption|].
  apply fvec_vadd; [assumption|].
  apply fvec_vscale; [assumption | apply grad_finite; assumption].
Qed.

Lemma full_steps_fvec k : forall q p,
  fvec n q -> fvec n p ->
  fvec n (full_steps self k (q, p)).1 /\ fvec n (full_steps self k (q, p)).2.
Proof.
  induction k as [|k IH]; intros q p Hq Hp; [split; assumption|].
  destruct (full_step_fvec q p Hq Hp) as [H1 H2].
  change (full_steps self (S k) (q, p)) with (full_steps self k (full_step self (q, p))).
  destruct (full_step self (q, p)) as [q1 p1]. apply IH; assumption.
Qed.

(** Running the inner loop and the last position step, then running them
    again from the negated momentum, leads back to the start with the
    momentum negated. *)
Lemma full_steps_reverse k : forall q p a b,
  fvec n q -> fvec n p ->
  full_steps self k (q, p) = (a, b) ->
  exists c d,
    full_steps self k (vadd a (vscale (epsilon self) b), vneg b) = (c, d)
    /\ vadd c (vscale (epsilon self) d) = q /\ d = vneg p.
Proof.
  induction k as [|k IH]; intros q p a b Hq Hp Hab.
  - simpl in Hab. injection Hab as <- <-.
    eexists _, _; split; [reflexivity|]. split; [|reflexivity].
    apply (drift_back n); assumption.
  - change (full_steps self k (full_step self (q, p)) = (a, b)) in Hab.
    destruct (full_step_fvec q p Hq Hp) as [Hq1 Hp1].
    remember (full_step self (q, p)) as qp1 eqn:E1. destruct qp1 as [q1 p1].
    simpl in Hq1, Hp1.
    destruct (IH q1 p1 a b Hq1 Hp1 Hab) as (c & d & Hcd & Hc & Hd).
    rewrite full_steps_last, Hcd.
    simpl in E1. injection E1 as Eq1 Ep1.
    eexists _, _; split; [reflexivity|].
    assert (Hkick : vadd d (vscale (epsilon self)
                     (grad_log_density self (vadd c (vscale (epsilon self) d)))) = vneg p).
    { rewrite Hc, Hd, Ep1, Eq1.
      apply (kick_back n); [assumption|].
      apply fvec_vscale; [assumption|]. apply grad_finite.
      rewrite <- Eq1. assumption. }
    rewrite Hkick, Hc. split; [|reflexivity].
    rewrite Eq1. apply (drift_back n); assumption.
Qed.

Lemma leapfrog_involutive q p :
  fvec n q -> fvec n p ->
  leapfrog self (leapfrog self q p).1 (leapfrog self q p).2 = (q, p).
Proof.
  intros Hq Hp. unfold leapfrog at 2 3.
  set (half := fmul (Finite (1 / 2)) (epsilon self)).
  assert (Hhalf : is_finite half) by (apply is_finite_fmul; [exact I | assumption]).
  set (p1 := vadd p (vscale half (grad_log_density self q))).
  assert (Hp1 : fvec n p1).
  { apply fvec_vadd; [assumption|]. apply fvec_vscale; [assumption|]. now apply grad_finite. }
  destruct (full_steps_fvec (Z.to_nat (L self - 1)) q p1 Hq Hp1) as [Ha Hb].
  destruct (full_steps self (Z.to_nat (L self - 1)) (q, p1)) as [a b] eqn:Eab.
  simpl in Ha, Hb. simpl fst. simpl snd.
  destruct (full_steps_reverse _ q p1 a b Hq Hp1 Eab) as (c & d & Hcd & Hc & Hd).
  set (q' := vadd a (vscale (epsilon self) b)) in *.
  assert (Hq' : fvec n q').
  { apply fvec_vadd; [assumption|]. apply fvec_vscale; assumption. }
  unfold leapfrog. fold half.
  rewrite (kick_back n b (vscale half (grad_log_density self q'))); try assumption.
  2:{ apply fvec_vscale; [assumption|]. now apply grad_finite. }
  rewrite Hcd, Hc, Hd. unfold p1.
  rewrite (kick_back n p (vscale half (grad_log_density self q))); try assumption.
  2:{ apply fvec_vscale; [assumption|]. now apply grad_finite. }
  now rewrite vneg_involutive.
Qed.

End Leapfrog.

(** ** Loops *)

Section Loops.
Context `{RandomState}.

Lemma bind_ok {A B} (c : M A) (k : A -> M B) g a g' :
  c g = Ok (a, g') -> bind c k g = k a g'.
Proof. intros Hc; unfold bind; now rewrite Hc. Qed.

Lemma bind_draw {A B} (d : rng -> A * rng) (k : A -> M B) g :
  bind (draw d) k g = k (d g).1 (d g).2.
Proof. unfold bind, draw. destruct (d g); reflexivity. Qed.

Lemma np_uniform_unit :
  np_uniform (Finite 0) (Finite 1) = draw (uniform (Finite 0) (Finite 1)).
Proof. reflexivity. Qed.

Lemma np_normal_ok loc scale size :
  flt scale (Finite 0) = false -> np_normal loc scale size = draw (normal loc scale size).
Proof. intros Hs; unfold np_normal; now rewrite Hs. Qed.

Lemma np_uniform_ok low high :
  is_finite (fsub high low) -> np_uniform low high = draw (uniform low high).
Proof. intros Hf; unfold np_uniform; destruct (fsub high low); (contradiction || reflexivity). Qed.

Lemma getitem_ok (a : matrix) i row : a !! i = Some row -> getitem a i = Ok row.
Proof. intros Hrow; unfold getitem; now rewrite Hrow. Qed.

Lemma setitem_ok (a : matrix) i row :
  (i < length a)%nat -> setitem a i row = Ok (<[i:=row]> a).
Proof. intros Hi; unfold setitem; destruct (decide (i < length a)%nat); [reflexivity | lia]. Qed.

(** A loop whose body keeps an invariant and never fails runs to its end
    and establishes the invariant there. *)
Lemma for_each_invariant {S} (Inv : nat -> S -> Prop) (body : nat -> S -> M S) :
  forall len start s g,
    Inv start s ->
    (forall i s g, (start <= i < start + len)%nat -> Inv i s ->
       exists s' g', body i s g = Ok (s', g') /\ Inv (Datatypes.S i) s') ->
    exists s' g', for_each (seq start len) body s g = Ok (s', g')
                  /\ Inv (start + len)%nat s'.
Proof.
  induction len as [|len IH]; intros start s g Hs Hbody.
  - exists s, g. simpl. rewrite Nat.add_0_r. split; [reflexivity | assumption].
  - destruct (Hbody start s g ltac:(lia) Hs) as (s1 & g1 & Hb & Hs1).
    destruct (IH (Datatypes.S start) s1 g1 Hs1) as (s2 & g2 & Hf & Hs2).
    { intros i s' g' Hi. apply Hbody. lia. }
    exists s2, g2. split.
    + simpl. rewrite (bind_ok _ _ _ _ _ Hb). exact Hf.
    + replace (start + Datatypes.S len)%nat with (Datatypes.S start + len)%nat by lia.
      exact Hs2.
Qed.

Lemma chain_body_invariant (step : vec -> M (vec * bool)) initial_state total dim :
  (forall cur g, exists next acc g', step cur g = Ok ((next, acc), g')) ->
  (forall cur g next acc g',
     length cur = dim -> step cur g = Ok ((next, acc), g') -> length next = dim) ->
  forall i st g, (1 <= i < total)%nat ->
    chain_invariant step initial_state total dim i st ->
    exists st' g', chain_body step i st g = Ok (st', g')
                   /\ chain_invariant step initial_state total dim (S i) st'.
Proof.
  intros Htotal Hdim i [all acc] g Hi (Hlen & H0 & Hlinks & Hacc & Hrows).
  simpl in *.
  destruct (lookup_lt_is_Some_2 all (i - 1)) as [cur Hcur]; [lia|].
  destruct (Htotal cur g) as (next & a & g' & Hstep).
  exists (<[i:=next]> all, if a then (acc + 1)%Z else acc), g'.
  split.
  - unfold chain_body.
    rewrite (getitem_ok _ _ _ Hcur).
    erewrite bind_ok by reflexivity.
    rewrite (bind_ok _ _ _ _ _ Hstep).
    rewrite setitem_ok by lia. reflexivity.
  - unfold chain_invariant; simpl. repeat split.
    + now rewrite length_insert.
    + rewrite list_lookup_insert_ne by lia. assumption.
    + intros k Hk. destruct (decide (k = i)) as [->|Hne].
      * exists cur, next. rewrite list_lookup_insert_ne by lia.
        rewrite list_lookup_insert_eq by lia.
        repeat split; try assumption. exists g, a, g'. assumption.
      * destruct (Hlinks k ltac:(lia)) as (prev & nxt & Hp & Hn & Hf).
        exists prev, nxt. rewrite !list_lookup_insert_ne by lia. auto.
    + destruct a; lia.
    + destruct a; lia.
    + apply Forall_insert; [assumption|].
      eapply Hdim; [|exact Hstep].
      eapply (Forall_lookup_1 _ _ _ _ Hrows Hcur).
Qed.

(** The chain loop, started on a fresh array whose first row is the
    initial state. *)
Lemma chain_loop (step : vec -> M (vec * bool)) initial_state total g :
  (forall cur g, exists next acc g', step cur g = Ok ((next, acc), g')) ->
  (forall cur g next acc g',
     length cur = length initial_state ->
     step cur g = Ok ((next, acc), g') -> length next = length initial_state) ->
  (1 <= total)%nat ->
  exists all_samples accepted g',
    (let* a := lift (setitem (zeros total (length initial_state)) 0 initial_state) in
     for_each (range 1 total) (chain_body step) (a, 0%Z)) g
    = Ok ((all_samples, accepted), g')
    /\ chain_of step initial_state total all_samples
    /\ (0 <= accepted <= Z.of_nat total - 1)%Z
    /\ Forall (fun row => length row = length initial_state) all_samples.
Proof.
  intros Htotal Hdim Hpos.
  set (dim := length initial_state).
  set (a0 := <[0%nat:=initial_state]> (zeros total dim)).
  assert (Hlen0 : length (zeros total dim) = total) by apply length_replicate.
  destruct (for_each_invariant (chain_invariant step initial_state total dim)
              (chain_body step) (total - 1) 1 (a0, 0%Z) g)
    as ([all acc] & g' & Hrun & Hinv).
  - unfold chain_invariant, a0; simpl. repeat split.
    + now rewrite length_insert.
    + apply list_lookup_insert_eq. lia.
    + intros k Hk; lia.
    + lia.
    + lia.
    + apply Forall_insert; [|reflexivity].
      unfold zeros. apply Forall_replicate. apply length_replicate.
  - intros i st g1 Hi Hinv. apply chain_body_invariant; try assumption. lia.
  - exists all, acc, g'. split.
    + rewrite setitem_ok by lia.
      erewrite bind_ok by reflexivity. exact Hrun.
    + replace (1 + (total - 1))%nat with total in Hinv by lia.
      destruct Hinv as (Hlen & H0 & Hlinks & Hacc & Hrows). simpl in *.
      repeat split; try assumption; lia.
Qed.

End Loops.

(** ** Slicing *)

Lemma stride_length {A} (step : nat) (l : list A) : forall skip,
  (skip < step)%nat ->
  length (stride step skip l) = ((length l + (step - 1 - skip)) / step)%nat.
Proof.
  induction l as [|x l IH]; intros skip Hskip; simpl.
  - symmetry. apply Nat.div_small. lia.
  - destruct skip as [|k].
    + simpl. rewrite IH by lia.
      replace (step - 1 - (step - 1))%nat with 0%nat by lia.
      replace (S (length l + (step - 1 - 0)))%nat with (1 * step + (length l + 0))%nat by lia.
      rewrite Nat.div_add_l by lia. reflexivity.
    + rewrite IH by lia. f_equal. lia.
Qed.

Lemma Forall_stride {A} (P : A -> Prop) (step : nat) (l : list A) : forall skip,
  Forall P l -> Forall P (stride step skip l).
Proof.
  induction l as [|x l IH]; intros skip Hl; simpl; [constructor|].
  apply Forall_cons in Hl as [Hx Hl].
  destruct skip; [constructor; [assumption|]|]; apply IH; assumption.
Qed.

(** [a[start::step]] of a list of [start + n * step] elements. *)
Lemma slice_spec {A} (P : A -> Prop) (start step n : nat) (l : list A) :
  (1 <= step)%nat -> length l = (start + n * step)%nat -> Forall P l ->
  exists kept, slice start step l = Ok kept /\ length kept = n /\ Forall P kept.
Proof.
  intros Hstep Hlen HP. destruct step as [|t]; [lia|].
  eexists; split; [reflexivity|]. split.
  - rewrite stride_length by lia. rewrite length_drop, Hlen.
    replace (start + n * S t - start + (S t - 1 - 0))%nat with (n * S t + t)%nat by lia.
    rewrite Nat.div_add_l by lia. rewrite Nat.div_small by lia. lia.
  - apply Forall_stride. apply Forall_drop. assumption.
Qed.

(** ** The two fixed-length samplers *)

Section FixedLength.
Context `{RandomState}.

Lemma vadd_length (a b : vec) : length b = length a -> length (vadd a b) = length a.
Proof. intros Hab; unfold vadd; rewrite length_zip_with; lia. Qed.

Lemma vscale_length c (a : vec) : length (vscale c a) = length a.
Proof. apply length_map. Qed.

Lemma vneg_length (a : vec) : length (vneg a) = length a.
Proof. apply length_map. Qed.

(** *** Metropolis-Hastings *)

Lemma mh_decide_step_total (self : MetropolisHastings.sampler) cur g :
  flt (MetropolisHastings.proposal_std self) (Finite 0) = false ->
  exists next acc g', MetropolisHastings.decide_step self cur g = Ok ((next, acc), g').
Proof.
  intros Hstd.
  unfold MetropolisHastings.decide_step, MetropolisHastings.propose.
  rewrite np_normal_ok, np_uniform_unit by assumption.
  unfold bind, draw, ret.
  destruct (normal _ _ _ g) as [noise g1].
  destruct (uniform _ _ g1) as [u g2].
  destruct (flt u _); eexists _, _, _; reflexivity.
Qed.

(** What one decision does: the proposal is the current state plus the
    noise drawn, and the next state is the proposal if the uniform draw is
    below the acceptance probability, the current state otherwise. *)
Lemma mh_decide_step_spec (self : MetropolisHastings.sampler) cur g next acc g' :
  MetropolisHastings.decide_step self cur g = Ok ((next, acc), g') ->
  let '(noise, g1) := normal (Finite 0) (MetropolisHastings.proposal_std self) (length cur) g in
  let proposed := vadd cur noise in
  let '(u, g2) := uniform (Finite 0) (Finite 1) g1 in
  MetropolisHastings.propose self cur g = Ok (proposed, g1)
  /\ acc = flt u (MetropolisHastings.acceptance_probability self cur proposed)
  /\ next = (if acc then proposed else cur)
  /\ g' = g2.
Proof.
  unfold MetropolisHastings.decide_step, MetropolisHastings.propose.
  rewrite np_uniform_unit. unfold np_normal.
  destruct (flt (MetropolisHastings.proposal_std self) (Finite 0)); [discriminate|].
  unfold bind, draw, ret.
  destruct (normal _ _ _ g) as [noise g1].
  destruct (uniform _ _ g1) as [u g2].
  destruct (flt u _); intros [= <- <- <-]; auto.
Qed.

Lemma mh_decide_step_length (self : MetropolisHastings.sampler) cur g next acc g' :
  MetropolisHastings.decide_step self cur g = Ok ((next, acc), g') ->
  length next = length cur.
Proof.
  intros Hstep. apply mh_decide_step_spec in Hstep.
  pose proof (normal_size (Finite 0) (MetropolisHastings.proposal_std self) (length cur) g) as Hn.
  destruct (normal _ _ _ g) as [noise g1]. simpl in Hn.
  destruct (uniform _ _ g1) as [u g2].
  destruct Hstep as (_ & _ & -> & _).
  destruct acc; [apply vadd_length; assumption | reflexivity].
Qed.

Lemma mh_run (self : MetropolisHastings.sampler) n_samples initial_state burn_in thin g :
  flt (MetropolisHastings.proposal_std self) (Finite 0) = false ->
  (1 <= burn_in + n_samples * thin)%nat ->
  exists all_samples accepted g',
    MetropolisHastings.run self n_samples initial_state burn_in thin g
    = Ok ((all_samples, accepted), g')
    /\ chain_of (MetropolisHastings.decide_step self) initial_state
         (burn_in + n_samples * thin) all_samples
    /\ (0 <= accepted <= Z.of_nat (burn_in + n_samples * thin) - 1)%Z
    /\ Forall (fun row => length row = length initial_state) all_samples.
Proof.
  intros Hstd Hpos.
  apply (chain_loop (MetropolisHastings.decide_step self) initial_state
           (burn_in + n_samples * thin) g); [| |assumption].
  - intros cur g1. apply mh_decide_step_total. assumption.
  - intros cur g1 next acc g' Hcur Hstep.
    rewrite (mh_decide_step_length _ _ _ _ _ _ Hstep). assumption.
Qed.

Lemma mh_sample (self : MetropolisHastings.sampler) n_samples initial_state burn_in thin g :
  flt (MetropolisHastings.proposal_std self) (Finite 0) = false ->
  (1 <= thin)%nat -> (1 <= burn_in + n_samples * thin)%nat ->
  exists all_samples accepted g' kept,
    MetropolisHastings.run self n_samples initial_state burn_in thin g
    = Ok ((all_samples, accepted), g')
    /\ chain_of (MetropolisHastings.decide_step self) initial_state
         (burn_in + n_samples * thin) all_samples
    /\ (0 <= accepted <= Z.of_nat (burn_in + n_samples * thin) - 1)%Z
    /\ slice burn_in thin all_samples = Ok kept
    /\ length kept = n_samples
    /\ Forall (fun row => length row = length initial_state) kept
    /\ MetropolisHastings.sample self n_samples initial_state burn_in thin g
       = Ok (({| MetropolisHastings.target_log_density :=
                   MetropolisHastings.target_log_density self;
                 MetropolisHastings.proposal_std := MetropolisHastings.proposal_std self;
                 MetropolisHastings.samples := Some kept;
                 MetropolisHastings.acceptance_rate :=
                   Some (truediv accepted (Z.of_nat (burn_in + n_samples * thin))) |},
              kept), g').
Proof.
  intros Hstd Hthin Hpos.
  destruct (mh_run self n_samples initial_state burn_in thin g Hstd Hpos)
    as (all & acc & g' & Hrun & Hchain & Hacc & Hrows).
  destruct (slice_spec _ burn_in thin n_samples all Hthin (proj1 Hchain) Hrows)
    as (kept & Hslice & Hlen & Hkept).
  exists all, acc, g', kept. repeat split; try assumption; try lia.
  - apply Hchain.
  - apply Hchain.
  - apply Hchain.
  - unfold MetropolisHastings.sample.
    rewrite (bind_ok _ _ _ _ _ Hrun). rewrite Hslice. reflexivity.
Qed.

(** *** Hamiltonian Monte Carlo *)

Section Shapes.
Variable self : HamiltonianMC.sampler.
Variable dim : nat.
Hypothesis grad_shape :
  forall v, length v = dim -> length (HamiltonianMC.grad_log_density self v) = dim.

Lemma hmc_full_steps_length k : forall q p,
  length q = dim -> length p = dim ->
  length (HamiltonianMC.full_steps self k (q, p)).1 = dim
  /\ length (HamiltonianMC.full_steps self k (q, p)).2 = dim.
Proof.
  induction k as [|k IH]; intros q p Hq Hp; [split; assumption|].
  change (HamiltonianMC.full_steps self (S k) (q, p))
    with (HamiltonianMC.full_steps self k
            (vadd q (vscale (HamiltonianMC.epsilon self) p),
             vadd p (vscale (HamiltonianMC.epsilon self)
                       (HamiltonianMC.grad_log_density self
                          (vadd q (vscale (HamiltonianMC.epsilon self) p)))))).
  assert (Hq1 : length (vadd q (vscale (HamiltonianMC.epsilon self) p)) = dim).
  { rewrite vadd_length; [assumption|]. rewrite vscale_length. congruence. }
  apply IH; [assumption|].
  rewrite vadd_length; [assumption|]. rewrite vscale_length, grad_shape by assumption.
  congruence.
Qed.

Lemma hmc_leapfrog_length q p :
  length q = dim -> length p = dim ->
  length (HamiltonianMC.leapfrog self q p).1 = dim.
Proof.
  intros Hq Hp. unfold HamiltonianMC.leapfrog.
  set (p1 := vadd p _).
  assert (Hp1 : length p1 = dim).
  { unfold p1. rewrite vadd_length; [assumption|].
    rewrite vscale_length, grad_shape by assumption. congruence. }
  destruct (hmc_full_steps_length (Z.to_nat (HamiltonianMC.L self - 1)) q p1 Hq Hp1)
    as [Ha Hb].
  destruct (HamiltonianMC.full_steps self _ (q, p1)) as [a b]. simpl in *.
  rewrite vadd_length; [assumption|]. rewrite vscale_length. congruence.
Qed.

End Shapes.

Lemma hmc_decide_step_total (self : HamiltonianMC.sampler) dim cur g :
  exists next acc g', HamiltonianMC.decide_step self dim cur g = Ok ((next, acc), g').
Proof.
  unfold HamiltonianMC.decide_step. rewrite np_uniform_unit. unfold bind, draw, ret.
  destruct (randn dim g) as [p g1].
  destruct (HamiltonianMC.leapfrog self cur p) as [q' p'].
  destruct (uniform _ _ g1) as [u g2].
  destruct (flt u _); eexists _, _, _; reflexivity.
Qed.

(** What one decision does: the proposal is the end of the leapfrog
    trajectory from the current state with the momentum drawn. *)
Lemma hmc_decide_step_spec (self : HamiltonianMC.sampler) dim cur g next acc g' :
  HamiltonianMC.decide_step self dim cur g = Ok ((next, acc), g') ->
  let '(p, g1) := randn dim g in
  let proposal := HamiltonianMC.leapfrog self cur p in
  let '(u, g2) := uniform (Finite 0) (Finite 1) g1 in
  acc = flt u (HamiltonianMC.accept_prob
                 (HamiltonianMC.hamiltonian self cur p)
                 (HamiltonianMC.hamiltonian self proposal.1 proposal.2))
  /\ next = (if acc then proposal.1 else cur)
  /\ g' = g2.
Proof.
  unfold HamiltonianMC.decide_step. rewrite np_uniform_unit. unfold bind, draw, ret.
  destruct (randn dim g) as [p g1].
  destruct (HamiltonianMC.leapfrog self cur p) as [q' p'].
  destruct (uniform _ _ g1) as [u g2]. simpl.
  destruct (flt u _); intros [= <- <- <-]; auto.
Qed.

Lemma hmc_decide_step_length (self : HamiltonianMC.sampler) dim cur g next acc g' :
  (forall v, length v = dim -> length (HamiltonianMC.grad_log_density self v) = dim) ->
  length cur = dim ->
  HamiltonianMC.decide_step self dim cur g = Ok ((next, acc), g') ->
  length next = dim.
Proof.
  intros Hgrad Hcur Hstep. apply hmc_decide_step_spec in Hstep.
  pose proof (randn_size dim g) as Hp.
  destruct (randn dim g) as [p g1]. simpl in Hp.
  destruct (uniform _ _ g1) as [u g2].
  destruct Hstep as (_ & -> & _).
  destruct acc; [apply hmc_leapfrog_length; assumption | assumption].
Qed.

Lemma hmc_run (self : HamiltonianMC.sampler) n_samples initial_state burn_in thin g :
  (forall v, length v = length initial_state ->
     length (HamiltonianMC.grad_log_density self v) = length initial_state) ->
  (1 <= burn_in + n_samples * thin)%nat ->
  exists all_samples accepted g',
    HamiltonianMC.run self n_samples initial_state burn_in thin g
    = Ok ((all_samples, accepted), g')
    /\ chain_of (HamiltonianMC.decide_step self (length initial_state)) initial_state
         (burn_in + n_samples * thin) all_samples
    /\ (0 <= accepted <= Z.of_nat (burn_in + n_samples * thin) - 1)%Z
    /\ Forall (fun row => length row = length initial_state) all_samples.
Proof.
  intros Hgrad Hpos.
  apply (chain_loop (HamiltonianMC.decide_step self (length initial_state))
           initial_state (burn_in + n_samples * thin) g); [| |assumption].
  - apply hmc_decide_step_total.
  - intros cur g1 next a g2 Hcur Hstep.
    apply (hmc_decide_step_length _ _ _ _ _ _ _ Hgrad Hcur Hstep).
Qed.

Lemma hmc_sample (self : HamiltonianMC.sampler) n_samples initial_state burn_in thin g :
  (forall v, length v = length initial_state ->
     length (HamiltonianMC.grad_log_density self v) = length initial_state) ->
  (1 <= thin)%nat -> (1 <= burn_in + n_samples * thin)%nat ->
  exists all_samples accepted g' kept,
    HamiltonianMC.run self n_samples initial_state burn_in thin g
    = Ok ((all_samples, accepted), g')
    /\ chain_of (HamiltonianMC.decide_step self (length initial_state)) initial_state
         (burn_in + n_samples * thin) all_samples
    /\ (0 <= accepted <= Z.of_nat (burn_in + n_samples * thin) - 1)%Z
    /\ slice burn_in thin all_samples = Ok kept
    /\ length kept = n_samples
    /\ Forall (fun row => length row = length initial_state) kept
    /\ HamiltonianMC.sample self n_samples initial_state burn_in thin g
       = Ok (({| HamiltonianMC.log_density := HamiltonianMC.log_density self;
                 HamiltonianMC.grad_log_density := HamiltonianMC.grad_log_density self;
                 HamiltonianMC.epsilon := HamiltonianMC.epsilon self;
                 HamiltonianMC.L := HamiltonianMC.L self;
                 HamiltonianMC.samples := Some kept;
                 HamiltonianMC.acceptance_rate :=
                   Some (truediv accepted (Z.of_nat (burn_in + n_samples * thin))) |},
              kept), g').
Proof.
  intros Hgrad Hthin Hpos.
  destruct (hmc_run self n_samples initial_state burn_in thin g Hgrad Hpos)
    as (all & acc & g' & Hrun & Hchain & Hacc & Hrows).
  destruct (slice_spec _ burn_in thin n_samples all Hthin (proj1 Hchain) Hrows)
    as (kept & Hslice & Hlen & Hkept).
  exists all, acc, g', kept. repeat split; try assumption; try lia.
  - apply Hchain.
  - apply Hchain.
  - apply Hchain.
  - unfold HamiltonianMC.sample.
    rewrite (bind_ok _ _ _ _ _ Hrun). rewrite Hslice. reflexivity.
Qed.

(** *** A NaN energy or density is accepted

    [min(1.0, nan)] is [1.0], and a uniform draw is below 1. *)

Lemma uniform_below_one g : flt (uniform (Finite 0) (Finite 1) g).1 (Finite 1) = true.
Proof.
  destruct (uniform_unit g) as (r & -> & Hr). simpl. apply Rltb_true. lra.
Qed.

Lemma uniform_not_below_zero g : flt (uniform (Finite 0) (Finite 1) g).1 (Finite 0) = false.
Proof.
  destruct (uniform_unit g) as (r & -> & Hr). simpl. apply Rltb_false. lra.
Qed.

Lemma mh_acceptance_probability_nan (self : MetropolisHastings.sampler) cur proposed :
  MetropolisHastings.target_log_density self proposed = NaN ->
  MetropolisHastings.acceptance_probability self cur proposed = Finite 1.
Proof.
  intros Hnan. unfold MetropolisHastings.acceptance_probability. rewrite Hnan. reflexivity.
Qed.

Lemma mh_nan_accepted (self : MetropolisHastings.sampler) cur g :
  let proposed :=
    vadd cur (normal (Finite 0) (MetropolisHastings.proposal_std self) (length cur) g).1 in
  flt (MetropolisHastings.proposal_std self) (Finite 0) = false ->
  MetropolisHastings.target_log_density self proposed = NaN ->
  exists g', MetropolisHastings.decide_step self cur g = Ok ((proposed, true), g').
Proof.
  intros proposed Hstd Hnan.
  unfold MetropolisHastings.decide_step, MetropolisHastings.propose.
  rewrite np_normal_ok, np_uniform_unit by assumption.
  unfold bind at 1. rewrite bind_draw. unfold ret at 1.
  fold proposed. rewrite bind_draw.
  rewrite (mh_acceptance_probability_nan self cur proposed Hnan).
  rewrite uniform_below_one. eexists; reflexivity.
Qed.

(** A proposal of density zero ([-inf] in log space) is rejected when the
    current density is finite. *)
Lemma mh_neg_inf_rejected (self : MetropolisHastings.sampler) cur g :
  let proposed :=
    vadd cur (normal (Finite 0) (MetropolisHastings.proposal_std self) (length cur) g).1 in
  flt (MetropolisHastings.proposal_std self) (Finite 0) = false ->
  MetropolisHastings.target_log_density self proposed = NInf ->
  is_finite (MetropolisHastings.target_log_density self cur) ->
  MetropolisHastings.acceptance_probability self cur proposed = Finite 0
  /\ exists g', MetropolisHastings.decide_step self cur g = Ok ((cur, false), g').
Proof.
  intros proposed Hstd Hinf Hfin.
  assert (Hp : MetropolisHastings.acceptance_probability self cur proposed = Finite 0).
  { unfold MetropolisHastings.acceptance_probability. rewrite Hinf.
    destruct (MetropolisHastings.target_log_density self cur); try contradiction.
    simpl. unfold pymin. simpl. rewrite Rltb_true by lra. reflexivity. }
  split; [exact Hp|].
  unfold MetropolisHastings.decide_step, MetropolisHastings.propose.
  rewrite np_normal_ok, np_uniform_unit by assumption.
  unfold bind at 1. rewrite bind_draw. unfold ret at 1.
  fold proposed. rewrite bind_draw. rewrite Hp.
  rewrite uniform_not_below_zero. eexists; reflexivity.
Qed.

Lemma hmc_accept_prob_nan (H_current : npfloat) :
  HamiltonianMC.accept_prob H_current NaN = Finite 1.
Proof. reflexivity. Qed.

End FixedLength.

(** The acceptance rate [accepted / total] when at most [total - 1]
    proposals were accepted. *)
Lemma truediv_rate (accepted : Z) (total : nat) :
  (1 <= total)%nat -> (0 <= accepted <= Z.of_nat total - 1)%Z ->
  exists r, truediv accepted (Z.of_nat total) = Finite r
            /\ 0 <= r <= (INR total - 1) / INR total
            /\ (INR total - 1) / INR total < 1.
Proof.
  intros Htotal Hacc.
  assert (HT : 1 <= INR total) by (apply (le_INR 1); assumption).
  exists (IZR accepted / INR total).
  unfold truediv, of_int, fdiv. rewrite <- INR_IZR_INZ.
  rewrite Rltb_true by lra. split; [reflexivity|].
  assert (Ha : 0 <= IZR accepted <= INR total - 1).
  { rewrite INR_IZR_INZ. split.
    - apply IZR_le. lia.
    - rewrite <- (minus_IZR _ 1). apply IZR_le. lia. }
  assert (Hinv : 0 < / INR total) by (apply Rinv_0_lt_compat; lra).
  unfold Rdiv. repeat split.
  - apply Rmult_le_pos; lra.
  - apply Rmult_le_compat_r; lra.
  - apply (Rmult_lt_reg_r (INR total)); [lra|].
    rewrite Rmult_assoc, Rinv_l by lra. lra.
Qed.

(** ** Counts of valid states and the draws that select a proposal *)

Lemma truediv_pos (a b : Z) : (1 <= b)%Z -> truediv a b = Finite (IZR a / IZR b).
Proof.
  intros Hb. unfold truediv, of_int, fdiv.
  rewrite Rltb_true; [reflexivity|]. apply (IZR_lt 0). lia.
Qed.

Lemma flt_true_not_nan (a b : npfloat) : flt a b = true -> b <> NaN.
Proof. intros Hlt ->. rewrite flt_nan_r in Hlt. discriminate. Qed.

(** The second subtree's proposal is only chosen when that subtree counts
    a valid state. *)
Lemma choose_second_valid (n1 n2 : Z) (r : R) :
  (0 <= n1)%Z -> (0 <= n2)%Z -> 0 <= r < 1 ->
  flt (Finite r) (truediv n2 (pymax_int (n1 + n2) 1)) = true -> (1 <= n2)%Z.
Proof.
  intros H1 H2 Hr Hlt.
  destruct (Z.eq_dec n2 0%Z) as [->|Hne]; [|lia].
  rewrite truediv_pos in Hlt by (unfold pymax_int; destruct (_ <? _)%Z eqn:E; lia).
  simpl in Hlt. apply Rltb_spec in Hlt. unfold Rdiv in Hlt. rewrite Rmult_0_l in Hlt. lra.
Qed.

(** The first subtree's proposal is only kept when that subtree counts a
    valid state, if either of them does. *)
Lemma choose_first_valid (n1 n2 : Z) (r : R) :
  (0 <= n1)%Z -> (0 <= n2)%Z -> (1 <= n1 + n2)%Z -> 0 <= r < 1 ->
  flt (Finite r) (truediv n2 (pymax_int (n1 + n2) 1)) = false -> (1 <= n1)%Z.
Proof.
  intros H1 H2 Hsum Hr Hlt.
  destruct (Z.eq_dec n1 0%Z) as [->|Hne]; [|lia].
  replace (pymax_int (0 + n2) 1) with n2 in Hlt
    by (unfold pymax_int; destruct (Z.ltb_spec (0 + n2) 1); lia).
  rewrite truediv_pos in Hlt by lia.
  simpl in Hlt. rewrite Rltb_true in Hlt; [discriminate|].
  unfold Rdiv. rewrite Rinv_r; [lra|]. apply not_0_IZR. lia.
Qed.

(** A proposal is only accepted from a subtree that counts a valid state. *)
Lemma accept_valid (n' n : Z) (r : R) :
  (0 <= n')%Z -> (1 <= n)%Z -> 0 <= r < 1 ->
  flt (Finite r) (pymin (Finite 1) (truediv n' n)) = true -> (1 <= n')%Z.
Proof.
  intros H1 H2 Hr Hlt.
  destruct (Z.eq_dec n' 0%Z) as [->|Hne]; [|lia].
  rewrite truediv_pos in Hlt by lia.
  unfold Rdiv in Hlt. rewrite Rmult_0_l in Hlt.
  unfold pymin in Hlt. simpl in Hlt. rewrite (Rltb_true 0 1) in Hlt by lra.
  simpl in Hlt. apply Rltb_spec in Hlt. lra.
Qed.

Lemma vsum_finite (a : vec) : Forall is_finite a -> is_finite (vsum a).
Proof.
  unfold vsum. generalize (Finite 0) (I : is_finite (Finite 0)).
  induction a as [|x a IH]; intros acc Hacc Ha; [exact Hacc|].
  apply Forall_cons in Ha as [Hx Ha]. simpl. apply IH; [|assumption].
  destruct acc, x; simpl in *; tauto.
Qed.

Lemma vsquare_finite (a : vec) : Forall is_finite a -> Forall is_finite (vsquare a).
Proof.
  intros Ha. unfold vsquare. induction Ha as [|x a Hx Ha IH]; simpl; constructor.
  - destruct x; simpl in *; tauto.
  - exact IH.
Qed.

Lemma admissible_cases (a : npfloat) : admissible a -> is_finite a \/ a = NInf.
Proof. intros [Hn Hp]. destruct a; simpl; auto; contradiction. Qed.

(** ** The tree of NUTS *)

Section Tree.
Context `{RandomState}.
Import NUTS.

Lemma leapfrog_length (self : sampler) dim q p epsilon :
  well_shaped (grad_log_density self) dim ->
  length q = dim -> length p = dim ->
  length (leapfrog self q p epsilon).1 = dim /\ length (leapfrog self q p epsilon).2 = dim.
Proof.
  intros Hgrad Hq Hp. unfold leapfrog. cbn [fst snd].
  assert (Hp1 : length (vadd p (vscale (fmul (Finite (1 / 2)) epsilon)
                                  (grad_log_density self q))) = dim).
  { rewrite vadd_length; [assumption|]. rewrite vscale_length, Hgrad by assumption.
    congruence. }
  assert (Hq1 : length (vadd q (vscale epsilon
                  (vadd p (vscale (fmul (Finite (1 / 2)) epsilon)
                             (grad_log_density self q))))) = dim).
  { rewrite vadd_length; [assumption|]. rewrite vscale_length. congruence. }
  split; [exact Hq1|].
  rewrite vadd_length; [assumption|]. rewrite vscale_length, Hgrad by assumption.
  congruence.
Qed.

(** The energy at a state of admissible log-density with a finite
    momentum gives [np.random.uniform] a finite range. *)
Lemma slice_range_finite (self : sampler) q p :
  admissible (log_density self q) -> Forall is_finite p ->
  is_finite (fsub (fexp (fneg (hamiltonian self q p))) (Finite 0)).
Proof.
  intros Hq Hp. unfold hamiltonian.
  pose proof (vsum_finite _ (vsquare_finite _ Hp)) as Hk.
  destruct (vsum (vsquare p)) as [k| | |]; try contradiction.
  destruct (admissible_cases _ Hq) as [Hf | ->].
  - destruct (log_density self q); try contradiction. exact I.
  - simpl. exact I.
Qed.

(** The recursion of [build_tree] ends after [j + 1] nested calls. *)
Lemma build_tree_terminates (self : sampler) (j : nat) :
  forall fuel q p u v epsilon q0 p0 g,
    (j < fuel)%nat ->
    exists t g', build_tree fuel self q p u v (Z.of_nat j) epsilon q0 p0 g = Ok (t, g').
Proof.
  induction j as [|j IH]; intros fuel q p u v epsilon q0 p0 g Hfuel;
    (destruct fuel as [|fuel]; [lia|]).
  - cbn [build_tree Z.of_nat Z.eqb].
    destruct (leapfrog self q p (fmul (of_int v) epsilon)) as [q1 p1].
    eexists _, _; reflexivity.
  - cbn [build_tree].
    replace (Z.of_nat (S j) =? 0)%Z with false by (symmetry; apply Z.eqb_neq; lia).
    replace (Z.of_nat (S j) - 1)%Z with (Z.of_nat j) by lia.
    destruct (IH fuel q p u v epsilon q0 p0 g ltac:(lia)) as (t1 & g1 & H1).
    rewrite (bind_ok _ _ _ _ _ H1).
    destruct (s_prime t1 =? 1)%Z; [|eexists _, _; reflexivity].
    destruct (v =? -1)%Z.
    + destruct (IH fuel (q_bwd t1) (p_bwd t1) u v epsilon q0 p0 g1 ltac:(lia))
        as (t2 & g2 & H2).
      rewrite (bind_ok _ _ _ _ _ H2). cbv beta iota.
      rewrite bind_draw.
      destruct (flt _ _); eexists _, _; reflexivity.
    + destruct (IH fuel (q_fwd t1) (p_fwd t1) u v epsilon q0 p0 g1 ltac:(lia))
        as (t2 & g2 & H2).
      rewrite (bind_ok _ _ _ _ _ H2). cbv beta iota.
      rewrite bind_draw.
      destruct (flt _ _); eexists _, _; reflexivity.
Qed.

(** On a negative depth [j == 0] never holds: the recursion has no end. *)
Lemma build_tree_negative_depth (self : sampler) (fuel : nat) :
  forall q p u v j epsilon q0 p0 g,
    (j < 0)%Z -> build_tree fuel self q p u v j epsilon q0 p0 g = OutOfFuel.
Proof.
  induction fuel as [|fuel IH]; intros q p u v j epsilon q0 p0 g Hj; [reflexivity|].
  cbn [build_tree].
  replace (j =? 0)%Z with false by (symmetry; apply Z.eqb_neq; lia).
  unfold bind at 1. rewrite IH by lia. reflexivity.
Qed.

(** The base case. *)
Lemma build_tree_base (self : sampler) fuel q p u v epsilon q0 p0 g :
  build_tree (S fuel) self q p u v 0 epsilon q0 p0 g
  = let q' := (leapfrog self q p (fmul (of_int v) epsilon)).1 in
    let p' := (leapfrog self q p (fmul (of_int v) epsilon)).2 in
    let H' := hamiltonian self q' p' in
    let H0 := hamiltonian self q0 p0 in
    Ok ({| q_new := q'; p_new := p'; q_fwd := q'; p_fwd := p';
           q_bwd := q'; p_bwd := p'; q_prime := q'; p_prime := p';
           n_prime := int_of_bool (flt u (fexp (fneg H')));
           s_prime := int_of_bool (flt u (fexp (fsub (Finite 1000) H')));
           alpha_prime := pymin (Finite 1) (fexp (fsub H0 H'));
           n_alpha_prime := 1 |}, g).
Proof.
  cbn [build_tree Z.eqb].
  destruct (leapfrog self q p (fmul (of_int v) epsilon)) as [q1 p1]. cbn [fst snd].
  unfold fsub. rewrite (fadd_comm (hamiltonian self q0 p0)). reflexivity.
Qed.

(** The recursive case: the first subtree, then, if its flag is 1, the
    second one from the endpoint that faces [v], and the merge of the two. *)
Lemma build_tree_merge (self : sampler) fuel q p u v j epsilon q0 p0 g t g' :
  j <> 0%Z ->
  build_tree (S fuel) self q p u v j epsilon q0 p0 g = Ok (t, g') ->
  exists t1 g1,
    build_tree fuel self q p u v (j - 1) epsilon q0 p0 g = Ok (t1, g1)
    /\ (s_prime t1 <> 1%Z -> t = t1 /\ g' = g1)
    /\ (s_prime t1 = 1%Z ->
        exists t2 g2,
          build_tree fuel self
            (if (v =? -1)%Z then q_bwd t1 else q_fwd t1)
            (if (v =? -1)%Z then p_bwd t1 else p_fwd t1)
            u v (j - 1) epsilon q0 p0 g1 = Ok (t2, g2)
          /\ g' = (rand g2).2
          /\ let second :=
               flt (rand g2).1
                 (truediv (n_prime t2) (pymax_int (n_prime t1 + n_prime t2) 1)) in
             let qf := if (v =? -1)%Z then q_fwd t1 else q_fwd t2 in
             let pf := if (v =? -1)%Z then p_fwd t1 else p_fwd t2 in
             let qb := if (v =? -1)%Z then q_new t2 else q_bwd t1 in
             let pb := if (v =? -1)%Z then p_new t2 else p_bwd t1 in
             t = {| q_new := q_new t1; p_new := p_new t1;
                    q_fwd := qf; p_fwd := pf; q_bwd := qb; p_bwd := pb;
                    q_prime := if second then q_prime t2 else q_prime t1;
                    p_prime := if second then p_prime t2 else p_prime t1;
                    n_prime := (n_prime t1 + n_prime t2)%Z;
                    s_prime := no_u_turn (s_prime t2) qf pf qb pb;
                    alpha_prime := fadd (alpha_prime t1) (alpha_prime t2);
                    n_alpha_prime := (n_alpha_prime t1 + n_alpha_prime t2)%Z |}).
Proof.
  intros Hj. cbn [build_tree].
  replace (j =? 0)%Z with false by (symmetry; apply Z.eqb_neq; lia).
  unfold bind at 1.
  destruct (build_tree fuel self q p u v (j - 1) epsilon q0 p0 g) as [[t1 g1]| |];
    try discriminate.
  intros Hrun. exists t1, g1. split; [reflexivity|].
  destruct (Z.eqb_spec (s_prime t1) 1) as [Hs|Hs].
  - split; [intros Hn; contradiction|]. intros _.
    unfold bind at 1 in Hrun.
    destruct (v =? -1)%Z.
    + destruct (build_tree fuel self (q_bwd t1) _ _ _ _ _ _ _ g1) as [[t2 g2]| |];
        try discriminate.
      exists t2, g2. split; [reflexivity|].
      unfold bind, draw, ret in Hrun. destruct (rand g2) as [r g3]. cbn [fst snd].
      destruct (flt r _); injection Hrun as <- <-; split; reflexivity.
    + destruct (build_tree fuel self (q_fwd t1) _ _ _ _ _ _ _ g1) as [[t2 g2]| |];
        try discriminate.
      exists t2, g2. split; [reflexivity|].
      unfold bind, draw, ret in Hrun. destruct (rand g2) as [r g3]. cbn [fst snd].
      destruct (flt r _); injection Hrun as <- <-; split; reflexivity.
  - split; [|intros Hn; contradiction]. intros _.
    unfold ret in Hrun. injection Hrun as <- <-. split; reflexivity.
Qed.

(** The U-turn test as a condition. *)
Lemma no_u_turn_spec (s_sub : Z) (q_fwd p_fwd q_bwd p_bwd : vec) :
  no_u_turn s_sub q_fwd p_fwd q_bwd p_bwd = 1%Z
  <-> s_sub = 1%Z
      /\ fge (dot (vsub q_fwd q_bwd) p_bwd) (Finite 0) = true
      /\ fge (dot (vsub q_fwd q_bwd) p_fwd) (Finite 0) = true.
Proof.
  unfold no_u_turn.
  destruct (fge (dot (vsub q_fwd q_bwd) p_bwd) (Finite 0));
    destruct (fge (dot (vsub q_fwd q_bwd) p_fwd) (Finite 0));
    simpl; split; intros; try lia; intuition (try discriminate; try lia).
Qed.

(** Every tree [build_tree] returns is well formed. *)
Lemma build_tree_ok (self : sampler) dim :
  well_shaped (grad_log_density self) dim ->
  forall fuel q p u v j epsilon q0 p0 g t g',
    length q = dim -> length p = dim ->
    build_tree fuel self q p u v j epsilon q0 p0 g = Ok (t, g') ->
    tree_ok self dim t.
Proof.
  intros Hgrad.
  induction fuel as [|fuel IH]; intros q p u v j epsilon q0 p0 g t g' Hq Hp Hrun;
    [discriminate|].
  destruct (Z.eq_dec j 0%Z) as [->|Hj].
  - rewrite build_tree_base in Hrun. cbv zeta in Hrun. injection Hrun as <- <-.
    destruct (leapfrog_length self dim q p (fmul (of_int v) epsilon) Hgrad Hq Hp)
      as [Hq' Hp'].
    unfold tree_ok. cbn [q_new p_new q_fwd p_fwd q_bwd p_bwd q_prime p_prime n_prime].
    repeat (split; [assumption|]). split.
    + destruct (flt u _); simpl; lia.
    + intros Hn Hnan.
      destruct (flt u _) eqn:Hlt; [|simpl in Hn; lia].
      apply flt_true_not_nan in Hlt. apply Hlt.
      unfold hamiltonian. rewrite Hnan. reflexivity.
  - destruct (build_tree_merge self fuel q p u v j epsilon q0 p0 g t g' Hj Hrun)
      as (t1 & g1 & H1 & Hstop & Hmerge).
    pose proof (IH _ _ _ _ _ _ _ _ _ _ _ Hq Hp H1) as Hok1.
    destruct (Z.eq_dec (s_prime t1) 1%Z) as [Hs|Hs];
      [|destruct (Hstop Hs) as [-> _]; exact Hok1].
    destruct (Hmerge Hs) as (t2 & g2 & H2 & _ & Ht).
    destruct Hok1 as (A1 & A2 & A3 & A4 & A5 & A6 & A7 & A8 & A9 & A10).
    assert (Hok2 : tree_ok self dim t2).
    { eapply IH; [| |exact H2]; destruct (v =? -1)%Z; assumption. }
    destruct Hok2 as (B1 & B2 & B3 & B4 & B5 & B6 & B7 & B8 & B9 & B10).
    cbv zeta in Ht. subst t. unfold tree_ok.
    cbn [q_new p_new q_fwd p_fwd q_bwd p_bwd q_prime p_prime n_prime].
    destruct (rand_unit g2) as (r & Hr & Hrange). rewrite Hr.
    split; [assumption|]. split; [assumption|].
    split; [destruct (v =? -1)%Z; assumption|].
    split; [destruct (v =? -1)%Z; assumption|].
    split; [destruct (v =? -1)%Z; assumption|].
    split; [destruct (v =? -1)%Z; assumption|].
    destruct (flt (Finite r) _) eqn:Hsecond.
    + split; [assumption|]. split; [assumption|]. split; [lia|].
      intros _. apply B10.
      apply (choose_second_valid (n_prime t1) (n_prime t2) r); assumption.
    + split; [assumption|]. split; [assumption|]. split; [lia|].
      intros Hsum. apply A10.
      apply (choose_first_valid (n_prime t1) (n_prime t2) r); assumption.
Qed.

(** One pass of the doubling loop: a subtree [t] of depth [j] is built
    from the endpoint that faces the direction drawn; [j] goes up by one,
    the flag becomes the U-turn test on the new endpoints, and the draw
    either stays or moves to the proposal of [t], counted as accepted. *)
Lemma doubling_spec (self : sampler) fuel u epsilon q p st g :
  (0 <= t_j st)%Z -> (Z.to_nat (t_j st) < fuel)%nat ->
  exists st' g' t v g1 g2,
    doubling fuel self u epsilon q p st g = Ok (st', g')
    /\ build_tree fuel self
         (if (v =? -1)%Z then t_q_bwd st else t_q_fwd st)
         (if (v =? -1)%Z then t_p_bwd st else t_p_fwd st)
         u v (t_j st) epsilon q p g1 = Ok (t, g2)
    /\ t_j st' = (t_j st + 1)%Z
    /\ t_n st' = (t_n st + n_prime t)%Z
    /\ t_alpha st' = Some (alpha_prime t, n_alpha_prime t)
    /\ t_q_fwd st' = (if (v =? -1)%Z then t_q_fwd st else q_fwd t)
    /\ t_p_fwd st' = (if (v =? -1)%Z then t_p_fwd st else p_fwd t)
    /\ t_q_bwd st' = (if (v =? -1)%Z then q_new t else t_q_bwd st)
    /\ t_p_bwd st' = (if (v =? -1)%Z then p_new t else t_p_bwd st)
    /\ t_s st' = no_u_turn (s_prime t) (t_q_fwd st') (t_p_fwd st')
                   (t_q_bwd st') (t_p_bwd st')
    /\ ((t_accepted st' = t_accepted st /\ t_q_new st' = t_q_new st)
        \/ (t_accepted st' = (t_accepted st + 1)%Z /\ t_q_new st' = q_prime t
            /\ s_prime t = 1%Z
            /\ flt (rand g2).1 (pymin (Finite 1) (truediv (n_prime t) (t_n st))) = true)).
Proof.
  intros Hj Hfuel. unfold doubling. rewrite bind_draw.
  set (v := (2 * int_of_bool (flt (rand g).1 (Finite (1 / 2))) - 1)%Z).
  set (g1 := (rand g).2).
  assert (Hbt : exists t g2,
    build_tree fuel self
      (if (v =? -1)%Z then t_q_bwd st else t_q_fwd st)
      (if (v =? -1)%Z then t_p_bwd st else t_p_fwd st)
      u v (t_j st) epsilon q p g1 = Ok (t, g2)).
  { rewrite <- (Z2Nat.id (t_j st)) by assumption.
    apply build_tree_terminates. assumption. }
  destruct Hbt as (t & g2 & Hbt).
  assert (Hbt' :
    (if (v =? -1)%Z
     then build_tree fuel self (t_q_bwd st) (t_p_bwd st) u v (t_j st) epsilon q p
     else build_tree fuel self (t_q_fwd st) (t_p_fwd st) u v (t_j st) epsilon q p) g1
    = Ok (t, g2)).
  { destruct (v =? -1)%Z; exact Hbt. }
  rewrite (bind_ok _ _ _ _ _ Hbt').
  exists
    (let qn :=
       if (s_prime t =? 1)%Z
       then (if flt (rand g2).1 (pymin (Finite 1) (truediv (n_prime t) (t_n st)))
             then (q_prime t, (t_accepted st + 1)%Z)
             else (t_q_new st, t_accepted st))
       else (t_q_new st, t_accepted st) in
     {| t_q_fwd := if (v =? -1)%Z then t_q_fwd st else q_fwd t;
        t_p_fwd := if (v =? -1)%Z then t_p_fwd st else p_fwd t;
        t_q_bwd := if (v =? -1)%Z then q_new t else t_q_bwd st;
        t_p_bwd := if (v =? -1)%Z then p_new t else t_p_bwd st;
        t_q_new := qn.1;
        t_j := (t_j st + 1)%Z;
        t_n := (t_n st + n_prime t)%Z;
        t_s := no_u_turn (s_prime t)
                 (if (v =? -1)%Z then t_q_fwd st else q_fwd t)
                 (if (v =? -1)%Z then t_p_fwd st else p_fwd t)
                 (if (v =? -1)%Z then q_new t else t_q_bwd st)
                 (if (v =? -1)%Z then p_new t else t_p_bwd st);
        t_accepted := qn.2;
        t_alpha := Some (alpha_prime t, n_alpha_prime t) |}),
    (if (s_prime t =? 1)%Z then (rand g2).2 else g2), t, v, g1, g2.
  split.
  { unfold bind, draw, ret.
    destruct (v =? -1)%Z; destruct (s_prime t =? 1)%Z;
      destruct (rand g2) as [r' g3]; cbn [fst snd];
      try destruct (flt r' _); reflexivity. }
  split; [exact Hbt|].
  cbn [t_j t_n t_alpha t_s t_q_fwd t_p_fwd t_q_bwd t_p_bwd t_accepted t_q_new].
  repeat (split; [reflexivity|]).
  destruct (Z.eqb_spec (s_prime t) 1) as [Hs|Hs]; [|left; split; reflexivity].
  destruct (flt (rand g2).1 _) eqn:Hacc; cbn [fst snd]; [right | left];
    repeat split; auto.
Qed.

(** A pass keeps the variables of the trajectory well formed. *)
Lemma doubling_ok (self : sampler) dim fuel u epsilon q p st g st' g' :
  well_shaped (grad_log_density self) dim ->
  traj_ok self dim st -> (Z.to_nat (t_j st) < fuel)%nat ->
  doubling fuel self u epsilon q p st g = Ok (st', g') ->
  traj_ok self dim st'.
Proof.
  intros Hgrad (L1 & L2 & L3 & L4 & L5 & Hj & Hn & Hvalid) Hfuel Hrun.
  destruct (doubling_spec self fuel u epsilon q p st g Hj Hfuel)
    as (st1 & g1 & t & v & ga & gb & Hd & Hbt & Hj1 & Hn1 & _ & Hqf & Hpf & Hqb & Hpb
        & _ & Hacc).
  rewrite Hd in Hrun. injection Hrun as <- <-.
  assert (Hok : tree_ok self dim t).
  { eapply (build_tree_ok self dim Hgrad); [| |exact Hbt]; destruct (v =? -1)%Z; assumption. }
  destruct Hok as (B1 & B2 & B3 & B4 & B5 & B6 & B7 & B8 & B9 & B10).
  unfold traj_ok. rewrite Hqf, Hpf, Hqb, Hpb, Hj1, Hn1.
  split; [destruct (v =? -1)%Z; assumption|].
  split; [destruct (v =? -1)%Z; assumption|].
  split; [destruct (v =? -1)%Z; assumption|].
  split; [destruct (v =? -1)%Z; assumption|].
  destruct Hacc as [[_ ->]|(_ & -> & _ & Hlt)].
  - repeat split; try assumption; lia.
  - destruct (rand_unit gb) as (r & Hr & Hrange). rewrite Hr in Hlt.
    split; [assumption|]. split; [lia|]. split; [lia|].
    apply B10. apply (accept_valid (n_prime t) (t_n st) r); assumption.
Qed.

(** The doubling loop stops: each pass raises [j], and the loop only runs
    while [j < max_tree_depth].  Its draw is the one it started with when
    no proposal was accepted, and the proposal of a subtree otherwise. *)
Lemma tree_loop_spec (self : sampler) fuel_tree u epsilon q p :
  (10 <= fuel_tree)%nat ->
  forall fuel st g,
    (0 <= t_j st <= max_tree_depth)%Z ->
    (Z.to_nat (max_tree_depth - t_j st) < fuel)%nat ->
    exists st' g',
      tree_loop fuel_tree fuel self u epsilon q p st g = Ok (st', g')
      /\ (t_j st <= t_j st' <= max_tree_depth)%Z
      /\ ((t_accepted st' = t_accepted st /\ t_q_new st' = t_q_new st)
          \/ ((t_accepted st < t_accepted st')%Z
              /\ proposed_in fuel_tree self u epsilon q p (t_q_new st')))
      /\ ((t_s st = 1%Z /\ (t_j st < max_tree_depth)%Z) \/ t_alpha st <> None ->
          t_alpha st' <> None).
Proof.
  intros Hft. unfold max_tree_depth.
  induction fuel as [|fuel IH]; intros st g Hj Hfuel; [lia|].
  cbn [tree_loop]. unfold max_tree_depth.
  destruct (Z.eqb_spec (t_s st) 1) as [Hs|Hs]; cbn [andb].
  - destruct (Z.ltb_spec (t_j st) 10) as [Hlt|Hge].
    + destruct (doubling_spec self fuel_tree u epsilon q p st g ltac:(lia) ltac:(lia))
        as (st1 & g1 & t & v & ga & gb & Hd & Hbt & Hj1 & Hn1 & Halpha & _ & _ & _ & _
            & _ & Hacc).
      rewrite (bind_ok _ _ _ _ _ Hd).
      destruct (IH st1 g1 ltac:(lia) ltac:(lia)) as (st' & g' & Hrun & Hj' & Hq & Ha).
      exists st', g'. split; [exact Hrun|].
      split; [lia|]. split.
      * destruct Hq as [[Heq Hqn]|[Hgt Hprop]].
        -- destruct Hacc as [[Hacc Hqn1]|(Hacc & Hqn1 & Hs1 & Hflt)].
           ++ left. split; congruence.
           ++ right. split; [lia|]. rewrite Hqn, Hqn1.
              exists (if (v =? -1)%Z then t_q_bwd st else t_q_fwd st),
                     (if (v =? -1)%Z then t_p_bwd st else t_p_fwd st),
                     v, (t_j st), ga, t, gb.
              split; [exact Hbt|]. split; [exact Hs1 | reflexivity].
        -- right. split; [|exact Hprop].
           destruct Hacc as [[Hacc _]|(Hacc & _)]; lia.
      * intros _. apply Ha. right. rewrite Halpha. discriminate.
    + exists st, g. split; [reflexivity|]. split; [lia|].
      split; [left; split; reflexivity|].
      intros [[_ Hlt]|Hn]; [lia | assumption].
  - exists st, g. split; [reflexivity|]. split; [lia|].
    split; [left; split; reflexivity|].
    intros [[Hs' _]|Hn]; [contradiction | assumption].
Qed.

(** The doubling loop keeps its variables well formed. *)
Lemma tree_loop_ok (self : sampler) dim fuel_tree u epsilon q p :
  well_shaped (grad_log_density self) dim -> (10 <= fuel_tree)%nat ->
  forall fuel st g st' g',
    traj_ok self dim st ->
    tree_loop fuel_tree fuel self u epsilon q p st g = Ok (st', g') ->
    traj_ok self dim st'.
Proof.
  intros Hgrad Hft.
  induction fuel as [|fuel IH]; intros st g st' g' Hok Hrun; [discriminate|].
  cbn [tree_loop] in Hrun. unfold max_tree_depth in Hrun.
  destruct (Z.eqb_spec (t_s st) 1) as [Hs|Hs]; cbn [andb] in Hrun.
  - destruct (Z.ltb_spec (t_j st) 10) as [Hlt|Hge].
    + unfold bind in Hrun.
      destruct (doubling fuel_tree self u epsilon q p st g) as [[st1 g1]| |] eqn:Hd;
        try discriminate.
      apply (IH st1 g1 st' g'); [|exact Hrun].
      apply (doubling_ok self dim fuel_tree u epsilon q p st g st1 g1 Hgrad Hok); [|exact Hd].
      destruct Hok as (_ & _ & _ & _ & _ & Hj & _). lia.
    + injection Hrun as <- <-. exact Hok.
  - injection Hrun as <- <-. exact Hok.
Qed.

(** The trajectory of one iteration, from a state of the chain's
    dimension with an admissible log-density: the uniform draw has a
    finite range, the loop ends after at most [max_tree_depth] doublings
    with [alpha] and [n_alpha] bound, and its draw is again a state of the
    chain's dimension with an admissible log-density. *)
Lemma trajectory_of_spec (self : sampler) fuel dim q st g :
  (11 <= fuel)%nat ->
  well_shaped (grad_log_density self) dim ->
  (forall x, log_density self x <> PInf) ->
  length q = dim -> admissible (log_density self q) ->
  exists tr g',
    trajectory_of fuel self dim q st g = Ok (tr, g')
    /\ (0 <= t_j tr <= max_tree_depth)%Z
    /\ t_alpha tr <> None
    /\ ((t_accepted tr = c_accepted st /\ t_q_new tr = q)
        \/ ((c_accepted st < t_accepted tr)%Z
            /\ exists u p, proposed_in fuel self u (c_epsilon st) q p (t_q_new tr)))
    /\ length (t_q_new tr) = dim
    /\ admissible (log_density self (t_q_new tr)).
Proof.
  intros Hfuel Hgrad Hinf Hq Hadm. unfold trajectory_of. rewrite bind_draw.
  pose proof (randn_size dim g) as Hp. pose proof (randn_finite dim g) as Hpf.
  set (p := (randn dim g).1) in *. set (g1 := (randn dim g).2).
  rewrite np_uniform_ok by (apply slice_range_finite; assumption).
  rewrite bind_draw.
  set (u := (uniform (Finite 0) (fexp (fneg (hamiltonian self q p))) g1).1).
  set (g2 := (uniform (Finite 0) (fexp (fneg (hamiltonian self q p))) g1).2).
  set (st0 := {| t_q_fwd := q; t_p_fwd := p; t_q_bwd := q; t_p_bwd := p;
                 t_q_new := q; t_j := 0; t_n := 1; t_s := 1;
                 t_accepted := c_accepted st; t_alpha := c_alpha st |}).
  destruct (tree_loop_spec self fuel u (c_epsilon st) q p ltac:(lia) fuel st0 g2)
    as (tr & g' & Hrun & Hj & Hprov & Ha).
  { cbn. unfold max_tree_depth. lia. }
  { cbn. unfold max_tree_depth. change (Z.to_nat (10 - 0)) with 10%nat. lia. }
  assert (Hok0 : traj_ok self dim st0).
  { unfold traj_ok, st0. cbn. repeat split; try assumption; try lia. apply Hadm. }
  pose proof (tree_loop_ok self dim fuel u (c_epsilon st) q p Hgrad ltac:(lia)
                fuel st0 g2 tr g' Hok0 Hrun) as (_ & _ & _ & _ & Hlen & _ & _ & Hvalid).
  exists tr, g'. split; [exact Hrun|]. cbn in Hj.
  split; [lia|]. split.
  { apply Ha. left. unfold max_tree_depth. split; [reflexivity | cbn; lia]. }
  split.
  { destruct Hprov as [Hsame|[Hgt Hprop]]; [left; exact Hsame|].
    right. split; [exact Hgt|]. exists u, p. exact Hprop. }
  split; [exact Hlen|]. split; [exact Hvalid | apply Hinf].
Qed.

End Tree.

(** ** The outer loop of NUTS *)

Section Nuts.
Context `{RandomState}.
Import NUTS.

(** The weight [m ** (-kappa)] for [m >= 1]. *)
Lemma weight_value (m : nat) :
  (1 <= m)%nat ->
  fpow (of_int (Z.of_nat m)) (fneg kappa) = Finite (Rpower (INR m) (- (75 / 100))).
Proof.
  intros Hm. unfold fpow, of_int, kappa, fneg. rewrite <- INR_IZR_INZ.
  rewrite Rltb_true; [reflexivity|]. apply lt_0_INR. lia.
Qed.

Lemma adapt_spec (self : sampler) mu adapt_steps m st g :
  c_alpha st <> None ->
  exists st',
    adapt self mu adapt_steps m st g = Ok (st', g)
    /\ c_all_samples st' = c_all_samples st
    /\ c_accepted st' = c_accepted st
    /\ c_alpha st' = c_alpha st
    /\ adapted mu adapt_steps m st st'.
Proof.
  intros Halpha. unfold adapt, adapted.
  destruct (Nat.leb_spec m adapt_steps) as [Hle|Hgt].
  - destruct (c_alpha st) as [[alpha n_alpha]|] eqn:Ea; [|contradiction].
    eexists; split; [reflexivity|]. cbn [c_all_samples c_accepted c_alpha c_epsilon
      c_epsilon_bar c_H_bar c_epsilon_history].
    repeat split; try reflexivity; try lia.
    + rewrite !flog_fexp. reflexivity.
    + rewrite !flog_fexp. reflexivity.
  - eexists; split; [reflexivity|]. cbn [c_all_samples c_accepted c_alpha c_epsilon
      c_epsilon_bar c_H_bar c_epsilon_history].
    repeat split; try reflexivity; try lia.
Qed.

(** One outer iteration: the trajectory from row [m - 1] ends, its draw is
    written to row [m], and the step sizes are adapted. *)
Lemma loop_body_spec (self : sampler) fuel dim mu adapt_steps m st g prev :
  (11 <= fuel)%nat -> (1 <= m < length (c_all_samples st))%nat ->
  well_shaped (grad_log_density self) dim ->
  (forall x, log_density self x <> PInf) ->
  c_all_samples st !! (m - 1)%nat = Some prev ->
  length prev = dim -> admissible (log_density self prev) ->
  exists st' g' tr,
    loop_body fuel self dim mu adapt_steps m st g = Ok (st', g')
    /\ trajectory_of fuel self dim prev st g = Ok (tr, g')
    /\ ((t_accepted tr = c_accepted st /\ t_q_new tr = prev)
        \/ ((c_accepted st < t_accepted tr)%Z
            /\ exists u p, proposed_in fuel self u (c_epsilon st) prev p (t_q_new tr)))
    /\ length (t_q_new tr) = dim
    /\ admissible (log_density self (t_q_new tr))
    /\ c_all_samples st' = <[m:=t_q_new tr]> (c_all_samples st)
    /\ c_accepted st' = t_accepted tr
    /\ c_alpha st' <> None
    /\ adapted mu adapt_steps m st st'.
Proof.
  intros Hfuel Hm Hgrad Hinf Hprev Hlen Hadm.
  destruct (trajectory_of_spec self fuel dim prev st g Hfuel Hgrad Hinf Hlen Hadm)
    as (tr & g1 & Htr & _ & Halpha & Hprov & Hlen' & Hadm').
  set (mid := {| c_all_samples := <[m:=t_q_new tr]> (c_all_samples st);
                 c_accepted := t_accepted tr;
                 c_epsilon := c_epsilon st;
                 c_epsilon_bar := c_epsilon_bar st;
                 c_H_bar := c_H_bar st;
                 c_epsilon_history := c_epsilon_history st;
                 c_alpha := t_alpha tr |}).
  destruct (adapt_spec self mu adapt_steps m mid g1 Halpha)
    as (st' & Hadapt & Hall & Hacc & Ha & Had).
  exists st', g1, tr.
  split.
  - unfold loop_body. rewrite (getitem_ok _ _ _ Hprev).
    erewrite bind_ok by reflexivity.
    rewrite (bind_ok _ _ _ _ _ Htr).
    rewrite setitem_ok by lia.
    erewrite bind_ok by reflexivity. exact Hadapt.
  - split; [exact Htr|]. split; [exact Hprov|]. split; [exact Hlen'|].
    split; [exact Hadm'|]. split; [exact Hall|]. split; [exact Hacc|].
    split; [rewrite Ha; exact Halpha | exact Had].
Qed.

Lemma loop_body_invariant (self : sampler) fuel initial_state total mu adapt_steps :
  (11 <= fuel)%nat ->
  well_shaped (grad_log_density self) (length initial_state) ->
  (forall x, log_density self x <> PInf) ->
  forall m st g, (1 <= m < total)%nat ->
    nuts_invariant fuel self initial_state total adapt_steps m st ->
    exists st' g',
      loop_body fuel self (length initial_state) mu adapt_steps m st g = Ok (st', g')
      /\ nuts_invariant fuel self initial_state total adapt_steps (S m) st'.
Proof.
  intros Hfuel Hgrad Hinf m st g Hm (Hlen & H0 & Hlinks & Hvalid & Hrows & Hfrozen).
  destruct (lookup_lt_is_Some_2 (c_all_samples st) (m - 1)) as [prev Hprev]; [lia|].
  pose proof (Forall_lookup_1 _ _ _ _ Hrows Hprev) as Hplen. cbv beta in Hplen.
  pose proof (Hvalid (m - 1)%nat prev ltac:(lia) Hprev) as Hpadm.
  destruct (loop_body_spec self fuel (length initial_state) mu adapt_steps m st g prev
              Hfuel ltac:(lia) Hgrad Hinf Hprev Hplen Hpadm)
    as (st' & g' & tr & Hrun & Htr & Hprov & Hlen' & Hadm' & Hall & _ & _ & Had).
  exists st', g'. split; [exact Hrun|].
  unfold nuts_invariant. rewrite Hall. split; [|split; [|split; [|split; [|split]]]].
  - now rewrite length_insert.
  - rewrite list_lookup_insert_ne by lia. assumption.
  - intros k Hk. destruct (decide (k = m)) as [->|Hne].
    + exists prev, (t_q_new tr). rewrite list_lookup_insert_ne by lia.
      rewrite list_lookup_insert_eq by lia.
      split; [assumption|]. split; [reflexivity|].
      exists st, g, tr, g'. split; [assumption|]. split; [reflexivity | assumption].
    + destruct (Hlinks k ltac:(lia)) as (pr & nx & Hp & Hn & Hf).
      exists pr, nx. rewrite !list_lookup_insert_ne by lia. auto.
  - intros k row Hk Hrow. destruct (decide (k = m)) as [->|Hne].
    + rewrite list_lookup_insert_eq in Hrow by lia. injection Hrow as <-. exact Hadm'.
    + rewrite list_lookup_insert_ne in Hrow by lia. apply (Hvalid k); [lia | exact Hrow].
  - apply Forall_insert; assumption.
  - intros Hlate. apply Had. lia.
Qed.

(** [sample] up to the end of its loop, once the initial step size has
    been found. *)
Lemma nuts_run (self : sampler) fuel n_samples initial_state burn_in adapt_steps g
    epsilon0 g0 :
  (11 <= fuel)%nat -> (1 <= burn_in + n_samples)%nat ->
  well_shaped (grad_log_density self) (length initial_state) ->
  (forall x, log_density self x <> PInf) ->
  log_density self initial_state <> NaN ->
  find_reasonable_epsilon fuel self initial_state g = Ok (epsilon0, g0) ->
  exists st g',
    run fuel self n_samples initial_state burn_in adapt_steps g = Ok (st, g')
    /\ nuts_invariant fuel self initial_state (burn_in + n_samples) adapt_steps
         (burn_in + n_samples) st.
Proof.
  intros Hfuel Hpos Hgrad Hinf Hinit Heps.
  set (total := (burn_in + n_samples)%nat) in *.
  set (dim := length initial_state) in *.
  assert (Hlen0 : length (zeros total dim) = total) by apply length_replicate.
  set (st0 := {| c_all_samples := <[0%nat:=initial_state]> (zeros total dim);
                 c_accepted := 0;
                 c_epsilon := epsilon0;
                 c_epsilon_bar := Finite 1;
                 c_H_bar := Finite 0;
                 c_epsilon_history := [epsilon0];
                 c_alpha := None |}).
  destruct (for_each_invariant
              (nuts_invariant fuel self initial_state total adapt_steps)
              (loop_body fuel self dim (flog (fmul (of_int 10) epsilon0)) adapt_steps)
              (total - 1) 1 st0 g0)
    as (st & g' & Hrun & Hinv).
  - unfold nuts_invariant, st0; cbn [c_all_samples c_epsilon c_epsilon_bar].
    split; [|split; [|split; [|split; [|split]]]].
    + now rewrite length_insert.
    + apply list_lookup_insert_eq. lia.
    + intros k Hk; lia.
    + intros k row Hk Hrow. assert (k = 0)%nat as -> by lia.
      rewrite list_lookup_insert_eq in Hrow by lia. injection Hrow as <-.
      split; [exact Hinit | apply Hinf].
    + apply Forall_insert; [|reflexivity].
      unfold zeros. apply Forall_replicate. apply length_replicate.
    + intros Hlate; lia.
  - intros m st g1 Hm Hinv.
    apply loop_body_invariant; [assumption | assumption | assumption | lia | assumption].
  - exists st, g'. split.
    + unfold run. rewrite (bind_ok _ _ _ _ _ Heps). unfold run_from, initial_chain_state.
      fold total. fold dim.
      rewrite setitem_ok by lia.
      erewrite bind_ok by reflexivity. exact Hrun.
    + replace (1 + (total - 1))%nat with total in Hinv by lia. exact Hinv.
Qed.

Lemma nuts_sample (self : sampler) fuel n_samples initial_state burn_in adapt_steps g
    epsilon0 g0 :
  (11 <= fuel)%nat -> (1 <= burn_in + n_samples)%nat ->
  well_shaped (grad_log_density self) (length initial_state) ->
  (forall x, log_density self x <> PInf) ->
  log_density self initial_state <> NaN ->
  find_reasonable_epsilon fuel self initial_state g = Ok (epsilon0, g0) ->
  exists st g',
    run fuel self n_samples initial_state burn_in adapt_steps g = Ok (st, g')
    /\ nuts_invariant fuel self initial_state (burn_in + n_samples) adapt_steps
         (burn_in + n_samples) st
    /\ sample fuel self n_samples initial_state burn_in adapt_steps g
       = Ok (({| log_density := log_density self;
                 grad_log_density := grad_log_density self;
                 epsilon := c_epsilon_bar st;
                 delta := delta self;
                 samples := Some (drop burn_in (c_all_samples st));
                 acceptance_rate :=
                   Some (truediv (c_accepted st) (Z.of_nat (burn_in + n_samples)));
                 epsilon_history := c_epsilon_history st |},
              drop burn_in (c_all_samples st)), g').
Proof.
  intros Hfuel Hpos Hgrad Hinf Hinit Heps.
  destruct (nuts_run self fuel n_samples initial_state burn_in adapt_steps g
              epsilon0 g0 Hfuel Hpos Hgrad Hinf Hinit Heps) as (st & g' & Hrun & Hinv).
  exists st, g'. split; [exact Hrun|]. split; [exact Hinv|].
  unfold sample. rewrite (bind_ok _ _ _ _ _ Hrun). reflexivity.
Qed.

(** On an initial state of density zero (log-density [-inf]) or of NaN
    log-density the search for a step size stops at once, with the step
    size 1 it started from. *)
Lemma find_reasonable_epsilon_infeasible (self : sampler) fuel q g :
  log_density self q = NInf \/ log_density self q = NaN ->
  find_reasonable_epsilon (S fuel) self q g = Ok (Finite 1, (randn (length q) g).2).
Proof.
  intros Hld. unfold find_reasonable_epsilon. rewrite bind_draw.
  assert (HH : forall p, hamiltonian self q p = PInf \/ hamiltonian self q p = NaN).
  { intros p. unfold hamiltonian.
    destruct Hld as [-> | ->]; [|right; reflexivity].
    destruct (fmul (Finite (1 / 2)) (vsum (vsquare p))); simpl; auto. }
  assert (Hlr : forall p e, log_ratio_at self q p e = NaN).
  { intros p e. unfold log_ratio_at. destruct (leapfrog self q p e) as [q1 p1].
    destruct (HH p1) as [-> | ->]; destruct (HH p) as [-> | ->]; reflexivity. }
  rewrite Hlr. unfold fgt at 1. rewrite flt_nan_r.
  cbn [epsilon_loop]. unfold fgt. cbn [fmul]. rewrite flt_nan_r. reflexivity.
Qed.

End Nuts.

(** ** What links two consecutive rows of a chain *)

Section Links.
Context `{RandomState}.



(** A negative [proposal_std] is only noticed by [np.random.normal], when
    the first proposal is drawn inside the loop. *)
Lemma mh_negative_std (self : MetropolisHastings.sampler) n_samples initial_state
    burn_in thin g :
  flt (MetropolisHastings.proposal_std self) (Finite 0) = true ->
  (2 <= burn_in + n_samples * thin)%nat ->
  MetropolisHastings.run self n_samples initial_state burn_in thin g = Raise ValueError
  /\ MetropolisHastings.sample self n_samples initial_state burn_in thin g
     = Raise ValueError.
Proof.
  intros Hstd Hpos.
  assert (Hrun : MetropolisHastings.run self n_samples initial_state burn_in thin g
                 = Raise ValueError).
  { unfold MetropolisHastings.run.
    set (total := (burn_in + n_samples * thin)%nat) in *.
    assert (Hlen0 : length (zeros total (length initial_state)) = total)
      by apply length_replicate.
    rewrite setitem_ok by lia. erewrite bind_ok by reflexivity.
    unfold range. destruct (total - 1)%nat as [|k] eqn:Ek; [lia|].
    cbn [seq for_each]. unfold bind at 1.
    replace (MetropolisHastings.loop_body self 1 _ g) with (@Raise (matrix * Z * rng) ValueError);
      [reflexivity|].
    unfold MetropolisHastings.loop_body.
    rewrite (getitem_ok _ 0 initial_state)
      by (apply list_lookup_insert_eq; lia).
    erewrite bind_ok by reflexivity.
    unfold MetropolisHastings.decide_step, MetropolisHastings.propose, np_normal.
    rewrite Hstd. reflexivity. }
  split; [exact Hrun|].
  unfold MetropolisHastings.sample, bind. rewrite Hrun. reflexivity.
Qed.

End Links.

(** ** The concrete targets *)

Lemma log_first_negative : log_first [Finite (-1)] = NaN.
Proof.
  unfold log_first, flog. rewrite Rltb_false by lra. rewrite Rltb_true by lra. reflexivity.
Qed.

Lemma grad_std_normal_shape (n : nat) (v : vec) :
  length v = n -> length (grad_std_normal v) = n.
Proof. intros Hv. unfold grad_std_normal. now rewrite vneg_length. Qed.

Lemma positive_mh_std : flt (MetropolisHastings.proposal_std positive_mh) (Finite 0) = false.
Proof. simpl. apply Rltb_false. lra. Qed.

Lemma still_mh_std : flt (MetropolisHastings.proposal_std still_mh) (Finite 0) = false.
Proof. simpl. apply Rltb_false. lra. Qed.

Lemma log_half_line_cases (x : vec) : log_half_line x = Finite 0 \/ log_half_line x = NInf.
Proof.
  unfold log_half_line. destruct x as [|[r| | |] x]; auto. destruct (Rltb 0 r); auto.
Qed.

Lemma log_half_line_not_pinf (x : vec) : log_half_line x <> PInf.
Proof. destruct (log_half_line_cases x) as [-> | ->]; discriminate. Qed.

Lemma log_half_line_not_nan (x : vec) : log_half_line x <> NaN.
Proof. destruct (log_half_line_cases x) as [-> | ->]; discriminate. Qed.

Lemma log_half_line_outside : log_half_line [Finite (-1)] = NInf.
Proof. unfold log_half_line. rewrite Rltb_false by lra. reflexivity. Qed.

Lemma grad_half_line_shape (n : nat) : well_shaped grad_half_line n.
Proof. intros v Hv. unfold grad_half_line. now rewrite length_map. Qed.

Lemma half_line_epsilon :
  NUTS.find_reasonable_epsilon (H := counting_random) 11 half_line_nuts [Finite (-1)] 0%nat
  = Ok (Finite 1, 1%nat).
Proof.
  apply (find_reasonable_epsilon_infeasible (H := counting_random) half_line_nuts 10
           [Finite (-1)] 0%nat).
  left. exact log_half_line_outside.
Qed.

(** ** Pathological energies in HMC *)

Section Pathologies.
Context `{RandomState}.

Lemma hmc_nan_accepted (self : HamiltonianMC.sampler) dim cur g :
  let p := (randn dim g).1 in
  let proposal := HamiltonianMC.leapfrog self cur p in
  HamiltonianMC.hamiltonian self proposal.1 proposal.2 = NaN ->
  exists g', HamiltonianMC.decide_step self dim cur g = Ok ((proposal.1, true), g').
Proof.
  intros p proposal Hnan. unfold HamiltonianMC.decide_step.
  rewrite np_uniform_unit, bind_draw.
  fold p. fold proposal. destruct proposal as [q' p'] eqn:E. cbn [fst snd] in *.
  rewrite bind_draw. rewrite Hnan, hmc_accept_prob_nan, uniform_below_one.
  eexists; reflexivity.
Qed.

(** An infinite proposed energy is rejected when the current one is finite. *)
Lemma hmc_inf_rejected (self : HamiltonianMC.sampler) dim cur g :
  let p := (randn dim g).1 in
  let proposal := HamiltonianMC.leapfrog self cur p in
  HamiltonianMC.hamiltonian self proposal.1 proposal.2 = PInf ->
  is_finite (HamiltonianMC.hamiltonian self cur p) ->
  HamiltonianMC.accept_prob (HamiltonianMC.hamiltonian self cur p) PInf = Finite 0
  /\ exists g', HamiltonianMC.decide_step self dim cur g = Ok ((cur, false), g').
Proof.
  intros p proposal Hinf Hfin.
  assert (Hp : HamiltonianMC.accept_prob (HamiltonianMC.hamiltonian self cur p) PInf
               = Finite 0).
  { destruct (HamiltonianMC.hamiltonian self cur p); try contradiction.
    unfold HamiltonianMC.accept_prob, pymin. simpl. rewrite Rltb_true by lra. reflexivity. }
  split; [exact Hp|].
  unfold HamiltonianMC.decide_step. rewrite np_uniform_unit, bind_draw.
  fold p. fold proposal. destruct proposal as [q' p'] eqn:E. cbn [fst snd] in *.
  rewrite bind_draw. rewrite Hinf, Hp, uniform_not_below_zero.
  eexists; reflexivity.
Qed.

End Pathologies.

(** ** The chain as a sequence of decisions *)

Section Decisions.
Context `{RandomState}.

(** The chain loop from index [i] on, in an array whose row [i - 1] is
    [cur]: it writes the rows of as many consecutive decisions as it has
    indices, and leaves the rows before [i] alone. *)
Lemma chain_body_steps (step : vec -> M (vec * bool)) :
  forall n i all acc g cur all' acc' g',
    (1 <= i)%nat -> length all = (i + n)%nat ->
    all !! (i - 1)%nat = Some cur ->
    for_each (seq i n) (chain_body step) (all, acc) g = Ok ((all', acc'), g') ->
    exists rows,
      chain_steps step cur g rows (acc' - acc) g'
      /\ length rows = n
      /\ all' = take i all ++ rows.
Proof.
  induction n as [|n IH]; intros i all acc g cur all' acc' g' Hi Hlen Hcur Hrun.
  - injection Hrun as <- <- <-. exists []. rewrite Z.sub_diag.
    split; [constructor|]. split; [reflexivity|].
    rewrite app_nil_r, take_ge by lia. reflexivity.
  - cbn [seq for_each] in Hrun. unfold bind at 1 in Hrun.
    destruct (chain_body step i (all, acc) g) as [[[all1 acc1] g1]| |] eqn:Hbody;
      try discriminate.
    unfold chain_body in Hbody. rewrite (getitem_ok _ _ _ Hcur) in Hbody.
    erewrite bind_ok in Hbody by reflexivity.
    unfold bind at 1 in Hbody.
    destruct (step cur g) as [[[next a] g2]| |] eqn:Hstep; try discriminate.
    rewrite setitem_ok in Hbody by lia.
    erewrite bind_ok in Hbody by reflexivity.
    injection Hbody as <- <- <-.
    destruct (IH (S i) (<[i:=next]> all) (if a then (acc + 1)%Z else acc) g2 next
                all' acc' g' ltac:(lia)) as (rows & Hsteps & Hrows & Hall); trivial.
    + rewrite length_insert. lia.
    + replace (S i - 1)%nat with i by lia. apply list_lookup_insert_eq. lia.
    + exists (next :: rows). split; [|split].
      * replace (acc' - acc)%Z
          with ((if a then 1 else 0) + (acc' - (if a then acc + 1 else acc)))%Z
          by (destruct a; lia).
        econstructor; eassumption.
      * simpl. lia.
      * rewrite Hall. rewrite (take_S_r _ i next) by (apply list_lookup_insert_eq; lia).
        rewrite take_insert_ge by lia. rewrite <- app_assoc. reflexivity.
Qed.

(** The chain loop on its fresh array: row 0 is the initial state, and
    the rows after it are those of [total - 1] consecutive decisions. *)
Lemma chain_loop_steps (step : vec -> M (vec * bool)) initial_state total g all acc g' :
  (1 <= total)%nat ->
  (let* a := lift (setitem (zeros total (length initial_state)) 0 initial_state) in
   for_each (range 1 total) (chain_body step) (a, 0%Z)) g = Ok ((all, acc), g') ->
  exists rows,
    all = initial_state :: rows
    /\ chain_steps step initial_state g rows acc g'
    /\ S (length rows) = total.
Proof.
  intros Hpos Hrun.
  assert (Hlen0 : length (zeros total (length initial_state)) = total)
    by apply length_replicate.
  rewrite setitem_ok in Hrun by lia. erewrite bind_ok in Hrun by reflexivity.
  unfold range in Hrun.
  destruct (chain_body_steps step (total - 1) 1
              (<[0%nat:=initial_state]> (zeros total (length initial_state)))
              0%Z g initial_state all acc g' ltac:(lia))
    as (rows & Hsteps & Hrows & Hall); trivial.
  - rewrite length_insert. lia.
  - apply list_lookup_insert_eq. lia.
  - exists rows. rewrite Z.sub_0_r in Hsteps. split; [|split; [exact Hsteps | lia]].
    rewrite Hall. destruct total as [|t]; [lia|]. reflexivity.
Qed.

Lemma chain_steps_length (step : vec -> M (vec * bool)) cur g rows acc g' :
  chain_steps step cur g rows acc g' -> (0 <= acc <= Z.of_nat (length rows))%Z.
Proof.
  induction 1 as [|cur g next a g1 rows acc g' _ _ IH]; [simpl; lia|].
  destruct a; simpl length; lia.
Qed.

End Decisions.

(** ** The backward endpoint *)

Section Backward.
Context `{RandomState}.
Import NUTS.

(** Slots 0 and 1 of what [build_tree] returns hold the first state the
    subtree visits: one leapfrog step from where it starts, whatever its
    depth. *)
Lemma build_tree_first_state (self : sampler) :
  forall fuel q p u v j epsilon q0 p0 g t g',
    build_tree fuel self q p u v j epsilon q0 p0 g = Ok (t, g') ->
    (q_new t, p_new t) = leapfrog self q p (fmul (of_int v) epsilon).
Proof.
  induction fuel as [|fuel IH]; intros q p u v j epsilon q0 p0 g t g' Hrun;
    [discriminate|].
  destruct (Z.eq_dec j 0%Z) as [->|Hj].
  - rewrite build_tree_base in Hrun. cbv zeta in Hrun. injection Hrun as <- <-.
    cbn [q_new p_new]. symmetry. apply surjective_pairing.
  - destruct (build_tree_merge self fuel q p u v j epsilon q0 p0 g t g' Hj Hrun)
      as (t1 & g1 & H1 & Hstop & Hmerge).
    pose proof (IH _ _ _ _ _ _ _ _ _ _ _ H1) as Hfirst.
    destruct (Z.eq_dec (s_prime t1) 1%Z) as [Hs|Hs].
    + destruct (Hmerge Hs) as (t2 & g2 & _ & _ & Ht). cbv zeta in Ht. subst t.
      exact Hfirst.
    + destruct (Hstop Hs) as [-> _]. exact Hfirst.
Qed.

(** A pass of the doubling loop whose direction draw is not below 1/2
    goes backward: the subtree is built from the backward endpoint with
    [v = -1], and slots 0 and 1 of its result become the new backward
    endpoint. *)
Lemma doubling_backward (self : sampler) fuel u epsilon q p st g :
  (0 <= t_j st)%Z -> (Z.to_nat (t_j st) < fuel)%nat ->
  flt (rand g).1 (Finite (1 / 2)) = false ->
  exists st' g' t g2,
    doubling fuel self u epsilon q p st g = Ok (st', g')
    /\ build_tree fuel self (t_q_bwd st) (t_p_bwd st) u (-1) (t_j st) epsilon q p (rand g).2
       = Ok (t, g2)
    /\ (t_q_fwd st', t_p_fwd st') = (t_q_fwd st, t_p_fwd st)
    /\ (t_q_bwd st', t_p_bwd st') = (q_new t, p_new t)
    /\ t_s st' = no_u_turn (s_prime t) (t_q_fwd st) (t_p_fwd st) (q_new t) (p_new t).
Proof.
  intros Hj Hfuel Hdir. unfold doubling. rewrite bind_draw. rewrite Hdir.
  replace (2 * int_of_bool false - 1)%Z with (-1)%Z by reflexivity.
  replace (-1 =? -1)%Z with true by reflexivity.
  destruct (build_tree_terminates self (Z.to_nat (t_j st)) fuel (t_q_bwd st) (t_p_bwd st)
              u (-1) epsilon q p (rand g).2 Hfuel) as (t & g2 & Hbt).
  rewrite Z2Nat.id in Hbt by assumption.
  rewrite (bind_ok _ _ _ _ _ Hbt).
  unfold bind, draw, ret.
  destruct (s_prime t =? 1)%Z; [destruct (rand g2) as [r' g3]; destruct (flt r' _)|];
    eexists _, _, t, g2; (split; [reflexivity|]); (split; [exact Hbt|]);
    repeat split; reflexivity.
Qed.

End Backward.

Section BackwardDepthOne.
Context `{RandomState}.
Import NUTS.

(** What a leaf holds. *)
Lemma build_tree_leaf (self : sampler) fuel q p u v epsilon q0 p0 g t g' :
  build_tree fuel self q p u v 0 epsilon q0 p0 g = Ok (t, g') ->
  let leaf := leapfrog self q p (fmul (of_int v) epsilon) in
  (q_new t, p_new t) = leaf
  /\ (q_fwd t, p_fwd t) = leaf
  /\ (q_bwd t, p_bwd t) = leaf
  /\ s_prime t
     = int_of_bool (flt u (fexp (fsub (Finite 1000) (hamiltonian self leaf.1 leaf.2)))).
Proof.
  destruct fuel as [|fuel]; [discriminate|].
  rewrite build_tree_base. cbv zeta. intros [= <- <-].
  cbn [q_new p_new q_fwd p_fwd q_bwd p_bwd s_prime].
  repeat split; symmetry; apply surjective_pairing.
Qed.

(** A backward subtree of depth 1 whose first leaf has its flag at 1: the
    second leaf, one step further back, is its backward-most state. *)
Lemma build_tree_backward_depth_1 (self : sampler) fuel q p u epsilon q0 p0 g t g' :
  build_tree fuel self q p u (-1) 1 epsilon q0 p0 g = Ok (t, g') ->
  let back := fmul (of_int (-1)) epsilon in
  let first := leapfrog self q p back in
  let second := leapfrog self first.1 first.2 back in
  flt u (fexp (fsub (Finite 1000) (hamiltonian self first.1 first.2))) = true ->
  (q_bwd t, p_bwd t) = second
  /\ s_prime t
     = no_u_turn (int_of_bool (flt u (fexp (fsub (Finite 1000)
                                              (hamiltonian self second.1 second.2)))))
         first.1 first.2 second.1 second.2.
Proof.
  intros Hrun back first second Hflag.
  destruct fuel as [|fuel]; [discriminate|].
  destruct (build_tree_merge self fuel q p u (-1) 1 epsilon q0 p0 g t g' ltac:(lia) Hrun)
    as (t1 & g1 & H1 & _ & Hmerge).
  replace (1 - 1)%Z with 0%Z in * by reflexivity.
  destruct (build_tree_leaf self _ _ _ _ _ _ _ _ _ _ _ H1) as (_ & Hf1 & Hb1 & Hs1).
  fold back first in Hf1, Hb1, Hs1. rewrite Hflag in Hs1.
  destruct (Hmerge Hs1) as (t2 & g2 & H2 & _ & Ht).
  replace (-1 =? -1)%Z with true in * by reflexivity.
  assert (Eq : q_bwd t1 = first.1) by (now rewrite <- Hb1).
  assert (Ep : p_bwd t1 = first.2) by (now rewrite <- Hb1).
  rewrite Eq, Ep in H2.
  destruct (build_tree_leaf self _ _ _ _ _ _ _ _ _ _ _ H2) as (Hn2 & _ & _ & Hs2).
  fold back second in Hn2, Hs2.
  cbv zeta in Ht. subst t. cbn [q_bwd p_bwd s_prime].
  split; [exact Hn2|]. rewrite Hs2.
  replace (q_fwd t1) with first.1 by (now rewrite <- Hf1).
  replace (p_fwd t1) with first.2 by (now rewrite <- Hf1).
  replace (q_new t2) with second.1 by (now rewrite <- Hn2).
  replace (p_new t2) with second.2 by (now rewrite <- Hn2).
  reflexivity.
Qed.

End BackwardDepthOne.

(** ** The standard normal target in dimension 1 *)

Lemma Rleb_true (x y : R) : x <= y -> Rleb x y = true.
Proof. intros Hxy. unfold Rleb. destruct (Rle_dec x y); [reflexivity | contradiction]. Qed.

Lemma Rleb_false (x y : R) : y < x -> Rleb x y = false.
Proof. intros Hxy. unfold Rleb. destruct (Rle_dec x y); [lra | reflexivity]. Qed.

Lemma normal_leapfrog_1 (a b s : R) :
  NUTS.leapfrog normal_nuts [Finite a] [Finite b] (Finite s)
  = ([Finite (a + s * (b - s * a / 2))],
     [Finite (b - s * a / 2 - s * (a + s * (b - s * a / 2)) / 2)]).
Proof.
  unfold NUTS.leapfrog. cbn. f_equal; do 2 f_equal; lra.
Qed.

Lemma normal_hamiltonian_1 (a b : R) :
  NUTS.hamiltonian normal_nuts [Finite a] [Finite b] = Finite ((a * a + b * b) / 2).
Proof. unfold NUTS.hamiltonian. cbn. f_equal. lra. Qed.

Lemma no_u_turn_1 (s : Z) (qf pf qb pb : R) :
  NUTS.no_u_turn s [Finite qf] [Finite pf] [Finite qb] [Finite pb]
  = (s * int_of_bool (Rleb 0 ((qf - qb) * pb)) * int_of_bool (Rleb 0 ((qf - qb) * pf)))%Z.
Proof.
  unfold NUTS.no_u_turn. cbn.
  replace (0 + (qf + - qb) * pb) with ((qf - qb) * pb) by lra.
  replace (0 + (qf + - qb) * pf) with ((qf - qb) * pf) by lra.
  reflexivity.
Qed.

(** [u < exp(1000 - H)] for every [u < 1] and energy [H <= 1000]. *)
Lemma flag_below_1000 (u h : R) :
  u < 1 -> h <= 1000 -> flt (Finite u) (fexp (fsub (Finite 1000) (Finite h))) = true.
Proof.
  intros Hu Hh. cbn. apply Rltb_true.
  assert (1 <= exp (1000 + - h)).
  { rewrite <- exp_0. destruct (Req_dec (1000 + - h) 0) as [-> | Hne]; [lra|].
    left. apply exp_increasing. lra. }
  lra.
Qed.

(** ** Runs of a single total iteration, and what NUTS reads of its sampler *)

Section SingleIteration.
Context `{RandomState}.

Lemma slice_single {A} (burn_in thin n_samples : nat) (x : A) :
  (1 <= thin)%nat -> (burn_in + n_samples * thin = 1)%nat ->
  slice burn_in thin [x] = Ok (replicate n_samples x).
Proof.
  intros Hthin Hone. destruct thin as [|t]; [lia|].
  destruct burn_in as [|[|b]]; [| |lia].
  - destruct n_samples as [|[|n]]; [lia| |lia]. reflexivity.
  - destruct n_samples as [|n]; [|lia]. reflexivity.
Qed.

(** With one total iteration the loop is not entered: nothing is drawn,
    the density is not evaluated, and [sample] returns. *)
Lemma mh_single_iteration (self : MetropolisHastings.sampler) n_samples initial_state
    burn_in thin g :
  (1 <= thin)%nat -> (burn_in + n_samples * thin = 1)%nat ->
  MetropolisHastings.run self n_samples initial_state burn_in thin g
  = Ok (([initial_state], 0%Z), g)
  /\ exists self',
       MetropolisHastings.sample self n_samples initial_state burn_in thin g
       = Ok ((self', replicate n_samples initial_state), g).
Proof.
  intros Hthin Hone.
  assert (Hrun : MetropolisHastings.run self n_samples initial_state burn_in thin g
                 = Ok (([initial_state], 0%Z), g)).
  { unfold MetropolisHastings.run. rewrite Hone. reflexivity. }
  split; [exact Hrun|]. eexists.
  unfold MetropolisHastings.sample. rewrite (bind_ok _ _ _ _ _ Hrun).
  rewrite (slice_single burn_in thin n_samples) by assumption. reflexivity.
Qed.

Lemma hmc_single_iteration (self : HamiltonianMC.sampler) n_samples initial_state
    burn_in thin g :
  (1 <= thin)%nat -> (burn_in + n_samples * thin = 1)%nat ->
  HamiltonianMC.run self n_samples initial_state burn_in thin g
  = Ok (([initial_state], 0%Z), g)
  /\ exists self',
       HamiltonianMC.sample self n_samples initial_state burn_in thin g
       = Ok ((self', replicate n_samples initial_state), g).
Proof.
  intros Hthin Hone.
  assert (Hrun : HamiltonianMC.run self n_samples initial_state burn_in thin g
                 = Ok (([initial_state], 0%Z), g)).
  { unfold HamiltonianMC.run. rewrite Hone. reflexivity. }
  split; [exact Hrun|]. eexists.
  unfold HamiltonianMC.sample. rewrite (bind_ok _ _ _ _ _ Hrun).
  rewrite (slice_single burn_in thin n_samples) by assumption. reflexivity.
Qed.

Lemma fgt_zero_not_negative (a : npfloat) :
  fgt a (Finite 0) = true -> flt a (Finite 0) = false.
Proof.
  destruct a as [x| | |]; cbn; try reflexivity; try discriminate.
  intros Hx. apply Rltb_spec in Hx. apply Rltb_false. lra.
Qed.

Lemma for_each_ext {S} (body body' : nat -> S -> M S) (l : list nat) :
  (forall i s g, body i s g = body' i s g) ->
  forall s g, for_each l body s g = for_each l body' s g.
Proof.
  intros Hb. induction l as [|i l IH]; intros s g; [reflexivity|].
  cbn [for_each]. unfold bind. rewrite Hb.
  destruct (body' i s g) as [[s1 g1]| |]; [apply IH | reflexivity | reflexivity].
Qed.

Lemma bind_cong {A B} (m m' : M A) (k k' : A -> M B) (g : rng) :
  m g = m' g -> (forall a g1, k a g1 = k' a g1) ->
  (let* x := m in k x) g = (let* x := m' in k' x) g.
Proof.
  intros Hm Hk. unfold bind. rewrite Hm.
  destruct (m' g) as [[a g1]| |]; [apply Hk | reflexivity | reflexivity].
Qed.

End SingleIteration.

Section SameTarget.
Context `{RandomState}.
Import NUTS.
Variables self other : sampler.
Hypothesis same_density : log_density self = log_density other.
Hypothesis same_gradient : grad_log_density self = grad_log_density other.
Hypothesis same_delta : delta self = delta other.

Lemma leapfrog_same q p epsilon : leapfrog self q p epsilon = leapfrog other q p epsilon.
Proof. unfold leapfrog. now rewrite same_gradient. Qed.

Lemma hamiltonian_same q p : hamiltonian self q p = hamiltonian other q p.
Proof. unfold hamiltonian. now rewrite same_density. Qed.

Lemma log_ratio_at_same q p epsilon :
  log_ratio_at self q p epsilon = log_ratio_at other q p epsilon.
Proof.
  unfold log_ratio_at. rewrite leapfrog_same.
  destruct (leapfrog other q p epsilon) as [q1 p1]. now rewrite !hamiltonian_same.
Qed.

Lemma epsilon_loop_same_target q p a : forall fuel epsilon log_ratio g,
  epsilon_loop fuel self q p a epsilon log_ratio g
  = epsilon_loop fuel other q p a epsilon log_ratio g.
Proof.
  induction fuel as [|fuel IH]; intros epsilon log_ratio g; [reflexivity|].
  cbn [epsilon_loop]. destruct (fgt _ _); [|reflexivity].
  rewrite log_ratio_at_same. apply IH.
Qed.

Lemma find_reasonable_epsilon_same fuel q g :
  find_reasonable_epsilon fuel self q g = find_reasonable_epsilon fuel other q g.
Proof.
  unfold find_reasonable_epsilon. rewrite !bind_draw. rewrite log_ratio_at_same.
  apply epsilon_loop_same_target.
Qed.

Lemma build_tree_same : forall fuel q p u v j epsilon q0 p0 g,
  build_tree fuel self q p u v j epsilon q0 p0 g
  = build_tree fuel other q p u v j epsilon q0 p0 g.
Proof.
  induction fuel as [|fuel IH]; intros q p u v j epsilon q0 p0 g; [reflexivity|].
  cbn [build_tree]. destruct (j =? 0)%Z.
  - rewrite leapfrog_same. destruct (leapfrog other q p _) as [q1 p1].
    now rewrite !hamiltonian_same.
  - apply bind_cong; [apply IH|]. intros t1 g1.
    destruct (s_prime t1 =? 1)%Z; [|reflexivity].
    apply bind_cong; [|reflexivity].
    destruct (v =? -1)%Z; apply IH.
Qed.

Lemma doubling_same fuel u epsilon q p st g :
  doubling fuel self u epsilon q p st g = doubling fuel other u epsilon q p st g.
Proof.
  unfold doubling. apply bind_cong; [reflexivity|]. intros r g1.
  apply bind_cong; [|reflexivity].
  destruct (_ =? -1)%Z; apply build_tree_same.
Qed.

Lemma tree_loop_same fuel_tree u epsilon q p : forall fuel st g,
  tree_loop fuel_tree fuel self u epsilon q p st g
  = tree_loop fuel_tree fuel other u epsilon q p st g.
Proof.
  induction fuel as [|fuel IH]; intros st g; [reflexivity|].
  cbn [tree_loop]. destruct (_ && _); [|reflexivity].
  apply bind_cong; [apply doubling_same|]. intros st1 g1. apply IH.
Qed.

Lemma trajectory_of_same fuel dim q st g :
  trajectory_of fuel self dim q st g = trajectory_of fuel other dim q st g.
Proof.
  unfold trajectory_of. apply bind_cong; [reflexivity|]. intros p g1.
  rewrite hamiltonian_same.
  apply bind_cong; [reflexivity|]. intros u g2. apply tree_loop_same.
Qed.

Lemma loop_body_same fuel dim mu adapt_steps m st g :
  loop_body fuel self dim mu adapt_steps m st g
  = loop_body fuel other dim mu adapt_steps m st g.
Proof.
  unfold loop_body. apply bind_cong; [reflexivity|]. intros q g1.
  apply bind_cong; [apply trajectory_of_same|]. intros tr g2.
  apply bind_cong; [reflexivity|]. intros a g3.
  unfold adapt. rewrite same_delta. reflexivity.
Qed.

Lemma sample_same fuel n_samples initial_state burn_in adapt_steps g :
  match sample fuel self n_samples initial_state burn_in adapt_steps g,
        sample fuel other n_samples initial_state burn_in adapt_steps g with
  | Ok ((a, kept), g1), Ok ((b, kept'), g2) =>
      kept = kept' /\ g1 = g2
      /\ epsilon a = epsilon b /\ samples a = samples b
      /\ acceptance_rate a = acceptance_rate b
      /\ epsilon_history a = epsilon_history b
  | Raise e, Raise e' => e = e'
  | OutOfFuel, OutOfFuel => True
  | _, _ => False
  end.
Proof.
  assert (Hrun : run fuel self n_samples initial_state burn_in adapt_steps g
                 = run fuel other n_samples initial_state burn_in adapt_steps g).
  { unfold run, bind. rewrite find_reasonable_epsilon_same.
    destruct (find_reasonable_epsilon fuel other initial_state g) as [[e g1]| |];
      try reflexivity.
    unfold run_from, bind. destruct (lift _ g1) as [[a g2]| |]; try reflexivity.
    apply for_each_ext. intros i s g3. apply loop_body_same. }
  unfold sample, bind. rewrite Hrun.
  destruct (run fuel other n_samples initial_state burn_in adapt_steps g) as [[st g1]| |];
    [|reflexivity | exact I].
  cbn. repeat split; reflexivity.
Qed.

End SameTarget.

(** ** The states of a loop, and the outer loop of NUTS from any step size *)

Section Traces.
Context `{RandomState}.

Lemma for_each_states {S} (body : nat -> S -> M S) :
  forall n i s g s' g',
    for_each (seq i n) body s g = Ok (s', g') ->
    exists states, loop_states body i s g states s' g' /\ length states = n.
Proof.
  induction n as [|n IH]; intros i s g s' g' Hrun.
  - injection Hrun as <- <-. exists []. split; [constructor | reflexivity].
  - cbn [seq for_each] in Hrun. unfold bind in Hrun.
    destruct (body i s g) as [[s1 g1]| |] eqn:Hb; try discriminate.
    destruct (IH _ _ _ _ _ Hrun) as (states & Htr & Hlen).
    exists (s1 :: states). split; [econstructor; eassumption | simpl; now rewrite Hlen].
Qed.

Lemma loop_states_step {S} (body : nat -> S -> M S) i s g states s' g' :
  loop_states body i s g states s' g' ->
  forall k after, states !! k = Some after ->
    exists before gb ga,
      (s :: states) !! k = Some before
      /\ body (i + k)%nat before gb = Ok (after, ga).
Proof.
  induction 1 as [|i s g s1 g1 states s' g' Hb Hrest IH]; intros k after Hk.
  - discriminate.
  - destruct k as [|k].
    + injection Hk as <-. exists s, g, g1. rewrite Nat.add_0_r. split; [reflexivity | exact Hb].
    + destruct (IH k after Hk) as (before & gb & ga & Hbefore & Hstep).
      exists before, gb, ga. split; [exact Hbefore|].
      replace (i + Datatypes.S k)%nat with (Datatypes.S i + k)%nat by lia. exact Hstep.
Qed.

Lemma loop_states_last {S} (body : nat -> S -> M S) i s g states s' g' :
  loop_states body i s g states s' g' -> last (s :: states) = Some s'.
Proof.
  induction 1 as [|i s g s1 g1 states s' g' Hb Hrest IH]; [reflexivity|].
  rewrite last_cons, IH. reflexivity.
Qed.

Lemma loop_states_invariant {S} (P : nat -> S -> Prop) (body : nat -> S -> M S)
    i s g states s' g' :
  loop_states body i s g states s' g' ->
  P i s ->
  (forall m x gx y gy, (i <= m)%nat -> P m x -> body m x gx = Ok (y, gy) ->
     P (Datatypes.S m) y) ->
  forall k x, (s :: states) !! k = Some x -> P (i + k)%nat x.
Proof.
  induction 1 as [i s g|i s g s1 g1 states s' g' Hb Hrest IH]; intros Hs Hstep k x Hk.
  - destruct k; [|discriminate]. injection Hk as <-. now rewrite Nat.add_0_r.
  - destruct k as [|k].
    + injection Hk as <-. now rewrite Nat.add_0_r.
    + replace (i + Datatypes.S k)%nat with (Datatypes.S i + k)%nat by lia.
      apply IH; [eapply Hstep; [|exact Hs|exact Hb]; lia | | exact Hk].
      intros m y gy z gz Hm. apply Hstep. lia.
Qed.

(** A quantity that the passes after pass [a] do not change has, in every
    state left by pass [a] or a later one, the value it has at the end. *)
Lemma loop_states_frozen {S A} (f : S -> A) (a : nat) (body : nat -> S -> M S)
    i s g states s' g' :
  loop_states body i s g states s' g' ->
  (forall m x gx y gy, (a < m)%nat -> body m x gx = Ok (y, gy) -> f y = f x) ->
  ((a < i)%nat -> f s = f s')
  /\ forall k x, states !! k = Some x -> (a <= i + k)%nat -> f x = f s'.
Proof.
  induction 1 as [i s g|i s g s1 g1 states s' g' Hb Hrest IH]; intros Hstep.
  - split; [reflexivity | intros k x Hk; discriminate].
  - destruct (IH Hstep) as [Hhead Htail]. split.
    + intros Hi. rewrite <- (Hstep _ _ _ _ _ Hi Hb). apply Hhead. lia.
    + intros [|k] x Hk Hak.
      * injection Hk as <-. apply Hhead. lia.
      * apply (Htail k x Hk). lia.
Qed.

End Traces.

Section NutsFrom.
Context `{RandomState}.
Import NUTS.

Lemma below_overflow_not_pinf (a : npfloat) : below_overflow a -> a <> PInf.
Proof. intros Ha ->. exact Ha. Qed.

Lemma run_after_search (self : sampler) fuel n_samples initial_state burn_in adapt_steps g
    epsilon0 g0 :
  find_reasonable_epsilon fuel self initial_state g = Ok (epsilon0, g0) ->
  run fuel self n_samples initial_state burn_in adapt_steps g
  = run_from fuel self n_samples initial_state burn_in adapt_steps epsilon0 g0.
Proof. intros Heps. unfold run. now rewrite (bind_ok _ _ _ _ _ Heps). Qed.

Lemma sample_after_run (self : sampler) fuel n_samples initial_state burn_in adapt_steps g
    st g' :
  run fuel self n_samples initial_state burn_in adapt_steps g = Ok (st, g') ->
  sample fuel self n_samples initial_state burn_in adapt_steps g
  = Ok (({| log_density := log_density self;
            grad_log_density := grad_log_density self;
            epsilon := c_epsilon_bar st;
            delta := delta self;
            samples := Some (drop burn_in (c_all_samples st));
            acceptance_rate :=
              Some (truediv (c_accepted st) (Z.of_nat (burn_in + n_samples)));
            epsilon_history := c_epsilon_history st |},
         drop burn_in (c_all_samples st)), g').
Proof. intros Hrun. unfold sample. now rewrite (bind_ok _ _ _ _ _ Hrun). Qed.

(** [sample] from the line after the search for a step size to the end
    of its loop, whatever step size the search returned (also [inf], which
    is what float64 doubling ends in on a flat target). *)
Lemma nuts_run_from (self : sampler) fuel n_samples initial_state burn_in adapt_steps
    epsilon0 g0 :
  (11 <= fuel)%nat -> (1 <= burn_in + n_samples)%nat ->
  well_shaped (grad_log_density self) (length initial_state) ->
  (forall x, below_overflow (log_density self x)) ->
  log_density self initial_state <> NaN ->
  exists st g',
    run_from fuel self n_samples initial_state burn_in adapt_steps epsilon0 g0 = Ok (st, g')
    /\ for_each (range 1 (burn_in + n_samples))
         (loop_body fuel self (length initial_state) (flog (fmul (of_int 10) epsilon0))
            adapt_steps)
         (initial_chain_state
            (<[0%nat:=initial_state]> (zeros (burn_in + n_samples) (length initial_state)))
            epsilon0) g0
       = Ok (st, g')
    /\ nuts_invariant fuel self initial_state (burn_in + n_samples) adapt_steps
         (burn_in + n_samples) st.
Proof.
  intros Hfuel Hpos Hgrad Hbelow Hinit.
  assert (Hinf : forall x, log_density self x <> PInf)
    by (intros x; apply below_overflow_not_pinf, Hbelow).
  set (total := (burn_in + n_samples)%nat) in *.
  set (dim := length initial_state) in *.
  assert (Hlen0 : length (zeros total dim) = total) by apply length_replicate.
  set (st0 := initial_chain_state (<[0%nat:=initial_state]> (zeros total dim)) epsilon0).
  destruct (for_each_invariant
              (nuts_invariant fuel self initial_state total adapt_steps)
              (loop_body fuel self dim (flog (fmul (of_int 10) epsilon0)) adapt_steps)
              (total - 1) 1 st0 g0)
    as (st & g' & Hrun & Hinv).
  - unfold nuts_invariant, st0, initial_chain_state;
      cbn [c_all_samples c_epsilon c_epsilon_bar].
    split; [|split; [|split; [|split; [|split]]]].
    + now rewrite length_insert.
    + apply list_lookup_insert_eq. lia.
    + intros k Hk; lia.
    + intros k row Hk Hrow. assert (k = 0)%nat as -> by lia.
      rewrite list_lookup_insert_eq in Hrow by lia. injection Hrow as <-.
      split; [exact Hinit | apply Hinf].
    + apply Forall_insert; [|reflexivity].
      unfold zeros. apply Forall_replicate. apply length_replicate.
    + intros Hlate; lia.
  - intros m st g1 Hm Hinv.
    apply loop_body_invariant; [assumption | assumption | assumption | lia | assumption].
  - exists st, g'. split; [|split].
    + unfold run_from. fold total. fold dim.
      rewrite setitem_ok by lia.
      erewrite bind_ok by reflexivity. exact Hrun.
    + exact Hrun.
    + replace (1 + (total - 1))%nat with total in Hinv by lia. exact Hinv.
Qed.

End NutsFrom.

(** ** The standard normal target in one dimension *)

Lemma fpow_2_1 : fpow (Finite 2) (Finite 1) = Finite 2.
Proof. unfold fpow. rewrite Rltb_true by lra. f_equal. apply Rpower_1. lra. Qed.

Lemma ln_2_pos : 0 < ln 2.
Proof. rewrite <- ln_1. apply ln_increasing; lra. Qed.

Lemma ln_half_neg : ln (1 / 2) < 0.
Proof. rewrite <- ln_1. apply ln_increasing; lra. Qed.

Lemma ln_2_below_1 : ln 2 < 1.
Proof.
  rewrite <- (ln_exp 1). apply ln_increasing; [lra|].
  pose proof (exp_ineq1 1 ltac:(lra)). lra.
Qed.

Lemma normal_log_ratio_1 (e : R) :
  NUTS.log_ratio_at normal_nuts [Finite 0] [Finite 1] (Finite e)
  = Finite (- ((1 - e * e / 2) * (1 - e * e / 2) / 2) + 1 / 2).
Proof.
  unfold NUTS.log_ratio_at. rewrite normal_leapfrog_1. rewrite !normal_hamiltonian_1.
  cbn. f_equal. lra.
Qed.

(** From the state 0, with the momentum 1, the search doubles the step
    size twice: the energy difference is 3/8 at step size 1, 0 at 2 and
    -24 at 4. *)
Lemma normal_epsilon :
  NUTS.find_reasonable_epsilon (H := counting_random) 11 normal_nuts [Finite 0] 0%nat
  = Ok (Finite 4, 1%nat).
Proof.
  unfold NUTS.find_reasonable_epsilon. rewrite bind_draw.
  change ((randn (RandomState := counting_random) (length [Finite 0]) 0%nat).1)
    with [Finite 1].
  change ((randn (RandomState := counting_random) (length [Finite 0]) 0%nat).2)
    with 1%nat.
  pose proof ln_2_pos as H2. pose proof ln_half_neg as Hh. pose proof ln_2_below_1 as H1.
  rewrite normal_log_ratio_1.
  assert (Ea : fgt (Finite (- ((1 - 1 * 1 / 2) * (1 - 1 * 1 / 2) / 2) + 1 / 2))
                 (flog (Finite (1 / 2))) = true).
  { unfold fgt, flog. rewrite Rltb_true by lra. cbn. apply Rltb_true. lra. }
  rewrite Ea.
  assert (Elog : flog (Finite 2) = Finite (ln 2)).
  { unfold flog. now rewrite Rltb_true by lra. }
  cbn [NUTS.epsilon_loop]. rewrite Elog, fpow_2_1. cbn [fmul fneg fgt flt].
  rewrite Rltb_true by lra.
  rewrite normal_log_ratio_1. cbn [fmul fneg fgt flt].
  rewrite Rltb_true by lra.
  rewrite normal_log_ratio_1. cbn [fmul fneg fgt flt].
  rewrite Rltb_false by lra.
  unfold ret. do 2 f_equal. f_equal. lra.
Qed.

Lemma log_std_normal_below_overflow (x : vec) : below_overflow (log_std_normal x).
Proof.
  unfold log_std_normal.
  assert (Hsum : forall (l : vec) (a : npfloat),
            match a with Finite r => 0 <= r | PInf | NaN => True | NInf => False end ->
            match fold_left fadd (vsquare l) a with
            | Finite r => 0 <= r | PInf | NaN => True | NInf => False end).
  { induction l as [|y l IH]; intros a Ha; [exact Ha|].
    cbn [vsquare map fold_left]. apply IH.
    destruct a as [r| | |], y as [s| | |]; cbn; try exact I; try contradiction.
    pose proof (Rle_0_sqr s) as Hs. unfold Rsqr in Hs. lra. }
  specialize (Hsum x (Finite 0) ltac:(lra)). unfold vsum.
  destruct (fold_left fadd (vsquare x) (Finite 0)) as [r| | |]; cbn; try exact I.
  - lra.
  - unfold inf_times. rewrite Rltb_false by lra. rewrite Rltb_true by lra. exact I.
  - contradiction.
Qed.

Lemma normal_mh_std : flt (MetropolisHastings.proposal_std normal_mh) (Finite 0) = false.
Proof. simpl. apply Rltb_false. lra. Qed.

Lemma log_std_normal_zero : log_std_normal [Finite 0] <> NaN.
Proof. cbn. discriminate. Qed.

Section NutsIterations.
Context `{RandomState}.
Import NUTS.

(** What one pass of the outer loop that returns has done. *)
Lemma loop_body_inversion (self : sampler) fuel dim mu adapt_steps m st g st' g' :
  loop_body fuel self dim mu adapt_steps m st g = Ok (st', g') ->
  exists prev tr,
    c_all_samples st !! (m - 1)%nat = Some prev
    /\ trajectory_of fuel self dim prev st g = Ok (tr, g')
    /\ (m < length (c_all_samples st))%nat
    /\ c_all_samples st' = <[m:=t_q_new tr]> (c_all_samples st)
    /\ c_accepted st' = t_accepted tr
    /\ c_alpha st' = t_alpha tr
    /\ ((m <= adapt_steps)%nat ->
        exists alpha n_alpha,
          t_alpha tr = Some (alpha, n_alpha)
          /\ c_H_bar st'
             = fadd (fmul (fsub (of_int 1) (truediv 1 (Z.of_nat m + t0))) (c_H_bar st))
                    (fmul (truediv 1 (Z.of_nat m + t0))
                          (fsub (delta self) (fdiv alpha (of_int n_alpha))))
          /\ c_epsilon st'
             = fexp (fsub mu (fmul (fdiv (fsqrt (of_int (Z.of_nat m))) gamma)
                                   (c_H_bar st')))
          /\ c_epsilon_bar st'
             = fexp (fadd (fmul (fpow (of_int (Z.of_nat m)) (fneg kappa))
                                (flog (c_epsilon st')))
                          (fmul (fsub (of_int 1) (fpow (of_int (Z.of_nat m)) (fneg kappa)))
                                (flog (c_epsilon_bar st))))
          /\ c_epsilon_history st' = c_epsilon_history st ++ [c_epsilon st'])
    /\ ((adapt_steps < m)%nat ->
        c_epsilon st' = c_epsilon_bar st
        /\ c_epsilon_bar st' = c_epsilon_bar st
        /\ c_H_bar st' = c_H_bar st
        /\ c_epsilon_history st' = c_epsilon_history st).
Proof.
  unfold loop_body. intros Hrun. unfold bind at 1, lift, getitem in Hrun.
  destruct (c_all_samples st !! (m - 1)%nat) as [prev|] eqn:Hprev; [|discriminate].
  unfold bind at 1 in Hrun.
  destruct (trajectory_of fuel self dim prev st g) as [[tr g1]| |] eqn:Htr; try discriminate.
  unfold bind at 1, lift, setitem in Hrun.
  destruct (decide (m < length (c_all_samples st))%nat) as [Hm|Hm]; [|discriminate].
  exists prev, tr. split; [reflexivity|]. unfold adapt in Hrun.
  cbn [c_all_samples c_accepted c_epsilon c_epsilon_bar c_H_bar c_epsilon_history c_alpha]
    in Hrun.
  destruct (Nat.leb_spec m adapt_steps) as [Hle|Hgt].
  - destruct (t_alpha tr) as [[alpha n_alpha]|] eqn:Ea; [|discriminate].
    injection Hrun as <- <-.
    cbn [c_all_samples c_accepted c_epsilon c_epsilon_bar c_H_bar c_epsilon_history c_alpha].
    split; [exact Htr|]. split; [exact Hm|]. split; [reflexivity|].
    split; [reflexivity|]. split; [reflexivity|]. split; [|intros; lia].
    intros _. exists alpha, n_alpha. rewrite !flog_fexp.
    repeat split; reflexivity.
  - injection Hrun as <- <-.
    cbn [c_all_samples c_accepted c_epsilon c_epsilon_bar c_H_bar c_epsilon_history c_alpha].
    split; [exact Htr|]. split; [exact Hm|]. split; [reflexivity|].
    split; [reflexivity|]. split; [reflexivity|]. split; [intros; lia|].
    intros _. repeat split; reflexivity.
Qed.

(** The trajectory of an iteration is the doubling loop run with the
    working step size of the state the iteration starts in. *)
Lemma trajectory_of_inversion (self : sampler) fuel dim q st g tr g' :
  trajectory_of fuel self dim q st g = Ok (tr, g') ->
  let p := (randn dim g).1 in
  exists u gu,
    tree_loop fuel fuel self u (c_epsilon st) q p
      {| t_q_fwd := q; t_p_fwd := p; t_q_bwd := q; t_p_bwd := p; t_q_new := q;
         t_j := 0; t_n := 1; t_s := 1;
         t_accepted := c_accepted st; t_alpha := c_alpha st |} gu
    = Ok (tr, g').
Proof.
  unfold trajectory_of. rewrite bind_draw. intros Hrun. cbv zeta.
  unfold bind at 1 in Hrun.
  destruct (np_uniform _ _ _) as [[u gu]| |]; try discriminate.
  exists u, gu. exact Hrun.
Qed.

End NutsIterations.

(** ** Wide steps on the standard normal target

    With a step size of 2 or more a leapfrog step from the state 0 with the
    momentum 1 raises the energy by [epsilon^4 / 8 >= 2]: the leaf is not
    a valid state, its acceptance statistic is below 1/3, and the
    trajectory turns back at once. *)

Lemma exp_minus_2 : exp (-2) < 1 / 3.
Proof.
  replace (-2) with (Ropp 2) by lra. rewrite exp_Ropp.
  pose proof (exp_ineq1 2 ltac:(lra)) as H2.
  apply (Rmult_lt_reg_r (exp 2)); [lra|].
  rewrite Rinv_l by lra. lra.
Qed.

Lemma exp_below (x b : R) : x <= b -> exp x <= exp b.
Proof.
  intros [Hlt | ->]; [left; now apply exp_increasing | right; reflexivity].
Qed.

Lemma normal_leaf_wide (fuel : nat) (v : Z) (e : R) (g : nat) :
  (v = 1 \/ v = -1)%Z -> 2 <= e ->
  exists t,
    NUTS.build_tree (H := counting_random) (S fuel) normal_nuts [Finite 0] [Finite 1]
      (Finite (0 + 1 / 2 * (exp (- ((0 * 0 + 1 * 1) / 2)) + - 0))) v 0 (Finite e)
      [Finite 0] [Finite 1] g = Ok (t, g)
    /\ NUTS.q_new t = [Finite (IZR v * e)]
    /\ NUTS.p_new t = [Finite (1 - e * e / 2)]
    /\ NUTS.q_fwd t = NUTS.q_new t /\ NUTS.p_fwd t = NUTS.p_new t
    /\ NUTS.q_bwd t = NUTS.q_new t /\ NUTS.p_bwd t = NUTS.p_new t
    /\ NUTS.n_prime t = 0%Z
    /\ (NUTS.s_prime t = 0%Z \/ NUTS.s_prime t = 1%Z)
    /\ NUTS.n_alpha_prime t = 1%Z
    /\ exists a, NUTS.alpha_prime t = Finite a /\ 0 < a < 1 / 3.
Proof.
  intros Hv He. rewrite build_tree_base. cbv zeta.
  assert (Es : fmul (of_int v) (Finite e) = Finite (IZR v * e)) by reflexivity.
  rewrite Es, normal_leapfrog_1. cbn [fst snd]. rewrite !normal_hamiltonian_1.
  set (s := IZR v * e).
  assert (Hss : s * s = e * e).
  { unfold s. destruct Hv as [-> | ->]; ring. }
  set (y := e * e) in *.
  assert (Hy : 4 <= y) by (unfold y; nra).
  assert (Hq : 0 + s * (1 - s * 0 / 2) = s) by field.
  assert (Hp : 1 - s * 0 / 2 - s * (0 + s * (1 - s * 0 / 2)) / 2 = 1 - y / 2).
  { replace (1 - s * 0 / 2 - s * (0 + s * (1 - s * 0 / 2)) / 2) with (1 - s * s / 2) by field.
    now rewrite Hss. }
  rewrite Hp, Hq.
  assert (HH : (s * s + (1 - y / 2) * (1 - y / 2)) / 2 = 1 / 2 + y * y / 8).
  { rewrite Hss. field. }
  rewrite HH.
  replace ((0 * 0 + 1 * 1) / 2) with (1 / 2) by field.
  assert (Hyy : 2 <= y * y / 8) by nra.
  pose proof exp_minus_2 as H2.
  pose proof (exp_pos (- (1 / 2))) as Hhalf.
  pose proof (exp_pos (- (y * y / 8))) as Hpos.
  pose proof (exp_below (- (y * y / 8)) (-2) ltac:(lra)) as Hsmall.
  eexists. split; [reflexivity|].
  cbn [NUTS.q_new NUTS.p_new NUTS.q_fwd NUTS.p_fwd NUTS.q_bwd NUTS.p_bwd NUTS.n_prime
       NUTS.s_prime NUTS.n_alpha_prime NUTS.alpha_prime].
  split; [reflexivity|]. split; [reflexivity|].
  split; [reflexivity|]. split; [reflexivity|].
  split; [reflexivity|]. split; [reflexivity|].
  split.
  { cbn [fneg fexp flt]. rewrite Rltb_false; [reflexivity|].
    replace (- (1 / 2 + y * y / 8)) with (- (1 / 2) + - (y * y / 8)) by lra.
    rewrite exp_plus. nra. }
  split.
  { destruct (flt _ _); [right | left]; reflexivity. }
  split; [reflexivity|].
  exists (exp (- (y * y / 8))). split; [|lra].
  cbn [fsub fneg fadd fexp]. unfold pymin. cbn [flt].
  replace (1 / 2 + - (1 / 2 + y * y / 8)) with (- (y * y / 8)) by lra.
  rewrite Rltb_true by lra. reflexivity.
Qed.

Lemma counting_rand_not_negative (g : nat) (x : R) :
  x <= 0 -> flt (rand (RandomState := counting_random) g).1 (Finite x) = false.
Proof.
  intros Hx. cbn. apply Rltb_false. destruct (Nat.even g); lra.
Qed.

Lemma normal_doubling_wide (fuel : nat) (e : R) (st : NUTS.trajectory) (g : nat) :
  2 <= e ->
  NUTS.t_q_fwd st = [Finite 0] -> NUTS.t_p_fwd st = [Finite 1] ->
  NUTS.t_q_bwd st = [Finite 0] -> NUTS.t_p_bwd st = [Finite 1] ->
  NUTS.t_j st = 0%Z -> NUTS.t_n st = 1%Z ->
  exists st' g',
    NUTS.doubling (H := counting_random) (S fuel) normal_nuts
      (Finite (0 + 1 / 2 * (exp (- ((0 * 0 + 1 * 1) / 2)) + - 0))) (Finite e)
      [Finite 0] [Finite 1] st g = Ok (st', g')
    /\ NUTS.t_s st' = 0%Z
    /\ NUTS.t_j st' = 1%Z
    /\ NUTS.t_q_new st' = NUTS.t_q_new st
    /\ NUTS.t_accepted st' = NUTS.t_accepted st
    /\ exists a, NUTS.t_alpha st' = Some (Finite a, 1%Z) /\ 0 < a < 1 / 3.
Proof.
  intros He Hqf Hpf Hqb Hpb Hj Hn.
  unfold NUTS.doubling. rewrite bind_draw. rewrite Hqf, Hpf, Hqb, Hpb, Hj, Hn.
  set (v := (2 * int_of_bool (flt (rand (RandomState := counting_random) g).1 (Finite (1 / 2))) - 1)%Z).
  assert (Hv : (v = 1 \/ v = -1)%Z).
  { unfold v. destruct (flt _ _); [left | right]; reflexivity. }
  destruct (normal_leaf_wide fuel v e (rand (RandomState := counting_random) g).2 Hv He)
    as (t & Ht & Hq & Hp & Hqf' & Hpf' & Hqb' & Hpb' & Hn' & Hs & Hna & a & Ha & Hrange).
  assert (Hbt :
    (if (v =? -1)%Z
     then NUTS.build_tree (H := counting_random) (S fuel) normal_nuts [Finite 0] [Finite 1]
            (Finite (0 + 1 / 2 * (exp (- ((0 * 0 + 1 * 1) / 2)) + - 0))) v 0 (Finite e)
            [Finite 0] [Finite 1]
     else NUTS.build_tree (H := counting_random) (S fuel) normal_nuts [Finite 0] [Finite 1]
            (Finite (0 + 1 / 2 * (exp (- ((0 * 0 + 1 * 1) / 2)) + - 0))) v 0 (Finite e)
            [Finite 0] [Finite 1]) (rand (RandomState := counting_random) g).2
    = Ok (t, (rand (RandomState := counting_random) g).2)).
  { destruct (v =? -1)%Z; exact Ht. }
  rewrite (bind_ok _ _ _ _ _ Hbt).
  assert (Hturn : forall sp,
    NUTS.no_u_turn sp
      (if (v =? -1)%Z then [Finite 0] else NUTS.q_fwd t)
      (if (v =? -1)%Z then [Finite 1] else NUTS.p_fwd t)
      (if (v =? -1)%Z then NUTS.q_new t else [Finite 0])
      (if (v =? -1)%Z then NUTS.p_new t else [Finite 1]) = 0%Z).
  { intros sp. rewrite Hqf', Hpf', Hq, Hp.
    destruct Hv as [-> | ->]; cbn [Z.eqb Pos.eqb]; rewrite no_u_turn_1.
    - rewrite (Rleb_false _ ((IZR 1 * e - 0) * (1 - e * e / 2))) by nra.
      cbn [int_of_bool]. lia.
    - rewrite (Rleb_false _ ((0 - IZR (-1) * e) * (1 - e * e / 2))) by nra.
      cbn [int_of_bool]. lia. }
  assert (Hacc :
    exists g',
      (if (NUTS.s_prime t =? 1)%Z
       then
         let* r' := draw (rand (RandomState := counting_random)) in
         if flt r' (pymin (Finite 1) (truediv (NUTS.n_prime t) 1))
         then ret (NUTS.q_prime t, (NUTS.t_accepted st + 1)%Z)
         else ret (NUTS.t_q_new st, NUTS.t_accepted st)
       else ret (NUTS.t_q_new st, NUTS.t_accepted st))
        (rand (RandomState := counting_random) g).2
      = Ok ((NUTS.t_q_new st, NUTS.t_accepted st), g')).
  { destruct (NUTS.s_prime t =? 1)%Z; [|eexists; reflexivity].
    rewrite bind_draw, Hn'.
    assert (Ezero : pymin (Finite 1) (truediv 0 1) = Finite (0 / 1)).
    { unfold truediv, of_int, fdiv, pymin. rewrite Rltb_true by lra.
      cbn [flt]. rewrite Rltb_true by lra. reflexivity. }
    rewrite Ezero, counting_rand_not_negative by lra. eexists; reflexivity. }
  destruct Hacc as (g' & Hacc).
  destruct (if (v =? -1)%Z
            then ([Finite 0], [Finite 1], NUTS.q_new t, NUTS.p_new t)
            else (NUTS.q_fwd t, NUTS.p_fwd t, [Finite 0], [Finite 1]))
    as [[[qf pf] qb] pb] eqn:Eends.
  rewrite (bind_ok _ _ _ _ _ Hacc). eexists _, g'. split; [reflexivity|].
  cbn [NUTS.t_s NUTS.t_j NUTS.t_q_new NUTS.t_accepted NUTS.t_alpha].
  split.
  { specialize (Hturn (NUTS.s_prime t)).
    destruct (v =? -1)%Z; injection Eends as <- <- <- <-; exact Hturn. }
  split; [reflexivity|]. split; [reflexivity|]. split; [reflexivity|].
  exists a. rewrite Ha, Hna. split; [reflexivity | exact Hrange].
Qed.

Lemma normal_trajectory_wide (fuel : nat) (e : R) (st : NUTS.chain_state) (g : nat) :
  (2 <= fuel)%nat -> NUTS.c_epsilon st = Finite e -> 2 <= e ->
  exists tr g' a,
    NUTS.trajectory_of (H := counting_random) fuel normal_nuts 1 [Finite 0] st g
    = Ok (tr, g')
    /\ NUTS.t_q_new tr = [Finite 0]
    /\ NUTS.t_accepted tr = NUTS.c_accepted st
    /\ NUTS.t_alpha tr = Some (Finite a, 1%Z)
    /\ 0 < a < 1 / 3.
Proof.
  intros Hfuel Heps He. destruct fuel as [|[|fuel]]; [lia | lia |].
  unfold NUTS.trajectory_of. rewrite bind_draw.
  change ((randn (RandomState := counting_random) 1 g).1) with [Finite 1].
  change ((randn (RandomState := counting_random) 1 g).2) with (S g).
  rewrite normal_hamiltonian_1. unfold np_uniform. cbn [fneg fexp fsub fadd isfinite].
  rewrite bind_draw.
  change ((uniform (RandomState := counting_random) (Finite 0)
             (Finite (exp (- ((0 * 0 + 1 * 1) / 2)))) (S g)).1)
    with (Finite (0 + 1 / 2 * (exp (- ((0 * 0 + 1 * 1) / 2)) + - 0))).
  change ((uniform (RandomState := counting_random) (Finite 0)
             (Finite (exp (- ((0 * 0 + 1 * 1) / 2)))) (S g)).2)
    with (S (S g)).
  rewrite Heps.
  set (st0 := {| NUTS.t_q_fwd := [Finite 0]; NUTS.t_p_fwd := [Finite 1];
                 NUTS.t_q_bwd := [Finite 0]; NUTS.t_p_bwd := [Finite 1];
                 NUTS.t_q_new := [Finite 0]; NUTS.t_j := 0; NUTS.t_n := 1; NUTS.t_s := 1;
                 NUTS.t_accepted := NUTS.c_accepted st; NUTS.t_alpha := NUTS.c_alpha st |}).
  destruct (normal_doubling_wide (S fuel) e st0 (S (S g)) He
              eq_refl eq_refl eq_refl eq_refl eq_refl eq_refl)
    as (st' & g' & Hd & Hs & Hj & Hq & Hacc & a & Ha & Hrange).
  exists st', g', a. split.
  - cbn [NUTS.tree_loop]. change ((NUTS.t_s st0 =? 1)%Z) with true.
    change ((NUTS.t_j st0 <? NUTS.max_tree_depth)%Z) with true. cbn [andb].
    rewrite (bind_ok _ _ _ _ _ Hd). rewrite Hs. reflexivity.
  - split; [exact Hq|]. split; [exact Hacc|]. split; [exact Ha | exact Hrange].
Qed.

Lemma normal_loop_body_wide (fuel : nat) (mu : npfloat) (adapt_steps m : nat)
    (st : NUTS.chain_state) (g : nat) (e : R) :
  (2 <= fuel)%nat -> (m < length (NUTS.c_all_samples st))%nat ->
  NUTS.c_all_samples st !! (m - 1)%nat = Some [Finite 0] ->
  NUTS.c_epsilon st = Finite e -> 2 <= e ->
  exists st' g' a,
    NUTS.loop_body (H := counting_random) fuel normal_nuts 1 mu adapt_steps m st g
    = Ok (st', g')
    /\ NUTS.c_all_samples st' = <[m:=[Finite 0]]> (NUTS.c_all_samples st)
    /\ 0 < a < 1 / 3
    /\ ((m <= adapt_steps)%nat ->
        NUTS.c_H_bar st'
        = fadd (fmul (fsub (of_int 1) (truediv 1 (Z.of_nat m + NUTS.t0))) (NUTS.c_H_bar st))
               (fmul (truediv 1 (Z.of_nat m + NUTS.t0))
                     (fsub (Finite (6 / 10)) (fdiv (Finite a) (of_int 1))))
        /\ NUTS.c_epsilon st'
           = fexp (fsub mu (fmul (fdiv (fsqrt (of_int (Z.of_nat m))) NUTS.gamma)
                                 (NUTS.c_H_bar st')))
        /\ NUTS.c_epsilon_bar st'
           = fexp (fadd (fmul (fpow (of_int (Z.of_nat m)) (fneg NUTS.kappa))
                              (flog (NUTS.c_epsilon st')))
                        (fmul (fsub (of_int 1)
                                 (fpow (of_int (Z.of_nat m)) (fneg NUTS.kappa)))
                              (flog (NUTS.c_epsilon_bar st))))).
Proof.
  intros Hfuel Hm Hprev Heps He.
  destruct (normal_trajectory_wide fuel e st g Hfuel Heps He)
    as (tr & g' & a & Htr & Hq & Hacc & Ha & Hrange).
  assert (Hrun : exists st',
            NUTS.loop_body (H := counting_random) fuel normal_nuts 1 mu adapt_steps m st g
            = Ok (st', g')).
  { unfold NUTS.loop_body. rewrite (getitem_ok _ _ _ Hprev).
    erewrite bind_ok by reflexivity. rewrite (bind_ok _ _ _ _ _ Htr).
    rewrite setitem_ok by exact Hm. erewrite bind_ok by reflexivity.
    unfold NUTS.adapt. cbn [NUTS.c_alpha]. rewrite Ha.
    destruct (m <=? adapt_steps)%nat; eexists; reflexivity. }
  destruct Hrun as (st' & Hrun). exists st', g', a. split; [exact Hrun|].
  destruct (loop_body_inversion (H := counting_random) _ _ _ _ _ _ _ _ _ _ Hrun)
    as (prev & tr' & Hprev' & Htr' & _ & Hall & _ & _ & Hearly & _).
  rewrite Hprev in Hprev'. injection Hprev' as <-.
  rewrite Htr in Htr'. injection Htr' as <-.
  split; [now rewrite Hall, Hq|]. split; [exact Hrange|].
  intros Hle. destruct (Hearly Hle) as (alpha & n_alpha & Ha' & HH & He' & Hbar & _).
  rewrite Ha in Ha'. injection Ha' as <- <-.
  split; [exact HH|]. split; [exact He' | exact Hbar].
Qed.

Lemma normal_iteration (fuel : nat) (c : R) (adapt_steps m : nat)
    (st : NUTS.chain_state) (g : nat) (e h bbar : R) :
  (2 <= fuel)%nat -> (1 <= m <= adapt_steps)%nat ->
  (m < length (NUTS.c_all_samples st))%nat ->
  NUTS.c_all_samples st !! (m - 1)%nat = Some [Finite 0] ->
  NUTS.c_epsilon st = Finite e -> 2 <= e ->
  NUTS.c_H_bar st = Finite h ->
  flog (NUTS.c_epsilon_bar st) = Finite bbar ->
  exists st' g' a,
    NUTS.loop_body (H := counting_random) fuel normal_nuts 1 (Finite c) adapt_steps m st g
    = Ok (st', g')
    /\ NUTS.c_all_samples st' = <[m:=[Finite 0]]> (NUTS.c_all_samples st)
    /\ 0 < a < 1 / 3
    /\ let h' := (1 - 1 / (INR m + 10)) * h + 1 / (INR m + 10) * (6 / 10 - a) in
       let l' := c - sqrt (INR m) / (5 / 100) * h' in
       let w := Rpower (INR m) (- (75 / 100)) in
       NUTS.c_H_bar st' = Finite h'
       /\ NUTS.c_epsilon st' = Finite (exp l')
       /\ flog (NUTS.c_epsilon_bar st') = Finite (w * l' + (1 - w) * bbar).
Proof.
  intros Hfuel Hm Hlen Hprev Heps He HH Hbar.
  destruct (normal_loop_body_wide fuel (Finite c) adapt_steps m st g e Hfuel Hlen Hprev Heps He)
    as (st' & g' & a & Hrun & Hall & Hrange & Hearly).
  exists st', g', a. split; [exact Hrun|]. split; [exact Hall|]. split; [exact Hrange|].
  destruct (Hearly ltac:(lia)) as (EH & Ee & Ebar). cbv zeta.
  assert (Hpos : 0 < INR m + 10) by (pose proof (pos_INR m); lra).
  assert (EH' : NUTS.c_H_bar st'
                = Finite ((1 - 1 / (INR m + 10)) * h + 1 / (INR m + 10) * (6 / 10 - a))).
  { rewrite EH, HH. unfold truediv, of_int, fdiv, NUTS.t0.
    rewrite plus_IZR, <- INR_IZR_INZ.
    rewrite (Rltb_true 0 (INR m + 10)) by exact Hpos.
    rewrite (Rltb_true 0 1) by lra.
    cbn [fsub fneg fadd fmul]. f_equal. field. lra. }
  split; [exact EH'|].
  assert (Ee' : NUTS.c_epsilon st'
                = Finite (exp (c - sqrt (INR m) / (5 / 100)
                                   * ((1 - 1 / (INR m + 10)) * h
                                      + 1 / (INR m + 10) * (6 / 10 - a))))).
  { rewrite Ee, EH'. unfold of_int, fsqrt, NUTS.gamma, fdiv.
    rewrite <- INR_IZR_INZ.
    rewrite (Rltb_false (INR m) 0) by (pose proof (pos_INR m); lra).
    rewrite (Rltb_true 0 (5 / 100)) by lra.
    cbn [fsub fneg fadd fmul fexp]. try reflexivity; do 2 f_equal; lra. }
  split; [exact Ee'|].
  rewrite Ebar, flog_fexp, Ee', Hbar, weight_value by lia.
  assert (Elog : forall x, flog (Finite (exp x)) = Finite x).
  { intros x. exact (flog_fexp (Finite x)). }
  rewrite Elog. unfold of_int. cbn [fsub fneg fadd fmul]. try reflexivity; f_equal; lra.
Qed.

Lemma ln_40_above_3 : 3 < ln (10 * 4).
Proof.
  rewrite <- (ln_exp 3) at 1. apply ln_increasing; [apply exp_pos|].
  pose proof exp_le_3 as H3. pose proof (exp_pos 1) as H1.
  replace 3 with (1 + (1 + 1)) at 1 by lra. rewrite !exp_plus. nra.
Qed.

Lemma exp_above_2 (x : R) : 1 <= x -> 2 <= exp x.
Proof.
  intros Hx. pose proof (exp_ineq1 1 ltac:(lra)) as H1.
  pose proof (exp_below 1 x Hx). lra.
Qed.

Lemma sqrt_2_above : 14 / 10 <= sqrt 2.
Proof.
  replace (14 / 10) with (sqrt (14 / 10 * (14 / 10))) by (apply sqrt_square; lra).
  apply sqrt_le_1; lra.
Qed.

Lemma weight_2_below_1 : 0 < Rpower 2 (- (75 / 100)) < 1.
Proof.
  unfold Rpower. pose proof ln_2_pos as H2. split; [apply exp_pos|].
  rewrite <- exp_0. apply exp_increasing. nra.
Qed.

Lemma weight_1 : Rpower 1 (- (75 / 100)) = 1.
Proof. unfold Rpower. rewrite ln_1, Rmult_0_r. apply exp_0. Qed.

(** * The claims *)

(** C6.  In exact arithmetic (a finite step size, finite states, a
    gradient that maps finite vectors of the state's dimension to finite
    vectors of that dimension) the L-step leapfrog integrator of HMC, which
    ends by negating the momentum, is its own inverse: applied to its own
    output it returns the very [(q, p)] it started from, whatever [L]. *)
Theorem C6_leapfrog_is_an_involution
    (self : HamiltonianMC.sampler) (n : nat) (q p : vec) :
  is_finite (HamiltonianMC.epsilon self) ->
  (forall v, fvec n v -> fvec n (HamiltonianMC.grad_log_density self v)) ->
  fvec n q -> fvec n p ->
  HamiltonianMC.leapfrog self
    (HamiltonianMC.leapfrog self q p).1 (HamiltonianMC.leapfrog self q p).2
  = (q, p).
Proof.
  intros Heps Hgrad Hq Hp. apply (leapfrog_involutive self n); assumption.
Qed.

Lemma C6_witness :
  fvec 2 [Finite 1; Finite 2] /\ fvec 2 [Finite 0; Finite 1]
  /\ HamiltonianMC.leapfrog normal_hmc
       (HamiltonianMC.leapfrog normal_hmc [Finite 1; Finite 2] [Finite 0; Finite 1]).1
       (HamiltonianMC.leapfrog normal_hmc [Finite 1; Finite 2] [Finite 0; Finite 1]).2
     = ([Finite 1; Finite 2], [Finite 0; Finite 1]).
Proof.
  assert (Hq : fvec 2 [Finite 1; Finite 2]) by (split; [reflexivity | repeat constructor]).
  assert (Hp : fvec 2 [Finite 0; Finite 1]) by (split; [reflexivity | repeat constructor]).
  split; [exact Hq|]. split; [exact Hp|].
  apply (C6_leapfrog_is_an_involution normal_hmc 2).
  - exact I.
  - intros v Hv. apply fvec_vneg. exact Hv.
  - exact Hq.
  - exact Hp.
Defined.

(** C4.  At depth 0 [build_tree] takes one leapfrog step of size
    [v * epsilon] to [(q', p')], draws nothing, and returns that state in
    all four state slots with [n' = int(u < exp(-H'))],
    [s' = int(u < exp(1000 - H'))], [alpha' = min(1, exp(H0 - H'))] and
    [n_alpha' = 1], where [H' = H(q', p')] and [H0 = H(q0, p0)]. *)
Theorem C4_build_tree_base_case `{RandomState}
    (self : NUTS.sampler) (fuel : nat) (q p : vec) (u : npfloat) (v : Z)
    (epsilon : npfloat) (q0 p0 : vec) (g : rng) :
  let q' := (NUTS.leapfrog self q p (fmul (of_int v) epsilon)).1 in
  let p' := (NUTS.leapfrog self q p (fmul (of_int v) epsilon)).2 in
  let H' := NUTS.hamiltonian self q' p' in
  let H0 := NUTS.hamiltonian self q0 p0 in
  exists t,
    NUTS.build_tree (S fuel) self q p u v 0 epsilon q0 p0 g = Ok (t, g)
    /\ (NUTS.q_new t, NUTS.p_new t) = (q', p')
    /\ (NUTS.q_fwd t, NUTS.p_fwd t) = (q', p')
    /\ (NUTS.q_bwd t, NUTS.p_bwd t) = (q', p')
    /\ (NUTS.q_prime t, NUTS.p_prime t) = (q', p')
    /\ (NUTS.n_prime t = 1%Z <-> flt u (fexp (fneg H')) = true)
    /\ (NUTS.n_prime t = 0%Z <-> flt u (fexp (fneg H')) = false)
    /\ (NUTS.s_prime t = 1%Z <-> flt u (fexp (fsub (Finite 1000) H')) = true)
    /\ (NUTS.s_prime t = 0%Z <-> flt u (fexp (fsub (Finite 1000) H')) = false)
    /\ NUTS.alpha_prime t = pymin (Finite 1) (fexp (fsub H0 H'))
    /\ NUTS.n_alpha_prime t = 1%Z.
Proof.
  intros q' p' H' H0.
  eexists. split; [apply build_tree_base|].
  cbn [NUTS.q_new NUTS.p_new NUTS.q_fwd NUTS.p_fwd NUTS.q_bwd NUTS.p_bwd
       NUTS.q_prime NUTS.p_prime NUTS.n_prime NUTS.s_prime NUTS.alpha_prime
       NUTS.n_alpha_prime].
  fold q' p' H' H0.
  repeat (split; [reflexivity|]).
  split; [|split; [|split; [|split; [|split; reflexivity]]]].
  - destruct (flt u (fexp (fneg H'))); simpl; split; intros; (reflexivity || discriminate).
  - destruct (flt u (fexp (fneg H'))); simpl; split; intros; (reflexivity || discriminate).
  - destruct (flt u (fexp (fsub (Finite 1000) H'))); simpl; split; intros;
      (reflexivity || discriminate).
  - destruct (flt u (fexp (fsub (Finite 1000) H'))); simpl; split; intros;
      (reflexivity || discriminate).
Qed.

(** C3.  On a natural-number depth [j] the recursion of [build_tree] ends
    (within [j + 1] nested calls), and the doubling loop of an iteration of
    [sample], started as [sample] starts it ([j = 0], [n = 1], [s = 1]),
    ends after at most [max_tree_depth = 10] doublings, whatever the
    inputs and the draws, so also when the U-turn test never fires. *)
Theorem C3_tree_building_terminates `{RandomState}
    (self : NUTS.sampler) (j fuel : nat) (q p : vec) (u : npfloat) (v : Z)
    (epsilon : npfloat) (q0 p0 : vec) (g : rng)
    (fuel_tree fuel' : nat) (u1 epsilon1 : npfloat) (q1 p1 : vec)
    (accepted : Z) (alpha : option (npfloat * Z)) (g1 : rng) :
  (j < fuel)%nat -> (10 <= fuel_tree)%nat -> (11 <= fuel')%nat ->
  (exists t g',
     NUTS.build_tree fuel self q p u v (Z.of_nat j) epsilon q0 p0 g = Ok (t, g'))
  /\ (exists tr g',
        NUTS.tree_loop fuel_tree fuel' self u1 epsilon1 q1 p1
          {| NUTS.t_q_fwd := q1; NUTS.t_p_fwd := p1;
             NUTS.t_q_bwd := q1; NUTS.t_p_bwd := p1;
             NUTS.t_q_new := q1;
             NUTS.t_j := 0; NUTS.t_n := 1; NUTS.t_s := 1;
             NUTS.t_accepted := accepted; NUTS.t_alpha := alpha |} g1 = Ok (tr, g')
        /\ (0 <= NUTS.t_j tr <= NUTS.max_tree_depth)%Z)
  /\ NUTS.max_tree_depth = 10%Z.
Proof.
  intros Hfuel Hft Hfuel'. split; [|split; [|reflexivity]].
  - apply build_tree_terminates. assumption.
  - match goal with
    | |- context [NUTS.tree_loop _ _ _ _ _ _ _ ?st0 _] =>
        destruct (tree_loop_spec self fuel_tree u1 epsilon1 q1 p1 Hft fuel' st0 g1)
          as (tr & g' & Hrun & Hj & _)
    end.
    + cbn. unfold NUTS.max_tree_depth. lia.
    + cbn. unfold NUTS.max_tree_depth. change (Z.to_nat (10 - 0)) with 10%nat. lia.
    + exists tr, g'. split; [exact Hrun|]. cbn in Hj. lia.
Qed.

Lemma C3_witness :
  (3 < 4)%nat /\ (10 <= 10)%nat /\ (11 <= 11)%nat
  /\ (exists t g',
        NUTS.build_tree (H := counting_random) 4 half_line_nuts [Finite 1] [Finite 1]
          (Finite (1 / 2)) 1 (Z.of_nat 3) (Finite (1 / 10)) [Finite 1] [Finite 1] 0%nat
        = Ok (t, g'))
  /\ (exists tr g',
        NUTS.tree_loop (H := counting_random) 10 11 half_line_nuts
          (Finite (1 / 2)) (Finite (1 / 10)) [Finite 1] [Finite 1]
          {| NUTS.t_q_fwd := [Finite 1]; NUTS.t_p_fwd := [Finite 1];
             NUTS.t_q_bwd := [Finite 1]; NUTS.t_p_bwd := [Finite 1];
             NUTS.t_q_new := [Finite 1];
             NUTS.t_j := 0; NUTS.t_n := 1; NUTS.t_s := 1;
             NUTS.t_accepted := 0; NUTS.t_alpha := None |} 0%nat = Ok (tr, g')
        /\ (0 <= NUTS.t_j tr <= NUTS.max_tree_depth)%Z)
  /\ NUTS.max_tree_depth = 10%Z.
Proof.
  split; [lia|]. split; [lia|]. split; [lia|].
  apply (C3_tree_building_terminates (H := counting_random)); lia.
Defined.

(** C5, on the code.  Going backward, [build_tree] and [sample] take
    slots 0 and 1 of the tuple a subtree returns (its first state,
    [q_new, p_new]) as the new backward endpoint, where slots 4 and 5
    ([q_bwd, p_bwd], "Backward-most position and momentum") hold the
    backward-most one; going forward they take slots 2 and 3, the
    forward-most one.  So after a backward subtree of any depth the
    endpoint the U-turn test reads is exactly one leapfrog step behind the
    previous one, although the subtree went up to [2 ** j] steps back: in
    the merge of [build_tree], and in the doubling loop of [sample], where
    a subtree of depth 1 whose first leaf has its flag at 1 reaches a
    second state that the test never sees. *)
Theorem C5_backward_endpoint_is_one_step_behind `{RandomState}
    (self : NUTS.sampler) (j fuel : nat) (q p : vec) (u epsilon : npfloat)
    (q0 p0 : vec) (g : rng) (fuel' : nat) (st : NUTS.trajectory) (g1 : rng) :
  (S j < fuel)%nat -> (0 <= NUTS.t_j st)%Z -> (Z.to_nat (NUTS.t_j st) < fuel')%nat ->
  flt (rand g1).1 (Finite (1 / 2)) = false ->
  let back := fmul (of_int (-1)) epsilon in
  (exists t g' t1 ga,
     NUTS.build_tree fuel self q p u (-1) (Z.of_nat (S j)) epsilon q0 p0 g = Ok (t, g')
     /\ NUTS.build_tree (fuel - 1) self q p u (-1) (Z.of_nat j) epsilon q0 p0 g = Ok (t1, ga)
     /\ (NUTS.s_prime t1 = 1%Z ->
         (NUTS.q_bwd t, NUTS.p_bwd t)
         = NUTS.leapfrog self (NUTS.q_bwd t1) (NUTS.p_bwd t1) back))
  /\ (exists st' g' t gb,
        NUTS.doubling fuel' self u epsilon q0 p0 st g1 = Ok (st', g')
        /\ NUTS.build_tree fuel' self (NUTS.t_q_bwd st) (NUTS.t_p_bwd st) u (-1)
             (NUTS.t_j st) epsilon q0 p0 (rand g1).2 = Ok (t, gb)
        /\ (NUTS.t_q_fwd st', NUTS.t_p_fwd st') = (NUTS.t_q_fwd st, NUTS.t_p_fwd st)
        /\ (NUTS.t_q_bwd st', NUTS.t_p_bwd st')
           = NUTS.leapfrog self (NUTS.t_q_bwd st) (NUTS.t_p_bwd st) back
        /\ NUTS.t_s st'
           = NUTS.no_u_turn (NUTS.s_prime t) (NUTS.t_q_fwd st') (NUTS.t_p_fwd st')
               (NUTS.t_q_bwd st') (NUTS.t_p_bwd st')
        /\ (NUTS.t_j st = 1%Z ->
            let first := NUTS.leapfrog self (NUTS.t_q_bwd st) (NUTS.t_p_bwd st) back in
            let second := NUTS.leapfrog self first.1 first.2 back in
            flt u (fexp (fsub (Finite 1000) (NUTS.hamiltonian self first.1 first.2))) = true ->
            (NUTS.q_bwd t, NUTS.p_bwd t) = second
            /\ NUTS.s_prime t
               = NUTS.no_u_turn
                   (int_of_bool (flt u (fexp (fsub (Finite 1000)
                                            (NUTS.hamiltonian self second.1 second.2)))))
                   first.1 first.2 second.1 second.2)).
Proof.
  intros Hfuel Hj Hfuel' Hdir back. split.
  - destruct fuel as [|fuel]; [lia|].
    replace (S fuel - 1)%nat with fuel by lia.
    destruct (build_tree_terminates self (S j) (S fuel) q p u (-1) epsilon q0 p0 g Hfuel)
      as (t & g' & Ht).
    destruct (build_tree_merge self fuel q p u (-1) (Z.of_nat (S j)) epsilon q0 p0 g t g'
                ltac:(lia) Ht) as (t1 & ga & H1 & _ & Hmerge).
    replace (Z.of_nat (S j) - 1)%Z with (Z.of_nat j) in * by lia.
    exists t, g', t1, ga. split; [exact Ht|]. split; [exact H1|].
    intros Hs. destruct (Hmerge Hs) as (t2 & gc & H2 & _ & Hmerged).
    replace (-1 =? -1)%Z with true in * by reflexivity.
    cbv zeta in Hmerged. rewrite Hmerged. cbn [NUTS.q_bwd NUTS.p_bwd].
    exact (build_tree_first_state self _ _ _ _ _ _ _ _ _ _ _ _ H2).
  - destruct (doubling_backward self fuel' u epsilon q0 p0 st g1 Hj Hfuel' Hdir)
      as (st' & g' & t & gb & Hd & Hbt & Hfwd & Hbwd & Hflag).
    pose proof (build_tree_first_state self _ _ _ _ _ _ _ _ _ _ _ _ Hbt) as Hfirst.
    exists st', g', t, gb. split; [exact Hd|]. split; [exact Hbt|].
    split; [exact Hfwd|]. split; [rewrite Hbwd; exact Hfirst|]. split.
    + injection Hfwd as -> ->. injection Hbwd as -> ->. exact Hflag.
    + intros Hone first second Hleaf. rewrite Hone in Hbt.
      exact (build_tree_backward_depth_1 self _ _ _ _ _ _ _ _ _ _ Hbt Hleaf).
Qed.

Lemma C5_witness :
  (2 < 3)%nat /\ (0 <= 1)%Z /\ (Z.to_nat 1 < 2)%nat
  /\ flt (rand (RandomState := counting_random) 1%nat).1 (Finite (1 / 2)) = false
  /\ exists st' g' t gb,
       NUTS.doubling (H := counting_random) 2 normal_nuts (Finite (1 / 4)) (Finite 1)
         [Finite 0] [Finite 1]
         {| NUTS.t_q_fwd := [Finite 0]; NUTS.t_p_fwd := [Finite 1];
            NUTS.t_q_bwd := [Finite (-1)]; NUTS.t_p_bwd := [Finite (1 / 2)];
            NUTS.t_q_new := [Finite 0];
            NUTS.t_j := 1; NUTS.t_n := 2; NUTS.t_s := 1;
            NUTS.t_accepted := 0;
            NUTS.t_alpha := Some (fexp (Finite (- (1 / 8))), 1%Z) |} 1%nat = Ok (st', g')
       /\ NUTS.build_tree (H := counting_random) 2 normal_nuts [Finite (-1)] [Finite (1 / 2)]
            (Finite (1 / 4)) (-1) 1 (Finite 1) [Finite 0] [Finite 1] 2%nat = Ok (t, gb)
       /\ (NUTS.t_q_fwd st', NUTS.t_p_fwd st') = ([Finite 0], [Finite 1])
       /\ (NUTS.t_q_bwd st', NUTS.t_p_bwd st') = ([Finite (-1)], [Finite (- (1 / 2))])
       /\ (NUTS.q_bwd t, NUTS.p_bwd t) = ([Finite 0], [Finite (-1)])
       /\ NUTS.s_prime t = 1%Z
       /\ NUTS.t_s st' = 0%Z
       /\ NUTS.no_u_turn (NUTS.s_prime t) (NUTS.t_q_fwd st') (NUTS.t_p_fwd st')
            (NUTS.q_bwd t) (NUTS.p_bwd t) = 1%Z.
Proof.
  assert (Hdir : flt (rand (RandomState := counting_random) 1%nat).1 (Finite (1 / 2)) = false)
    by (cbn; apply Rltb_false; lra).
  split; [lia|]. split; [lia|]. split; [simpl; lia|]. split; [exact Hdir|].
  destruct (C5_backward_endpoint_is_one_step_behind (H := counting_random) normal_nuts 1 3
              [Finite 0] [Finite 1] (Finite (1 / 4)) (Finite 1) [Finite 0] [Finite 1] 0%nat 2
              {| NUTS.t_q_fwd := [Finite 0]; NUTS.t_p_fwd := [Finite 1];
                 NUTS.t_q_bwd := [Finite (-1)]; NUTS.t_p_bwd := [Finite (1 / 2)];
                 NUTS.t_q_new := [Finite 0];
                 NUTS.t_j := 1; NUTS.t_n := 2; NUTS.t_s := 1;
                 NUTS.t_accepted := 0;
                 NUTS.t_alpha := Some (fexp (Finite (- (1 / 8))), 1%Z) |} 1%nat
              ltac:(lia) ltac:(simpl; lia) ltac:(simpl; lia) Hdir)
    as (_ & st' & g' & t & gb & Hd & Hbt & Hfwd & Hbwd & Hflag & Hdeep).
  cbn [NUTS.t_q_fwd NUTS.t_p_fwd NUTS.t_q_bwd NUTS.t_p_bwd NUTS.t_j fmul of_int]
    in Hbt, Hfwd, Hbwd, Hdeep.
  assert (Hfirst : NUTS.leapfrog normal_nuts [Finite (-1)] [Finite (1 / 2)] (Finite (-1 * 1))
                   = ([Finite (-1)], [Finite (- (1 / 2))])).
  { rewrite normal_leapfrog_1. f_equal; do 2 f_equal; lra. }
  assert (Hsecond : NUTS.leapfrog normal_nuts [Finite (-1)] [Finite (- (1 / 2))]
                      (Finite (-1 * 1))
                    = ([Finite 0], [Finite (-1)])).
  { rewrite normal_leapfrog_1. f_equal; do 2 f_equal; lra. }
  cbv zeta in Hdeep. rewrite Hfirst in Hdeep. cbn [fst snd] in Hdeep.
  rewrite Hsecond in Hdeep. cbn [fst snd] in Hdeep.
  rewrite !normal_hamiltonian_1 in Hdeep.
  destruct (Hdeep eq_refl) as (Eback & Hsub).
  { apply flag_below_1000; lra. }
  assert (Efwd : (NUTS.t_q_fwd st', NUTS.t_p_fwd st') = ([Finite 0], [Finite 1]))
    by exact Hfwd.
  assert (Ebwd : (NUTS.t_q_bwd st', NUTS.t_p_bwd st') = ([Finite (-1)], [Finite (- (1 / 2))]))
    by (rewrite Hbwd; exact Hfirst).
  assert (Esub : NUTS.s_prime t = 1%Z).
  { rewrite Hsub, flag_below_1000 by lra. rewrite no_u_turn_1.
    rewrite !Rleb_true by lra. reflexivity. }
  exists st', g', t, gb. split; [exact Hd|]. split; [exact Hbt|].
  split; [exact Efwd|]. split; [exact Ebwd|]. split; [exact Eback|].
  split; [exact Esub|].
  injection Efwd as Eqf Epf. injection Ebwd as Eqb Epb. injection Eback as Eq2 Ep2.
  rewrite Hflag, Esub, Eqf, Epf, Eqb, Epb, Eq2, Ep2, !no_u_turn_1.
  split.
  - rewrite (Rleb_false 0 ((0 - -1) * - (1 / 2))) by lra. reflexivity.
  - rewrite !Rleb_true by lra. reflexivity.
Defined.



(** C7, the claim as stated fails.  With [n_samples = 1], [burn_in = 0]
    and [thin = 1] the total iteration count is 1, yet the loop
    [for i in range(1, 1)] makes no iteration: no draw is made (the
    generator is left as it was), and the single row is the initial state. *)
Lemma C7_counterexample :
  MetropolisHastings.run (H := counting_random) positive_mh 1 [Finite 1] 0 1 0%nat
  = Ok (([[Finite 1]], 0%Z), 0%nat)
  /\ ~ (exists rows accepted g',
          MetropolisHastings.run (H := counting_random) positive_mh 1 [Finite 1] 0 1 0%nat
          = Ok (([Finite 1] :: rows, accepted), g')
          /\ chain_steps (MetropolisHastings.decide_step positive_mh) [Finite 1] 0%nat
               rows accepted g'
          /\ length rows = (0 + 1 * 1)%nat).
Proof.
  assert (Hrun : MetropolisHastings.run (H := counting_random) positive_mh 1 [Finite 1] 0 1
                   0%nat = Ok (([[Finite 1]], 0%Z), 0%nat)) by reflexivity.
  split; [exact Hrun|].
  intros (rows & accepted & g' & Hrun' & _ & Hlen).
  rewrite Hrun in Hrun'. injection Hrun' as <- _ _. discriminate.
Qed.

(** C7, as the code has it.  For [n_samples = N], [burn_in = B] and
    [thin = T >= 1] with [B + N * T >= 1], [MetropolisHastings.sample] and
    [HamiltonianMC.sample] record a chain of exactly [B + N * T] rows: the
    initial state, followed by the results of [B + N * T - 1] consecutive
    accept/reject iterations, each taken from the row before it with the
    generator as the iteration before left it.  They return the slice
    [[B::T]] of that chain, which has exactly [N] rows, each of the
    dimension of the initial state.  (MH: for a [proposal_std] that is not
    negative; HMC: for a gradient of the state's dimension.) *)
Theorem C7_sample_slices_the_chain_of_decisions `{RandomState}
    (mh : MetropolisHastings.sampler) (hmc : HamiltonianMC.sampler)
    (n_samples : nat) (initial_state : vec) (burn_in thin : nat) (g : rng) :
  (1 <= thin)%nat ->
  (1 <= burn_in + n_samples * thin)%nat ->
  flt (MetropolisHastings.proposal_std mh) (Finite 0) = false ->
  well_shaped (HamiltonianMC.grad_log_density hmc) (length initial_state) ->
  (exists rows accepted g' self' kept,
     MetropolisHastings.run mh n_samples initial_state burn_in thin g
     = Ok ((initial_state :: rows, accepted), g')
     /\ chain_steps (MetropolisHastings.decide_step mh) initial_state g rows accepted g'
     /\ S (length rows) = (burn_in + n_samples * thin)%nat
     /\ MetropolisHastings.sample mh n_samples initial_state burn_in thin g
        = Ok ((self', kept), g')
     /\ slice burn_in thin (initial_state :: rows) = Ok kept
     /\ MetropolisHastings.samples self' = Some kept
     /\ length kept = n_samples
     /\ Forall (fun row => length row = length initial_state) kept)
  /\ (exists rows accepted g' self' kept,
        HamiltonianMC.run hmc n_samples initial_state burn_in thin g
        = Ok ((initial_state :: rows, accepted), g')
        /\ chain_steps (HamiltonianMC.decide_step hmc (length initial_state))
             initial_state g rows accepted g'
        /\ S (length rows) = (burn_in + n_samples * thin)%nat
        /\ HamiltonianMC.sample hmc n_samples initial_state burn_in thin g
           = Ok ((self', kept), g')
        /\ slice burn_in thin (initial_state :: rows) = Ok kept
        /\ HamiltonianMC.samples self' = Some kept
        /\ length kept = n_samples
        /\ Forall (fun row => length row = length initial_state) kept).
Proof.
  intros Hthin Hpos Hstd Hgrad. split.
  - destruct (mh_sample mh n_samples initial_state burn_in thin g Hstd Hthin Hpos)
      as (all & acc & g' & kept & Hrun & _ & _ & Hslice & Hn & Hrows & Hsample).
    destruct (chain_loop_steps (MetropolisHastings.decide_step mh) initial_state
                (burn_in + n_samples * thin) g all acc g' Hpos Hrun)
      as (rows & -> & Hsteps & Hlen).
    eexists rows, acc, g', _, kept. split; [exact Hrun|]. split; [exact Hsteps|].
    split; [exact Hlen|]. split; [exact Hsample|]. split; [exact Hslice|].
    split; [reflexivity|]. split; assumption.
  - destruct (hmc_sample hmc n_samples initial_state burn_in thin g Hgrad Hthin Hpos)
      as (all & acc & g' & kept & Hrun & _ & _ & Hslice & Hn & Hrows & Hsample).
    destruct (chain_loop_steps (HamiltonianMC.decide_step hmc (length initial_state))
                initial_state (burn_in + n_samples * thin) g all acc g' Hpos Hrun)
      as (rows & -> & Hsteps & Hlen).
    eexists rows, acc, g', _, kept. split; [exact Hrun|]. split; [exact Hsteps|].
    split; [exact Hlen|]. split; [exact Hsample|]. split; [exact Hslice|].
    split; [reflexivity|]. split; assumption.
Qed.

Lemma C7_witness :
  (1 <= 2)%nat /\ (1 <= 3 + 4 * 2)%nat
  /\ (exists rows accepted self' kept g',
        MetropolisHastings.run (H := counting_random) positive_mh 4
          [Finite 1; Finite 2] 3 2 0%nat = Ok (([Finite 1; Finite 2] :: rows, accepted), g')
        /\ length rows = 10%nat
        /\ MetropolisHastings.sample (H := counting_random) positive_mh 4
             [Finite 1; Finite 2] 3 2 0%nat = Ok ((self', kept), g')
        /\ length kept = 4%nat
        /\ Forall (fun row => length row = 2%nat) kept)
  /\ (exists rows accepted self' kept g',
        HamiltonianMC.run (H := counting_random) normal_hmc 4
          [Finite 1; Finite 2] 3 2 0%nat = Ok (([Finite 1; Finite 2] :: rows, accepted), g')
        /\ length rows = 10%nat
        /\ HamiltonianMC.sample (H := counting_random) normal_hmc 4
             [Finite 1; Finite 2] 3 2 0%nat = Ok ((self', kept), g')
        /\ length kept = 4%nat
        /\ Forall (fun row => length row = 2%nat) kept).
Proof.
  split; [lia|]. split; [simpl; lia|].
  destruct (C7_sample_slices_the_chain_of_decisions (H := counting_random)
              positive_mh normal_hmc 4 [Finite 1; Finite 2] 3 2 0%nat
              ltac:(lia) ltac:(simpl; lia) positive_mh_std (grad_std_normal_shape 2))
    as ((r1 & c1 & g1 & s1 & k1 & R1 & _ & L1 & S1 & _ & _ & N1 & D1)
        & (r2 & c2 & g2 & s2 & k2 & R2 & _ & L2 & S2 & _ & _ & N2 & D2)).
  split.
  - exists r1, c1, s1, k1, g1. split; [exact R1|]. split; [simpl in L1; lia|].
    split; [exact S1|]. split; [exact N1 | exact D1].
  - exists r2, c2, s2, k2, g2. split; [exact R2|]. split; [simpl in L2; lia|].
    split; [exact S2|]. split; [exact N2 | exact D2].
Defined.

(** C10.  In [MetropolisHastings.sample] and [HamiltonianMC.sample] with
    [T = burn_in + n_samples * thin >= 1] the acceptance rate
    [accepted / T] is at most [(T - 1) / T], hence below 1: the loop makes
    [T - 1] decisions, so [accepted <= T - 1], and divides by [T].  With
    [thin >= 1] this is the rate [sample] stores on the sampler.  (MH: for
    a [proposal_std] that is not negative; HMC: for a gradient of the
    state's dimension.) *)
Theorem C10_acceptance_rate_below_one `{RandomState}
    (mh : MetropolisHastings.sampler) (hmc : HamiltonianMC.sampler)
    (n_samples : nat) (initial_state : vec) (burn_in thin : nat) (g : rng) :
  (1 <= burn_in + n_samples * thin)%nat ->
  flt (MetropolisHastings.proposal_std mh) (Finite 0) = false ->
  well_shaped (HamiltonianMC.grad_log_density hmc) (length initial_state) ->
  let T := (burn_in + n_samples * thin)%nat in
  (exists all_samples accepted g' rate,
     MetropolisHastings.run mh n_samples initial_state burn_in thin g
     = Ok ((all_samples, accepted), g')
     /\ (0 <= accepted <= Z.of_nat T - 1)%Z
     /\ truediv accepted (Z.of_nat T) = Finite rate
     /\ rate <= (INR T - 1) / INR T
     /\ (INR T - 1) / INR T < 1
     /\ ((1 <= thin)%nat ->
         exists self' kept,
           MetropolisHastings.sample mh n_samples initial_state burn_in thin g
           = Ok ((self', kept), g')
           /\ MetropolisHastings.acceptance_rate self' = Some (Finite rate)))
  /\ (exists all_samples accepted g' rate,
        HamiltonianMC.run hmc n_samples initial_state burn_in thin g
        = Ok ((all_samples, accepted), g')
        /\ (0 <= accepted <= Z.of_nat T - 1)%Z
        /\ truediv accepted (Z.of_nat T) = Finite rate
        /\ rate <= (INR T - 1) / INR T
        /\ (INR T - 1) / INR T < 1
        /\ ((1 <= thin)%nat ->
            exists self' kept,
              HamiltonianMC.sample hmc n_samples initial_state burn_in thin g
              = Ok ((self', kept), g')
              /\ HamiltonianMC.acceptance_rate self' = Some (Finite rate))).
Proof.
  intros Hpos Hstd Hgrad T. split.
  - destruct (mh_run mh n_samples initial_state burn_in thin g Hstd Hpos)
      as (all & acc & g' & Hrun & _ & Hacc & _).
    destruct (truediv_rate acc T Hpos Hacc) as (r & Hr & [_ Hle] & Hlt).
    exists all, acc, g', r. split; [exact Hrun|]. split; [exact Hacc|].
    split; [exact Hr|]. split; [exact Hle|]. split; [exact Hlt|].
    intros Hthin.
    destruct (mh_sample mh n_samples initial_state burn_in thin g Hstd Hthin Hpos)
      as (all' & acc' & g'' & kept & Hrun' & _ & _ & _ & _ & _ & Hsample).
    rewrite Hrun in Hrun'. injection Hrun' as <- <- <-.
    eexists _, kept. split; [exact Hsample|].
    cbn [MetropolisHastings.acceptance_rate]. fold T. now rewrite Hr.
  - destruct (hmc_run hmc n_samples initial_state burn_in thin g Hgrad Hpos)
      as (all & acc & g' & Hrun & _ & Hacc & _).
    destruct (truediv_rate acc T Hpos Hacc) as (r & Hr & [_ Hle] & Hlt).
    exists all, acc, g', r. split; [exact Hrun|]. split; [exact Hacc|].
    split; [exact Hr|]. split; [exact Hle|]. split; [exact Hlt|].
    intros Hthin.
    destruct (hmc_sample hmc n_samples initial_state burn_in thin g Hgrad Hthin Hpos)
      as (all' & acc' & g'' & kept & Hrun' & _ & _ & _ & _ & _ & Hsample).
    rewrite Hrun in Hrun'. injection Hrun' as <- <- <-.
    eexists _, kept. split; [exact Hsample|].
    cbn [HamiltonianMC.acceptance_rate]. fold T. now rewrite Hr.
Qed.

Lemma C10_witness :
  (1 <= 3 + 4 * 2)%nat
  /\ (exists self' kept g' rate,
        MetropolisHastings.sample (H := counting_random) positive_mh 4
          [Finite 1; Finite 2] 3 2 0%nat = Ok ((self', kept), g')
        /\ MetropolisHastings.acceptance_rate self' = Some (Finite rate)
        /\ rate <= (INR 11 - 1) / INR 11 < 1)
  /\ (exists self' kept g' rate,
        HamiltonianMC.sample (H := counting_random) normal_hmc 4
          [Finite 1; Finite 2] 3 2 0%nat = Ok ((self', kept), g')
        /\ HamiltonianMC.acceptance_rate self' = Some (Finite rate)
        /\ rate <= (INR 11 - 1) / INR 11 < 1).
Proof.
  split; [simpl; lia|].
  destruct (C10_acceptance_rate_below_one (H := counting_random)
              positive_mh normal_hmc 4 [Finite 1; Finite 2] 3 2 0%nat
              ltac:(simpl; lia) positive_mh_std (grad_std_normal_shape 2))
    as ((a1 & c1 & g1 & r1 & _ & _ & _ & B1 & U1 & S1)
        & (a2 & c2 & g2 & r2 & _ & _ & _ & B2 & U2 & S2)).
  split.
  - destruct (S1 ltac:(lia)) as (s1 & k1 & E1 & A1).
    exists s1, k1, g1, r1. split; [exact E1|]. split; [exact A1|]. split; [exact B1 | exact U1].
  - destruct (S2 ltac:(lia)) as (s2 & k2 & E2 & A2).
    exists s2, k2, g2, r2. split; [exact E2|]. split; [exact A2|]. split; [exact B2 | exact U2].
Defined.

(** C9, the claim as stated fails at the first iteration after the
    adaptation.  On the standard normal target, from the state 0, with
    [adapt_steps = 2] and four total iterations, the search returns the
    step size 4 and the run returns; iteration 3 is past [adapt_steps],
    and its trajectory is built with the step size of the state that
    iterations 1 and 2 left, which is the step size adapted in iteration
    2 and differs from [epsilon_bar]. *)
Lemma C9_counterexample :
  let mu := flog (fmul (of_int 10) (Finite 4)) in
  let body := NUTS.loop_body (H := counting_random) 11 normal_nuts 1 mu 2 in
  let start :=
    {| NUTS.c_all_samples := [[Finite 0]; [Finite 0]; [Finite 0]; [Finite 0]];
       NUTS.c_accepted := 0;
       NUTS.c_epsilon := Finite 4;
       NUTS.c_epsilon_bar := Finite 1;
       NUTS.c_H_bar := Finite 0;
       NUTS.c_epsilon_history := [Finite 4];
       NUTS.c_alpha := None |} in
  exists before gb st g' prev tr,
    NUTS.find_reasonable_epsilon (H := counting_random) 11 normal_nuts [Finite 0] 0%nat
    = Ok (Finite 4, 1%nat)
    /\ for_each [1; 2]%nat body start 1%nat = Ok (before, gb)
    /\ body 3%nat before gb = Ok (st, g')
    /\ NUTS.run (H := counting_random) 11 normal_nuts 2 [Finite 0] 2 2 0%nat = Ok (st, g')
    /\ NUTS.c_all_samples before !! 2%nat = Some prev
    /\ NUTS.trajectory_of (H := counting_random) 11 normal_nuts 1 prev before gb
       = Ok (tr, g')
    /\ (2 < 3)%nat
    /\ NUTS.c_epsilon before <> NUTS.c_epsilon_bar before.
Proof.
  intros mu body start.
  assert (Emu : mu = Finite (ln (10 * 4))).
  { unfold mu, of_int. cbn [fmul]. unfold flog. now rewrite Rltb_true by lra. }
  destruct (nuts_run_from (H := counting_random) normal_nuts 11 2 [Finite 0] 2 2
              (Finite 4) 1%nat ltac:(lia) ltac:(lia) (grad_std_normal_shape 1)
              log_std_normal_below_overflow log_std_normal_zero)
    as (st & g' & Hfrom & Hfor & _).
  change (for_each [1; 2; 3]%nat body start 1%nat = Ok (st, g')) in Hfor.
  pose proof ln_40_above_3 as H40.
  destruct (normal_iteration 11 (ln (10 * 4)) 2 1 start 1%nat 4 0 0
              ltac:(lia) ltac:(lia) ltac:(simpl; lia) eq_refl eq_refl ltac:(lra) eq_refl)
    as (s1 & g1 & a1 & Hrun1 & Hall1 & Ha1 & HH1 & He1 & Hbar1).
  { cbn. rewrite Rltb_true by lra. now rewrite ln_1. }
  cbv zeta in HH1, He1, Hbar1.
  change (INR 1) with 1 in HH1, He1, Hbar1. rewrite sqrt_1, weight_1 in *.
  set (h1 := (1 - 1 / (1 + 10)) * 0 + 1 / (1 + 10) * (6 / 10 - a1)) in *.
  set (l1 := ln (10 * 4) - 1 / (5 / 100) * h1) in *.
  assert (Hh1 : 0 < h1 < 6 / 110) by (unfold h1; lra).
  destruct (normal_iteration 11 (ln (10 * 4)) 2 2 s1 g1 (exp l1) h1 (1 * l1 + (1 - 1) * 0)
              ltac:(lia) ltac:(lia)) as (s2 & g2 & a2 & Hrun2 & Hall2 & Ha2 & HH2 & He2 & Hbar2).
  { rewrite Hall1. simpl. lia. }
  { rewrite Hall1. reflexivity. }
  { exact He1. }
  { apply exp_above_2. unfold l1. lra. }
  { exact HH1. }
  { exact Hbar1. }
  cbv zeta in HH2, He2, Hbar2.
  change (INR 2) with (1 + 1) in HH2, He2, Hbar2.
  replace (1 + 1) with 2 in HH2, He2, Hbar2 by lra.
  set (h2 := (1 - 1 / (2 + 10)) * h1 + 1 / (2 + 10) * (6 / 10 - a2)) in *.
  set (l2 := ln (10 * 4) - sqrt 2 / (5 / 100) * h2) in *.
  rewrite <- Emu in Hrun1, Hrun2. fold body in Hrun1, Hrun2.
  cbn [for_each] in Hfor.
  rewrite (bind_ok _ _ _ _ _ Hrun1), (bind_ok _ _ _ _ _ Hrun2) in Hfor.
  unfold bind in Hfor.
  destruct (body 3%nat s2 g2) as [[s3 g3]| |] eqn:Hrun3; try discriminate.
  injection Hfor as <- <-.
  destruct (loop_body_inversion (H := counting_random) _ _ _ _ _ _ _ _ _ _ Hrun3)
    as (prev & tr & Hprev & Htr & _).
  exists s2, g2, s3, g3, prev, tr.
  split; [exact normal_epsilon|].
  split.
  { cbn [for_each]. rewrite (bind_ok _ _ _ _ _ Hrun1), (bind_ok _ _ _ _ _ Hrun2).
    reflexivity. }
  split; [exact Hrun3|].
  split.
  { rewrite (run_after_search _ _ _ _ _ _ _ _ _ normal_epsilon). exact Hfrom. }
  split; [exact Hprev|]. split; [exact Htr|]. split; [lia|].
  intros Heq. rewrite He2 in Heq.
  assert (Hlog : flog (Finite (exp l2)) = flog (NUTS.c_epsilon_bar s2)) by now rewrite Heq.
  rewrite Hbar2 in Hlog. change (flog (Finite (exp l2))) with (flog (fexp (Finite l2))) in Hlog.
  rewrite flog_fexp in Hlog. injection Hlog as Hl.
  pose proof weight_2_below_1 as Hw. pose proof sqrt_2_above as Hs.
  assert (Hl' : l2 = l1) by nra.
  assert (Hh2 : 11 / 12 * h1 < h2) by (unfold h2; lra).
  unfold l2, l1 in Hl'.
  assert (Hprod : sqrt 2 * h2 = h1) by lra.
  nra.
Qed.

(** C9, as the code has it.  [sample], entered with the initial step size
    [epsilon0] (whatever the search returned), passes through the states
    [states], one for each iteration [m = 1 .. T - 1].  The trajectory of
    iteration [m] is the doubling loop run with the working step size of
    the state the iteration starts in.  At the end of an iteration
    [m <= adapt_steps] the averaged error, the working step size and
    [epsilon_bar] are updated, [epsilon_bar] with the weight
    [m ** (-0.75)]: [log epsilon_bar] becomes
    [m ** (-0.75) * log epsilon + (1 - m ** (-0.75)) * log epsilon_bar] for
    the step size [epsilon] just adapted, which is appended to the
    history.  At the end of an iteration [m > adapt_steps] the working
    step size is set to [epsilon_bar] and nothing else changes.  So the
    trajectories of the iterations [m >= adapt_steps + 2] are built with
    [epsilon_bar], and that of iteration [adapt_steps + 1] with the last
    step size of the history: the last adapted one, or [epsilon0].  Every
    state from iteration [adapt_steps] on has the final [epsilon_bar], and
    this is the [epsilon] of the sampler that [sample] leaves. *)
Theorem C9_step_size_adaptation `{RandomState}
    (self : NUTS.sampler) (fuel n_samples : nat) (initial_state : vec)
    (burn_in adapt_steps : nat) (g : rng) :
  (11 <= fuel)%nat -> (1 <= burn_in + n_samples)%nat ->
  well_shaped (NUTS.grad_log_density self) (length initial_state) ->
  (forall x, below_overflow (NUTS.log_density self x)) ->
  NUTS.log_density self initial_state <> NaN ->
  forall (epsilon0 : npfloat) (g0 : rng),
  let dim := length initial_state in
  let mu := flog (fmul (of_int 10) epsilon0) in
  let body := NUTS.loop_body fuel self dim mu adapt_steps in
  let start :=
    {| NUTS.c_all_samples := <[0%nat:=initial_state]> (zeros (burn_in + n_samples) dim);
       NUTS.c_accepted := 0;
       NUTS.c_epsilon := epsilon0;
       NUTS.c_epsilon_bar := Finite 1;
       NUTS.c_H_bar := Finite 0;
       NUTS.c_epsilon_history := [epsilon0];
       NUTS.c_alpha := None |} in
  exists states st g',
    NUTS.run_from fuel self n_samples initial_state burn_in adapt_steps epsilon0 g0
    = Ok (st, g')
    /\ loop_states body 1 start g0 states st g'
    /\ length states = (burn_in + n_samples - 1)%nat
    /\ (forall m after, (1 <= m)%nat -> states !! (m - 1)%nat = Some after ->
          exists before gb ga prev tr u gu,
            (start :: states) !! (m - 1)%nat = Some before
            /\ body m before gb = Ok (after, ga)
            /\ NUTS.c_all_samples before !! (m - 1)%nat = Some prev
            /\ NUTS.tree_loop fuel fuel self u (NUTS.c_epsilon before) prev (randn dim gb).1
                 {| NUTS.t_q_fwd := prev; NUTS.t_p_fwd := (randn dim gb).1;
                    NUTS.t_q_bwd := prev; NUTS.t_p_bwd := (randn dim gb).1;
                    NUTS.t_q_new := prev;
                    NUTS.t_j := 0; NUTS.t_n := 1; NUTS.t_s := 1;
                    NUTS.t_accepted := NUTS.c_accepted before;
                    NUTS.t_alpha := NUTS.c_alpha before |} gu
               = Ok (tr, ga)
            /\ NUTS.c_all_samples after !! m = Some (NUTS.t_q_new tr)
            /\ ((m <= adapt_steps)%nat ->
                exists alpha n_alpha w,
                  NUTS.t_alpha tr = Some (alpha, n_alpha)
                  /\ fpow (of_int (Z.of_nat m)) (fneg NUTS.kappa) = Finite w
                  /\ w = Rpower (INR m) (- (75 / 100))
                  /\ NUTS.c_H_bar after
                     = fadd (fmul (fsub (of_int 1) (truediv 1 (Z.of_nat m + NUTS.t0)))
                                  (NUTS.c_H_bar before))
                            (fmul (truediv 1 (Z.of_nat m + NUTS.t0))
                                  (fsub (NUTS.delta self) (fdiv alpha (of_int n_alpha))))
                  /\ NUTS.c_epsilon after
                     = fexp (fsub mu (fmul (fdiv (fsqrt (of_int (Z.of_nat m))) NUTS.gamma)
                                           (NUTS.c_H_bar after)))
                  /\ flog (NUTS.c_epsilon_bar after)
                     = fadd (fmul (Finite w) (flog (NUTS.c_epsilon after)))
                            (fmul (fsub (Finite 1) (Finite w))
                                  (flog (NUTS.c_epsilon_bar before)))
                  /\ NUTS.c_epsilon_bar after = fexp (flog (NUTS.c_epsilon_bar after))
                  /\ NUTS.c_epsilon_history after
                     = NUTS.c_epsilon_history before ++ [NUTS.c_epsilon after])
            /\ ((adapt_steps < m)%nat ->
                NUTS.c_epsilon after = NUTS.c_epsilon_bar after
                /\ NUTS.c_epsilon_bar after = NUTS.c_epsilon_bar before
                /\ NUTS.c_H_bar after = NUTS.c_H_bar before
                /\ NUTS.c_epsilon_history after = NUTS.c_epsilon_history before)
            /\ ((adapt_steps + 2 <= m)%nat ->
                NUTS.c_epsilon before = NUTS.c_epsilon_bar before)
            /\ ((m <= adapt_steps + 1)%nat ->
                last (NUTS.c_epsilon_history before) = Some (NUTS.c_epsilon before)))
    /\ (forall m x, (1 <= m)%nat -> states !! (m - 1)%nat = Some x ->
          (adapt_steps <= m)%nat -> NUTS.c_epsilon_bar x = NUTS.c_epsilon_bar st)
    /\ (NUTS.find_reasonable_epsilon fuel self initial_state g = Ok (epsilon0, g0) ->
        exists self' kept,
          NUTS.sample fuel self n_samples initial_state burn_in adapt_steps g
          = Ok ((self', kept), g')
          /\ NUTS.epsilon self' = NUTS.c_epsilon_bar st
          /\ NUTS.epsilon_history self' = NUTS.c_epsilon_history st).
Proof.
  intros Hfuel Hpos Hgrad Hbelow Hinit epsilon0 g0 dim mu body start.
  destruct (nuts_run_from self fuel n_samples initial_state burn_in adapt_steps
              epsilon0 g0 Hfuel Hpos Hgrad Hbelow Hinit)
    as (st & g' & Hrun & Hfor & _).
  fold dim in Hfor. fold mu in Hfor. fold body in Hfor.
  change (NUTS.initial_chain_state
            (<[0%nat:=initial_state]> (zeros (burn_in + n_samples) dim)) epsilon0)
    with start in Hfor.
  destruct (for_each_states body _ _ _ _ _ _ Hfor) as (states & Htrace & Hlen).
  exists states, st, g'. split; [exact Hrun|]. split; [exact Htrace|].
  split; [rewrite Hlen; lia|].
  assert (Hinv : forall k x, (start :: states) !! k = Some x ->
            ((adapt_steps + 2 <= 1 + k)%nat -> NUTS.c_epsilon x = NUTS.c_epsilon_bar x)
            /\ ((1 + k <= adapt_steps + 1)%nat ->
                last (NUTS.c_epsilon_history x) = Some (NUTS.c_epsilon x))).
  { apply (loop_states_invariant
             (fun m x =>
                ((adapt_steps + 2 <= m)%nat -> NUTS.c_epsilon x = NUTS.c_epsilon_bar x)
                /\ ((m <= adapt_steps + 1)%nat ->
                    last (NUTS.c_epsilon_history x) = Some (NUTS.c_epsilon x)))
             body 1 start g0 states st g' Htrace).
    - split; [intros; lia | intros _; reflexivity].
    - intros m x gx y gy Hm [Hlate Hearly] Hstep.
      destruct (loop_body_inversion _ _ _ _ _ _ _ _ _ _ Hstep)
        as (prev & tr & _ & _ & _ & _ & _ & _ & Had & Hfr).
      destruct (Nat.le_gt_cases m adapt_steps) as [Hle | Hgt].
      + destruct (Had Hle) as (_ & _ & _ & _ & _ & _ & Hhist).
        split; [intros; lia|]. intros _. rewrite Hhist. apply last_snoc.
      + destruct (Hfr Hgt) as (He & Hb & _ & _).
        split; [intros _; now rewrite He, Hb | intros; lia]. }
  split; [|split].
  - intros m after Hm Hafter.
    destruct (loop_states_step body _ _ _ _ _ _ Htrace _ _ Hafter)
      as (before & gb & ga & Hbefore & Hstep).
    replace (1 + (m - 1))%nat with m in Hstep by lia.
    destruct (loop_body_inversion _ _ _ _ _ _ _ _ _ _ Hstep)
      as (prev & tr & Hprev & Htr & Hlt & Hall & _ & _ & Had & Hfr).
    destruct (trajectory_of_inversion _ _ _ _ _ _ _ _ Htr) as (u & gu & Htree).
    destruct (Hinv _ _ Hbefore) as [Hlate Hearly].
    exists before, gb, ga, prev, tr, u, gu.
    split; [exact Hbefore|]. split; [exact Hstep|]. split; [exact Hprev|].
    split; [exact Htree|].
    split; [rewrite Hall; apply list_lookup_insert_eq; exact Hlt|].
    split; [|split; [|split]].
    2:{ intros Hgt. destruct (Hfr Hgt) as (He & Hb & HH & Hhist).
        split; [now rewrite He, Hb|]. split; [exact Hb|]. split; [exact HH | exact Hhist]. }
    + intros Hle. destruct (Had Hle) as (alpha & n_alpha & Ha & HH & He & Hbar & Hhist).
      exists alpha, n_alpha, (Rpower (INR m) (- (75 / 100))).
      split; [exact Ha|]. split; [apply weight_value; exact Hm|]. split; [reflexivity|].
      split; [exact HH|]. split; [exact He|].
      rewrite <- (weight_value m Hm).
      split; [rewrite Hbar at 1; apply flog_fexp|].
      split; [rewrite Hbar at 2; now rewrite flog_fexp | exact Hhist].
    + intros Hm2. apply Hlate. lia.
    + intros Hm1. apply Hearly. lia.
  - intros m x Hm Hx Hadapt.
    destruct (loop_states_frozen NUTS.c_epsilon_bar adapt_steps body _ _ _ _ _ _ Htrace)
      as [_ Hfrozen].
    { intros k y gy z gz Hk Hstep.
      destruct (loop_body_inversion _ _ _ _ _ _ _ _ _ _ Hstep)
        as (prev & tr & _ & _ & _ & _ & _ & _ & _ & Hfr).
      now destruct (Hfr Hk) as (_ & Hb & _). }
    apply (Hfrozen _ _ Hx). lia.
  - intros Heps.
    pose proof (run_after_search _ _ n_samples _ burn_in adapt_steps _ _ _ Heps) as Hsame.
    rewrite Hrun in Hsame.
    eexists _, _. split; [apply (sample_after_run _ _ _ _ _ _ _ _ _ Hsame)|].
    split; reflexivity.
Qed.

Lemma C9_witness :
  (11 <= 11)%nat /\ (1 <= 2 + 2)%nat
  /\ NUTS.log_density normal_nuts [Finite 0] = Finite 0
  /\ NUTS.find_reasonable_epsilon (H := counting_random) 11 normal_nuts [Finite 0] 0%nat
     = Ok (Finite 4, 1%nat)
  /\ exists states st g' self' kept,
       NUTS.sample (H := counting_random) 11 normal_nuts 2 [Finite 0] 2 2 0%nat
       = Ok ((self', kept), g')
       /\ length states = 3%nat
       /\ last states = Some st
       /\ NUTS.epsilon self' = NUTS.c_epsilon_bar st
       /\ (forall x, states !! 1%nat = Some x ->
             NUTS.c_epsilon_bar x = NUTS.epsilon self')
       /\ (forall x, states !! 2%nat = Some x ->
             NUTS.c_epsilon x = NUTS.c_epsilon_bar x).
Proof.
  split; [lia|]. split; [lia|]. split; [cbn; f_equal; lra|].
  split; [exact normal_epsilon|].
  destruct (C9_step_size_adaptation (H := counting_random) normal_nuts 11 2 [Finite 0] 2 2
              0%nat ltac:(lia) ltac:(lia) (grad_std_normal_shape 1)
              log_std_normal_below_overflow log_std_normal_zero (Finite 4) 1%nat)
    as (states & st & g' & _ & Htrace & Hlen & Hiter & Hfrozen & Hsample).
  destruct (Hsample normal_epsilon) as (self' & kept & Hs & He & _).
  exists states, st, g', self', kept.
  split; [exact Hs|]. split; [exact Hlen|].
  split.
  { pose proof (loop_states_last _ _ _ _ _ _ _ Htrace) as Hlast.
    destruct states as [|s1 [|s2 [|s3 [|s4 states]]]]; try discriminate Hlen.
    exact Hlast. }
  split; [exact He|]. split.
  - intros x Hx. rewrite He. apply (Hfrozen 2%nat x ltac:(lia) Hx). lia.
  - intros x Hx.
    destruct (Hiter 3%nat x ltac:(lia) Hx)
      as (before & gb & ga & prev & tr & u & gu & _ & _ & _ & _ & _ & _ & Hfr & _).
    apply Hfr. lia.
Defined.

(** C8, the claim as stated fails.  A proposal standard deviation of 0 is
    not positive, yet the constructor returns a sampler and [sample] runs
    to its end; the same for HMC with a negative step size and a negative
    number of leapfrog steps.  A negative proposal standard deviation, and
    a gradient of two components on a state of one, are accepted by the
    constructors too, and a call of [sample] with one total iteration
    returns the initial state without an error. *)
Lemma C8_counterexample :
  flt (Finite 0) (Finite 0) = false
  /\ flt (Finite 0) (Finite (-1)) = false
  /\ (-3 <= 0)%Z
  /\ MetropolisHastings.__init__ log_std_normal (Finite 0) = Ok still_mh
  /\ (exists r,
        MetropolisHastings.sample (H := counting_random) still_mh 2 [Finite 0] 1 1 0%nat
        = Ok r)
  /\ HamiltonianMC.__init__ log_std_normal grad_std_normal (Finite (-1)) (-3) = Ok backward_hmc
  /\ (exists r,
        HamiltonianMC.sample (H := counting_random) backward_hmc 2 [Finite 0] 1 1 0%nat
        = Ok r)
  /\ flt (Finite (-2)) (Finite 0) = true
  /\ MetropolisHastings.__init__ log_std_normal (Finite (-2)) = Ok negative_mh
  /\ (exists self',
        MetropolisHastings.sample (H := counting_random) negative_mh 1 [Finite 0] 0 1 0%nat
        = Ok ((self', [[Finite 0]]), 0%nat))
  /\ length (HamiltonianMC.grad_log_density mismatched_hmc [Finite 0]) = 2%nat
  /\ HamiltonianMC.__init__ log_std_normal (fun _ => [Finite 0; Finite 0]) (Finite (1 / 10)) 3
     = Ok mismatched_hmc
  /\ (exists self',
        HamiltonianMC.sample (H := counting_random) mismatched_hmc 1 [Finite 0] 0 1 0%nat
        = Ok ((self', [[Finite 0]]), 0%nat)).
Proof.
  split; [simpl; apply Rltb_false; lra|].
  split; [simpl; apply Rltb_false; lra|].
  split; [lia|]. split; [reflexivity|]. split; [|split; [reflexivity|split]].
  - destruct (mh_sample (H := counting_random) still_mh 2 [Finite 0] 1 1 0%nat
                still_mh_std ltac:(lia) ltac:(simpl; lia))
      as (a & c & g' & k & _ & _ & _ & _ & _ & _ & Hs).
    eexists. exact Hs.
  - destruct (hmc_sample (H := counting_random) backward_hmc 2 [Finite 0] 1 1 0%nat
                (grad_std_normal_shape 1) ltac:(lia) ltac:(simpl; lia))
      as (a & c & g' & k & _ & _ & _ & _ & _ & _ & Hs).
    eexists. exact Hs.
  - split; [simpl; apply Rltb_true; lra|]. split; [reflexivity|]. split.
    { destruct (mh_single_iteration (H := counting_random) negative_mh 1 [Finite 0] 0 1 0%nat
                  ltac:(lia) ltac:(simpl; lia)) as (_ & self' & Hs).
      exists self'. exact Hs. }
    split; [reflexivity|]. split; [reflexivity|].
    destruct (hmc_single_iteration (H := counting_random) mismatched_hmc 1 [Finite 0] 0 1 0%nat
                ltac:(lia) ltac:(simpl; lia)) as (_ & self' & Hs).
    exists self'. exact Hs.
Qed.

(** C8, as the code has it.  The constructors check nothing: whatever
    [proposal_std], [epsilon], [L] and [delta] are, positive or not, and
    whatever the density and the gradient expect, construction succeeds
    and stores the values unchanged.  [sample] checks nothing either.
    With [thin >= 1] and exactly one total iteration,
    [MetropolisHastings.sample] and [HamiltonianMC.sample] return the
    initial state ([n_samples] times, that is once or not at all) for every
    configuration, without a draw and without evaluating the density or
    the gradient.  With one or more iterations [HamiltonianMC.sample] runs
    to its end for every [epsilon] and [L] when the gradient has the
    state's dimension, and [MetropolisHastings.sample] runs to its end for
    every [proposal_std > 0]; a negative [proposal_std] is only noticed by
    [np.random.normal], which raises ValueError when the first proposal is
    drawn inside the loop, so with two or more iterations [sample] ends in
    that ValueError.  [NUTS.sample] does not read the configured [epsilon]:
    two samplers that differ only there give the same result. *)
Theorem C8_configuration_is_not_validated `{RandomState}
    (log_density : vec -> npfloat) (grad_log_density : vec -> vec)
    (proposal_std epsilon delta : npfloat) (L : Z)
    (n_samples : nat) (initial_state : vec) (burn_in thin : nat) (g : rng) :
  (1 <= thin)%nat ->
  (1 <= burn_in + n_samples * thin)%nat ->
  (exists mh,
     MetropolisHastings.__init__ log_density proposal_std = Ok mh
     /\ MetropolisHastings.proposal_std mh = proposal_std
     /\ ((burn_in + n_samples * thin = 1)%nat ->
         exists self',
           MetropolisHastings.sample mh n_samples initial_state burn_in thin g
           = Ok ((self', replicate n_samples initial_state), g))
     /\ (fgt proposal_std (Finite 0) = true ->
         exists r, MetropolisHastings.sample mh n_samples initial_state burn_in thin g = Ok r)
     /\ (flt proposal_std (Finite 0) = true ->
         (2 <= burn_in + n_samples * thin)%nat ->
         MetropolisHastings.sample mh n_samples initial_state burn_in thin g
         = Raise ValueError))
  /\ (exists hmc,
        HamiltonianMC.__init__ log_density grad_log_density epsilon L = Ok hmc
        /\ HamiltonianMC.epsilon hmc = epsilon
        /\ HamiltonianMC.L hmc = L
        /\ ((burn_in + n_samples * thin = 1)%nat ->
            exists self',
              HamiltonianMC.sample hmc n_samples initial_state burn_in thin g
              = Ok ((self', replicate n_samples initial_state), g))
        /\ (well_shaped grad_log_density (length initial_state) ->
            exists r, HamiltonianMC.sample hmc n_samples initial_state burn_in thin g = Ok r))
  /\ (exists nuts,
        NUTS.__init__ log_density grad_log_density epsilon delta = Ok nuts
        /\ NUTS.epsilon nuts = epsilon
        /\ NUTS.delta nuts = delta
        /\ forall epsilon' fuel adapt_steps, exists nuts',
             NUTS.__init__ log_density grad_log_density epsilon' delta = Ok nuts'
             /\ match NUTS.sample fuel nuts n_samples initial_state burn_in adapt_steps g,
                      NUTS.sample fuel nuts' n_samples initial_state burn_in adapt_steps g with
                | Ok ((a, kept), g1), Ok ((b, kept'), g2) =>
                    kept = kept' /\ g1 = g2
                    /\ NUTS.epsilon a = NUTS.epsilon b
                    /\ NUTS.samples a = NUTS.samples b
                    /\ NUTS.acceptance_rate a = NUTS.acceptance_rate b
                    /\ NUTS.epsilon_history a = NUTS.epsilon_history b
                | Raise e, Raise e' => e = e'
                | OutOfFuel, OutOfFuel => True
                | _, _ => False
                end).
Proof.
  intros Hthin Hpos. split; [|split].
  - eexists. split; [reflexivity|]. split; [reflexivity|]. split; [|split].
    + intros Hone.
      match goal with
      | |- exists self', MetropolisHastings.sample ?s _ _ _ _ _ = _ =>
          destruct (mh_single_iteration s n_samples initial_state burn_in thin g Hthin Hone)
            as (_ & self' & Hs)
      end.
      exists self'. exact Hs.
    + intros Hstd. apply fgt_zero_not_negative in Hstd.
      match goal with
      | |- exists r, MetropolisHastings.sample ?s _ _ _ _ _ = Ok r =>
          destruct (mh_sample s n_samples initial_state burn_in thin g Hstd Hthin Hpos)
            as (a & c & g' & k & _ & _ & _ & _ & _ & _ & Hs)
      end.
      eexists. exact Hs.
    + intros Hstd Htwo.
      match goal with
      | |- MetropolisHastings.sample ?s _ _ _ _ _ = _ =>
          apply (mh_negative_std s n_samples initial_state burn_in thin g Hstd Htwo)
      end.
  - eexists. split; [reflexivity|]. split; [reflexivity|]. split; [reflexivity|]. split.
    + intros Hone.
      match goal with
      | |- exists self', HamiltonianMC.sample ?s _ _ _ _ _ = _ =>
          destruct (hmc_single_iteration s n_samples initial_state burn_in thin g Hthin Hone)
            as (_ & self' & Hs)
      end.
      exists self'. exact Hs.
    + intros Hgrad.
      match goal with
      | |- exists r, HamiltonianMC.sample ?s _ _ _ _ _ = Ok r =>
          destruct (hmc_sample s n_samples initial_state burn_in thin g Hgrad Hthin Hpos)
            as (a & c & g' & k & _ & _ & _ & _ & _ & _ & Hs)
      end.
      eexists. exact Hs.
  - eexists. split; [reflexivity|]. split; [reflexivity|]. split; [reflexivity|].
    intros epsilon' fuel adapt_steps. eexists. split; [reflexivity|].
    apply sample_same; reflexivity.
Qed.

Lemma C8_witness :
  (1 <= 1)%nat /\ (1 <= 1 + 2 * 1)%nat
  /\ MetropolisHastings.sample (H := counting_random) negative_mh 2 [Finite 0] 1 1 0%nat
     = Raise ValueError
  /\ (exists r,
        HamiltonianMC.sample (H := counting_random) frozen_hmc 2 [Finite 0] 1 1 0%nat = Ok r)
  /\ (exists mh r,
        MetropolisHastings.__init__ log_std_normal (Finite 2) = Ok mh
        /\ MetropolisHastings.sample (H := counting_random) mh 2 [Finite 0] 1 1 0%nat = Ok r).
Proof.
  split; [lia|]. split; [simpl; lia|].
  destruct (C8_configuration_is_not_validated (H := counting_random)
              log_std_normal grad_std_normal (Finite (-2)) (Finite 0) (Finite 0) 10
              2 [Finite 0] 1 1 0%nat ltac:(lia) ltac:(simpl; lia))
    as ((mh & Emh & _ & _ & _ & Hneg) & (hmc & Ehmc & _ & _ & _ & Hhmc) & _).
  injection Emh as <-. injection Ehmc as <-.
  split; [apply Hneg; [simpl; apply Rltb_true; lra | simpl; lia]|].
  split; [exact (Hhmc (grad_std_normal_shape 1))|].
  destruct (C8_configuration_is_not_validated (H := counting_random)
              log_std_normal grad_std_normal (Finite 2) (Finite 0) (Finite 0) 10
              2 [Finite 0] 1 1 0%nat ltac:(lia) ltac:(simpl; lia))
    as ((mh' & Emh' & _ & _ & Hposv & _) & _).
  destruct Hposv as (r & Hr); [simpl; apply Rltb_true; lra|].
  exists mh', r. split; [exact Emh' | exact Hr].
Defined.

(** C1, on the code.  A NaN is not turned into a rejection: Python's
    [min(1.0, nan)] is [1.0], so the acceptance probability is 1 and the
    proposal is accepted.  On the target [log(x[0])] the proposal [-1.0]
    from the state [1.0] has log-density NaN; its acceptance probability is
    1, the decision accepts it, and a run of two iterations records the
    chain [[1.0], [-1.0]] with one accepted proposal instead of repeating
    [1.0].  In HMC a NaN proposed energy gives acceptance probability 1 for
    every current energy, and so does an infinite proposed energy against
    an infinite current one. *)
Theorem C1_nan_is_accepted :
  log_first [Finite (-1)] = NaN
  /\ MetropolisHastings.acceptance_probability positive_mh [Finite 1] [Finite (-1)] = Finite 1
  /\ (exists g',
        MetropolisHastings.decide_step (H := counting_random) positive_mh [Finite 1] 0%nat
        = Ok (([Finite (-1)], true), g'))
  /\ (exists g',
        MetropolisHastings.run (H := counting_random) positive_mh 1 [Finite 1] 1 1 0%nat
        = Ok (([[Finite 1]; [Finite (-1)]], 1%Z), g'))
  /\ (forall H_current, HamiltonianMC.accept_prob H_current NaN = Finite 1)
  /\ HamiltonianMC.accept_prob PInf PInf = Finite 1.
Proof.
  assert (Hprop : vadd [Finite 1]
                    (normal (RandomState := counting_random) (Finite 0)
                       (MetropolisHastings.proposal_std positive_mh) 1 0%nat).1
                  = [Finite (-1)]).
  { cbn. do 2 f_equal. lra. }
  assert (Hstep : exists g',
            MetropolisHastings.decide_step (H := counting_random) positive_mh [Finite 1] 0%nat
            = Ok (([Finite (-1)], true), g')).
  { destruct (mh_nan_accepted (H := counting_random) positive_mh [Finite 1] 0%nat)
      as [g' Hg'].
    - exact positive_mh_std.
    - cbn [length]. rewrite Hprop. exact log_first_negative.
    - exists g'. cbn [length] in Hg'. rewrite Hprop in Hg'. exact Hg'. }
  split; [exact log_first_negative|].
  split; [apply mh_acceptance_probability_nan; exact log_first_negative|].
  split; [exact Hstep|].
  split; [|split; [exact hmc_accept_prob_nan | reflexivity]].
  destruct Hstep as [g' Hstep]. exists g'.
  assert (Hbody :
    MetropolisHastings.loop_body (H := counting_random) positive_mh 1
      ([[Finite 1]; [Finite 0]], 0%Z) 0%nat
    = Ok (([[Finite 1]; [Finite (-1)]], 1%Z), g')).
  { unfold MetropolisHastings.loop_body.
    rewrite (getitem_ok _ (1 - 1) [Finite 1]) by reflexivity.
    erewrite bind_ok by reflexivity.
    rewrite (bind_ok _ _ _ _ _ Hstep).
    rewrite setitem_ok by (simpl; lia). reflexivity. }
  unfold MetropolisHastings.run.
  change (zeros (1 + 1 * 1) (length [Finite 1])) with [[Finite 0]; [Finite 0]].
  rewrite setitem_ok by (simpl; lia). erewrite bind_ok by reflexivity.
  change (range 1 (1 + 1 * 1)) with [1%nat]. cbn [for_each].
  change (<[0%nat:=[Finite 1]]> [[Finite 0]; [Finite 0]]) with [[Finite 1]; [Finite 0]].
  rewrite (bind_ok _ _ _ _ _ Hbody). reflexivity.
Qed.

(** * Further properties of the code *)

(** ** Tuning of the step size of HMC *)

Section Tuning.
Context `{RandomState}.
Import HamiltonianMC.

Lemma hmc_sample_keeps (self : sampler) n_samples initial_state burn_in thin g self' kept g' :
  sample self n_samples initial_state burn_in thin g = Ok ((self', kept), g') ->
  log_density self' = log_density self
  /\ grad_log_density self' = grad_log_density self
  /\ epsilon self' = epsilon self
  /\ L self' = L self
  /\ samples self' = Some kept.
Proof.
  unfold sample, bind.
  destruct (run self n_samples initial_state burn_in thin g) as [[[all acc] g1]| |];
    try discriminate.
  unfold lift. destruct (slice burn_in thin all) as [k| |]; try discriminate.
  unfold ret. intros [= <- <- <-]. repeat split; reflexivity.
Qed.

Lemma tune_loop_runs (initial_state : vec) (n_tuning : nat) (target_accept : npfloat) :
  (1 <= n_tuning)%nat ->
  forall cs st g,
    well_shaped (grad_log_density (tn_self st)) (length initial_state) ->
    exists runs st' g',
      tune_loop cs initial_state n_tuning target_accept st g = Ok (Tuned st', g')
      /\ tuning_runs initial_state n_tuning (tn_self st) g runs (tn_self st') g'
      /\ map fst runs = cs
      /\ Forall (fun run => exists r, run.2 = Finite r /\ 0 <= r < 1) runs
      /\ (best_epsilon st', best_diff st')
         = select target_accept runs (best_epsilon st, best_diff st)
      /\ log_density (tn_self st') = log_density (tn_self st)
      /\ grad_log_density (tn_self st') = grad_log_density (tn_self st)
      /\ L (tn_self st') = L (tn_self st).
Proof.
  intros Hn. induction cs as [|eps cs IH]; intros st g Hgrad.
  - exists [], st, g. repeat split; try reflexivity; constructor.
  - destruct (hmc_sample (set_epsilon (tn_self st) eps) n_tuning initial_state 0 1 g
                Hgrad ltac:(lia) ltac:(lia))
      as (all & acc & g1 & kept & _ & _ & Hacc & _ & _ & _ & Hsample).
    destruct (truediv_rate acc (0 + n_tuning * 1) ltac:(lia) Hacc) as (r & Hr & [Hr0 Hr1] & Hlt).
    set (self1 := {| log_density := log_density (set_epsilon (tn_self st) eps);
                     grad_log_density := grad_log_density (set_epsilon (tn_self st) eps);
                     epsilon := epsilon (set_epsilon (tn_self st) eps);
                     L := L (set_epsilon (tn_self st) eps);
                     samples := Some kept;
                     acceptance_rate := Some (truediv acc (Z.of_nat (0 + n_tuning * 1))) |})
      in Hsample.
    set (diff := fabs (fsub (Finite r) target_accept)).
    set (st1 := if flt diff (best_diff st)
                then {| tn_self := self1; best_epsilon := eps; best_diff := diff |}
                else {| tn_self := self1; best_epsilon := best_epsilon st;
                        best_diff := best_diff st |}).
    assert (Hself1 : tn_self st1 = self1) by (unfold st1; destruct (flt _ _); reflexivity).
    assert (Hbody : tune_body initial_state n_tuning target_accept eps st g
                    = Ok (Tuned st1, g1)).
    { unfold tune_body. rewrite (bind_ok _ _ _ _ _ Hsample).
      cbn [acceptance_rate self1]. rewrite Hr. fold diff. unfold st1.
      destruct (flt diff (best_diff st)); reflexivity. }
    destruct (IH st1 g1) as (runs & st' & g' & Hloop & Hruns & Hmap & Hrates & Hsel & F1 & F2 & F3).
    { rewrite Hself1. exact Hgrad. }
    exists ((eps, Finite r) :: runs), st', g'.
    split.
    { cbn [tune_loop]. rewrite (bind_ok _ _ _ _ _ Hbody). exact Hloop. }
    split.
    { rewrite Hself1 in Hruns.
      eapply tuning_runs_cons; [exact Hsample | reflexivity | | exact Hruns].
      unfold self1; cbn [acceptance_rate]. now rewrite Hr. }
    split; [cbn; now rewrite Hmap|].
    split.
    { constructor; [|exact Hrates]. exists r. split; [reflexivity | lra]. }
    split.
    { rewrite Hsel. cbn [select snd]. fold diff. unfold st1.
      destruct (flt diff (best_diff st)); reflexivity. }
    rewrite F1, F2, F3, Hself1. repeat split; reflexivity.
Qed.


Lemma flt_finite_le (a b : R) (c : npfloat) :
  a <= b -> flt (Finite b) c = true -> flt (Finite a) c = true.
Proof.
  intros Hab. destruct c as [x| | |]; simpl; try (intros; assumption || discriminate).
  intros Hb. apply Rltb_spec in Hb. apply Rltb_true. lra.
Qed.

Lemma flt_finite_between (a b : R) (c : npfloat) :
  flt (Finite a) c = false -> flt (Finite b) c = true -> b < a.
Proof.
  destruct c as [x| | |]; simpl; try discriminate.
  intros Ha Hb. apply Rltb_spec in Hb.
  destruct (Rlt_dec a x) as [Hlt|Hge]; [|lra].
  rewrite (Rltb_true _ _ Hlt) in Ha. discriminate.
Qed.

Lemma fabs_fsub_finite (r t : R) : fabs (fsub (Finite r) (Finite t)) = Finite (Rabs (r - t)).
Proof. reflexivity. Qed.

(** The pair the loop ends with: the one it started with when no run came
    strictly closer, and otherwise the first of the runs that came closest. *)
Lemma select_finite (t : R) (runs : list (npfloat * npfloat)) :
  Forall (fun run => exists r, run.2 = Finite r /\ 0 <= r < 1) runs ->
  forall e0 b0,
    (select (Finite t) runs (e0, b0) = (e0, b0)
     /\ forall i eps_i r_i, runs !! i = Some (eps_i, Finite r_i) ->
          flt (Finite (Rabs (r_i - t))) b0 = false)
    \/ (exists k rate,
          runs !! k = Some ((select (Finite t) runs (e0, b0)).1, Finite rate)
          /\ (select (Finite t) runs (e0, b0)).2 = Finite (Rabs (rate - t))
          /\ flt (Finite (Rabs (rate - t))) b0 = true
          /\ forall i eps_i r_i, runs !! i = Some (eps_i, Finite r_i) ->
               Rabs (rate - t) <= Rabs (r_i - t)
               /\ ((i < k)%nat -> Rabs (rate - t) < Rabs (r_i - t))).
Proof.
  induction 1 as [|[eps rate0] runs (r0 & Hr0 & _) _ IH]; intros e0 b0.
  - left. split; [reflexivity|]. intros i eps_i r_i Hi. discriminate.
  - cbn [snd] in Hr0. subst rate0. cbn [select snd]. rewrite fabs_fsub_finite.
    set (d0 := Rabs (r0 - t)).
    destruct (flt (Finite d0) b0) eqn:Hhead.
    + right. destruct (IH eps (Finite d0)) as [[Hsame Hnone] | (k & rate & Hk & Hd & Hlt & Hmin)].
      * exists 0%nat, r0. rewrite Hsame. cbn [fst snd lookup list_lookup].
        split; [reflexivity|]. split; [reflexivity|]. split; [exact Hhead|].
        intros [|i] eps_i r_i Hi.
        -- injection Hi as _ <-. fold d0. split; [lra | lia].
        -- specialize (Hnone i eps_i r_i Hi). simpl in Hnone.
           split; [|lia]. fold d0.
           destruct (Rlt_dec (Rabs (r_i - t)) d0) as [Hc|Hc]; [|lra].
           rewrite (Rltb_true _ _ Hc) in Hnone. discriminate.
      * exists (S k), rate. split; [exact Hk|]. split; [exact Hd|].
        simpl in Hlt. apply Rltb_spec in Hlt.
        split; [apply (flt_finite_le _ d0); [lra | exact Hhead]|].
        intros [|i] eps_i r_i Hi.
        -- injection Hi as _ <-. fold d0. split; [lra | intros _; lra].
        -- destruct (Hmin i eps_i r_i Hi) as [Hle Hstrict]. split; [exact Hle|].
           intros Hik. apply Hstrict. lia.
    + destruct (IH e0 b0) as [[Hsame Hnone] | (k & rate & Hk & Hd & Hlt & Hmin)].
      * left. split; [exact Hsame|].
        intros [|i] eps_i r_i Hi.
        -- injection Hi as _ <-. exact Hhead.
        -- apply (Hnone i eps_i r_i Hi).
      * right. exists (S k), rate. split; [exact Hk|]. split; [exact Hd|].
        split; [exact Hlt|].
        pose proof (flt_finite_between _ _ _ Hhead Hlt) as Hbetween.
        intros [|i] eps_i r_i Hi.
        -- injection Hi as _ <-. fold d0. split; [lra | intros _; lra].
        -- destruct (Hmin i eps_i r_i Hi) as [Hle Hstrict]. split; [exact Hle|].
           intros Hik. apply Hstrict. lia.
Qed.

(** Against a target that is not a finite number no run comes closer than
    the initial [inf]. *)
Lemma select_not_finite (target : npfloat) (runs : list (npfloat * npfloat)) e0 :
  isfinite target = false ->
  Forall (fun run => exists r, run.2 = Finite r /\ 0 <= r < 1) runs ->
  select target runs (e0, PInf) = (e0, PInf).
Proof.
  intros Ht. induction 1 as [|[eps rate0] runs (r0 & Hr0 & _) _ IH]; [reflexivity|].
  cbn [snd] in Hr0. subst rate0. cbn [select snd].
  replace (flt (fabs (fsub (Finite r0) target)) PInf) with false; [exact IH|].
  destruct target; try discriminate; reflexivity.
Qed.

Lemma tune_parameters_runs (self : sampler) (initial_state : vec) (n_tuning : nat)
    (target_accept : npfloat) (g : rng) :
  (1 <= n_tuning)%nat ->
  well_shaped (grad_log_density self) (length initial_state) ->
  exists runs last g',
    tuning_runs initial_state n_tuning self g runs last g'
    /\ map fst runs = logspace (-2) 0 10
    /\ Forall (fun run => exists r, run.2 = Finite r /\ 0 <= r < 1) runs
    /\ tune_parameters self initial_state n_tuning target_accept g
       = Ok (Tuned (set_epsilon last (select target_accept runs (epsilon self, PInf)).1,
                    ((select target_accept runs (epsilon self, PInf)).1, L self)), g').
Proof.
  intros Hn Hgrad.
  destruct (tune_loop_runs initial_state n_tuning target_accept Hn (logspace (-2) 0 10)
              {| tn_self := self; best_epsilon := epsilon self; best_diff := PInf |} g Hgrad)
    as (runs & st' & g' & Hloop & Hruns & Hmap & Hrates & Hsel & _ & _ & HL).
  exists runs, (tn_self st'), g'. cbn [tn_self best_epsilon best_diff] in *.
  split; [exact Hruns|]. split; [exact Hmap|]. split; [exact Hrates|].
  unfold tune_parameters. rewrite (bind_ok _ _ _ _ _ Hloop).
  rewrite <- Hsel. cbn [fst epsilon set_epsilon L]. rewrite HL. reflexivity.
Qed.

End Tuning.

(** X1.  [tune_parameters] with a finite target runs [sample] once for each of
    the ten candidates of [np.logspace(-2, 0, 10)], in that order and each
    from [initial_state], and selects the candidate whose acceptance rate is
    closest to the target; among equally close candidates it selects the
    first.  It returns the selected step size with the unchanged [L], and
    the sampler holds the selected step size.  Every rate met lies in
    [0, 1).  (Rates and distances are compared exactly.) *)
Theorem tune_parameters_keeps_the_first_closest_rate `{RandomState}
    (self : HamiltonianMC.sampler) (initial_state : vec) (n_tuning : nat)
    (target_accept : R) (g : rng) :
  (1 <= n_tuning)%nat ->
  well_shaped (HamiltonianMC.grad_log_density self) (length initial_state) ->
  exists runs last g' k eps rate,
    tuning_runs initial_state n_tuning self g runs last g'
    /\ map fst runs = logspace (-2) 0 10
    /\ HamiltonianMC.tune_parameters self initial_state n_tuning (Finite target_accept) g
       = Ok (HamiltonianMC.Tuned
               (HamiltonianMC.set_epsilon last eps, (eps, HamiltonianMC.L self)), g')
    /\ runs !! k = Some (eps, Finite rate)
    /\ forall i eps_i rate_i, runs !! i = Some (eps_i, rate_i) ->
         exists r_i, rate_i = Finite r_i /\ 0 <= r_i < 1
           /\ Rabs (rate - target_accept) <= Rabs (r_i - target_accept)
           /\ ((i < k)%nat -> Rabs (rate - target_accept) < Rabs (r_i - target_accept)).
Proof.
  intros Hn Hgrad.
  destruct (tune_parameters_runs self initial_state n_tuning (Finite target_accept) g Hn Hgrad)
    as (runs & last & g' & Hruns & Hmap & Hrates & Htune).
  destruct (select_finite target_accept runs Hrates (HamiltonianMC.epsilon self) PInf)
    as [[_ Hnone] | (k & rate & Hk & _ & _ & Hmin)].
  - exfalso. destruct runs as [|[eps0 rate0] runs]; [discriminate Hmap|].
    apply Forall_cons in Hrates as [(r0 & Hr0 & _) _]. cbn [snd] in Hr0. subst rate0.
    specialize (Hnone 0%nat eps0 r0 eq_refl). discriminate.
  - eexists runs, last, g', k, _, rate. split; [exact Hruns|]. split; [exact Hmap|].
    split; [exact Htune|]. split; [exact Hk|].
    intros i eps_i rate_i Hi.
    destruct (Forall_lookup_1 _ _ _ _ Hrates Hi) as (r_i & Hri & Hrange).
    cbn [snd] in Hri. subst rate_i. exists r_i. split; [reflexivity|]. split; [exact Hrange|].
    apply (Hmin i eps_i r_i Hi).
Qed.

Lemma tune_parameters_keeps_the_first_closest_rate_witness :
  (1 <= 2)%nat
  /\ exists runs last g' k eps rate,
       tuning_runs (H := counting_random) [Finite 1; Finite 2] 2 normal_hmc 0%nat runs last g'
       /\ map fst runs = logspace (-2) 0 10
       /\ HamiltonianMC.tune_parameters (H := counting_random) normal_hmc
            [Finite 1; Finite 2] 2 (Finite (65 / 100)) 0%nat
          = Ok (HamiltonianMC.Tuned
                  (HamiltonianMC.set_epsilon last eps, (eps, HamiltonianMC.L normal_hmc)), g')
       /\ runs !! k = Some (eps, Finite rate)
       /\ forall i eps_i rate_i, runs !! i = Some (eps_i, rate_i) ->
            exists r_i, rate_i = Finite r_i /\ 0 <= r_i < 1
              /\ Rabs (rate - 65 / 100) <= Rabs (r_i - 65 / 100)
              /\ ((i < k)%nat -> Rabs (rate - 65 / 100) < Rabs (r_i - 65 / 100)).
Proof.
  split; [lia|].
  apply (tune_parameters_keeps_the_first_closest_rate (H := counting_random)
           normal_hmc [Finite 1; Finite 2] 2 (65 / 100) 0%nat);
    [lia | exact (grad_std_normal_shape 2)].
Defined.

Section Tuning2.
Context `{RandomState}.
Import HamiltonianMC.

Lemma tuning_runs_last (initial_state : vec) (n_tuning : nat) self g runs last g' :
  tuning_runs initial_state n_tuning self g runs last g' ->
  runs <> [] ->
  exists front eps rate before g0 kept,
    runs = front ++ [(eps, rate)]
    /\ sample (set_epsilon before eps) n_tuning initial_state 0 1 g0 = Ok ((last, kept), g')
    /\ samples last = Some kept
    /\ acceptance_rate last = Some rate.
Proof.
  induction 1 as [|self g eps self1 kept g1 rate runs self' g' Hs Hk Hr Hruns IH];
    intros Hne; [contradiction|].
  destruct runs as [|run runs].
  - inversion Hruns; subst.
    exists [], eps, rate, self, g, kept. repeat split; assumption.
  - destruct (IH ltac:(discriminate)) as (front & e & r & b & g0 & k' & -> & Hs' & Hk' & Hr').
    exists ((eps, rate) :: front), e, r, b, g0, k'. rewrite Hs'. repeat split; assumption.
Qed.

Lemma logspace_last : last (logspace (-2) 0 10) = Some (Finite 1).
Proof.
  cbn -[INR Rpower]. do 2 f_equal.
  replace (-2 + INR 9 * ((0 - -2) / INR 9)) with 0.
  - apply Rpower_O. lra.
  - replace (INR 9) with 9 by (simpl; lra). field.
Qed.

(** What the body of a loop preserves whenever it returns, the loop
    preserves whenever it returns. *)
Lemma for_each_preserves {S} (P : S -> Prop) (body : nat -> S -> M S) (l : list nat) :
  (forall i s g s' g', i ∈ l -> P s -> body i s g = Ok (s', g') -> P s') ->
  forall s g s' g', P s -> for_each l body s g = Ok (s', g') -> P s'.
Proof.
  induction l as [|i l IH]; intros Hbody s g s' g' Hs Hrun.
  - injection Hrun as <- _. exact Hs.
  - cbn [for_each] in Hrun. unfold bind at 1 in Hrun.
    destruct (body i s g) as [[s1 g1]| |] eqn:Hb; try discriminate.
    apply (IH (fun j a ga b gb Hj => Hbody j a ga b gb (list_elem_of_further _ _ _ Hj))
             s1 g1 s' g'); [|exact Hrun].
    apply (Hbody i s g s1 g1 (list_elem_of_here _ _) Hs Hb).
Qed.

Lemma setitem_length (a : matrix) i row a' :
  setitem a i row = Ok a' -> length a' = length a.
Proof.
  unfold setitem. destruct (decide (i < length a)%nat); [|discriminate].
  intros [= <-]. apply length_insert.
Qed.

Lemma hmc_run_rows (self : sampler) n_samples initial_state burn_in thin g all acc g' :
  run self n_samples initial_state burn_in thin g = Ok ((all, acc), g') ->
  length all = (burn_in + n_samples * thin)%nat.
Proof.
  unfold run. unfold bind at 1, lift.
  destruct (setitem _ 0 initial_state) as [a0| |] eqn:H0; try discriminate.
  apply setitem_length in H0. unfold zeros in H0. rewrite length_replicate in H0.
  intros Hrun.
  apply (for_each_preserves (fun st => length st.1 = (burn_in + n_samples * thin)%nat))
    in Hrun; [exact Hrun | | exact H0].
  clear. intros i [a c] g [a' c'] g' _ Ha. cbn [fst] in *. unfold loop_body.
  unfold bind at 1, lift. destruct (getitem a (i - 1)) as [q| |]; try discriminate.
  unfold bind at 1. destruct (decide_step self _ q g) as [[[next b] g1]| |]; try discriminate.
  unfold bind at 1, lift. destruct (setitem a i next) as [a1| |] eqn:Hset; try discriminate.
  intros [= <- _ _]. rewrite (setitem_length _ _ _ _ Hset). exact Ha.
Qed.

Lemma hmc_sample_rows (self : sampler) n_samples initial_state g self' kept g' :
  sample self n_samples initial_state 0 1 g = Ok ((self', kept), g') ->
  length kept = n_samples.
Proof.
  unfold sample. unfold bind at 1.
  destruct (run self n_samples initial_state 0 1 g) as [[[all acc] g1]| |] eqn:Hrun;
    try discriminate.
  apply hmc_run_rows in Hrun.
  destruct (slice_spec (fun _ => True) 0 1 n_samples all ltac:(lia) Hrun)
    as (k & Hslice & Hlen & _); [apply Forall_true; auto|].
  rewrite Hslice. intros [= _ <- _]. exact Hlen.
Qed.

End Tuning2.

(** X2.  With a target acceptance rate that is NaN or infinite no candidate
    ever compares below [best_diff]: [tune_parameters] still makes its ten
    runs and then puts back the step size the sampler had when it was
    called. *)
Theorem tune_parameters_without_a_finite_target `{RandomState}
    (self : HamiltonianMC.sampler) (initial_state : vec) (n_tuning : nat)
    (target_accept : npfloat) (g : rng) :
  isfinite target_accept = false ->
  (1 <= n_tuning)%nat ->
  well_shaped (HamiltonianMC.grad_log_density self) (length initial_state) ->
  exists runs last g',
    tuning_runs initial_state n_tuning self g runs last g'
    /\ length runs = 10%nat
    /\ HamiltonianMC.tune_parameters self initial_state n_tuning target_accept g
       = Ok (HamiltonianMC.Tuned
               (HamiltonianMC.set_epsilon last (HamiltonianMC.epsilon self),
                (HamiltonianMC.epsilon self, HamiltonianMC.L self)), g').
Proof.
  intros Ht Hn Hgrad.
  destruct (tune_parameters_runs self initial_state n_tuning target_accept g Hn Hgrad)
    as (runs & last & g' & Hruns & Hmap & Hrates & Htune).
  exists runs, last, g'. split; [exact Hruns|]. split.
  - rewrite <- (length_map fst), Hmap. reflexivity.
  - rewrite Htune, (select_not_finite _ _ _ Ht Hrates). reflexivity.
Qed.

Lemma tune_parameters_without_a_finite_target_witness :
  isfinite NaN = false /\ (1 <= 2)%nat
  /\ exists runs last g',
       tuning_runs (H := counting_random) [Finite 1; Finite 2] 2 normal_hmc 0%nat runs last g'
       /\ length runs = 10%nat
       /\ HamiltonianMC.tune_parameters (H := counting_random) normal_hmc
            [Finite 1; Finite 2] 2 NaN 0%nat
          = Ok (HamiltonianMC.Tuned
                  (HamiltonianMC.set_epsilon last (HamiltonianMC.epsilon normal_hmc),
                   (HamiltonianMC.epsilon normal_hmc, HamiltonianMC.L normal_hmc)), g').
Proof.
  split; [reflexivity|]. split; [lia|].
  apply (tune_parameters_without_a_finite_target (H := counting_random)
           normal_hmc [Finite 1; Finite 2] 2 NaN 0%nat);
    [reflexivity | lia | exact (grad_std_normal_shape 2)].
Defined.

(** X3.  After [tune_parameters] the sampler holds the selected step size,
    but its [acceptance_rate] and [samples] are those of the last tuning
    run, the one made with the last candidate 1.0, whichever candidate was
    selected; [samples] has [n_tuning] rows.  The rate printed at the end of
    tuning is therefore the rate at step size 1.0. *)
Theorem tune_parameters_leaves_the_last_run `{RandomState}
    (self : HamiltonianMC.sampler) (initial_state : vec) (n_tuning : nat)
    (target_accept : npfloat) (g : rng) :
  (1 <= n_tuning)%nat ->
  well_shaped (HamiltonianMC.grad_log_density self) (length initial_state) ->
  exists self' eps g' before g0 final kept rate,
    HamiltonianMC.tune_parameters self initial_state n_tuning target_accept g
    = Ok (HamiltonianMC.Tuned (self', (eps, HamiltonianMC.L self)), g')
    /\ HamiltonianMC.epsilon self' = eps
    /\ HamiltonianMC.sample (HamiltonianMC.set_epsilon before (Finite 1))
         n_tuning initial_state 0 1 g0 = Ok ((final, kept), g')
    /\ HamiltonianMC.acceptance_rate final = Some rate
    /\ HamiltonianMC.acceptance_rate self' = Some rate
    /\ HamiltonianMC.samples self' = Some kept
    /\ length kept = n_tuning.
Proof.
  intros Hn Hgrad.
  destruct (tune_parameters_runs self initial_state n_tuning target_accept g Hn Hgrad)
    as (runs & final & g' & Hruns & Hmap & Hrates & Htune).
  destruct (tuning_runs_last _ _ _ _ _ _ _ Hruns)
    as (front & eps & rate & before & g0 & kept & -> & Hs & Hk & Hr).
  { intros ->. discriminate Hmap. }
  assert (Heps : eps = Finite 1).
  { apply (f_equal last) in Hmap. rewrite logspace_last, map_app in Hmap.
    cbn [map fst] in Hmap. rewrite last_snoc in Hmap. congruence. }
  subst eps.
  eexists _, _, g', before, g0, final, kept, rate.
  split; [exact Htune|]. split; [reflexivity|]. split; [exact Hs|]. split; [exact Hr|].
  split; [exact Hr|]. split; [exact Hk|].
  apply (hmc_sample_rows _ _ _ _ _ _ _ Hs).
Qed.

Lemma tune_parameters_leaves_the_last_run_witness :
  (1 <= 2)%nat
  /\ exists self' eps g' before g0 final kept rate,
       HamiltonianMC.tune_parameters (H := counting_random) normal_hmc
         [Finite 1; Finite 2] 2 (Finite (65 / 100)) 0%nat
       = Ok (HamiltonianMC.Tuned (self', (eps, HamiltonianMC.L normal_hmc)), g')
       /\ HamiltonianMC.epsilon self' = eps
       /\ HamiltonianMC.sample (H := counting_random)
            (HamiltonianMC.set_epsilon before (Finite 1)) 2 [Finite 1; Finite 2] 0 1 g0
          = Ok ((final, kept), g')
       /\ HamiltonianMC.acceptance_rate final = Some rate
       /\ HamiltonianMC.acceptance_rate self' = Some rate
       /\ HamiltonianMC.samples self' = Some kept
       /\ length kept = 2%nat.
Proof.
  split; [lia|].
  apply (tune_parameters_leaves_the_last_run (H := counting_random)
           normal_hmc [Finite 1; Finite 2] 2 (Finite (65 / 100)) 0%nat);
    [lia | exact (grad_std_normal_shape 2)].
Defined.

(** ** Edge cases of [sample] *)

Section Edges.
Context `{RandomState}.

Lemma stride_lookup {A} (step : nat) (l : list A) : forall skip i,
  (skip < step)%nat -> stride step skip l !! i = l !! (skip + i * step)%nat.
Proof.
  induction l as [|x l IH]; intros skip i Hskip; [reflexivity|].
  destruct skip as [|k]; cbn [stride].
  - destruct i as [|i]; [reflexivity|].
    cbn [lookup list_lookup]. rewrite IH by lia.
    replace (0 + S i * step)%nat with (S (step - 1 + i * step)) by lia. reflexivity.
  - rewrite IH by lia. reflexivity.
Qed.

Lemma slice_lookup {A} (start step : nat) (l kept : list A) (i : nat) :
  slice start step l = Ok kept -> kept !! i = l !! (start + i * step)%nat.
Proof.
  unfold slice. destruct step as [|t]; [discriminate|]. intros [= <-].
  rewrite stride_lookup by lia. rewrite lookup_drop. f_equal.
Qed.

End Edges.

(** X4.  A run of zero total iterations raises [IndexError]: the array of all
    samples has no row 0 to take the initial state.  This holds for
    [MetropolisHastings.sample] and [HamiltonianMC.sample] whenever
    [burn_in + n_samples * thin] is 0, for [tune_parameters] with
    [n_tuning = 0], and for [NUTS.sample] with [burn_in + n_samples = 0]
    once [find_reasonable_epsilon] has returned. *)
Theorem sample_without_iterations `{RandomState}
    (mh : MetropolisHastings.sampler) (hmc : HamiltonianMC.sampler) (nuts : NUTS.sampler)
    (n_samples : nat) (initial_state : vec) (burn_in thin adapt_steps fuel : nat)
    (target_accept : npfloat) (g : rng) :
  (burn_in + n_samples * thin = 0)%nat ->
  MetropolisHastings.sample mh n_samples initial_state burn_in thin g = Raise IndexError
  /\ HamiltonianMC.sample hmc n_samples initial_state burn_in thin g = Raise IndexError
  /\ HamiltonianMC.tune_parameters hmc initial_state 0 target_accept g = Raise IndexError
  /\ (forall epsilon0 g0,
        NUTS.find_reasonable_epsilon fuel nuts initial_state g = Ok (epsilon0, g0) ->
        NUTS.sample fuel nuts 0 initial_state 0 adapt_steps g = Raise IndexError).
Proof.
  intros Hzero. split; [|split; [|split]].
  - unfold MetropolisHastings.sample, MetropolisHastings.run. rewrite Hzero. reflexivity.
  - unfold HamiltonianMC.sample, HamiltonianMC.run. rewrite Hzero. reflexivity.
  - reflexivity.
  - intros epsilon0 g0 Heps. unfold NUTS.sample, NUTS.run.
    unfold bind at 1. unfold bind at 1. rewrite Heps. reflexivity.
Qed.

Lemma sample_without_iterations_witness :
  (0 + 0 * 1 = 0)%nat
  /\ MetropolisHastings.sample (H := counting_random) positive_mh 0 [Finite 1] 0 1 0%nat
     = Raise IndexError
  /\ HamiltonianMC.sample (H := counting_random) normal_hmc 0 [Finite 1] 0 1 0%nat
     = Raise IndexError.
Proof.
  split; [reflexivity|].
  destruct (sample_without_iterations (H := counting_random) positive_mh normal_hmc
              half_line_nuts 0 [Finite 1] 0 1 0 11 (Finite (65 / 100)) 0%nat eq_refl)
    as (Hmh & Hhmc & _).
  split; [exact Hmh | exact Hhmc].
Defined.

(** X5.  With [thin = 0] and [burn_in >= 1] both fixed-length samplers run
    their whole chain of [burn_in] rows and only then fail: the slice
    [all_samples[burn_in::0]] raises [ValueError], and the chain is lost. *)
Theorem sample_with_thin_zero `{RandomState}
    (mh : MetropolisHastings.sampler) (hmc : HamiltonianMC.sampler)
    (n_samples : nat) (initial_state : vec) (burn_in : nat) (g : rng) :
  (1 <= burn_in)%nat ->
  flt (MetropolisHastings.proposal_std mh) (Finite 0) = false ->
  well_shaped (HamiltonianMC.grad_log_density hmc) (length initial_state) ->
  (exists all_samples accepted g',
     MetropolisHastings.run mh n_samples initial_state burn_in 0 g
     = Ok ((all_samples, accepted), g')
     /\ length all_samples = burn_in)
  /\ MetropolisHastings.sample mh n_samples initial_state burn_in 0 g = Raise ValueError
  /\ (exists all_samples accepted g',
        HamiltonianMC.run hmc n_samples initial_state burn_in 0 g
        = Ok ((all_samples, accepted), g')
        /\ length all_samples = burn_in)
  /\ HamiltonianMC.sample hmc n_samples initial_state burn_in 0 g = Raise ValueError.
Proof.
  intros Hb Hstd Hgrad.
  destruct (mh_run mh n_samples initial_state burn_in 0 g Hstd ltac:(lia))
    as (a1 & c1 & g1 & R1 & (L1 & _) & _).
  destruct (hmc_run hmc n_samples initial_state burn_in 0 g Hgrad ltac:(lia))
    as (a2 & c2 & g2 & R2 & (L2 & _) & _).
  split; [exists a1, c1, g1; split; [exact R1 | lia]|].
  split; [unfold MetropolisHastings.sample; now rewrite (bind_ok _ _ _ _ _ R1)|].
  split; [exists a2, c2, g2; split; [exact R2 | lia]|].
  unfold HamiltonianMC.sample. now rewrite (bind_ok _ _ _ _ _ R2).
Qed.

Lemma sample_with_thin_zero_witness :
  (1 <= 2)%nat
  /\ MetropolisHastings.sample (H := counting_random) positive_mh 3 [Finite 1] 2 0 0%nat
     = Raise ValueError
  /\ HamiltonianMC.sample (H := counting_random) normal_hmc 3 [Finite 1] 2 0 0%nat
     = Raise ValueError.
Proof.
  split; [lia|].
  destruct (sample_with_thin_zero (H := counting_random) positive_mh normal_hmc
              3 [Finite 1] 2 0%nat ltac:(lia) positive_mh_std (grad_std_normal_shape 1))
    as (_ & Hmh & _ & Hhmc).
  split; [exact Hmh | exact Hhmc].
Defined.

(** X6.  Row [i] of what [sample] returns is row [burn_in + i * thin] of the
    chain, for every [i < n_samples]; in particular without burn-in the
    first returned row is the initial state itself (Metropolis-Hastings and
    HMC). *)
Theorem sample_keeps_every_thin_th_row `{RandomState}
    (mh : MetropolisHastings.sampler) (hmc : HamiltonianMC.sampler)
    (n_samples : nat) (initial_state : vec) (burn_in thin : nat) (g : rng) :
  (1 <= thin)%nat ->
  (1 <= burn_in + n_samples * thin)%nat ->
  flt (MetropolisHastings.proposal_std mh) (Finite 0) = false ->
  well_shaped (HamiltonianMC.grad_log_density hmc) (length initial_state) ->
  (exists all_samples accepted g' self' kept,
     MetropolisHastings.run mh n_samples initial_state burn_in thin g
     = Ok ((all_samples, accepted), g')
     /\ MetropolisHastings.sample mh n_samples initial_state burn_in thin g
        = Ok ((self', kept), g')
     /\ (forall i, (i < n_samples)%nat ->
           exists row, kept !! i = Some row
                       /\ all_samples !! (burn_in + i * thin)%nat = Some row)
     /\ (burn_in = 0%nat -> (1 <= n_samples)%nat -> kept !! 0%nat = Some initial_state))
  /\ (exists all_samples accepted g' self' kept,
        HamiltonianMC.run hmc n_samples initial_state burn_in thin g
        = Ok ((all_samples, accepted), g')
        /\ HamiltonianMC.sample hmc n_samples initial_state burn_in thin g
           = Ok ((self', kept), g')
        /\ (forall i, (i < n_samples)%nat ->
              exists row, kept !! i = Some row
                          /\ all_samples !! (burn_in + i * thin)%nat = Some row)
        /\ (burn_in = 0%nat -> (1 <= n_samples)%nat -> kept !! 0%nat = Some initial_state)).
Proof.
  intros Hthin Hpos Hstd Hgrad. split.
  - destruct (mh_sample mh n_samples initial_state burn_in thin g Hstd Hthin Hpos)
      as (all & acc & g' & kept & Hrun & (_ & H0 & _) & _ & Hslice & Hlen & _ & Hsample).
    eexists all, acc, g', _, kept. split; [exact Hrun|]. split; [exact Hsample|]. split.
    + intros i Hi. destruct (lookup_lt_is_Some_2 kept i) as [row Hrow]; [lia|].
      exists row. split; [exact Hrow|]. now rewrite <- (slice_lookup _ _ _ _ i Hslice).
    + intros -> _. rewrite (slice_lookup _ _ _ _ 0 Hslice). exact H0.
  - destruct (hmc_sample hmc n_samples initial_state burn_in thin g Hgrad Hthin Hpos)
      as (all & acc & g' & kept & Hrun & (_ & H0 & _) & _ & Hslice & Hlen & _ & Hsample).
    eexists all, acc, g', _, kept. split; [exact Hrun|]. split; [exact Hsample|]. split.
    + intros i Hi. destruct (lookup_lt_is_Some_2 kept i) as [row Hrow]; [lia|].
      exists row. split; [exact Hrow|]. now rewrite <- (slice_lookup _ _ _ _ i Hslice).
    + intros -> _. rewrite (slice_lookup _ _ _ _ 0 Hslice). exact H0.
Qed.

Lemma sample_keeps_every_thin_th_row_witness :
  (1 <= 2)%nat /\ (1 <= 0 + 4 * 2)%nat
  /\ (exists self' kept g',
        MetropolisHastings.sample (H := counting_random) positive_mh 4
          [Finite 1; Finite 2] 0 2 0%nat = Ok ((self', kept), g')
        /\ kept !! 0%nat = Some [Finite 1; Finite 2])
  /\ (exists self' kept g',
        HamiltonianMC.sample (H := counting_random) normal_hmc 4
          [Finite 1; Finite 2] 0 2 0%nat = Ok ((self', kept), g')
        /\ kept !! 0%nat = Some [Finite 1; Finite 2]).
Proof.
  split; [lia|]. split; [simpl; lia|].
  destruct (sample_keeps_every_thin_th_row (H := counting_random)
              positive_mh normal_hmc 4 [Finite 1; Finite 2] 0 2 0%nat
              ltac:(lia) ltac:(simpl; lia) positive_mh_std (grad_std_normal_shape 2))
    as ((a1 & c1 & g1 & s1 & k1 & _ & S1 & _ & Z1) & (a2 & c2 & g2 & s2 & k2 & _ & S2 & _ & Z2)).
  split.
  - exists s1, k1, g1. split; [exact S1 | apply Z1; [reflexivity | lia]].
  - exists s2, k2, g2. split; [exact S2 | apply Z2; [reflexivity | lia]].
Defined.

(** ** The acceptance rule *)

Section Acceptance.
Context `{RandomState}.

Lemma pymin_one_finite (e : R) : pymin (Finite 1) (Finite e) = Finite (Rmin 1 e).
Proof.
  unfold pymin. cbn [flt]. unfold Rmin.
  destruct (Rle_dec 1 e) as [Hle|Hgt].
  - rewrite Rltb_false by lra. reflexivity.
  - rewrite Rltb_true by lra. reflexivity.
Qed.

Lemma mh_accepts_at_one (self : MetropolisHastings.sampler) cur g :
  let proposed :=
    vadd cur (normal (Finite 0) (MetropolisHastings.proposal_std self) (length cur) g).1 in
  flt (MetropolisHastings.proposal_std self) (Finite 0) = false ->
  MetropolisHastings.acceptance_probability self cur proposed = Finite 1 ->
  exists g', MetropolisHastings.decide_step self cur g = Ok ((proposed, true), g').
Proof.
  intros proposed Hstd Hone.
  unfold MetropolisHastings.decide_step, MetropolisHastings.propose.
  rewrite np_normal_ok, np_uniform_unit by assumption.
  unfold bind at 1. rewrite bind_draw. unfold ret at 1.
  fold proposed. rewrite bind_draw. rewrite Hone.
  rewrite uniform_below_one. eexists; reflexivity.
Qed.

Lemma hmc_accepts_at_one (self : HamiltonianMC.sampler) dim cur g :
  let p := (randn dim g).1 in
  let proposal := HamiltonianMC.leapfrog self cur p in
  HamiltonianMC.accept_prob (HamiltonianMC.hamiltonian self cur p)
    (HamiltonianMC.hamiltonian self proposal.1 proposal.2) = Finite 1 ->
  exists g', HamiltonianMC.decide_step self dim cur g = Ok ((proposal.1, true), g').
Proof.
  intros p proposal Hone. unfold HamiltonianMC.decide_step.
  rewrite np_uniform_unit, bind_draw.
  fold p. fold proposal. destruct proposal as [q' p'] eqn:E. cbn [fst snd] in *.
  rewrite bind_draw. rewrite Hone, uniform_below_one.
  eexists; reflexivity.
Qed.

Lemma pymin_one_exp (x : R) :
  pymin (Finite 1) (fexp (Finite x)) = Finite (Rmin 1 (exp x))
  /\ 0 < Rmin 1 (exp x) <= 1
  /\ (0 <= x -> Rmin 1 (exp x) = 1).
Proof.
  cbn [fexp]. rewrite pymin_one_finite. split; [reflexivity|].
  pose proof (exp_pos x) as Hpos. split.
  - unfold Rmin. destruct (Rle_dec 1 (exp x)); lra.
  - intros Hx. apply Rmin_left.
    destruct (Req_dec x 0) as [->|Hne]; [rewrite exp_0; lra|].
    rewrite <- exp_0. left. apply exp_increasing. lra.
Qed.

End Acceptance.

(** X7.  On finite log-densities [a] (current) and [b] (proposed) the
    acceptance probability of Metropolis-Hastings is [min(1, exp(b - a))], a
    number between 0 and 1, and a proposal that is at least as probable as
    the current state has probability exactly 1 and is always accepted,
    whatever the uniform draw.  The same holds in HMC with the energies:
    the probability is [min(1, exp(H_current - H_proposed))] and a proposal
    whose energy is not higher is always accepted.  The value is that of
    exact arithmetic: in float64 [exp] is rounded, and it underflows to 0.0
    below about -745, so the probability of a much less probable proposal
    is exactly 0; the bounds and the acceptance at [b >= a] hold there
    too. *)
Theorem metropolis_rule_on_finite_values `{RandomState}
    (mh : MetropolisHastings.sampler) (hmc : HamiltonianMC.sampler)
    (cur : vec) (dim : nat) (g : rng) :
  let proposed :=
    vadd cur (normal (Finite 0) (MetropolisHastings.proposal_std mh) (length cur) g).1 in
  let p := (randn dim g).1 in
  let proposal := HamiltonianMC.leapfrog hmc cur p in
  flt (MetropolisHastings.proposal_std mh) (Finite 0) = false ->
  is_finite (MetropolisHastings.target_log_density mh cur) ->
  is_finite (MetropolisHastings.target_log_density mh proposed) ->
  is_finite (HamiltonianMC.hamiltonian hmc cur p) ->
  is_finite (HamiltonianMC.hamiltonian hmc proposal.1 proposal.2) ->
  (exists a b,
     MetropolisHastings.target_log_density mh cur = Finite a
     /\ MetropolisHastings.target_log_density mh proposed = Finite b
     /\ MetropolisHastings.acceptance_probability mh cur proposed
        = Finite (Rmin 1 (exp (b - a)))
     /\ 0 <= Rmin 1 (exp (b - a)) <= 1
     /\ (a <= b -> MetropolisHastings.acceptance_probability mh cur proposed = Finite 1)
     /\ (a <= b ->
         exists g', MetropolisHastings.decide_step mh cur g = Ok ((proposed, true), g')))
  /\ (exists H_current H_proposed,
        HamiltonianMC.hamiltonian hmc cur p = Finite H_current
        /\ HamiltonianMC.hamiltonian hmc proposal.1 proposal.2 = Finite H_proposed
        /\ HamiltonianMC.accept_prob (Finite H_current) (Finite H_proposed)
           = Finite (Rmin 1 (exp (H_current - H_proposed)))
        /\ 0 <= Rmin 1 (exp (H_current - H_proposed)) <= 1
        /\ (H_proposed <= H_current ->
            HamiltonianMC.accept_prob (Finite H_current) (Finite H_proposed) = Finite 1)
        /\ (H_proposed <= H_current ->
            exists g',
              HamiltonianMC.decide_step hmc dim cur g = Ok ((proposal.1, true), g'))).
Proof.
  intros proposed p proposal Hstd Hcur Hprop HHa HHb. split.
  - destruct (MetropolisHastings.target_log_density mh cur) as [a| | |] eqn:Ea;
      try contradiction.
    destruct (MetropolisHastings.target_log_density mh proposed) as [b| | |] eqn:Eb;
      try contradiction.
    exists a, b. split; [reflexivity|]. split; [reflexivity|].
    assert (Hp : MetropolisHastings.acceptance_probability mh cur proposed
                 = pymin (Finite 1) (fexp (Finite (b - a)))).
    { unfold MetropolisHastings.acceptance_probability. rewrite Ea, Eb. reflexivity. }
    destruct (pymin_one_exp (b - a)) as (Hv & Hrange & Hup).
    split; [now rewrite Hp|]. split; [lra|].
    split; [intros Hab; rewrite Hp, Hv, Hup by lra; reflexivity|].
    intros Hab. apply mh_accepts_at_one; [exact Hstd|].
    fold proposed. rewrite Hp, Hv, Hup by lra. reflexivity.
  - destruct (HamiltonianMC.hamiltonian hmc cur p) as [Ha| | |] eqn:Ea; try contradiction.
    destruct (HamiltonianMC.hamiltonian hmc proposal.1 proposal.2) as [Hb| | |] eqn:Eb;
      try contradiction.
    exists Ha, Hb. split; [reflexivity|]. split; [reflexivity|].
    assert (Hp : HamiltonianMC.accept_prob (Finite Ha) (Finite Hb)
                 = pymin (Finite 1) (fexp (Finite (Ha - Hb)))).
    { unfold HamiltonianMC.accept_prob. cbn [fneg fadd]. do 3 f_equal. lra. }
    destruct (pymin_one_exp (Ha - Hb)) as (Hv & Hrange & Hup).
    split; [now rewrite Hp|]. split; [lra|].
    split; [intros Hab; rewrite Hp, Hv, Hup by lra; reflexivity|].
    intros Hab. apply hmc_accepts_at_one.
    fold p. fold proposal. rewrite Ea, Eb, Hp, Hv, Hup by lra. reflexivity.
Qed.

Lemma metropolis_rule_on_finite_values_witness :
  flt (MetropolisHastings.proposal_std normal_mh) (Finite 0) = false
  /\ is_finite (MetropolisHastings.target_log_density normal_mh [Finite 1])
  /\ is_finite (HamiltonianMC.hamiltonian normal_hmc [Finite 1]
                  (randn (RandomState := counting_random) 1 0%nat).1)
  /\ (exists a b,
        MetropolisHastings.target_log_density normal_mh [Finite 1] = Finite a
        /\ MetropolisHastings.acceptance_probability normal_mh [Finite 1]
             (vadd [Finite 1]
                (normal (RandomState := counting_random) (Finite 0)
                   (MetropolisHastings.proposal_std normal_mh) 1 0%nat).1)
           = Finite (Rmin 1 (exp (b - a))))
  /\ (exists H_current H_proposed,
        HamiltonianMC.hamiltonian normal_hmc [Finite 1]
          (randn (RandomState := counting_random) 1 0%nat).1 = Finite H_current
        /\ HamiltonianMC.accept_prob (Finite H_current) (Finite H_proposed)
           = Finite (Rmin 1 (exp (H_current - H_proposed)))).
Proof.
  split; [exact normal_mh_std|]. split; [exact I|]. split; [exact I|].
  destruct (metropolis_rule_on_finite_values (H := counting_random) normal_mh normal_hmc
              [Finite 1] 1 0%nat normal_mh_std I I I I)
    as ((a & b & E1 & _ & P1 & _) & (Ha & Hb & E2 & _ & P2 & _)).
  split.
  - exists a, b. split; [exact E1 | exact P1].
  - exists Ha, Hb. split; [exact E2 | exact P2].
Defined.




(** ** Integrators on finite states *)

Lemma vadd_vscale_twice n (c c' d : R) (a x : vec) :
  c + c' = d -> fvec n a -> fvec n x ->
  vadd (vadd a (vscale (Finite c) x)) (vscale (Finite c') x) = vadd a (vscale (Finite d) x).
Proof.
  intros Hd [La Fa] [Lx Fx]. revert x n La Lx Fx.
  induction Fa as [|u a Hu Fa IH]; intros x n La Lx Fx.
  - reflexivity.
  - destruct Fx as [|w x Hw Fx]; [simpl in *; lia|].
    unfold vadd, vscale in *. simpl. f_equal.
    + destruct u, w; simpl in *; try tauto. f_equal. rewrite <- Hd. lra.
    + apply (IH x (length a)); auto. simpl in *; lia.
Qed.

Lemma vadd_vscale_0 n (c : R) (a x : vec) :
  c = 0 -> fvec n a -> fvec n x -> vadd a (vscale (Finite c) x) = a.
Proof.
  intros Hc [La Fa] [Lx Fx]. revert x n La Lx Fx.
  induction Fa as [|u a Hu Fa IH]; intros x n La Lx Fx.
  - reflexivity.
  - destruct Fx as [|w x Hw Fx]; [simpl in *; lia|].
    unfold vadd, vscale in *. simpl. f_equal.
    + destruct u, w; simpl in *; try tauto. f_equal. rewrite Hc. lra.
    + apply (IH x (length a)); auto. simpl in *; lia.
Qed.

Lemma vadd_vscale_cancel n (c c' : R) (a x : vec) :
  c + c' = 0 -> fvec n a -> fvec n x ->
  vadd (vadd a (vscale (Finite c) x)) (vscale (Finite c') x) = a.
Proof.
  intros Hc Ha Hx. rewrite (vadd_vscale_twice n c c' 0) by assumption.
  apply (vadd_vscale_0 n); auto.
Qed.

Section Integrators.
Variable grad : vec -> vec.
Variable n : nat.
Hypothesis grad_finite : forall v, fvec n v -> fvec n (grad v).

(** One step of the single-step integrator of NUTS for the gradient
    [grad]. *)
Lemma nuts_leapfrog_fvec (self : NUTS.sampler) (e : R) q p :
  NUTS.grad_log_density self = grad ->
  fvec n q -> fvec n p ->
  fvec n (NUTS.leapfrog self q p (Finite e)).1
  /\ fvec n (NUTS.leapfrog self q p (Finite e)).2.
Proof.
  intros Hg Hq Hp. unfold NUTS.leapfrog. rewrite Hg. cbn [fst snd fmul].
  assert (Hp1 : fvec n (vadd p (vscale (Finite (1 / 2 * e)) (grad q)))).
  { apply fvec_vadd; [assumption|]. apply fvec_vscale; [exact I | auto]. }
  assert (Hq1 : fvec n (vadd q (vscale (Finite e)
                          (vadd p (vscale (Finite (1 / 2 * e)) (grad q)))))).
  { apply fvec_vadd; [assumption|]. apply fvec_vscale; [exact I | assumption]. }
  split; [exact Hq1|].
  apply fvec_vadd; [assumption|]. apply fvec_vscale; [exact I | auto].
Qed.

Lemma nuts_leapfrog_back (self : NUTS.sampler) (e e' : R) q p :
  NUTS.grad_log_density self = grad ->
  e + e' = 0 ->
  fvec n q -> fvec n p ->
  NUTS.leapfrog self (NUTS.leapfrog self q p (Finite e)).1
    (NUTS.leapfrog self q p (Finite e)).2 (Finite e') = (q, p).
Proof.
  intros Hg He Hq Hp. unfold NUTS.leapfrog. rewrite Hg. cbn [fst snd fmul].
  set (p1 := vadd p (vscale (Finite (1 / 2 * e)) (grad q))).
  assert (Hp1 : fvec n p1).
  { apply fvec_vadd; [assumption|]. apply fvec_vscale; [exact I | auto]. }
  set (q1 := vadd q (vscale (Finite e) p1)).
  assert (Hq1 : fvec n q1).
  { apply fvec_vadd; [assumption|]. apply fvec_vscale; [exact I | assumption]. }
  rewrite (vadd_vscale_cancel n (1 / 2 * e) (1 / 2 * e') p1 (grad q1)); auto; [|lra].
  assert (E2 : vadd q1 (vscale (Finite e') p1) = q)
    by (unfold q1; apply (vadd_vscale_cancel n); auto).
  assert (E3 : vadd p1 (vscale (Finite (1 / 2 * e')) (grad q)) = p)
    by (unfold p1; apply (vadd_vscale_cancel n); auto; lra).
  rewrite E2, E3. reflexivity.
Qed.

Lemma nuts_leapfrog_flip (self : NUTS.sampler) (e : R) q p :
  NUTS.grad_log_density self = grad ->
  fvec n q -> fvec n p ->
  NUTS.leapfrog self (NUTS.leapfrog self q p (Finite e)).1
    (vneg (NUTS.leapfrog self q p (Finite e)).2) (Finite e) = (q, vneg p).
Proof.
  intros Hg Hq Hp. unfold NUTS.leapfrog. rewrite Hg. cbn [fst snd fmul].
  set (h := Finite (1 / 2 * e)).
  set (p1 := vadd p (vscale h (grad q))).
  assert (Hp1 : fvec n p1).
  { apply fvec_vadd; [assumption|]. apply fvec_vscale; [exact I | auto]. }
  set (q1 := vadd q (vscale (Finite e) p1)).
  assert (Hq1 : fvec n q1).
  { apply fvec_vadd; [assumption|]. apply fvec_vscale; [exact I | assumption]. }
  rewrite (kick_back n p1 (vscale h (grad q1))); auto;
    [|apply fvec_vscale; [exact I | auto]].
  assert (E2 : vadd q1 (vscale (Finite e) (vneg p1)) = q)
    by (unfold q1; apply (drift_back n); auto; exact I).
  assert (E3 : vadd (vneg p1) (vscale h (grad q)) = vneg p).
  { unfold p1. apply (kick_back n); auto. apply fvec_vscale; [exact I | auto]. }
  rewrite E2, E3. reflexivity.
Qed.

End Integrators.

(** X9.  The single leapfrog step of NUTS is reversible in exact arithmetic:
    the step [build_tree] takes in direction [v = -1] undoes the step it
    takes in direction [v = 1], and a forward step from the end point with
    the momentum negated leads back to the start with the momentum
    negated. *)
Theorem nuts_leapfrog_is_reversible
    (self : NUTS.sampler) (n : nat) (q p : vec) (epsilon : R) :
  (forall v, fvec n v -> fvec n (NUTS.grad_log_density self v)) ->
  fvec n q -> fvec n p ->
  let forward := NUTS.leapfrog self q p (fmul (of_int 1) (Finite epsilon)) in
  NUTS.leapfrog self forward.1 forward.2 (fmul (of_int (-1)) (Finite epsilon)) = (q, p)
  /\ NUTS.leapfrog self forward.1 (vneg forward.2) (fmul (of_int 1) (Finite epsilon))
     = (q, vneg p).
Proof.
  intros Hgrad Hq Hp forward. unfold forward. cbn [fmul of_int]. split.
  - apply (nuts_leapfrog_back _ n Hgrad); auto. lra.
  - apply (nuts_leapfrog_flip _ n Hgrad); auto.
Qed.

Lemma grad_std_normal_fvec (n : nat) (v : vec) : fvec n v -> fvec n (grad_std_normal v).
Proof. apply fvec_vneg. Qed.

Lemma fvec_1_2 : fvec 2 [Finite 1; Finite 2].
Proof. split; [reflexivity | repeat constructor]. Qed.

Lemma fvec_0_1 : fvec 2 [Finite 0; Finite 1].
Proof. split; [reflexivity | repeat constructor]. Qed.

Lemma nuts_leapfrog_is_reversible_witness :
  fvec 2 [Finite 1; Finite 2] /\ fvec 2 [Finite 0; Finite 1]
  /\ NUTS.leapfrog normal_nuts
       (NUTS.leapfrog normal_nuts [Finite 1; Finite 2] [Finite 0; Finite 1]
          (fmul (of_int 1) (Finite (1 / 10)))).1
       (NUTS.leapfrog normal_nuts [Finite 1; Finite 2] [Finite 0; Finite 1]
          (fmul (of_int 1) (Finite (1 / 10)))).2
       (fmul (of_int (-1)) (Finite (1 / 10)))
     = ([Finite 1; Finite 2], [Finite 0; Finite 1]).
Proof.
  split; [exact fvec_1_2|]. split; [exact fvec_0_1|].
  apply (nuts_leapfrog_is_reversible normal_nuts 2 [Finite 1; Finite 2] [Finite 0; Finite 1]
           (1 / 10) (grad_std_normal_fvec 2) fvec_1_2 fvec_0_1).
Defined.

Section Composition.
Variable hmc : HamiltonianMC.sampler.
Variable nuts : NUTS.sampler.
Variable n : nat.
Variable e : R.
Hypothesis same_grad : NUTS.grad_log_density nuts = HamiltonianMC.grad_log_density hmc.
Hypothesis step_size : HamiltonianMC.epsilon hmc = Finite e.
Hypothesis grad_finite :
  forall v, fvec n v -> fvec n (HamiltonianMC.grad_log_density hmc v).

Lemma hmc_full_step_eq q p :
  HamiltonianMC.full_step hmc (q, p)
  = (vadd q (vscale (Finite e) p),
     vadd p (vscale (Finite e)
               (HamiltonianMC.grad_log_density hmc (vadd q (vscale (Finite e) p))))).
Proof. unfold HamiltonianMC.full_step. rewrite step_size. reflexivity. Qed.

Lemma single_fvec q p :
  fvec n q -> fvec n p ->
  fvec n (NUTS.leapfrog nuts q p (Finite e)).1
  /\ fvec n (NUTS.leapfrog nuts q p (Finite e)).2.
Proof.
  intros Hq Hp.
  apply (nuts_leapfrog_fvec _ n grad_finite nuts e q p same_grad Hq Hp).
Qed.

(** The trajectory of [HamiltonianMC.leapfrog] before the momentum is
    negated, with [k] passes of its inner loop, is [k + 1] single steps. *)
Lemma hmc_trajectory_iter k : forall q p,
  fvec n q -> fvec n p ->
  (let p1 := vadd p (vscale (Finite (1 / 2 * e)) (HamiltonianMC.grad_log_density hmc q)) in
   let qp := HamiltonianMC.full_steps hmc k (q, p1) in
   let q' := vadd qp.1 (vscale (Finite e) qp.2) in
   (q', vadd qp.2 (vscale (Finite (1 / 2 * e)) (HamiltonianMC.grad_log_density hmc q'))))
  = Nat.iter (S k) (fun qp => NUTS.leapfrog nuts qp.1 qp.2 (Finite e)) (q, p).
Proof.
  induction k as [|k IH]; intros q p Hq Hp.
  - cbn [Nat.iter HamiltonianMC.full_steps fst snd]. unfold NUTS.leapfrog.
    rewrite same_grad. reflexivity.
  - rewrite Nat.iter_succ_r. cbv beta. cbn [fst snd].
    destruct (single_fvec q p Hq Hp) as [Hq1 Hp1].
    rewrite (surjective_pairing (NUTS.leapfrog nuts q p (Finite e))).
    rewrite <- IH by assumption. cbv zeta.
    unfold NUTS.leapfrog. rewrite same_grad. cbn [fst snd fmul].
    set (p1 := vadd p (vscale (Finite (1 / 2 * e)) (HamiltonianMC.grad_log_density hmc q))).
    assert (Hp1' : fvec n p1).
    { apply fvec_vadd; [assumption|]. apply fvec_vscale; [exact I | auto]. }
    set (q1 := vadd q (vscale (Finite e) p1)).
    assert (Hq1' : fvec n q1).
    { apply fvec_vadd; [assumption|]. apply fvec_vscale; [exact I | assumption]. }
    rewrite (vadd_vscale_twice n (1 / 2 * e) (1 / 2 * e) e p1
               (HamiltonianMC.grad_log_density hmc q1)); auto; [|lra].
    change (HamiltonianMC.full_steps hmc (S k) (q, p1))
      with (HamiltonianMC.full_steps hmc k (HamiltonianMC.full_step hmc (q, p1))).
    rewrite hmc_full_step_eq. reflexivity.
Qed.

Lemma hmc_leapfrog_trajectory q p :
  HamiltonianMC.leapfrog hmc q p
  = (let p1 := vadd p (vscale (Finite (1 / 2 * e)) (HamiltonianMC.grad_log_density hmc q)) in
     let qp := HamiltonianMC.full_steps hmc (Z.to_nat (HamiltonianMC.L hmc - 1)) (q, p1) in
     let q' := vadd qp.1 (vscale (Finite e) qp.2) in
     (q', vneg (vadd qp.2 (vscale (Finite (1 / 2 * e))
                             (HamiltonianMC.grad_log_density hmc q'))))).
Proof.
  unfold HamiltonianMC.leapfrog. rewrite step_size. cbn [fmul]. cbv zeta.
  destruct (HamiltonianMC.full_steps hmc _ _) as [q' p']. reflexivity.
Qed.

End Composition.

(** X10.  The [L]-step integrator of HMC is the single step of NUTS made
    [max(L, 1)] times, followed by the negation of the momentum (same
    gradient and step size, exact arithmetic).  With [L <= 0] the integrator
    still makes one full step. *)
Theorem hmc_leapfrog_is_iterated_single_steps
    (hmc : HamiltonianMC.sampler) (nuts : NUTS.sampler) (n : nat) (epsilon : R) (q p : vec) :
  NUTS.grad_log_density nuts = HamiltonianMC.grad_log_density hmc ->
  HamiltonianMC.epsilon hmc = Finite epsilon ->
  (forall v, fvec n v -> fvec n (HamiltonianMC.grad_log_density hmc v)) ->
  fvec n q -> fvec n p ->
  let steps := Z.to_nat (Z.max (HamiltonianMC.L hmc) 1) in
  let final :=
    Nat.iter steps (fun qp => NUTS.leapfrog nuts qp.1 qp.2 (Finite epsilon)) (q, p) in
  HamiltonianMC.leapfrog hmc q p = (final.1, vneg final.2).
Proof.
  intros Hgrad Heps Hfin Hq Hp steps final.
  rewrite (hmc_leapfrog_trajectory hmc epsilon Heps).
  pose proof (hmc_trajectory_iter hmc nuts n epsilon Hgrad Heps Hfin
                (Z.to_nat (HamiltonianMC.L hmc - 1)) q p Hq Hp) as Hiter.
  replace (S (Z.to_nat (HamiltonianMC.L hmc - 1))) with steps in Hiter
    by (unfold steps; lia).
  fold final in Hiter. rewrite <- Hiter. reflexivity.
Qed.

Lemma hmc_leapfrog_is_iterated_single_steps_witness :
  fvec 2 [Finite 1; Finite 2] /\ fvec 2 [Finite 0; Finite 1]
  /\ HamiltonianMC.leapfrog normal_hmc [Finite 1; Finite 2] [Finite 0; Finite 1]
     = ((Nat.iter 3 (fun qp => NUTS.leapfrog normal_nuts qp.1 qp.2 (Finite (1 / 10)))
           ([Finite 1; Finite 2], [Finite 0; Finite 1])).1,
        vneg (Nat.iter 3 (fun qp => NUTS.leapfrog normal_nuts qp.1 qp.2 (Finite (1 / 10)))
                ([Finite 1; Finite 2], [Finite 0; Finite 1])).2)
  /\ HamiltonianMC.leapfrog backward_hmc [Finite 1; Finite 2] [Finite 0; Finite 1]
     = ((NUTS.leapfrog normal_nuts [Finite 1; Finite 2] [Finite 0; Finite 1] (Finite (-1))).1,
        vneg (NUTS.leapfrog normal_nuts [Finite 1; Finite 2] [Finite 0; Finite 1]
                (Finite (-1))).2).
Proof.
  split; [exact fvec_1_2|]. split; [exact fvec_0_1|]. split.
  - apply (hmc_leapfrog_is_iterated_single_steps normal_hmc normal_nuts 2 (1 / 10)
             [Finite 1; Finite 2] [Finite 0; Finite 1] eq_refl eq_refl
             (grad_std_normal_fvec 2) fvec_1_2 fvec_0_1).
  - apply (hmc_leapfrog_is_iterated_single_steps backward_hmc normal_nuts 2 (-1)
             [Finite 1; Finite 2] [Finite 0; Finite 1] eq_refl eq_refl
             (grad_std_normal_fvec 2) fvec_1_2 fvec_0_1).
Defined.

(** ** A step size of zero *)

Lemma vsquare_vneg (p : vec) : vsquare (vneg p) = vsquare p.
Proof.
  unfold vsquare, vneg. induction p as [|x p IH]; [reflexivity|].
  cbn [map]. rewrite IH. f_equal.
  destruct x; simpl; try reflexivity. f_equal. lra.
Qed.

Lemma hmc_accept_prob_same (H_current : npfloat) :
  HamiltonianMC.accept_prob H_current H_current = Finite 1.
Proof.
  destruct H_current as [h| | |]; try reflexivity.
  unfold HamiltonianMC.accept_prob. cbn [fneg fadd].
  destruct (pymin_one_exp (- h + h)) as (Hv & _ & Hup).
  rewrite Hv, Hup by lra. reflexivity.
Qed.

Section ZeroStep.
Context `{RandomState}.
Variable self : HamiltonianMC.sampler.
Variable n : nat.
Hypothesis step_size : HamiltonianMC.epsilon self = Finite 0.
Hypothesis grad_finite :
  forall v, fvec n v -> fvec n (HamiltonianMC.grad_log_density self v).

Lemma hmc_full_steps_zero k q p :
  fvec n q -> fvec n p -> HamiltonianMC.full_steps self k (q, p) = (q, p).
Proof.
  intros Hq Hp. induction k as [|k IH]; [reflexivity|].
  change (HamiltonianMC.full_steps self (S k) (q, p))
    with (HamiltonianMC.full_steps self k (HamiltonianMC.full_step self (q, p))).
  unfold HamiltonianMC.full_step. rewrite step_size.
  rewrite (vadd_vscale_0 n 0 q p) by auto.
  rewrite (vadd_vscale_0 n 0 p) by auto. exact IH.
Qed.

Lemma hmc_leapfrog_zero q p :
  fvec n q -> fvec n p -> HamiltonianMC.leapfrog self q p = (q, vneg p).
Proof.
  intros Hq Hp. unfold HamiltonianMC.leapfrog. rewrite step_size. cbn [fmul].
  rewrite (vadd_vscale_0 n (1 / 2 * 0) p) by (first [lra | auto]).
  rewrite hmc_full_steps_zero by assumption.
  rewrite (vadd_vscale_0 n 0 q p) by auto.
  rewrite (vadd_vscale_0 n (1 / 2 * 0) p) by (first [lra | auto]).
  reflexivity.
Qed.

Lemma hmc_decide_step_zero cur g :
  fvec n cur ->
  exists g', HamiltonianMC.decide_step self n cur g = Ok ((cur, true), g').
Proof.
  intros Hcur.
  assert (Hp : fvec n (randn n g).1) by (split; [apply randn_size | apply randn_finite]).
  pose proof (hmc_accepts_at_one self n cur g) as Hacc. cbv zeta in Hacc.
  rewrite (hmc_leapfrog_zero cur _ Hcur Hp) in Hacc. cbn [fst snd] in Hacc.
  apply Hacc. unfold HamiltonianMC.hamiltonian. rewrite vsquare_vneg.
  apply hmc_accept_prob_same.
Qed.

Lemma hmc_run_zero n_samples initial_state burn_in thin g :
  fvec n initial_state ->
  (1 <= burn_in + n_samples * thin)%nat ->
  exists g',
    HamiltonianMC.run self n_samples initial_state burn_in thin g
    = Ok ((replicate (burn_in + n_samples * thin) initial_state,
           Z.of_nat (burn_in + n_samples * thin) - 1)%Z, g').
Proof.
  intros Hinit Hpos.
  set (total := (burn_in + n_samples * thin)%nat) in *.
  assert (Hdim : length initial_state = n) by apply Hinit.
  set (Inv := fun (i : nat) (st : matrix * Z) =>
                length st.1 = total
                /\ (forall k, (k < i)%nat -> st.1 !! k = Some initial_state)
                /\ st.2 = (Z.of_nat i - 1)%Z).
  assert (Hlen0 : length (zeros total (length initial_state)) = total)
    by apply length_replicate.
  destruct (for_each_invariant Inv (HamiltonianMC.loop_body self (length initial_state))
              (total - 1) 1 (<[0%nat:=initial_state]> (zeros total (length initial_state)), 0%Z) g)
    as ([all acc] & g' & Hrun & Hlen & Hrows & Hacc).
  - unfold Inv; cbn [fst snd]. split; [now rewrite length_insert|]. split; [|lia].
    intros k Hk. replace k with 0%nat by lia. apply list_lookup_insert_eq. lia.
  - intros i [a c] g1 Hi (Hlen & Hrows & Hc). cbn [fst snd] in *.
    rewrite Hdim.
    destruct (hmc_decide_step_zero initial_state g1 Hinit) as (g2 & Hstep).
    exists (<[i:=initial_state]> a, (c + 1)%Z), g2. split.
    + unfold HamiltonianMC.loop_body.
      rewrite (getitem_ok _ _ _ (Hrows (i - 1)%nat ltac:(lia))).
      erewrite bind_ok by reflexivity.
      rewrite (bind_ok _ _ _ _ _ Hstep).
      rewrite setitem_ok by lia. reflexivity.
    + unfold Inv; cbn [fst snd]. split; [now rewrite length_insert|]. split; [|lia].
      intros k Hk. destruct (decide (k = i)) as [->|Hne].
      * apply list_lookup_insert_eq. lia.
      * rewrite list_lookup_insert_ne by lia. apply Hrows. lia.
  - cbn [fst snd] in *. exists g'.
    unfold HamiltonianMC.run. fold total.
    rewrite setitem_ok by lia. erewrite bind_ok by reflexivity.
    unfold range. rewrite Hrun.
    replace (1 + (total - 1))%nat with total in * by lia.
    do 3 f_equal; [|lia].
    apply list_eq. intros k. destruct (decide (k < total)%nat) as [Hk|Hk].
    + rewrite Hrows by lia. symmetry. apply lookup_replicate_2. lia.
    + rewrite !lookup_ge_None_2; [reflexivity | rewrite length_replicate; lia | lia].
Qed.

End ZeroStep.

(** X11.  With [epsilon = 0] HMC proposes the current state at every step
    and accepts it: the chain is the initial state repeated, [sample]
    returns [n_samples] copies of it, and the acceptance rate is the largest
    possible, [(T - 1) / T] for [T] total iterations. *)
Theorem hmc_with_step_size_zero_never_moves `{RandomState}
    (self : HamiltonianMC.sampler) (n_samples : nat) (initial_state : vec)
    (burn_in thin : nat) (g : rng) :
  HamiltonianMC.epsilon self = Finite 0 ->
  Forall is_finite initial_state ->
  (forall v, fvec (length initial_state) v ->
     fvec (length initial_state) (HamiltonianMC.grad_log_density self v)) ->
  (1 <= thin)%nat ->
  (1 <= burn_in + n_samples * thin)%nat ->
  let T := (burn_in + n_samples * thin)%nat in
  exists self' g',
    HamiltonianMC.run self n_samples initial_state burn_in thin g
    = Ok ((replicate T initial_state, Z.of_nat T - 1)%Z, g')
    /\ HamiltonianMC.sample self n_samples initial_state burn_in thin g
       = Ok ((self', replicate n_samples initial_state), g')
    /\ HamiltonianMC.samples self' = Some (replicate n_samples initial_state)
    /\ HamiltonianMC.acceptance_rate self' = Some (Finite ((INR T - 1) / INR T)).
Proof.
  intros Heps Hfin Hgrad Hthin Hpos T.
  destruct (hmc_run_zero self (length initial_state) Heps Hgrad n_samples initial_state
              burn_in thin g (conj eq_refl Hfin) Hpos) as (g' & Hrun).
  fold T in Hrun.
  destruct (slice_spec (fun row => initial_state = row) burn_in thin n_samples
              (replicate T initial_state) Hthin)
    as (kept & Hslice & Hlen & Hkept);
    [apply length_replicate | apply Forall_replicate; reflexivity |].
  assert (Hk : kept = replicate n_samples initial_state).
  { symmetry. apply replicate_as_Forall. split; assumption. }
  subst kept.
  eexists _, g'. split; [exact Hrun|].
  unfold HamiltonianMC.sample. rewrite (bind_ok _ _ _ _ _ Hrun). fold T. rewrite Hslice.
  split; [reflexivity|]. split; [reflexivity|].
  cbn [HamiltonianMC.acceptance_rate]. f_equal.
  rewrite truediv_pos by lia. f_equal.
  rewrite minus_IZR, <- !INR_IZR_INZ. reflexivity.
Qed.

Lemma hmc_with_step_size_zero_never_moves_witness :
  HamiltonianMC.epsilon frozen_hmc = Finite 0
  /\ Forall is_finite [Finite 1; Finite 2]
  /\ (1 <= 2)%nat /\ (1 <= 3 + 4 * 2)%nat
  /\ exists self' g',
       HamiltonianMC.sample (H := counting_random) frozen_hmc 4 [Finite 1; Finite 2] 3 2 0%nat
       = Ok ((self', replicate 4 [Finite 1; Finite 2]), g')
       /\ HamiltonianMC.acceptance_rate self' = Some (Finite ((INR 11 - 1) / INR 11)).
Proof.
  split; [reflexivity|]. split; [repeat constructor|]. split; [lia|]. split; [simpl; lia|].
  destruct (hmc_with_step_size_zero_never_moves (H := counting_random) frozen_hmc 4
              [Finite 1; Finite 2] 3 2 0%nat eq_refl ltac:(repeat constructor)
              (grad_std_normal_fvec 2) ltac:(lia) ltac:(simpl; lia))
    as (self' & g' & _ & Hs & _ & Hr).
  exists self', g'. split; [exact Hs | exact Hr].
Defined.

(** ** Counts and acceptance statistics of a tree *)

Lemma pymin_one_range (y : npfloat) :
  exists a, pymin (Finite 1) (fexp y) = Finite a /\ 0 <= a <= 1.
Proof.
  destruct y as [x| | |].
  - destruct (pymin_one_exp x) as (Hv & Hrange & _).
    exists (Rmin 1 (exp x)). split; [exact Hv | lra].
  - exists 1. split; [reflexivity | lra].
  - exists 0. unfold pymin. cbn [fexp flt]. rewrite Rltb_true by lra. split; [reflexivity | lra].
  - exists 1. split; [reflexivity | lra].
Qed.

Lemma int_of_bool_cases (b : bool) : int_of_bool b = 0%Z \/ int_of_bool b = 1%Z.
Proof. destruct b; auto. Qed.

Lemma no_u_turn_cases (s_sub : Z) (qf pf qb pb : vec) :
  s_sub = 0%Z \/ s_sub = 1%Z ->
  NUTS.no_u_turn s_sub qf pf qb pb = 0%Z \/ NUTS.no_u_turn s_sub qf pf qb pb = 1%Z.
Proof.
  intros Hs. unfold NUTS.no_u_turn.
  destruct (int_of_bool_cases (fge (dot (vsub qf qb) pb) (Finite 0))) as [-> | ->];
    destruct (int_of_bool_cases (fge (dot (vsub qf qb) pf) (Finite 0))) as [-> | ->];
    destruct Hs as [-> | ->]; auto.
Qed.

Section TreeCounts.
Context `{RandomState}.
Import NUTS.

Lemma build_tree_counts_aux (self : sampler) (fuel : nat) :
  forall q p u v j epsilon q0 p0 g t g',
    build_tree fuel self q p u v j epsilon q0 p0 g = Ok (t, g') ->
    (0 <= j)%Z
    /\ (1 <= n_alpha_prime t <= 2 ^ j)%Z
    /\ (0 <= n_prime t <= n_alpha_prime t)%Z
    /\ (s_prime t = 0%Z \/ s_prime t = 1%Z)
    /\ (s_prime t = 1%Z -> n_alpha_prime t = (2 ^ j)%Z)
    /\ exists a, alpha_prime t = Finite a /\ 0 <= a <= IZR (n_alpha_prime t).
Proof.
  induction fuel as [|fuel IH]; intros q p u v j epsilon q0 p0 g t g' Hrun; [discriminate|].
  assert (Hj : (0 <= j)%Z).
  { destruct (Z.lt_ge_cases j 0) as [Hneg|Hpos]; [|exact Hpos].
    rewrite build_tree_negative_depth in Hrun by exact Hneg. discriminate. }
  split; [exact Hj|].
  destruct (Z.eq_dec j 0%Z) as [->|Hne].
  - rewrite build_tree_base in Hrun. cbv zeta in Hrun. injection Hrun as <- <-.
    cbn [n_alpha_prime n_prime s_prime alpha_prime].
    split; [simpl; lia|].
    split.
    { match goal with
      | |- context [int_of_bool ?b] => destruct (int_of_bool_cases b) as [-> | ->]; lia
      end. }
    split; [apply int_of_bool_cases|].
    split; [reflexivity|].
    match goal with
    | |- context [pymin (Finite 1) (fexp ?y)] => destruct (pymin_one_range y) as (a & Ha & Hr)
    end.
    exists a. split; [exact Ha | simpl; lra].
  - destruct (build_tree_merge self fuel q p u v j epsilon q0 p0 g t g' Hne Hrun)
      as (t1 & g1 & H1 & Hstop & Hmerge).
    destruct (IH _ _ _ _ _ _ _ _ _ _ _ H1) as (_ & A1 & A2 & A3 & A4 & a1 & A5 & A6).
    assert (Hpow : (2 ^ j = 2 * 2 ^ (j - 1))%Z).
    { rewrite <- Z.pow_succ_r by lia. f_equal. lia. }
    destruct (Z.eq_dec (s_prime t1) 1%Z) as [Hs|Hs].
    + destruct (Hmerge Hs) as (t2 & g2 & H2 & _ & Ht).
      destruct (IH _ _ _ _ _ _ _ _ _ _ _ H2) as (_ & B1 & B2 & B3 & B4 & a2 & B5 & B6).
      cbv zeta in Ht. subst t. cbn [n_alpha_prime n_prime s_prime alpha_prime].
      specialize (A4 Hs).
      split; [lia|]. split; [lia|].
      split; [apply no_u_turn_cases; exact B3|].
      split.
      * intros Hflag. apply no_u_turn_spec in Hflag as (Hs2 & _). specialize (B4 Hs2). lia.
      * exists (a1 + a2). rewrite A5, B5. split; [reflexivity|].
        rewrite plus_IZR. lra.
    + destruct (Hstop Hs) as [-> _].
      split; [lia|]. split; [lia|]. split; [exact A3|].
      split; [intros Hone; contradiction|].
      exists a1. split; [exact A5 | exact A6].
Qed.

End TreeCounts.

(** X12.  The counts a tree of depth [j] returns: the number of acceptance
    statistics [n_alpha'] is between 1 and [2^j], and is [2^j] when the tree
    says to continue; the number of valid states [n'] is between 0 and
    [n_alpha']; the flag [s'] is 0 or 1; the sum [alpha'] is a finite number
    between 0 and [n_alpha'], so that the mean acceptance statistic
    [alpha' / n_alpha'] used by the step-size adaptation is a number in
    [0, 1]. *)
Theorem build_tree_counts `{RandomState}
    (self : NUTS.sampler) (fuel : nat) (q p : vec) (u : npfloat) (v j : Z)
    (epsilon : npfloat) (q0 p0 : vec) (g : rng) (t : NUTS.tree) (g' : rng) :
  NUTS.build_tree fuel self q p u v j epsilon q0 p0 g = Ok (t, g') ->
  (1 <= NUTS.n_alpha_prime t <= 2 ^ j)%Z
  /\ (0 <= NUTS.n_prime t <= NUTS.n_alpha_prime t)%Z
  /\ (NUTS.s_prime t = 0%Z \/ NUTS.s_prime t = 1%Z)
  /\ (NUTS.s_prime t = 1%Z -> NUTS.n_alpha_prime t = (2 ^ j)%Z)
  /\ exists a r,
       NUTS.alpha_prime t = Finite a
       /\ 0 <= a <= IZR (NUTS.n_alpha_prime t)
       /\ fdiv (NUTS.alpha_prime t) (of_int (NUTS.n_alpha_prime t)) = Finite r
       /\ 0 <= r <= 1.
Proof.
  intros Hrun.
  destruct (build_tree_counts_aux self fuel _ _ _ _ _ _ _ _ _ _ _ Hrun)
    as (_ & A1 & A2 & A3 & A4 & a & A5 & A6).
  split; [exact A1|]. split; [exact A2|]. split; [exact A3|]. split; [exact A4|].
  exists a, (a / IZR (NUTS.n_alpha_prime t)).
  split; [exact A5|]. split; [exact A6|].
  assert (Hn : 1 <= IZR (NUTS.n_alpha_prime t)) by (apply (IZR_le 1); lia).
  split.
  - rewrite A5. unfold of_int, fdiv. rewrite Rltb_true by lra. reflexivity.
  - split.
    + apply Rmult_le_pos; [lra|]. left. apply Rinv_0_lt_compat. lra.
    + apply (Rmult_le_reg_r (IZR (NUTS.n_alpha_prime t))); [lra|].
      unfold Rdiv. rewrite Rmult_assoc, Rinv_l by lra. lra.
Qed.

Lemma build_tree_counts_witness :
  exists t g',
    NUTS.build_tree (H := counting_random) 4 half_line_nuts [Finite 1] [Finite 1]
      (Finite (1 / 2)) 1 3 (Finite (1 / 10)) [Finite 1] [Finite 1] 0%nat = Ok (t, g')
    /\ (1 <= NUTS.n_alpha_prime t <= 2 ^ 3)%Z
    /\ (0 <= NUTS.n_prime t <= NUTS.n_alpha_prime t)%Z
    /\ (NUTS.s_prime t = 0%Z \/ NUTS.s_prime t = 1%Z)
    /\ (NUTS.s_prime t = 1%Z -> NUTS.n_alpha_prime t = (2 ^ 3)%Z)
    /\ exists a r,
         NUTS.alpha_prime t = Finite a
         /\ 0 <= a <= IZR (NUTS.n_alpha_prime t)
         /\ fdiv (NUTS.alpha_prime t) (of_int (NUTS.n_alpha_prime t)) = Finite r
         /\ 0 <= r <= 1.
Proof.
  destruct (build_tree_terminates (H := counting_random) half_line_nuts 3 4
              [Finite 1] [Finite 1] (Finite (1 / 2)) 1 (Finite (1 / 10))
              [Finite 1] [Finite 1] 0%nat ltac:(lia)) as (t & g' & Ht).
  exists t, g'. split; [exact Ht|].
  apply (build_tree_counts (H := counting_random) half_line_nuts 4 [Finite 1] [Finite 1]
           (Finite (1 / 2)) 1 3 (Finite (1 / 10)) [Finite 1] [Finite 1] 0%nat t g' Ht).
Defined.

(** ** The search for an initial step size *)

Section InitialStep.
Context `{RandomState}.
Import NUTS.

(** The energy difference of [find_reasonable_epsilon] compares two
    momenta at the same position: where the log-density is finite there it
    cancels. *)
Lemma log_ratio_at_kinetic (self : sampler) q p epsilon :
  is_finite (log_density self q) ->
  log_ratio_at self q p epsilon
  = fadd (fneg (fmul (Finite (1 / 2)) (vsum (vsquare (leapfrog self q p epsilon).2))))
         (fmul (Finite (1 / 2)) (vsum (vsquare p))).
Proof.
  intros Hld. unfold log_ratio_at.
  destruct (leapfrog self q p epsilon) as [q1 p1]. cbn [snd]. unfold hamiltonian.
  destruct (log_density self q) as [x| | |]; try contradiction.
  destruct (fmul (Finite (1 / 2)) (vsum (vsquare p1))) as [k1| | |];
    destruct (fmul (Finite (1 / 2)) (vsum (vsquare p))) as [k| | |];
    try reflexivity.
  simpl. f_equal. lra.
Qed.

Lemma nuts_leapfrog_same_grad (self1 self2 : sampler) q p epsilon :
  grad_log_density self1 = grad_log_density self2 ->
  leapfrog self1 q p epsilon = leapfrog self2 q p epsilon.
Proof. intros Hg. unfold leapfrog. rewrite Hg. reflexivity. Qed.

Lemma epsilon_loop_same (self1 self2 : sampler) q p a :
  (forall epsilon, log_ratio_at self1 q p epsilon = log_ratio_at self2 q p epsilon) ->
  forall fuel epsilon log_ratio g,
    epsilon_loop fuel self1 q p a epsilon log_ratio g
    = epsilon_loop fuel self2 q p a epsilon log_ratio g.
Proof.
  intros Hlr. induction fuel as [|fuel IH]; intros epsilon log_ratio g; [reflexivity|].
  cbn [epsilon_loop]. destruct (fgt _ _); [|reflexivity].
  rewrite Hlr. apply IH.
Qed.

Lemma fpow_two_up : fpow (Finite 2) (Finite 1) = Finite 2.
Proof.
  unfold fpow. rewrite Rltb_true by lra. f_equal. apply Rpower_1. lra.
Qed.

Lemma fpow_two_down : fpow (Finite 2) (Finite (-1)) = Finite (/ 2).
Proof.
  unfold fpow. rewrite Rltb_true by lra. f_equal.
  replace (-1) with (Ropp 1) by lra.
  rewrite Rpower_Ropp, Rpower_1 by lra. reflexivity.
Qed.

Lemma epsilon_loop_power (self : sampler) q p (a : npfloat) (c : R) :
  fpow (Finite 2) a = Finite c ->
  forall fuel k log_ratio g epsilon g',
    epsilon_loop fuel self q p a (Finite (c ^ k)) log_ratio g = Ok (epsilon, g') ->
    g' = g /\ exists k', (k <= k')%nat /\ epsilon = Finite (c ^ k').
Proof.
  intros Hc. induction fuel as [|fuel IH]; intros k log_ratio g epsilon g' Hrun;
    [discriminate|].
  cbn [epsilon_loop] in Hrun. destruct (fgt _ _).
  - rewrite Hc in Hrun. cbn [fmul] in Hrun.
    replace (c ^ k * c) with (c ^ S k) in Hrun by (simpl; lra).
    destruct (IH _ _ _ _ _ Hrun) as (Hg & k' & Hk & He).
    split; [exact Hg|]. exists k'. split; [lia | exact He].
  - injection Hrun as <- <-. split; [reflexivity|]. exists k. split; [lia | reflexivity].
Qed.

End InitialStep.

(** X13.  [find_reasonable_epsilon] compares the energies of two momenta at
    the same position [q]: where the log-density at [q] is finite it
    cancels, the quantity compared is the difference of the kinetic
    energies, and the step size found depends on the target only through
    its gradient (exact arithmetic). *)
Theorem find_reasonable_epsilon_ignores_the_density `{RandomState}
    (self other : NUTS.sampler) (fuel : nat) (q : vec) (g : rng) :
  NUTS.grad_log_density self = NUTS.grad_log_density other ->
  is_finite (NUTS.log_density self q) ->
  is_finite (NUTS.log_density other q) ->
  (forall p epsilon,
     NUTS.log_ratio_at self q p epsilon
     = fadd (fneg (fmul (Finite (1 / 2))
                     (vsum (vsquare (NUTS.leapfrog self q p epsilon).2))))
            (fmul (Finite (1 / 2)) (vsum (vsquare p))))
  /\ NUTS.find_reasonable_epsilon fuel self q g
     = NUTS.find_reasonable_epsilon fuel other q g.
Proof.
  intros Hgrad Hself Hother. split.
  - intros p epsilon. apply log_ratio_at_kinetic. exact Hself.
  - assert (Hlr : forall p epsilon,
              NUTS.log_ratio_at self q p epsilon = NUTS.log_ratio_at other q p epsilon).
    { intros p epsilon. rewrite !log_ratio_at_kinetic by assumption.
      now rewrite (nuts_leapfrog_same_grad self other). }
    unfold NUTS.find_reasonable_epsilon. rewrite !bind_draw.
    rewrite Hlr. apply epsilon_loop_same. apply Hlr.
Qed.

Section SearchPasses.
Context `{RandomState}.
Import NUTS.


End SearchPasses.



Lemma find_reasonable_epsilon_ignores_the_density_witness :
  is_finite (NUTS.log_density normal_nuts [Finite 1; Finite 2])
  /\ is_finite (NUTS.log_density half_line_normal_nuts [Finite 1; Finite 2])
  /\ NUTS.find_reasonable_epsilon (H := counting_random) 11 normal_nuts
       [Finite 1; Finite 2] 0%nat
     = NUTS.find_reasonable_epsilon (H := counting_random) 11 half_line_normal_nuts
         [Finite 1; Finite 2] 0%nat.
Proof.
  split; [exact I|]. split; [simpl; rewrite Rltb_true by lra; exact I|].
  apply (find_reasonable_epsilon_ignores_the_density (H := counting_random)
           normal_nuts half_line_normal_nuts 11 [Finite 1; Finite 2] 0%nat eq_refl I).
  simpl. rewrite Rltb_true by lra. exact I.
Defined.

(** ** The outer loop of NUTS, continued *)

Section NutsEdges.
Context `{RandomState}.
Import NUTS.




End NutsEdges.



Section NutsCounts.
Context `{RandomState}.
Import NUTS.

Lemma doubling_accepted (self : sampler) fuel u epsilon q p st g st' g' :
  (0 <= t_j st)%Z -> (Z.to_nat (t_j st) < fuel)%nat ->
  doubling fuel self u epsilon q p st g = Ok (st', g') ->
  t_j st' = (t_j st + 1)%Z
  /\ (t_accepted st <= t_accepted st' <= t_accepted st + 1)%Z.
Proof.
  intros Hj Hfuel Hrun.
  destruct (doubling_spec self fuel u epsilon q p st g Hj Hfuel)
    as (st1 & g1 & t & v & ga & gb & Hd & _ & Hj1 & _ & _ & _ & _ & _ & _ & _ & Hacc).
  rewrite Hd in Hrun. injection Hrun as <- <-.
  split; [exact Hj1|].
  destruct Hacc as [[-> _] | (-> & _)]; lia.
Qed.

Lemma tree_loop_accepted (self : sampler) fuel_tree u epsilon q p :
  (10 <= fuel_tree)%nat ->
  forall fuel st g st' g',
    (0 <= t_j st <= 10)%Z ->
    tree_loop fuel_tree fuel self u epsilon q p st g = Ok (st', g') ->
    (t_j st <= t_j st' <= 10)%Z
    /\ (t_accepted st <= t_accepted st' <= t_accepted st + (t_j st' - t_j st))%Z.
Proof.
  intros Hft. induction fuel as [|fuel IH]; intros st g st' g' Hj Hrun; [discriminate|].
  cbn [tree_loop] in Hrun. unfold max_tree_depth in Hrun.
  destruct (Z.eqb_spec (t_s st) 1) as [Hs|Hs]; cbn [andb] in Hrun.
  - destruct (Z.ltb_spec (t_j st) 10) as [Hlt|Hge].
    + unfold bind in Hrun.
      destruct (doubling fuel_tree self u epsilon q p st g) as [[st1 g1]| |] eqn:Hd;
        try discriminate.
      destruct (doubling_accepted self fuel_tree u epsilon q p st g st1 g1
                  ltac:(lia) ltac:(lia) Hd) as [Hj1 Ha1].
      destruct (IH st1 g1 st' g' ltac:(lia) Hrun) as [Hj' Ha'].
      split; lia.
    + injection Hrun as <- <-. split; lia.
  - injection Hrun as <- <-. split; lia.
Qed.

Lemma trajectory_of_accepted (self : sampler) fuel dim q st g tr g' :
  (11 <= fuel)%nat ->
  trajectory_of fuel self dim q st g = Ok (tr, g') ->
  (c_accepted st <= t_accepted tr <= c_accepted st + 10)%Z.
Proof.
  intros Hfuel. unfold trajectory_of. rewrite bind_draw.
  unfold bind at 1, np_uniform.
  destruct (isfinite _); [|discriminate].
  unfold draw. destruct (uniform _ _ _) as [u g2].
  intros Hrun.
  apply (tree_loop_accepted self fuel u (c_epsilon st) q _ ltac:(lia)) in Hrun;
    cbn [t_j t_accepted] in *; lia.
Qed.

(** The state of the outer loop before iteration [m], with the counter of
    accepted proposals and the history of step sizes. *)
Lemma loop_body_counts (self : sampler) fuel initial_state total mu adapt_steps :
  (11 <= fuel)%nat ->
  well_shaped (grad_log_density self) (length initial_state) ->
  (forall x, log_density self x <> PInf) ->
  forall m st g, (1 <= m < total)%nat ->
    nuts_invariant fuel self initial_state total adapt_steps m st
    /\ (0 <= c_accepted st <= 10 * (Z.of_nat m - 1))%Z
    /\ length (c_epsilon_history st) = (1 + Nat.min adapt_steps (m - 1))%nat ->
    exists st' g',
      loop_body fuel self (length initial_state) mu adapt_steps m st g = Ok (st', g')
      /\ nuts_invariant fuel self initial_state total adapt_steps (S m) st'
      /\ (0 <= c_accepted st' <= 10 * (Z.of_nat (S m) - 1))%Z
      /\ length (c_epsilon_history st') = (1 + Nat.min adapt_steps (S m - 1))%nat.
Proof.
  intros Hfuel Hgrad Hinf m st g Hm (Hinv & Hacc & Hhist).
  destruct (loop_body_invariant self fuel initial_state total mu adapt_steps
              Hfuel Hgrad Hinf m st g Hm Hinv) as (st' & g' & Hrun & Hinv').
  exists st', g'. split; [exact Hrun|]. split; [exact Hinv'|].
  destruct Hinv as (Hlen & H0 & Hlinks & Hvalid & Hrows & Hfrozen).
  destruct (lookup_lt_is_Some_2 (c_all_samples st) (m - 1)) as [prev Hprev]; [lia|].
  pose proof (Forall_lookup_1 _ _ _ _ Hrows Hprev) as Hplen. cbv beta in Hplen.
  pose proof (Hvalid (m - 1)%nat prev ltac:(lia) Hprev) as Hpadm.
  destruct (loop_body_spec self fuel (length initial_state) mu adapt_steps m st g prev
              Hfuel ltac:(lia) Hgrad Hinf Hprev Hplen Hpadm)
    as (st2 & g2 & tr & Hrun2 & Htr & _ & _ & _ & _ & Hacc2 & _ & Hearly & Hlate).
  rewrite Hrun in Hrun2. injection Hrun2 as <- <-.
  pose proof (trajectory_of_accepted _ _ _ _ _ _ _ _ Hfuel Htr) as Hbound.
  split; [lia|].
  destruct (Nat.le_gt_cases m adapt_steps) as [Hle|Hgt].
  - destruct (Hearly Hle) as (_ & _ & _ & ->). rewrite length_app, Hhist. simpl. lia.
  - destruct (Hlate Hgt) as (_ & _ & _ & ->). rewrite Hhist. lia.
Qed.

Lemma nuts_run_counts (self : sampler) fuel n_samples initial_state burn_in adapt_steps g
    epsilon0 g0 :
  (11 <= fuel)%nat -> (1 <= burn_in + n_samples)%nat ->
  well_shaped (grad_log_density self) (length initial_state) ->
  (forall x, log_density self x <> PInf) ->
  log_density self initial_state <> NaN ->
  find_reasonable_epsilon fuel self initial_state g = Ok (epsilon0, g0) ->
  exists st g',
    run fuel self n_samples initial_state burn_in adapt_steps g = Ok (st, g')
    /\ nuts_invariant fuel self initial_state (burn_in + n_samples) adapt_steps
         (burn_in + n_samples) st
    /\ (0 <= c_accepted st <= 10 * (Z.of_nat (burn_in + n_samples) - 1))%Z
    /\ length (c_epsilon_history st)
       = (1 + Nat.min adapt_steps (burn_in + n_samples - 1))%nat.
Proof.
  intros Hfuel Hpos Hgrad Hinf Hinit Heps.
  set (total := (burn_in + n_samples)%nat) in *.
  set (dim := length initial_state) in *.
  assert (Hlen0 : length (zeros total dim) = total) by apply length_replicate.
  set (st0 := {| c_all_samples := <[0%nat:=initial_state]> (zeros total dim);
                 c_accepted := 0;
                 c_epsilon := epsilon0;
                 c_epsilon_bar := Finite 1;
                 c_H_bar := Finite 0;
                 c_epsilon_history := [epsilon0];
                 c_alpha := None |}).
  destruct (for_each_invariant
              (fun m st =>
                 nuts_invariant fuel self initial_state total adapt_steps m st
                 /\ (0 <= c_accepted st <= 10 * (Z.of_nat m - 1))%Z
                 /\ length (c_epsilon_history st) = (1 + Nat.min adapt_steps (m - 1))%nat)
              (loop_body fuel self dim (flog (fmul (of_int 10) epsilon0)) adapt_steps)
              (total - 1) 1 st0 g0)
    as (st & g' & Hrun & Hinv).
  - split; [|split; [cbn; lia | cbn; lia]].
    unfold nuts_invariant, st0; cbn [c_all_samples c_epsilon c_epsilon_bar].
    split; [|split; [|split; [|split; [|split]]]].
    + now rewrite length_insert.
    + apply list_lookup_insert_eq. lia.
    + intros k Hk; lia.
    + intros k row Hk Hrow. assert (k = 0)%nat as -> by lia.
      rewrite list_lookup_insert_eq in Hrow by lia. injection Hrow as <-.
      split; [exact Hinit | apply Hinf].
    + apply Forall_insert; [|reflexivity].
      unfold zeros. apply Forall_replicate. apply length_replicate.
    + intros Hlate; lia.
  - intros m st g1 Hm Hinv.
    apply loop_body_counts; [assumption | assumption | assumption | lia | assumption].
  - exists st, g'. split.
    + unfold run. rewrite (bind_ok _ _ _ _ _ Heps).
      unfold run_from, initial_chain_state. fold total. fold dim.
      rewrite setitem_ok by lia.
      erewrite bind_ok by reflexivity. exact Hrun.
    + replace (1 + (total - 1))%nat with total in Hinv by lia. exact Hinv.
Qed.

End NutsCounts.

Section NutsFromCounts.
Context `{RandomState}.
Import NUTS.

(** What a run that returns has counted, whatever the target. *)
Lemma run_from_counts (self : sampler) fuel n_samples initial_state burn_in adapt_steps
    epsilon0 g0 st g' :
  (11 <= fuel)%nat ->
  run_from fuel self n_samples initial_state burn_in adapt_steps epsilon0 g0 = Ok (st, g') ->
  (0 <= c_accepted st <= max_tree_depth * (Z.of_nat (burn_in + n_samples) - 1))%Z
  /\ length (c_epsilon_history st)
     = (1 + Nat.min adapt_steps (burn_in + n_samples - 1))%nat.
Proof.
  intros Hfuel Hrun. unfold run_from in Hrun.
  set (total := (burn_in + n_samples)%nat) in *.
  unfold bind at 1, lift, setitem in Hrun.
  destruct (decide (0 < length (zeros total (length initial_state)))%nat) as [Hpos|];
    [|discriminate].
  unfold zeros in Hpos. rewrite length_replicate in Hpos.
  destruct (for_each_states _ _ _ _ _ _ _ Hrun) as (states & Htrace & Hlen).
  pose proof (loop_states_last _ _ _ _ _ _ _ Htrace) as Hlast.
  rewrite last_lookup in Hlast. cbn [length Nat.pred] in Hlast.
  pose proof (loop_states_invariant
                (fun m x =>
                   (0 <= c_accepted x <= max_tree_depth * (Z.of_nat m - 1))%Z
                   /\ length (c_epsilon_history x) = (1 + Nat.min adapt_steps (m - 1))%nat)
                _ _ _ _ _ _ _ Htrace) as Hinv.
  cbv beta in Hinv.
  destruct (Hinv ltac:(unfold initial_chain_state, max_tree_depth; cbn; lia)) with
    (k := length states) (x := st) as [Hacc Hhist].
  - intros m x gx y gy Hm [Hacc Hhist] Hstep.
    destruct (loop_body_inversion _ _ _ _ _ _ _ _ _ _ Hstep)
      as (prev & tr & _ & Htr & _ & _ & Hacc' & _ & Had & Hfr).
    pose proof (trajectory_of_accepted _ _ _ _ _ _ _ _ Hfuel Htr) as Hbound.
    unfold max_tree_depth in *. split; [lia|].
    destruct (Nat.le_gt_cases m adapt_steps) as [Hle | Hgt].
    + destruct (Had Hle) as (_ & _ & _ & _ & _ & _ & ->).
      rewrite length_app, Hhist. simpl. lia.
    + destruct (Hfr Hgt) as (_ & _ & _ & ->). rewrite Hhist. lia.
  - exact Hlast.
  - rewrite Hlen in Hacc, Hhist. unfold range in Hlen.
    replace (1 + (total - 1))%nat with total in Hacc, Hhist by lia.
    replace (1 + (total - 1) - 1)%nat with (total - 1)%nat in Hhist by lia.
    split; [exact Hacc | exact Hhist].
Qed.

End NutsFromCounts.

(** X16.  [NUTS.sample] returns the rows of its chain from [burn_in] on:
    exactly [n_samples] rows of the dimension of the initial state, the
    first being the initial state when there is no burn-in.  The history of
    step sizes it leaves on the sampler has one entry for the initial step
    size and one for each adapted iteration, [1 + min(adapt_steps, T - 1)]
    for [T] total iterations.  For a gradient of the state's dimension and
    a log-density that is never [+inf] nor above 709 (so that [exp(-H)]
    cannot overflow) and not NaN at the initial state, the loop of [sample]
    returns whatever initial step size [epsilon0] it is entered with, and
    [sample] returns these rows when the search returns [epsilon0]. *)
Theorem nuts_sample_returns_the_rows_after_burn_in `{RandomState}
    (self : NUTS.sampler) (fuel n_samples : nat) (initial_state : vec)
    (burn_in adapt_steps : nat) (g : rng) :
  (11 <= fuel)%nat -> (1 <= burn_in + n_samples)%nat ->
  well_shaped (NUTS.grad_log_density self) (length initial_state) ->
  (forall x, below_overflow (NUTS.log_density self x)) ->
  NUTS.log_density self initial_state <> NaN ->
  forall (epsilon0 : npfloat) (g0 : rng),
  exists st g',
    NUTS.run_from fuel self n_samples initial_state burn_in adapt_steps epsilon0 g0
    = Ok (st, g')
    /\ length (drop burn_in (NUTS.c_all_samples st)) = n_samples
    /\ Forall (fun row => length row = length initial_state)
         (drop burn_in (NUTS.c_all_samples st))
    /\ (burn_in = 0%nat -> drop burn_in (NUTS.c_all_samples st) !! 0%nat = Some initial_state)
    /\ length (NUTS.c_epsilon_history st)
       = (1 + Nat.min adapt_steps (burn_in + n_samples - 1))%nat
    /\ (NUTS.find_reasonable_epsilon fuel self initial_state g = Ok (epsilon0, g0) ->
        exists self',
          NUTS.sample fuel self n_samples initial_state burn_in adapt_steps g
          = Ok ((self', drop burn_in (NUTS.c_all_samples st)), g')
          /\ NUTS.samples self' = Some (drop burn_in (NUTS.c_all_samples st))
          /\ NUTS.epsilon_history self' = NUTS.c_epsilon_history st).
Proof.
  intros Hfuel Hpos Hgrad Hbelow Hinit epsilon0 g0.
  destruct (nuts_run_from self fuel n_samples initial_state burn_in adapt_steps
              epsilon0 g0 Hfuel Hpos Hgrad Hbelow Hinit)
    as (st & g' & Hrun & _ & Hlen & H0 & _ & _ & Hrows & _).
  destruct (run_from_counts _ _ _ _ _ _ _ _ _ _ Hfuel Hrun) as [_ Hhist].
  exists st, g'. split; [exact Hrun|].
  split; [rewrite length_drop, Hlen; lia|].
  split; [apply Forall_drop; exact Hrows|].
  split; [intros ->; exact H0|].
  split; [exact Hhist|].
  intros Heps.
  pose proof (run_after_search _ _ n_samples _ burn_in adapt_steps _ _ _ Heps) as Hsame.
  rewrite Hrun in Hsame.
  eexists. split; [apply (sample_after_run _ _ _ _ _ _ _ _ _ Hsame)|].
  split; reflexivity.
Qed.

Lemma nuts_sample_returns_the_rows_after_burn_in_witness :
  (11 <= 11)%nat /\ (1 <= 1 + 2)%nat
  /\ NUTS.log_density normal_nuts [Finite 0] = Finite 0
  /\ NUTS.find_reasonable_epsilon (H := counting_random) 11 normal_nuts [Finite 0] 0%nat
     = Ok (Finite 4, 1%nat)
  /\ exists self' kept g',
       NUTS.sample (H := counting_random) 11 normal_nuts 2 [Finite 0] 1 1 0%nat
       = Ok ((self', kept), g')
       /\ length kept = 2%nat
       /\ length (NUTS.epsilon_history self') = 2%nat.
Proof.
  split; [lia|]. split; [lia|]. split; [cbn; f_equal; lra|].
  split; [exact normal_epsilon|].
  destruct (nuts_sample_returns_the_rows_after_burn_in (H := counting_random)
              normal_nuts 11 2 [Finite 0] 1 1 0%nat
              ltac:(lia) ltac:(lia) (grad_std_normal_shape 1) log_std_normal_below_overflow
              log_std_normal_zero (Finite 4) 1%nat)
    as (st & g' & _ & Hn & _ & _ & Hh & Hsample).
  destruct (Hsample normal_epsilon) as (self' & Hs & _ & Hhist).
  exists self', (drop 1 (NUTS.c_all_samples st)), g'.
  split; [exact Hs|]. split; [exact Hn|]. rewrite Hhist. exact Hh.
Defined.



(** ** Dual averaging keeps the step sizes positive *)

Section DualAveraging.
Context `{RandomState}.
Import NUTS.

Lemma doubling_alpha (self : sampler) fuel u epsilon q p st g st' g' :
  (0 <= t_j st)%Z -> (Z.to_nat (t_j st) < fuel)%nat ->
  doubling fuel self u epsilon q p st g = Ok (st', g') ->
  alpha_ok (t_alpha st').
Proof.
  intros Hj Hfuel Hrun.
  destruct (doubling_spec self fuel u epsilon q p st g Hj Hfuel)
    as (st1 & g1 & t & v & ga & gb & Hd & Hbt & _ & _ & Ha & _).
  rewrite Hd in Hrun. injection Hrun as <- <-.
  rewrite Ha. cbn [alpha_ok].
  destruct (build_tree_counts_aux self fuel _ _ _ _ _ _ _ _ _ _ _ Hbt)
    as (_ & A1 & _ & _ & _ & a & A5 & A6).
  exists a. split; [exact A5|]. split; [exact A6 | lia].
Qed.

Lemma tree_loop_alpha (self : sampler) fuel_tree u epsilon q p :
  (10 <= fuel_tree)%nat ->
  forall fuel st g st' g',
    (0 <= t_j st <= 10)%Z -> alpha_ok (t_alpha st) ->
    tree_loop fuel_tree fuel self u epsilon q p st g = Ok (st', g') ->
    alpha_ok (t_alpha st').
Proof.
  intros Hft. induction fuel as [|fuel IH]; intros st g st' g' Hj Hok Hrun; [discriminate|].
  cbn [tree_loop] in Hrun. unfold max_tree_depth in Hrun.
  destruct (Z.eqb_spec (t_s st) 1) as [Hs|Hs]; cbn [andb] in Hrun.
  - destruct (Z.ltb_spec (t_j st) 10) as [Hlt|Hge].
    + unfold bind in Hrun.
      destruct (doubling fuel_tree self u epsilon q p st g) as [[st1 g1]| |] eqn:Hd;
        try discriminate.
      destruct (doubling_accepted self fuel_tree u epsilon q p st g st1 g1
                  ltac:(lia) ltac:(lia) Hd) as [Hj1 _].
      apply (IH st1 g1 st' g'); [lia | | exact Hrun].
      apply (doubling_alpha self fuel_tree u epsilon q p st g st1 g1); [lia | lia | exact Hd].
    + injection Hrun as <- <-. exact Hok.
  - injection Hrun as <- <-. exact Hok.
Qed.

Lemma trajectory_of_alpha (self : sampler) fuel dim q st g tr g' :
  (11 <= fuel)%nat -> alpha_ok (c_alpha st) ->
  trajectory_of fuel self dim q st g = Ok (tr, g') ->
  alpha_ok (t_alpha tr).
Proof.
  intros Hfuel Hok. unfold trajectory_of. rewrite bind_draw.
  unfold bind at 1, np_uniform.
  destruct (isfinite _); [|discriminate].
  unfold draw. destruct (uniform _ _ _) as [u g2].
  intros Hrun.
  apply (tree_loop_alpha self fuel u (c_epsilon st) q _ ltac:(lia)) in Hrun;
    cbn [t_j t_alpha] in *; [exact Hrun | lia | exact Hok].
Qed.

(** A weighted mean of two numbers of an interval stays in it. *)
Lemma weighted_mean_range (lo hi w x y : R) :
  0 <= w <= 1 -> lo <= x <= hi -> lo <= y <= hi ->
  lo <= (1 - w) * x + w * y <= hi.
Proof. intros Hw Hx Hy. split; nra. Qed.

Lemma adapt_keeps_step_sizes (self : sampler) (d mu : R) adapt_steps m st g st' g' :
  (1 <= m)%nat ->
  delta self = Finite d ->
  step_sizes_ok d st ->
  adapt self (Finite mu) adapt_steps m st g = Ok (st', g') ->
  step_sizes_ok d st'
  /\ ((m <= adapt_steps)%nat ->
      exists h, c_H_bar st' = Finite h
                /\ Rmin 0 (d - 1) <= h <= Rmax 0 d
                /\ c_epsilon st' = Finite (exp (mu - sqrt (INR m) / (5 / 100) * h))).
Proof.
  intros Hm Hd (Halpha & Heps & (eb & Heb & Hebpos) & (h & Hh & Hrange) & Hhist).
  unfold adapt. destruct (Nat.leb_spec m adapt_steps) as [Hle|Hgt].
  - destruct (c_alpha st) as [[alpha n_alpha]|] eqn:Ea; [|discriminate].
    destruct Halpha as (a & -> & Ha & Hn). cbv zeta.
    assert (Hnr : 1 <= IZR n_alpha) by (apply (IZR_le 1); exact Hn).
    assert (Hmr : 1 <= INR m) by (apply (le_INR 1); exact Hm).
    set (w := 1 / IZR (Z.of_nat m + t0)).
    assert (Hw : 0 <= w <= 1).
    { unfold w, t0. rewrite plus_IZR, <- INR_IZR_INZ.
      assert (Hpos : 0 < / (INR m + 10)) by (apply Rinv_0_lt_compat; lra).
      split; [lra|].
      apply (Rmult_le_reg_r (INR m + 10)); [lra|].
      unfold Rdiv. rewrite Rmult_assoc, Rinv_l by lra. lra. }
    set (r := a / IZR n_alpha).
    assert (Hr : 0 <= r <= 1).
    { unfold r. assert (Hinv : 0 < / IZR n_alpha) by (apply Rinv_0_lt_compat; lra).
      split; [unfold Rdiv; apply Rmult_le_pos; lra|].
      apply (Rmult_le_reg_r (IZR n_alpha)); [lra|].
      unfold Rdiv. rewrite Rmult_assoc, Rinv_l by lra. lra. }
    set (h' := (1 - w) * h + w * (d - r)).
    assert (Hh' : Rmin 0 (d - 1) <= h' <= Rmax 0 d).
    { apply weighted_mean_range; [exact Hw | exact Hrange|].
      pose proof (Rmin_r 0 (d - 1)). pose proof (Rmax_r 0 d). lra. }
    assert (EH : fadd (fmul (fsub (of_int 1) (truediv 1 (Z.of_nat m + t0))) (c_H_bar st))
                   (fmul (truediv 1 (Z.of_nat m + t0))
                      (fsub (delta self) (fdiv (Finite a) (of_int n_alpha))))
                 = Finite h').
    { rewrite truediv_pos by (unfold t0; lia). rewrite Hh, Hd.
      unfold of_int at 2, fdiv. rewrite Rltb_true by lra.
      cbn [of_int fsub fneg fadd fmul]. f_equal; try (unfold h', w, r; lra). }
    rewrite EH.
    assert (EL : fsub (Finite mu) (fmul (fdiv (fsqrt (of_int (Z.of_nat m))) gamma) (Finite h'))
                 = Finite (mu - sqrt (INR m) / (5 / 100) * h')).
    { unfold of_int, fsqrt. rewrite <- INR_IZR_INZ. rewrite Rltb_false by lra.
      unfold gamma, fdiv. rewrite Rltb_true by lra.
      cbn [fsub fneg fadd fmul]. f_equal; try lra. }
    rewrite EL. cbn [fexp].
    assert (EW : fpow (of_int (Z.of_nat m)) (fneg kappa)
                 = Finite (Rpower (INR m) (- (75 / 100)))) by (apply weight_value; exact Hm).
    rewrite EW, Heb. unfold flog at 1. rewrite Rltb_true by exact Hebpos.
    cbn [of_int fsub fneg fadd fmul fexp].
    unfold ret. intros [= <- <-]. clear EH EL.
    split.
    + unfold step_sizes_ok. cbn [c_alpha c_epsilon c_epsilon_bar c_H_bar c_epsilon_history].
      split; [exists a; auto|].
      split; [eexists; split; [reflexivity | apply exp_pos]|].
      split; [eexists; split; [reflexivity | apply exp_pos]|].
      split; [exists h'; split; [reflexivity | exact Hh']|].
      apply Forall_app. split; [exact Hhist|].
      constructor; [|constructor]. eexists; split; [reflexivity | apply exp_pos].
    + intros _. exists h'. cbn [c_H_bar c_epsilon]. split; [reflexivity|].
      split; [exact Hh' | reflexivity].
  - unfold ret. intros [= <- <-]. split; [|intros Hle; lia].
    unfold step_sizes_ok. cbn [c_alpha c_epsilon c_epsilon_bar c_H_bar c_epsilon_history].
    split; [exact Halpha|].
    split; [exists eb; auto|]. split; [exists eb; auto|].
    split; [exists h; auto | exact Hhist].
Qed.

End DualAveraging.

Section StepSizes.
Context `{RandomState}.
Import NUTS.

Lemma loop_body_step_sizes (self : sampler) (d mu : R) fuel dim adapt_steps m st g st' g' :
  (11 <= fuel)%nat -> (1 <= m)%nat ->
  delta self = Finite d ->
  step_sizes_ok d st ->
  loop_body fuel self dim (Finite mu) adapt_steps m st g = Ok (st', g') ->
  step_sizes_ok d st'
  /\ ((m <= adapt_steps)%nat ->
      exists h, c_H_bar st' = Finite h
                /\ Rmin 0 (d - 1) <= h <= Rmax 0 d
                /\ c_epsilon st' = Finite (exp (mu - sqrt (INR m) / (5 / 100) * h))).
Proof.
  intros Hfuel Hm Hd Hok. unfold loop_body.
  unfold bind at 1, lift. destruct (getitem (c_all_samples st) (m - 1)) as [q| |];
    try discriminate.
  unfold bind at 1.
  destruct (trajectory_of fuel self dim q st g) as [[tr g1]| |] eqn:Htr; try discriminate.
  unfold bind at 1, lift.
  destruct (setitem (c_all_samples st) m (t_q_new tr)) as [a1| |]; try discriminate.
  apply (adapt_keeps_step_sizes self d mu adapt_steps m _ g1 st' g' Hm Hd).
  destruct Hok as (Halpha & Heps & Hbar & HH & Hhist).
  unfold step_sizes_ok. cbn [c_alpha c_epsilon c_epsilon_bar c_H_bar c_epsilon_history].
  split; [|auto].
  apply (trajectory_of_alpha self fuel dim q st g tr g1 Hfuel Halpha Htr).
Qed.

Lemma find_reasonable_epsilon_positive (self : sampler) fuel q g epsilon g' :
  find_reasonable_epsilon fuel self q g = Ok (epsilon, g') -> positive epsilon.
Proof.
  unfold find_reasonable_epsilon. rewrite bind_draw. cbn [fst snd].
  destruct (fgt _ _); intros Hrun.
  - destruct (epsilon_loop_power self q _ (Finite 1) 2 fpow_two_up fuel 0%nat _ _ _ _ Hrun)
      as (_ & k & _ & ->).
    eexists; split; [reflexivity|]. apply pow_lt. lra.
  - destruct (epsilon_loop_power self q _ (Finite (-1)) (/ 2) fpow_two_down fuel 0%nat
                _ _ _ _ Hrun) as (_ & k & _ & ->).
    eexists; split; [reflexivity|]. apply pow_lt. lra.
Qed.

Lemma nuts_run_step_sizes (self : sampler) (d : R) fuel n_samples initial_state burn_in
    adapt_steps g st g' :
  (11 <= fuel)%nat ->
  delta self = Finite d ->
  run fuel self n_samples initial_state burn_in adapt_steps g = Ok (st, g') ->
  step_sizes_ok d st.
Proof.
  intros Hfuel Hd. unfold run. unfold bind at 1.
  destruct (find_reasonable_epsilon fuel self initial_state g) as [[epsilon0 g0]| |] eqn:Heps;
    try discriminate.
  destruct (find_reasonable_epsilon_positive _ _ _ _ _ _ Heps) as (e0 & -> & He0).
  unfold run_from, initial_chain_state. unfold bind at 1, lift. destruct (setitem _ 0 initial_state) as [a0| |]; try discriminate.
  assert (Hmu : flog (fmul (of_int 10) (Finite e0)) = Finite (ln (IZR 10 * e0))).
  { cbn [of_int fmul]. unfold flog. rewrite Rltb_true by lra. reflexivity. }
  rewrite Hmu. intros Hrun.
  apply (for_each_preserves (step_sizes_ok d)) in Hrun; [exact Hrun | |].
  - intros i s g1 s' g2 Hi Hs Hbody.
    assert (Hi1 : (1 <= i)%nat) by (unfold range in Hi; apply elem_of_seq in Hi; lia).
    apply (loop_body_step_sizes self d _ fuel _ adapt_steps i s g1 s' g2
             Hfuel Hi1 Hd Hs Hbody).
  - unfold step_sizes_ok. cbn [c_alpha c_epsilon c_epsilon_bar c_H_bar c_epsilon_history].
    split; [exact I|]. split; [exists e0; auto|].
    split; [exists 1; split; [reflexivity | lra]|].
    split.
    + exists 0. split; [reflexivity|].
      pose proof (Rmin_l 0 (d - 1)). pose proof (Rmax_l 0 d). lra.
    + constructor; [exists e0; auto | constructor].
Qed.

End StepSizes.

(** X18.  Dual averaging with a finite target [delta]: at every adapted
    iteration [m] the averaged error [H_bar] is a finite number between
    [min(0, delta - 1)] and [max(0, delta)] and the step size is
    [exp(mu - sqrt(m) / 0.05 * H_bar)]; hence every step size the run uses,
    every entry of [epsilon_history] and the step size left on the sampler
    are finite and positive (exact arithmetic). *)
Theorem nuts_step_sizes_stay_positive `{RandomState}
    (self : NUTS.sampler) (d : R) (fuel n_samples : nat) (initial_state : vec)
    (burn_in adapt_steps : nat) (g : rng) (epsilon0 : npfloat) (g0 : rng) :
  (11 <= fuel)%nat -> (1 <= burn_in + n_samples)%nat ->
  well_shaped (NUTS.grad_log_density self) (length initial_state) ->
  (forall x, NUTS.log_density self x <> PInf) ->
  NUTS.log_density self initial_state <> NaN ->
  NUTS.delta self = Finite d ->
  NUTS.find_reasonable_epsilon fuel self initial_state g = Ok (epsilon0, g0) ->
  (forall mu dim m st ga st' gb,
     (1 <= m <= adapt_steps)%nat ->
     step_sizes_ok d st ->
     NUTS.loop_body fuel self dim (Finite mu) adapt_steps m st ga = Ok (st', gb) ->
     exists h,
       NUTS.c_H_bar st' = Finite h
       /\ Rmin 0 (d - 1) <= h <= Rmax 0 d
       /\ NUTS.c_epsilon st' = Finite (exp (mu - sqrt (INR m) / (5 / 100) * h)))
  /\ exists st self' kept g',
       NUTS.run fuel self n_samples initial_state burn_in adapt_steps g = Ok (st, g')
       /\ step_sizes_ok d st
       /\ NUTS.sample fuel self n_samples initial_state burn_in adapt_steps g
          = Ok ((self', kept), g')
       /\ positive (NUTS.epsilon self')
       /\ Forall positive (NUTS.epsilon_history self').
Proof.
  intros Hfuel Hpos Hgrad Hinf Hinit Hd Heps. split.
  - intros mu dim m st ga st' gb Hm Hok Hbody.
    destruct (loop_body_step_sizes self d mu fuel dim adapt_steps m st ga st' gb
                Hfuel ltac:(lia) Hd Hok Hbody) as [_ Hformula].
    apply Hformula. lia.
  - destruct (nuts_run self fuel n_samples initial_state burn_in adapt_steps g
                epsilon0 g0 Hfuel Hpos Hgrad Hinf Hinit Heps) as (st & g' & Hrun & _).
    pose proof (nuts_run_step_sizes self d fuel n_samples initial_state burn_in adapt_steps
                  g st g' Hfuel Hd Hrun) as Hok.
    eexists st, _, _, g'. split; [exact Hrun|]. split; [exact Hok|].
    split; [unfold NUTS.sample; rewrite (bind_ok _ _ _ _ _ Hrun); reflexivity|].
    cbn [NUTS.epsilon NUTS.epsilon_history].
    destruct Hok as (_ & _ & Hbar & _ & Hhist). split; assumption.
Qed.

Lemma nuts_step_sizes_stay_positive_witness :
  (11 <= 11)%nat /\ (1 <= 1 + 2)%nat
  /\ NUTS.delta half_line_nuts = Finite (6 / 10)
  /\ NUTS.find_reasonable_epsilon (H := counting_random) 11 half_line_nuts [Finite (-1)] 0%nat
     = Ok (Finite 1, 1%nat)
  /\ exists self' kept g',
       NUTS.sample (H := counting_random) 11 half_line_nuts 2 [Finite (-1)] 1 1 0%nat
       = Ok ((self', kept), g')
       /\ positive (NUTS.epsilon self')
       /\ Forall positive (NUTS.epsilon_history self').
Proof.
  split; [lia|]. split; [lia|]. split; [reflexivity|]. split; [exact half_line_epsilon|].
  destruct (nuts_step_sizes_stay_positive (H := counting_random)
              half_line_nuts (6 / 10) 11 2 [Finite (-1)] 1 1 0%nat (Finite 1) 1%nat
              ltac:(lia) ltac:(lia) (grad_half_line_shape 1) log_half_line_not_pinf
              (log_half_line_not_nan _) eq_refl half_line_epsilon)
    as (_ & st & self' & kept & g' & _ & _ & Hs & He & Hh).
  exists self', kept, g'. split; [exact Hs|]. split; [exact He | exact Hh].
Defined.

(** ** Diagnostics *)

Section Sums.

(** A sum of floats that are real numbers with a property closed under
    addition is such a number. *)
Lemma vsum_closed (P : R -> Prop) (l : vec) :
  P 0 -> (forall x y, P x -> P y -> P (x + y)) ->
  Forall (fun a => exists r, a = Finite r /\ P r) l ->
  exists s, vsum l = Finite s /\ P s.
Proof.
  intros H0 Hadd. unfold vsum. generalize 0 H0.
  induction l as [|a l IH]; intros acc Hacc Hl.
  - exists acc. split; [reflexivity | exact Hacc].
  - apply Forall_cons in Hl as [(r & -> & Hr) Hl]. cbn [fold_left fadd].
    apply IH; [apply Hadd; assumption | exact Hl].
Qed.

Lemma fold_fadd_replicate (n : nat) (c acc : R) :
  fold_left fadd (replicate n (Finite c)) (Finite acc) = Finite (acc + INR n * c).
Proof.
  revert acc. induction n as [|n IH]; intros acc.
  - cbn. f_equal. lra.
  - cbn [replicate fold_left fadd]. rewrite IH. f_equal. rewrite S_INR. lra.
Qed.

Lemma vsum_nan (l : vec) : NaN ∈ l -> vsum l = NaN.
Proof.
  unfold vsum. generalize (Finite 0).
  induction l as [|a l IH]; intros acc Hin; [inversion Hin|].
  cbn [fold_left].
  assert (Hnan : forall l', fold_left fadd l' NaN = NaN).
  { induction l' as [|b l' IH']; [reflexivity | exact IH']. }
  apply elem_of_cons in Hin as [<- | Hin].
  - replace (fadd acc NaN) with NaN by (destruct acc; reflexivity). apply Hnan.
  - apply IH. exact Hin.
Qed.

(** A sum of floats that compare above zero is a real number that is not
    negative, or [+inf]. *)
Lemma vsum_positive (l : vec) :
  Forall (fun a => fgt a (Finite 0) = true) l ->
  (exists s, vsum l = Finite s /\ 0 <= s) \/ vsum l = PInf.
Proof.
  unfold vsum.
  assert (Hgen : forall l acc,
    Forall (fun a => fgt a (Finite 0) = true) l ->
    (exists a, acc = Finite a /\ 0 <= a) \/ acc = PInf ->
    (exists s, fold_left fadd l acc = Finite s /\ 0 <= s) \/ fold_left fadd l acc = PInf).
  { clear l. induction l as [|x l IH]; intros acc Hl Hacc; [exact Hacc|].
    apply Forall_cons in Hl as [Hx Hl]. cbn [fold_left]. apply IH; [exact Hl|].
    unfold fgt in Hx.
    destruct x as [r| | |]; cbn [flt] in Hx; try discriminate.
    - apply Rltb_spec in Hx. destruct Hacc as [(a & -> & Ha) | ->].
      + left. exists (a + r). split; [reflexivity | lra].
      + right. reflexivity.
    - right. destruct Hacc as [(a & -> & Ha) | ->]; reflexivity. }
  intros Hl. apply Hgen; [exact Hl|]. left. exists 0. split; [reflexivity | lra].
Qed.

End Sums.

Section Ess.
Import Diagnostics.

Lemma correlate_full_length (a v : vec) :
  length (correlate_full a v) = (length v - 1 + length a)%nat.
Proof.
  unfold correlate_full.
  rewrite length_app, !length_map, length_rev, !length_seq. reflexivity.
Qed.

Lemma middle_index (n : nat) : (1 <= n)%nat -> ((n - 1 + n) / 2 = n - 1)%nat.
Proof.
  intros Hn. replace (n - 1 + n)%nat with (1 + (n - 1) * 2)%nat by lia.
  rewrite Nat.div_add by lia. reflexivity.
Qed.

Lemma filter_positive (l : vec) :
  Forall (fun a => fgt a (Finite 0) = true) (List.filter (fun r => fgt r (Finite 0)) l).
Proof.
  apply Forall_forall. intros x Hx. apply list_elem_of_In in Hx.
  apply filter_In in Hx. apply Hx.
Qed.

(** The last three lines of [effective_sample_size]. *)
Lemma ess_of_positive (n : nat) (positive : vec) :
  (2 <= n)%nat ->
  Forall (fun a => fgt a (Finite 0) = true) positive ->
  exists r,
    pymax (fdiv (of_int (Z.of_nat n))
             (fadd (Finite 1) (fmul (Finite 2) (vsum positive)))) (Finite 1) = Finite r
    /\ 1 <= r <= INR n.
Proof.
  intros Hn Hpos.
  assert (Hnr : 2 <= INR n) by (apply (le_INR 2); exact Hn).
  unfold of_int. rewrite <- INR_IZR_INZ.
  destruct (vsum_positive positive Hpos) as [(s & -> & Hs) | ->].
  - cbn [fmul fadd]. unfold fdiv. rewrite Rltb_true by lra.
    assert (Hinv : 0 < / (1 + 2 * s)) by (apply Rinv_0_lt_compat; lra).
    assert (Hle : INR n / (1 + 2 * s) <= INR n).
    { apply (Rmult_le_reg_r (1 + 2 * s)); [lra|].
      unfold Rdiv. rewrite Rmult_assoc, Rinv_l by lra. nra. }
    unfold pymax, fgt. cbn [flt].
    destruct (Rlt_dec (INR n / (1 + 2 * s)) 1) as [Hlt|Hge].
    + rewrite Rltb_true by exact Hlt. exists 1. split; [reflexivity | lra].
    + rewrite Rltb_false by lra. eexists. split; [reflexivity | lra].
  - cbn [fmul]. unfold inf_times. rewrite Rltb_true by lra. cbn [fadd fdiv].
    unfold pymax, fgt. cbn [flt]. rewrite Rltb_true by lra.
    exists 1. split; [reflexivity | lra].
Qed.

End Ess.

(** X19.  For every chain of at least two values, finite or not,
    [effective_sample_size] returns a number between 1 and the length of the
    chain: only positive autocorrelations are summed, so the divisor is at
    least 1, and the result is clipped below at 1. *)
Theorem effective_sample_size_is_between_1_and_n (samples : vec) :
  (2 <= length samples)%nat ->
  exists r,
    Diagnostics.effective_sample_size samples = Ok (Finite r)
    /\ 1 <= r <= INR (length samples).
Proof.
  intros Hn. unfold Diagnostics.effective_sample_size.
  destruct (Nat.ltb_spec (length samples) 2) as [Hlt|_]; [lia|].
  set (c := map (fun x => fsub x (Diagnostics.mean samples)) samples).
  assert (Hc : length c = length samples) by apply length_map.
  assert (Hlen : length (Diagnostics.correlate_full c c)
                 = (length samples - 1 + length samples)%nat)
    by (rewrite correlate_full_length, Hc; reflexivity).
  rewrite Hlen, middle_index by lia.
  destruct (lookup_lt_is_Some_2 (Diagnostics.correlate_full c c) (length samples - 1))
    as [acf0 Hacf0]; [lia|].
  rewrite Hacf0.
  destruct (ess_of_positive (length samples) _ Hn (filter_positive
              (drop 1 (map (fun r => fdiv r acf0)
                         (drop (length samples - 1) (Diagnostics.correlate_full c c))))))
    as (r & Hr & Hrange).
  exists r. split; [now rewrite Hr | exact Hrange].
Qed.

Lemma effective_sample_size_is_between_1_and_n_witness :
  (2 <= length [Finite 1; Finite 3; Finite 2])%nat
  /\ exists r,
       Diagnostics.effective_sample_size [Finite 1; Finite 3; Finite 2] = Ok (Finite r)
       /\ 1 <= r <= INR 3.
Proof.
  split; [simpl; lia|].
  apply (effective_sample_size_is_between_1_and_n [Finite 1; Finite 3; Finite 2]).
  simpl; lia.
Defined.

Section ConstantChain.
Import Diagnostics.

Lemma mean_replicate (n : nat) (c : R) :
  (1 <= n)%nat -> exists mu, mean (replicate n (Finite c)) = Finite mu /\ mu = c.
Proof.
  intros Hn. unfold mean, vsum. rewrite fold_fadd_replicate, length_replicate.
  assert (Hnr : 1 <= INR n) by (apply (le_INR 1); exact Hn).
  unfold of_int, fdiv. rewrite <- INR_IZR_INZ. rewrite Rltb_true by lra.
  eexists. split; [reflexivity|]. field. lra.
Qed.

Lemma centered_constant (n : nat) (c : R) (arrmean : npfloat) :
  arrmean = Finite c ->
  Forall is_zero (map (fun x => fsub x arrmean) (replicate n (Finite c))).
Proof.
  intros ->. apply Forall_map, Forall_replicate.
  exists (c + - c). split; [reflexivity | lra].
Qed.

Lemma dot_zero (a b : vec) : Forall is_zero a -> Forall is_zero b -> is_zero (dot a b).
Proof.
  intros Ha Hb. unfold dot.
  destruct (vsum_closed (fun r => r = 0) (zip_with fmul a b)) as (s & Hs & Hs0).
  - reflexivity.
  - intros x y -> ->. lra.
  - revert b Hb. induction Ha as [|x a (r & -> & Hr) Ha IH]; intros b Hb; [constructor|].
    destruct Hb as [|y b (r' & -> & Hr') Hb]; [constructor|].
    cbn [zip_with fmul]. constructor; [|apply IH; exact Hb].
    exists (r * r'). split; [reflexivity | subst; lra].
  - exists s. auto.
Qed.

Lemma correlate_full_zero (c : vec) : Forall is_zero c -> Forall is_zero (correlate_full c c).
Proof.
  intros Hc. unfold correlate_full. apply Forall_app. split.
  - apply Forall_map, Forall_forall. intros k _. cbv beta.
    apply dot_zero; [exact Hc | apply Forall_drop; exact Hc].
  - apply Forall_map, Forall_forall. intros k _. cbv beta.
    apply dot_zero; [apply Forall_drop; exact Hc | exact Hc].
Qed.

Lemma filter_none (acf0 : npfloat) (l : vec) :
  is_zero acf0 -> Forall is_zero l ->
  List.filter (fun r => fgt r (Finite 0)) (drop 1 (map (fun r => fdiv r acf0) l)) = [].
Proof.
  intros (r0 & -> & Hr0) Hl.
  assert (Hnan : Forall (fun a => a = NaN) (map (fun r => fdiv r (Finite r0)) l)).
  { apply Forall_map. eapply Forall_impl; [exact Hl|].
    intros a (r & -> & Hr). cbv beta. unfold fdiv, inf_times. subst.
    rewrite !Rltb_false by lra. reflexivity. }
  apply (Forall_drop _ 1) in Hnan.
  induction Hnan as [|a l' -> _ IH]; [reflexivity | exact IH].
Qed.

End ConstantChain.

(** X20.  A constant chain of [n >= 2] values whose mean is computed exactly
    has effective sample size [n], the largest value: the centred chain is
    zero, every normalised autocorrelation is [0 / 0 = NaN], and none of
    them passes the test [> 0]. *)
Theorem effective_sample_size_of_a_constant_chain (n : nat) (c : R) :
  (2 <= n)%nat ->
  Diagnostics.mean (replicate n (Finite c)) = Finite c ->
  Diagnostics.effective_sample_size (replicate n (Finite c)) = Ok (Finite (INR n)).
Proof.
  intros Hn Hmean. unfold Diagnostics.effective_sample_size.
  rewrite length_replicate.
  destruct (Nat.ltb_spec n 2) as [Hlt|_]; [lia|].
  set (centered := map (fun x => fsub x (Diagnostics.mean (replicate n (Finite c))))
                     (replicate n (Finite c))).
  assert (Hzero : Forall is_zero (Diagnostics.correlate_full centered centered))
    by (apply correlate_full_zero, centered_constant; exact Hmean).
  assert (Hlen : length (Diagnostics.correlate_full centered centered) = (n - 1 + n)%nat).
  { rewrite correlate_full_length. unfold centered.
    rewrite length_map, length_replicate. reflexivity. }
  rewrite Hlen, middle_index by lia.
  destruct (lookup_lt_is_Some_2 (Diagnostics.correlate_full centered centered) (n - 1))
    as [acf0 Hacf0]; [lia|].
  rewrite Hacf0.
  rewrite filter_none;
    [| exact (Forall_lookup_1 _ _ _ _ Hzero Hacf0) | apply Forall_drop; exact Hzero].
  assert (Hnr : 2 <= INR n) by (apply (le_INR 2); exact Hn).
  unfold vsum. cbn [fold_left fmul fadd]. unfold of_int, fdiv.
  rewrite <- INR_IZR_INZ. rewrite Rltb_true by lra.
  unfold pymax, fgt. cbn [flt].
  replace (INR n / (1 + 2 * 0)) with (INR n) by (field; lra).
  rewrite Rltb_false by lra. reflexivity.
Qed.

Lemma effective_sample_size_of_a_constant_chain_witness :
  (2 <= 3)%nat
  /\ Diagnostics.mean (replicate 3 (Finite 5)) = Finite 5
  /\ Diagnostics.effective_sample_size (replicate 3 (Finite 5)) = Ok (Finite (INR 3)).
Proof.
  assert (Hmean : Diagnostics.mean (replicate 3 (Finite 5)) = Finite 5).
  { destruct (mean_replicate 3 5 ltac:(lia)) as (mu & -> & ->). reflexivity. }
  split; [lia|]. split; [exact Hmean|].
  apply (effective_sample_size_of_a_constant_chain 3 5 ltac:(lia) Hmean).
Defined.

Section GelmanRubin.
Import Diagnostics.

Lemma fdiv_zero_zero (s r0 : R) : s = 0 -> r0 = 0 -> fdiv (Finite s) (Finite r0) = NaN.
Proof. intros -> ->. unfold fdiv, inf_times. rewrite !Rltb_false by lra. reflexivity. Qed.

Lemma var_short (a : vec) : (length a <= 1)%nat -> var a = NaN.
Proof.
  intros Hlen. destruct a as [|x [|y a]]; [| |simpl in Hlen; lia].
  - apply fdiv_zero_zero; reflexivity.
  - unfold var. cbn [length Nat.sub].
    replace (mean [x]) with (fdiv (fadd (Finite 0) x) (Finite 1)) by reflexivity.
    destruct x as [r| | |]; try reflexivity.
    + unfold fdiv at 2. rewrite Rltb_true by lra.
      cbn [fadd map fsub fneg vsquare vsum fold_left fmul].
      apply fdiv_zero_zero; [field | reflexivity].
    + cbn [fadd].
      replace (fdiv PInf (Finite 1)) with PInf
        by (unfold fdiv; rewrite Rltb_false by lra; reflexivity).
      reflexivity.
    + cbn [fadd].
      replace (fdiv NInf (Finite 1)) with NInf
        by (unfold fdiv; rewrite Rltb_false by lra; reflexivity).
      reflexivity.
Qed.

Lemma mean_nan (l : vec) : NaN ∈ l -> mean l = NaN.
Proof. intros Hin. unfold mean. rewrite (vsum_nan l Hin). reflexivity. Qed.

Lemma r_hat_nan_W (x : npfloat) : fsqrt (fdiv x NaN) = NaN.
Proof. destruct x; reflexivity. Qed.

Lemma r_hat_nan_B (a W : npfloat) (n : npfloat) :
  fsqrt (fdiv (fdiv (fadd a NaN) n) W) = NaN.
Proof. destruct a; reflexivity. Qed.

Lemma fmul_nan_r (a : npfloat) : fmul a NaN = NaN.
Proof. destruct a; reflexivity. Qed.

End GelmanRubin.

(** X21.  [gelman_rubin] on no chain raises [IndexError]; on a single chain,
    and whenever one of the chains has fewer than two samples, it returns
    NaN. *)
Theorem gelman_rubin_needs_two_chains_of_two_samples :
  Diagnostics.gelman_rubin [] = Raise IndexError
  /\ (forall chain, Diagnostics.gelman_rubin [chain] = Ok NaN)
  /\ (forall chains short,
        short ∈ chains -> (length short <= 1)%nat ->
        Diagnostics.gelman_rubin chains = Ok NaN).
Proof.
  split; [reflexivity|]. split.
  - intros chain. unfold Diagnostics.gelman_rubin. cbn [map].
    rewrite (var_short [Diagnostics.mean chain]) by (simpl; lia).
    rewrite fmul_nan_r, r_hat_nan_B. reflexivity.
  - intros chains short Hin Hlen. unfold Diagnostics.gelman_rubin.
    destruct chains as [|chain0 rest]; [inversion Hin|].
    rewrite (mean_nan (map Diagnostics.var (chain0 :: rest))).
    + rewrite r_hat_nan_W. reflexivity.
    + rewrite <- (var_short short Hlen). apply list_elem_of_fmap_2. exact Hin.
Qed.

Section GelmanRubinFinite.
Import Diagnostics.

Lemma vsum_map_Finite (xs : list R) : exists s, vsum (map Finite xs) = Finite s.
Proof.
  destruct (vsum_closed (fun _ => True) (map Finite xs)) as (s & Hs & _); auto.
  - apply Forall_map, Forall_forall. intros x _. exists x. auto.
  - exists s. exact Hs.
Qed.

Lemma mean_Finite (xs : list R) : xs <> [] -> exists mu, mean (map Finite xs) = Finite mu.
Proof.
  intros Hne. unfold mean. destruct (vsum_map_Finite xs) as (s & ->).
  rewrite length_map. unfold of_int, fdiv. rewrite <- INR_IZR_INZ.
  rewrite Rltb_true; [eexists; reflexivity|].
  apply lt_0_INR. destruct xs; [contradiction | simpl; lia].
Qed.

Lemma means_Finite (xss : list (list R)) :
  Forall (fun xs => xs <> []) xss ->
  exists mus, map mean (map (map Finite) xss) = map Finite mus /\ length mus = length xss.
Proof.
  induction 1 as [|xs xss Hxs _ (mus & Hmus & Hlen)].
  - exists []. split; reflexivity.
  - destruct (mean_Finite xs Hxs) as (mu & Hmu).
    exists (mu :: mus). cbn [map length]. rewrite Hmu, Hmus, Hlen. split; reflexivity.
Qed.

Lemma var_nonneg (ys : list R) :
  (2 <= length ys)%nat -> exists v, var (map Finite ys) = Finite v /\ 0 <= v.
Proof.
  intros Hlen. unfold var.
  destruct (mean_Finite ys) as (mu & ->); [destruct ys; [simpl in Hlen; lia | discriminate]|].
  destruct (vsum_closed (fun r => 0 <= r)
              (vsquare (map (fun x => fsub x (Finite mu)) (map Finite ys))))
    as (s & -> & Hs).
  - lra.
  - intros x y Hx Hy. lra.
  - unfold vsquare. rewrite !Forall_map. apply Forall_forall. intros y _. cbv beta. eexists. split; [cbn; reflexivity|].
    pose proof (Rle_0_sqr (y + - mu)) as Hsq. unfold Rsqr in Hsq. exact Hsq.
  - rewrite length_map. unfold of_int, fdiv. rewrite <- INR_IZR_INZ.
    assert (Hpos : 1 <= INR (length ys - 1)) by (apply (le_INR 1); lia).
    rewrite Rltb_true by lra. eexists. split; [reflexivity|].
    apply Rmult_le_pos; [exact Hs|]. left. apply Rinv_0_lt_compat. lra.
Qed.

Lemma var_replicate (m : nat) (mu : R) :
  (2 <= m)%nat -> exists v, var (replicate m (Finite mu)) = Finite v /\ v = 0.
Proof.
  intros Hm. unfold var.
  destruct (mean_replicate m mu ltac:(lia)) as (mu' & -> & Hmu').
  destruct (vsum_closed (fun r => r = 0)
              (vsquare (map (fun x => fsub x (Finite mu')) (replicate m (Finite mu)))))
    as (s & -> & Hs).
  - reflexivity.
  - intros x y -> ->. lra.
  - unfold vsquare. rewrite !Forall_map. apply Forall_replicate. cbv beta.
    exists ((mu + - mu') * (mu + - mu')). split; [reflexivity | subst; lra].
  - rewrite length_replicate. unfold of_int, fdiv. rewrite <- INR_IZR_INZ.
    assert (Hpos : 1 <= INR (m - 1)) by (apply (le_INR 1); lia).
    rewrite Rltb_true by lra. eexists. split; [reflexivity|]. subst. field. lra.
Qed.

(** The last three lines of [gelman_rubin] on finite values. *)
Lemma r_hat_value (n : nat) (w B : R) :
  (1 <= n)%nat -> 0 < w -> 0 <= B ->
  exists r,
    fsqrt (fdiv (fdiv (fadd (fmul (of_int (Z.of_nat n - 1)) (Finite w)) (Finite B))
                   (of_int (Z.of_nat n))) (Finite w)) = Finite r
    /\ r = sqrt ((INR n - 1) / INR n + B / (INR n * w))
    /\ sqrt ((INR n - 1) / INR n) <= r.
Proof.
  intros Hn Hw HB.
  assert (Hnr : 1 <= INR n) by (apply (le_INR 1); exact Hn).
  unfold of_int. rewrite minus_IZR, <- INR_IZR_INZ. cbn [fmul fadd].
  unfold fdiv at 2. rewrite Rltb_true by lra.
  unfold fdiv. rewrite Rltb_true by lra.
  assert (Heq : ((INR n - 1) * w + B) / INR n / w
                = (INR n - 1) / INR n + B / (INR n * w)) by (field; lra).
  assert (Hbase : 0 <= (INR n - 1) / INR n).
  { apply Rmult_le_pos; [lra|]. left. apply Rinv_0_lt_compat. lra. }
  assert (Hextra : 0 <= B / (INR n * w)).
  { apply Rmult_le_pos; [lra|]. left. apply Rinv_0_lt_compat. nra. }
  unfold fsqrt. rewrite Rltb_false by (rewrite Heq; lra).
  eexists. split; [reflexivity|]. rewrite Heq. split; [reflexivity|].
  apply sqrt_le_1_alt. lra.
Qed.

Lemma fdiv_finite (x y : R) : 0 < y -> fdiv (Finite x) (Finite y) = Finite (x / y).
Proof. intros Hy. unfold fdiv. now rewrite Rltb_true. Qed.

Lemma var_pair (a b : R) :
  var [Finite a; Finite b] = Finite ((a - b) * (a - b) / 2).
Proof.
  unfold var, mean, vsum, vsquare, of_int. cbn [map length fold_left fadd Nat.sub].
  change (Z.of_nat 2) with 2%Z. change (Z.of_nat 1) with 1%Z.
  rewrite fdiv_finite by lra. cbn [fsub fneg fadd fmul].
  rewrite fdiv_finite by lra. f_equal. field.
Qed.

End GelmanRubinFinite.

(** X22.  For at least two non-empty chains of finite values whose mean
    within-chain variance [W] is positive, with [n] the length of the first
    chain, [gelman_rubin] returns [sqrt((n - 1)/n + B/(n W))] where
    [B >= 0] is [n] times the variance of the chain means; the result is a
    finite number, at least [sqrt((n - 1)/n)] (exact arithmetic). *)
Theorem gelman_rubin_is_at_least_sqrt_n_minus_1_over_n
    (chain0 : list R) (rest : list (list R)) (w : R) :
  let xss := chain0 :: rest in
  let chains := map (map Finite) xss in
  let n := length chain0 in
  (2 <= length xss)%nat ->
  Forall (fun xs => xs <> []) xss ->
  Diagnostics.mean (map Diagnostics.var chains) = Finite w ->
  0 < w ->
  exists B r,
    fmul (of_int (Z.of_nat n)) (Diagnostics.var (map Diagnostics.mean chains)) = Finite B
    /\ 0 <= B
    /\ Diagnostics.gelman_rubin chains = Ok (Finite r)
    /\ r = sqrt ((INR n - 1) / INR n + B / (INR n * w))
    /\ sqrt ((INR n - 1) / INR n) <= r.
Proof.
  intros xss chains n Hm Hne HW Hw.
  destruct (means_Finite xss Hne) as (mus & Hmus & Hlen).
  destruct (var_nonneg mus ltac:(lia)) as (v & Hv & Hv0).
  assert (Hn : (1 <= n)%nat).
  { apply Forall_cons in Hne as [H0 _]. unfold n. destruct chain0; [contradiction | simpl; lia]. }
  assert (Hnr : 1 <= INR n) by (apply (le_INR 1); exact Hn).
  assert (HB : fmul (of_int (Z.of_nat n)) (Diagnostics.var (map Diagnostics.mean chains))
               = Finite (INR n * v)).
  { unfold chains. rewrite Hmus, Hv. unfold of_int. rewrite <- INR_IZR_INZ. reflexivity. }
  destruct (r_hat_value n w (INR n * v) Hn Hw ltac:(nra)) as (r & Hr & Hval & Hbound).
  exists (INR n * v), r. split; [exact HB|]. split; [nra|].
  split; [|split; assumption].
  unfold Diagnostics.gelman_rubin. unfold chains at 1, xss at 1. cbn [map].
  rewrite length_map.
  change (map Finite chain0 :: map (map Finite) rest) with chains.
  fold n. rewrite HW, HB, Hr. reflexivity.
Qed.

Lemma gelman_rubin_is_at_least_sqrt_n_minus_1_over_n_witness :
  (2 <= length [[0; 1]; [0; 1]])%nat
  /\ Forall (fun xs : list R => xs <> []) [[0; 1]; [0; 1]]
  /\ Diagnostics.mean (map Diagnostics.var (map (map Finite) [[0; 1]; [0; 1]])) = Finite (/ 2)
  /\ 0 < / 2
  /\ exists B r,
       fmul (of_int (Z.of_nat 2))
            (Diagnostics.var (map Diagnostics.mean (map (map Finite) [[0; 1]; [0; 1]])))
       = Finite B
       /\ 0 <= B
       /\ Diagnostics.gelman_rubin (map (map Finite) [[0; 1]; [0; 1]]) = Ok (Finite r)
       /\ r = sqrt ((INR 2 - 1) / INR 2 + B / (INR 2 * / 2))
       /\ sqrt ((INR 2 - 1) / INR 2) <= r.
Proof.
  assert (Hm : (2 <= length [[0; 1]; [0; 1]])%nat) by (simpl; lia).
  assert (Hne : Forall (fun xs : list R => xs <> []) [[0; 1]; [0; 1]])
    by (repeat constructor; discriminate).
  assert (Hw : 0 < / 2) by lra.
  assert (HW : Diagnostics.mean (map Diagnostics.var (map (map Finite) [[0; 1]; [0; 1]]))
               = Finite (/ 2)).
  { cbn [map]. rewrite var_pair. unfold Diagnostics.mean, vsum, of_int.
    cbn [length fold_left fadd]. change (Z.of_nat 2) with 2%Z.
    rewrite fdiv_finite by lra. f_equal. field. }
  split; [exact Hm|]. split; [exact Hne|]. split; [exact HW|]. split; [exact Hw|].
  exact (gelman_rubin_is_at_least_sqrt_n_minus_1_over_n [0; 1] [[0; 1]] (/ 2) Hm Hne HW Hw).
Defined.

(** X23.  For [m >= 2] copies of one chain of [n] finite values with positive
    variance, [gelman_rubin] returns [sqrt((n - 1)/n)], a value below 1
    (exact arithmetic). *)
Theorem gelman_rubin_of_identical_chains (m : nat) (xs : list R) (w : R) :
  let chain := map Finite xs in
  let n := length xs in
  (2 <= m)%nat ->
  Diagnostics.var chain = Finite w ->
  0 < w ->
  Diagnostics.gelman_rubin (replicate m chain) = Ok (Finite (sqrt ((INR n - 1) / INR n)))
  /\ sqrt ((INR n - 1) / INR n) < 1.
Proof.
  intros chain n Hm HW Hw.
  assert (Hn : (1 <= n)%nat).
  { destruct (Nat.le_gt_cases (length chain) 1) as [Hshort|Hlong].
    - rewrite (var_short chain Hshort) in HW. discriminate.
    - unfold chain in Hlong. rewrite length_map in Hlong. unfold n. lia. }
  assert (Hnr : 1 <= INR n) by (apply (le_INR 1); exact Hn).
  destruct (mean_Finite xs) as (mu & Hmu); [destruct xs; [unfold n in Hn; simpl in Hn; lia | discriminate]|].
  destruct (mean_replicate m w ltac:(lia)) as (w' & HW' & ->).
  destruct (var_replicate m mu Hm) as (v & Hv & ->).
  destruct (r_hat_value n w (INR n * 0) Hn Hw ltac:(lra)) as (r & Hr & Hval & _).
  assert (Hr' : r = sqrt ((INR n - 1) / INR n)).
  { rewrite Hval. f_equal. field. lra. }
  split.
  - unfold Diagnostics.gelman_rubin. destruct m as [|m']; [lia|].
    cbn [replicate].
    change (chain :: replicate m' chain) with (replicate (S m') chain).
    rewrite !fmap_replicate.
    replace (length chain) with n by (unfold chain; now rewrite length_map).
    fold chain in Hmu. rewrite HW, Hmu, HW', Hv.
    replace (fmul (of_int (Z.of_nat n)) (Finite 0)) with (Finite (INR n * 0))
      by (unfold of_int; rewrite <- INR_IZR_INZ; reflexivity).
    rewrite Hr, Hr'. reflexivity.
  - rewrite <- sqrt_1 at 2. apply sqrt_lt_1_alt. split.
    + apply Rmult_le_pos; [lra|]. left. apply Rinv_0_lt_compat. lra.
    + apply (Rmult_lt_reg_r (INR n)); [lra|]. field_simplify; lra.
Qed.

Lemma gelman_rubin_of_identical_chains_witness :
  (2 <= 3)%nat
  /\ Diagnostics.var (map Finite [0; 1]) = Finite (/ 2)
  /\ 0 < / 2
  /\ Diagnostics.gelman_rubin (replicate 3 (map Finite [0; 1]))
     = Ok (Finite (sqrt ((INR (length [0; 1]) - 1) / INR (length [0; 1]))))
  /\ sqrt ((INR (length [0; 1]) - 1) / INR (length [0; 1])) < 1.
Proof.
  assert (Hm : (2 <= 3)%nat) by lia.
  assert (Hw : 0 < / 2) by lra.
  assert (HW : Diagnostics.var (map Finite [0; 1]) = Finite (/ 2)).
  { cbn [map]. rewrite var_pair. f_equal. field. }
  split; [exact Hm|]. split; [exact HW|]. split; [exact Hw|].
  exact (gelman_rubin_of_identical_chains 3 [0; 1] (/ 2) Hm HW Hw).
Defined.
